(* ===== verification/_CoqProject ===== *)
-Q . S2P
Prelude.v
Bytes.v
Timestamp.v
Registry.v
Trace.v
Channel.v
Poller.v
TimeoutQueue.v
SignalSet.v
EventLoop.v
Reactor.v
LoopSystem.v
Threading.v
EventLoopThreadPool.v
Monitor.v
ThreadPool.v
PoolMonitor.v
StringUtil.v
Base.v
ThreadMain.v
UriEscape.v
StringPiece.v
FileUtil.v
DwarfReader.v
LineNumberVM.v
Elf.v
Dwarf.v
Symbolizer.v
Json.v
Samples.v
Double.v
DoubleReal.v
Histogram.v
HistogramUse.v
Counters.v
ProtobufIO.v
LogStream.v
LogMessage.v
Logger.v
LoggerMonitor.v
LoggerOwner.v
LogFiles.v
