(* ===== verification/Prelude.v ===== *)
(** * claire-common: a verification library

    claire-common is the common C++ library of the claire RPC framework: an
    epoll event loop with timers and posted tasks, threads and pools, metrics,
    request tracing, logging, string and file utilities, a symbolizer that reads
    ELF and DWARF, and a conversion between protobuf messages and JSON. This
    library models its components, one file each, and proves what makes each of
    them correct.

    ** The parts and how they interact

    An EventLoop owns a Poller (EPollPoller) and a TimeoutQueue. loop() polls,
    dispatches the active Channels by priority and runs the tasks other threads
    posted through a mutex-protected queue and an eventfd; each task carries the
    trace context of its poster. EventLoopThread runs one loop per thread and
    EventLoopThreadPool hands loops out. ThreadPool and BlockingQueue are built
    from Mutex, Condition and Thread. Histograms and traces are registered in
    process-wide recorders; counters live in a table of one row per counter and
    one column per thread, which a sampler on the loop reads. Log messages are
    formatted into a fixed buffer and may be written by a background thread. The
    Symbolizer finds the mapping of an address, reads the ELF file mapped there
    and asks its DWARF sections for the source line.

    ** Files

    - Prelude (this file): faults and the result monad, machine integers with
      their wrap-around, checked vector access, lists, sums, tactics.
    - Bytes: text as lists of bytes, C strings, positional numerals; the
      reference for every formatting routine. Double: IEEE 754 doubles over the
      Standard Library's SpecFloat, conversions, "%.1f". DoubleReal: the real numbers
      they stand for and the error of each operation. Json: the documents
      built for rapidjson.
    - Timestamp (time/Timestamp): conversions, arithmetic, text.
    - Registry: the contract shared by HistogramRecorder and TraceRecorder, a
      class with laws; the factories are verified against the laws alone.
    - Trace (tracing/): thread-local contexts, traces, TraceRecorder.
    - Channel, Poller (events/Channel, events/Poller, events/poller/EPollPoller):
      [Poller] is the interface as a class; EPollPoller implements it over a heap
      of channels and a log of epoll_ctl calls, replayed against epoll's
      documented behaviour.
    - TimeoutQueue (events/TimeoutQueue): the multi_index container is the class
      [EventSet] with laws and a list implementation; callbacks that call back
      into the queue are a [script].
    - EventLoop (events/EventLoop): a labelled transition system of the loop
      thread and the other threads; [step] is one action, [run] executes a list.
    - Reactor: construction and destruction of a loop, composed from EventLoop,
      Poller, TimeoutQueue and Channel; from the descriptors epoll reports to the
      loop's own callbacks. LoopSystem: the whole loop running, with its poller,
      channels, timer queue, tasks and the closures that call back into them.
    - SignalSet (events/SignalSet): the part that names existing members.
    - EventLoopThreadPool: Modules LoopOwner (the tests of the calling thread),
      TimerId, LoopThread (the start-up hand-shake and the destructor as a
      transition system) and LoopPool.
    - Threading: Modules ThisThread, Mutex (down to holder_, with MutexLock and
      UnAssignGuard), Latch (CountDownLatch), BlockingQueue and Thread. ThreadPool:
      Module ThreadPool has producers, workers, the bounded queue and Stop; Module
      Owner the constructor, Start, Stop and the destructor.
    - Monitor: Condition, and the threads of any class built from a Mutex and
      Conditions, statement by statement; Modules QueueSections and LatchSections
      have the bodies of BlockingQueue and CountDownLatch, PoolMonitor those of
      ThreadPool, whose running_ is used without the mutex. ThreadMain: what a new
      thread runs, with the handlers of what its tasks throw.
    - Base (system/ThisProcess, threading/Singleton, base/): Modules ThisProcess,
      Singleton, WeakCallback, StackTrace, Casts and Likely.
    - StringUtil (StringUtil, StringPrintf), UriEscape (with the generated
      tables), StringPiece (a pointer is the rest of its object, so reading
      outside it is a fault, and so are its iterators).
    - FileUtil (files/FileUtil): a state monad over the class [Os] of system calls
      with laws; Module Mem implements it in memory.
    - DwarfReader (symbolizer/Dwarf: fixed-size and LEB128 readers, sections, file
      paths), LineNumberVM (the line number program and its machine), Elf
      (symbolizer/Elf: offsets into the bytes of the mapped file), Dwarf (units,
      abbreviations, attributes, address ranges and the lookup), Symbolizer
      (mappings, opened files, frames).
    - Samples (BucketRanges, HistogramSamples, SampleVector), Histogram (Histogram,
      HistogramRecorder), HistogramUse (the macros of Histogram.h, run by threads
      whose accesses interleave), Counters (Counter, CounterProvider, CounterSampler).
    - ProtobufIO (protobuf/ProtobufIO): protobuf's reflection is the class
      [Reflection] with laws, implemented by Module Tree; Module Demo has the
      witnesses.
    - LogStream (LogBuffer, LogStream, one message), LogMessage (the constructors,
      check and errno messages, the output functions), Logger: Modules LogFile and
      Logger. LoggerMonitor: the threads of a Logger, as in Monitor. LoggerOwner: how
      it is started and stopped. LogFiles: LogFile and Logger over a directory of
      files and links.

    Definitions carry the source's names; a comment before each names the file and
    lines it translates. Where a name is taken or reserved it has a prefix
    (epoll_poll, Impl_new) or a trailing underscore (Record_, Set_).

    ** What is proved

    - Event loop: no wake-up is lost, tasks run exactly once in posting order with
      their poster's context, every posted task runs, channels are notified once
      each in priority order, quit ends the loop; a channel still to be notified
      cannot be removed. A new loop's timer and wake-up channels are registered and
      their events reach OnTimer and OnWakeup; its destructor closes every
      descriptor once. The whole loop, with user closures that obey the documented
      rules, never fails a check, every run of it is a run of the loop of EventLoop,
      and a task posted to it by another thread makes the next poll return.
    - Timers: Run calls exactly the due events in order, each in the queue the calls
      before it left; one-shot timers fire at most once, repeating ones are
      rescheduled, and the timerfd is never armed too late. A timer that was
      cancelled is never called by a later Run; one that a callback cancels during
      Run is still called by that Run if it was due, and by no other.
    - Poller: in every reachable state the channel table, the channels' states and
      the kernel's interest set agree, no epoll_ctl call can fail, and poll maps
      events to channels.
    - Threads: mutual exclusion with a truthful holder_, no stuck taker or producer
      in the queues and pools, Stop lets every worker exit, StartLoop returns a
      loop that lives until its object's destructor asks it to quit, NextLoop is round robin. The models with one step per critical
      section are justified: whatever the interleaving of the threads' single steps
      on the mutex, the conditions and the members, they reach only states of those
      models ([monitor_refines], [pool_threads_refine], [logger_threads_refine]); what a worker's tasks
      throw is reported and ends the process.
    - Metrics: accepted arguments give strictly increasing buckets, every sample
      goes to its one bucket, snapshots and sums are pointwise, one histogram per
      name, whatever threads use it. All uses of the macros with a name are counted in
      it if they do not overlap in time; samples can be lost if they do, since the
      increments are not atomic, but none is counted twice or in a wrong bucket.
      Renderings end and say what the samples say; counters add up over the threads that have
      a slot; the sampler keeps the last differences.
    - Logging: no operator writes outside the message buffer, a line has exactly
      the documented text (check and errno messages too), and the logger's double
      buffering accounts for every byte. LogFile loses nothing when it rolls, and
      what threads append to a Logger is found in the files of its directory, in
      order, as far as the writer got; a Logger that is started once starts, stops
      and joins its writer.
    - Symbolizer: an address of a mapped file gives the symbol and the source line
      the debug sections assign to it, an address without one is not found, every
      lookup ends, LEB128 numbers are read back as written.
    - ProtobufIO: a message written to JSON is read back, what is read has the
      types of its descriptor, both directions end.
    - FileUtil: what is written is read back, locks balance, errors are reported
      except where a theorem names the exception.
    - Strings: round trip of the URI escaping and its error condition, numerals
      equal the positional reference, StringAppendV terminates and appends,
      searches, comparisons and iterators equal the list specifications.
    - Base: one instance per singleton, a weak callback's object lives until the
      callback returns.

    Where the code misbehaves the theorem says exactly how: for example
    [UpdateChannel_large_fd], [long_delay_overflows], [Add_without_slot],
    [FactoryGet_bad_minimum], [MakeChild_same_child], [singular_string_dangles],
    [failed_write_closes_twice], [missing_address_overruns], [pool_restart],
    [fatal_line_not_flushed], [Host_name], [destructor_races], [restart_has_no_writer].

    ** Conventions and bounds

    The Debug build on a 64-bit Linux is modelled: CHECK, DCHECK and assert are
    [check], a failed one is [Err CheckFailed]; undefined accesses are other
    faults. int is 32 bits, long and size_t 64; arithmetic that may overflow
    wraps. Loops that are not structural take fuel and the theorems show that the
    fuel given is enough: 65 passes for the binary search of at most 2^64 indices,
    one pass per bucket for the histogram's loops, one more than log2 for digits,
    a pass per element of both vectors for AddSubtract, eleven groups for a LEB128
    number (the eleventh shifts by 70), the bytes left for the loops of the
    symbolizer that consume their input, the size of a message for its
    conversion, the bytes of a file for reading it. Condition variables may wake
    spuriously; one step of a transition system is what its mutex makes atomic.

    Third-party code is a parameter: the multi_index container, circular_buffer,
    rapidjson's writer and parser, protobuf's reflection, boost's split, regular
    expressions, lexical_cast and random identifiers, the demangler, vsnprintf,
    strerror_r, gmtime_r, log and exp of the C library, the answers of the kernel
    and of the file system. Hypotheses on them (for example [libm_accurate], log and
    exp within sixteen units in the last place of the real functions; the laws of
    [EventSet], [Reflection] and [Os], where a file is [healthy] as far as its device
    takes the bytes to be written; [fails_on_minus_one] of glog's
    CHECK_ERR, [kernel_ok] of epoll and the descriptors) state their documented
    behaviour and are discharged for a concrete instance. Rules on the library's
    users are hypotheses too: closures that remove only channels they may
    ([polite], [allowed]), log file names that do not repeat ([sound]).

    The classes of logging/ other than Logging are in the tree but commented out of
    the library's CMakeLists, which uses glog; they are modelled as they stand.

    ** Not modelled

    events/SignalSet is not built; its constructors with signals and Add name
    members that do not exist and have no meaning to model. logging/Logging is
    macros over glog, of which DCHECK_ERR is in Mutex, and a copy of strerror_tl.
    What is left of base/Types are names of types. The reads and writes of
    running_ that race with each other are taken to be atomic. Texts that are
    only logged are left out. *)

From Stdlib Require Export ZArith Lia.
From stdpp Require Export base tactics numbers list list_numbers option gmap strings.

Open Scope Z_scope.

Declare Scope claire_scope.
Delimit Scope claire_scope with claire.
Open Scope claire_scope.

(** ** Faults and results

    The library aborts (LOG(FATAL), CHECK, and in the default Debug build
    DCHECK and assert), throws, or runs into undefined behaviour; a call that
    can do so returns [res].  [NoFuel] marks a loop model that was given too
    little fuel; the termination theorems show that it does not occur. *)
Inductive fault :=
  | CheckFailed      (** CHECK, DCHECK, assert, LOG(FATAL), abort() *)
  | OutOfBounds      (** an access outside its object *)
  | NullDeref        (** a NULL pointer is dereferenced *)
  | InvalidArgument  (** throw std::invalid_argument *)
  | LengthError      (** throw std::length_error *)
  | BadShift         (** a shift by the width of the type or more *)
  | DivideByZero
  | BadGet           (** throw boost::bad_get *)
  | BadLexicalCast   (** throw boost::bad_lexical_cast *)
  | Dangling         (** an object is used after its lifetime *)
  | NoFuel.

Inductive res (A : Type) :=
  | Ok (a : A)
  | Err (f : fault).
Global Arguments Ok {A} a.
Global Arguments Err {A} f.

#[export] Instance fault_eq_dec : EqDecision fault.
Proof. solve_decision. Defined.
#[export] Instance res_eq_dec {A} `{EqDecision A} : EqDecision (res A).
Proof. solve_decision. Defined.

#[export] Instance res_ret : MRet res := fun A a => Ok a.
#[export] Instance res_bind : MBind res := fun A B f m =>
  match m with Ok a => f a | Err e => Err e end.

(** CHECK(b), DCHECK(b), assert(b). *)
Definition check (b : bool) : res unit := if b then Ok tt else Err CheckFailed.

Definition is_ok {A} (r : res A) : bool := match r with Ok _ => true | Err _ => false end.

Lemma bind_ok_inv {A B} (m : res A) (f : A -> res B) (b : B) :
  (m ≫= f) = Ok b -> exists a, m = Ok a /\ f a = Ok b.
Proof. destruct m as [a|e]; simpl; [eauto | discriminate]. Qed.

Lemma check_true (b : bool) : b = true -> check b = Ok tt.
Proof. by intros ->. Qed.

Lemma check_ok_inv (b : bool) u : check b = Ok u -> b = true.
Proof. by destruct b. Qed.

(** [m] does not run out of fuel, and if it returns, what it returns is in [Q]. *)
Definition ends {A} (Q : A -> Prop) (m : res A) : Prop :=
  match m with Ok a => Q a | Err e => e <> NoFuel end.

Lemma ends_bind {A B} (Q : A -> Prop) (R : B -> Prop) (m : res A) (f : A -> res B) :
  ends Q m -> (forall a, Q a -> ends R (f a)) -> ends R (m ≫= f).
Proof. destruct m; cbn; auto. Qed.

Lemma ends_mono {A} (Q R : A -> Prop) (m : res A) : ends Q m -> (forall a, Q a -> R a) -> ends R m.
Proof. destruct m; cbn; auto. Qed.

Lemma ends_check b : ends (fun _ => b = true) (check b).
Proof. by destruct b. Qed.

(** [m] does not run out of fuel. *)
Notation returns := (ends (fun _ => True)).

(** ** Machine integers

    An integer of the program is a [Z]; the operations that may leave its
    width wrap around (unsigned arithmetic, and the two's complement
    representation of the signed types on the platforms the library builds
    for). *)
Definition wrap_u (w z : Z) : Z := z mod 2 ^ w.
Definition wrap_s (w z : Z) : Z := (z + 2 ^ (w - 1)) mod 2 ^ w - 2 ^ (w - 1).

Definition INT_MAX : Z := 2 ^ 31 - 1.
Definition INT64_MAX : Z := 2 ^ 63 - 1.
Definition SIZE_MAX : Z := 2 ^ 64 - 1.

Notation int8 := (wrap_s 8).
Notation int32 := (wrap_s 32).
Notation int64 := (wrap_s 64).
Notation uint8 := (wrap_u 8).
Notation uint16 := (wrap_u 16).
Notation uint32 := (wrap_u 32).
Notation uint64 := (wrap_u 64).

Definition fits_s (w z : Z) : Prop := - 2 ^ (w - 1) <= z < 2 ^ (w - 1).
Definition fits_u (w z : Z) : Prop := 0 <= z < 2 ^ w.

Lemma wrap_u_id w z : fits_u w z -> wrap_u w z = z.
Proof. apply Z.mod_small. Qed.

Lemma pow2_split w : 0 < w -> 2 ^ w = 2 * 2 ^ (w - 1).
Proof. intros. rewrite <- Z.pow_succ_r by lia. f_equal; lia. Qed.

Lemma wrap_s_id w z : 0 < w -> fits_s w z -> wrap_s w z = z.
Proof.
  intros Hw Hz. unfold wrap_s, fits_s in *. rewrite (pow2_split w) by done.
  rewrite Z.mod_small; lia.
Qed.

Lemma wrap_u_fits w z : 0 <= w -> fits_u w (wrap_u w z).
Proof. intros. apply Z.mod_pos_bound, Z.pow_pos_nonneg; lia. Qed.

Lemma wrap_s_fits w z : 0 < w -> fits_s w (wrap_s w z).
Proof.
  intros Hw. unfold wrap_s, fits_s.
  pose proof (Z.mod_pos_bound (z + 2 ^ (w - 1)) (2 ^ w) ltac:(apply Z.pow_pos_nonneg; lia)).
  rewrite (pow2_split w) in * by done. lia.
Qed.

(** Wrapping is a congruence: only the value modulo 2^w matters. *)
Lemma wrap_s_mod w z : 0 < w -> wrap_s w z mod 2 ^ w = z mod 2 ^ w.
Proof.
  intros. unfold wrap_s. rewrite Zminus_mod_idemp_l. f_equal; lia.
Qed.

Lemma wrap_s_eq w a b : 0 < w -> a mod 2 ^ w = b mod 2 ^ w -> wrap_s w a = wrap_s w b.
Proof.
  intros Hw Hab. unfold wrap_s. rewrite <- (Zplus_mod_idemp_l a), Hab, Zplus_mod_idemp_l. done.
Qed.

Lemma wrap_s_add_l w a b : 0 < w -> wrap_s w (wrap_s w a + b) = wrap_s w (a + b).
Proof.
  intros. apply wrap_s_eq; [done|].
  by rewrite <- Zplus_mod_idemp_l, wrap_s_mod, Zplus_mod_idemp_l.
Qed.

Lemma wrap_s_add_r w a b : 0 < w -> wrap_s w (a + wrap_s w b) = wrap_s w (a + b).
Proof. intros. rewrite Z.add_comm, wrap_s_add_l by done. f_equal; lia. Qed.

Lemma wrap_s_opp_add_r w a b : 0 < w -> wrap_s w (a - wrap_s w b) = wrap_s w (a - b).
Proof.
  intros. apply wrap_s_eq; [done|].
  by rewrite <- Zminus_mod_idemp_r, wrap_s_mod, Zminus_mod_idemp_r.
Qed.

(** ** Checked access to vectors *)

(** [v[i]] for a [std::vector] or an array; outside the object it is
    undefined behaviour. *)
Definition vget {A} (l : list A) (i : Z) : res A :=
  if bool_decide (0 <= i) then
    match l !! Z.to_nat i with Some x => Ok x | None => Err OutOfBounds end
  else Err OutOfBounds.

(** [v[i] = x]. *)
Definition vset {A} (l : list A) (i : Z) (x : A) : res (list A) :=
  if bool_decide (0 <= i < Z.of_nat (length l)) then Ok (<[Z.to_nat i := x]> l)
  else Err OutOfBounds.

Definition Zlen {A} (l : list A) : Z := Z.of_nat (length l).

Lemma Zlen_nonneg {A} (l : list A) : 0 <= Zlen l.
Proof. unfold Zlen. lia. Qed.

Lemma Zlen_app {A} (l k : list A) : Zlen (l ++ k) = Zlen l + Zlen k.
Proof. unfold Zlen. rewrite length_app. lia. Qed.

Lemma Zlen_nil {A} : Zlen (@nil A) = 0.
Proof. done. Qed.

Lemma Zlen_cons {A} (x : A) l : Zlen (x :: l) = 1 + Zlen l.
Proof. unfold Zlen. simpl. lia. Qed.

Lemma Zlen_insert {A} (l : list A) i x : Zlen (<[i := x]> l) = Zlen l.
Proof. unfold Zlen. by rewrite length_insert. Qed.

Lemma vget_ok {A} (l : list A) (i : Z) (x : A) :
  vget l i = Ok x <-> 0 <= i /\ l !! Z.to_nat i = Some x.
Proof.
  unfold vget. case_bool_decide; [|naive_solver lia].
  destruct (l !! Z.to_nat i) eqn:E; naive_solver.
Qed.

Lemma vget_lookup {A} (l : list A) (i : Z) (x : A) :
  0 <= i -> l !! Z.to_nat i = Some x -> vget l i = Ok x.
Proof. intros. by apply vget_ok. Qed.

Lemma vget_in {A} (l : list A) (i : Z) :
  0 <= i < Zlen l -> exists x, vget l i = Ok x.
Proof.
  unfold Zlen. intros Hi.
  destruct (lookup_lt_is_Some_2 l (Z.to_nat i)) as [x Hx]; [lia|].
  exists x. apply vget_lookup; [lia|done].
Qed.

Lemma vget_ends {A} (l : list A) i : returns (vget l i).
Proof. unfold vget. by repeat case_match. Qed.

Lemma vget_oob {A} (l : list A) (i : Z) :
  i < 0 \/ Zlen l <= i -> vget l i = Err OutOfBounds.
Proof.
  unfold vget, Zlen. intros Hi. case_bool_decide; [|done].
  rewrite lookup_ge_None_2; [done|lia].
Qed.

Lemma vset_ok {A} (l : list A) (i : Z) (x : A) :
  0 <= i < Zlen l -> vset l i x = Ok (<[Z.to_nat i := x]> l).
Proof. intros. unfold vset, Zlen in *. by rewrite bool_decide_eq_true_2. Qed.

Lemma vset_inv {A} (l k : list A) (i : Z) (x : A) :
  vset l i x = Ok k -> 0 <= i < Zlen l /\ k = <[Z.to_nat i := x]> l.
Proof. unfold vset, Zlen. case_bool_decide; naive_solver. Qed.

Lemma vset_oob {A} (l : list A) (i : Z) (x : A) :
  i < 0 \/ Zlen l <= i -> vset l i x = Err OutOfBounds.
Proof. unfold vset, Zlen. intros. rewrite bool_decide_eq_false_2; [done|lia]. Qed.

Lemma vget_insert_eq {A} (l : list A) (i : Z) (x : A) :
  0 <= i < Zlen l -> vget (<[Z.to_nat i := x]> l) i = Ok x.
Proof.
  unfold Zlen. intros. apply vget_lookup; [lia|].
  apply list_lookup_insert_eq; lia.
Qed.

Lemma vget_insert_ne {A} (l : list A) (i j : Z) (x : A) :
  0 <= i -> i <> j -> vget (<[Z.to_nat i := x]> l) j = vget l j.
Proof.
  intros. unfold vget. case_bool_decide; [|done].
  rewrite list_lookup_insert_ne by lia. done.
Qed.

(** ** Filters *)

Lemma filter_all {A} (P : A -> Prop) `{!forall x, Decision (P x)} (l : list A) :
  Forall P l -> filter P l = l.
Proof. induction 1 as [|x l Hx _ IH]; [done|]. rewrite filter_cons_True by done. by rewrite IH. Qed.

Lemma filter_none {A} (P : A -> Prop) `{!forall x, Decision (P x)} (l : list A) :
  Forall (fun x => ~ P x) l -> filter P l = [].
Proof. induction 1 as [|x l Hx _ IH]; [done|]. by rewrite filter_cons_False. Qed.

(** Removing an element from a list without duplicates. *)
Definition remove_elem {A} `{EqDecision A} (t : A) (l : list A) : list A := filter (fun u => u <> t) l.

Lemma length_remove_elem {A} `{EqDecision A} (t : A) l : NoDup l -> t ∈ l ->
  S (length (remove_elem t l)) = length l.
Proof.
  unfold remove_elem. induction 1 as [|x l Hx Hnd IH]; [by intros ?%elem_of_nil|].
  intros [->|Hin]%elem_of_cons.
  - rewrite filter_cons_False by naive_solver. cbn. f_equal.
    rewrite filter_all; [done|]. apply Forall_forall. intros u Hu ->. done.
  - rewrite filter_cons_True by (intros ->; done). cbn. by rewrite IH.
Qed.

Lemma elem_of_remove_elem {A} `{EqDecision A} (t u : A) l : u ∈ remove_elem t l <-> u <> t /\ u ∈ l.
Proof. unfold remove_elem. by rewrite list_elem_of_filter. Qed.

Lemma NoDup_move {A} `{EqDecision A} (t : A) l k : NoDup (l ++ k) -> t ∈ l ->
  NoDup (remove_elem t l ++ t :: k).
Proof.
  intros (Hl & Hd & Hk)%NoDup_app Hin. apply NoDup_app. split; [by apply NoDup_filter|]. split.
  - intros u [Hne Hu]%elem_of_remove_elem. rewrite not_elem_of_cons. split; [done|]. by apply Hd.
  - constructor; [by apply Hd|done].
Qed.

(** ** Sums *)

Definition zsum (l : list Z) : Z := foldr Z.add 0 l.

Lemma zsum_insert l i c x : l !! i = Some c -> zsum (<[i := x]> l) = zsum l - c + x.
Proof.
  revert i. induction l as [|y l IH]; intros [|i] H; try done.
  - injection H as ->. change (x + zsum l = c + zsum l - c + x). lia.
  - change (y + zsum (<[i := x]> l) = y + zsum l - c + x). rewrite IH by done. lia.
Qed.

Lemma zsum_app l k : zsum (l ++ k) = zsum l + zsum k.
Proof.
  induction l as [|x l IH]; [done|]. change (x + zsum (l ++ k) = x + zsum l + zsum k). lia.
Qed.

Lemma zsum_nonneg l : Forall (fun c => 0 <= c) l -> 0 <= zsum l.
Proof.
  induction 1 as [|x l Hx _ IH]; [done|]. change (zsum (x :: l)) with (x + zsum l). cbv beta in Hx. lia.
Qed.

Lemma zsum_elem l i d : Forall (fun c => 0 <= c) l -> l !! i = Some d -> 0 <= d <= zsum l.
Proof.
  intros Hl. revert i. induction Hl as [|x l Hx Hl IH]; intros i Hd; [done|].
  pose proof (zsum_nonneg l Hl). cbv beta in Hx.
  change (zsum (x :: l)) with (x + zsum l). destruct i as [|i]; [injection Hd as ->; lia|].
  specialize (IH i Hd). lia.
Qed.

Lemma zsum_zeros n : zsum (replicate n 0) = 0.
Proof. induction n as [|n IH]; [done|]. exact IH. Qed.

Lemma zsum_drop l i c : l !! i = Some c -> zsum (drop i l) = c + zsum (drop (S i) l).
Proof. intros Hc. by rewrite (drop_S _ _ _ Hc). Qed.

(** ** Tactics *)

(** Step through [res] binds in hypotheses and goals. *)
Ltac res_inv :=
  repeat match goal with
  | H : (_ ≫= _) = Ok _ |- _ =>
      let a := fresh "a" in let E := fresh "E" in
      apply bind_ok_inv in H; destruct H as (a & E & H)
  | H : check ?b = Ok ?u |- _ => apply check_ok_inv in H
  | H : Ok _ = Ok _ |- _ => injection H as H; subst
  | H : Err _ = Ok _ |- _ => discriminate H
  | H : mret _ = Ok _ |- _ => injection H as H; subst
  end.

(** Two equations for the same computation. *)
Ltac ok_eq :=
  repeat match goal with
  | H : ?t = ?r1, H' : ?t = ?r2 |- _ => rewrite H in H'; injection H' as H'; subst
  end.

(** Run the binds of a [res] computation in the goal, unfolding nothing else. *)
Ltac rstep := cbn [mbind res_bind check mret res_ret andb orb negb fst snd].

(** Boolean comparisons of [Z] in hypotheses become propositions. *)
Ltac zify_bool :=
  repeat match goal with
  | H : Z.ltb _ _ = true |- _ => apply Z.ltb_lt in H
  | H : Z.ltb _ _ = false |- _ => apply Z.ltb_ge in H
  | H : Z.leb _ _ = true |- _ => apply Z.leb_le in H
  | H : Z.leb _ _ = false |- _ => apply Z.leb_gt in H
  | H : Z.eqb _ _ = true |- _ => apply Z.eqb_eq in H
  | H : Z.eqb _ _ = false |- _ => apply Z.eqb_neq in H
  | H : Z.gtb _ _ = _ |- _ => rewrite Z.gtb_ltb in H
  | H : Z.geb _ _ = _ |- _ => rewrite Z.geb_leb in H
  | H : andb _ _ = true |- _ => apply andb_true_iff in H; destruct H
  | H : orb _ _ = false |- _ => apply orb_false_iff in H; destruct H
  | H : negb _ = true |- _ => apply negb_true_iff in H
  | H : negb _ = false |- _ => apply negb_false_iff in H
  end.
