(* ===== verification/Bytes.v ===== *)
(** * Bytes and numerals

    Characters are bytes, integers in 0..255; text is a list of them. Positional
    numerals are the reference the number formatting routines are compared
    with. *)

From S2P Require Import Prelude.

Abbreviation bytes := (list Z).

(** The bytes of a string literal. *)
Definition str (s : string) : bytes :=
  (fun c => Z.of_N (Ascii.N_of_ascii c)) <$> String.list_ascii_of_string s.

Definition is_byte (c : Z) : Prop := 0 <= c < 256.

(** The value of a [char] in arithmetic: char is signed. *)
Definition char_val (c : Z) : Z := int8 c.

(** The bytes before the first NUL. *)
Fixpoint c_string (s : bytes) : bytes :=
  match s with
  | [] => []
  | c :: s => if c =? 0 then [] else c :: c_string s
  end.

Lemma c_string_id s : Forall (fun c => c <> 0) s -> c_string s = s.
Proof. induction 1 as [|c s Hc _ IH]; [done|]. cbn. by rewrite (proj2 (Z.eqb_neq c 0)), IH. Qed.

(** ** Positional numerals, least significant digit first *)
Section Digits.
Variable b : Z.
Hypothesis Hb : 1 < b.

Fixpoint to_digits_fuel (fuel : nat) (n : Z) : list Z :=
  match fuel with
  | O => []
  | S fuel => n mod b :: (if n / b =? 0 then [] else to_digits_fuel fuel (n / b))
  end.

Definition to_digits (n : Z) : list Z := to_digits_fuel (S (Z.to_nat (Z.log2 n))) n.

Fixpoint of_digits (l : list Z) : Z :=
  match l with [] => 0 | d :: l => d + b * of_digits l end.

Lemma div_fuel n f : 0 <= n < 2 ^ Z.of_nat (S f) -> 0 <= n / b < 2 ^ Z.of_nat f.
Proof.
  intros [Hn Hlt]. split; [apply Z.div_pos; lia|].
  apply Z.div_lt_upper_bound; [lia|]. rewrite Nat2Z.inj_succ, Z.pow_succ_r in Hlt by lia. nia.
Qed.

Lemma fuel_enough n : 0 <= n -> n < 2 ^ Z.of_nat (S (Z.to_nat (Z.log2 n))).
Proof.
  intros. pose proof (Z.log2_nonneg n).
  rewrite Nat2Z.inj_succ, Z2Nat.id by done. destruct (decide (n = 0)) as [->|]; [done|].
  apply Z.log2_lt_cancel. rewrite Z.log2_pow2; lia.
Qed.

(** More fuel than needed changes nothing. *)
Lemma to_digits_fuel_mono f : forall g n, 0 <= n < 2 ^ Z.of_nat f -> (0 < f)%nat -> (f <= g)%nat ->
  to_digits_fuel g n = to_digits_fuel f n.
Proof.
  induction f as [|f IH]; intros g n Hn Hf Hg; [lia|]. destruct g as [|g]; [lia|]. cbn [to_digits_fuel].
  f_equal. destruct (n / b =? 0) eqn:E; [done|]. zify_bool. pose proof (div_fuel n f Hn) as Hd.
  destruct f as [|f]; [change (2 ^ Z.of_nat 0) with 1 in Hd; lia|]. apply IH; [done|lia|lia].
Qed.

Lemma to_digits_eq n : 0 <= n ->
  to_digits n = n mod b :: (if n / b =? 0 then [] else to_digits (n / b)).
Proof.
  intros Hn. unfold to_digits at 1. cbn [to_digits_fuel]. f_equal.
  destruct (n / b =? 0) eqn:E; [done|]. zify_bool.
  pose proof (fuel_enough n Hn) as Hf. pose proof (div_fuel n _ (conj Hn Hf)) as Hd.
  set (f := Z.to_nat (Z.log2 n)) in *.
  destruct f as [|f]; [change (2 ^ Z.of_nat 0) with 1 in Hd; lia|].
  unfold to_digits. apply to_digits_fuel_mono; [split; [lia|apply fuel_enough; lia]|lia|].
  apply le_n_S. destruct Hd as [Hd0 Hd]. apply Z.log2_lt_pow2 in Hd; lia.
Qed.

Lemma digits_ind (P : Z -> Prop) :
  (forall n, 0 <= n -> (0 < n / b < n -> P (n / b)) -> P n) -> forall n, 0 <= n -> P n.
Proof.
  intros IH n Hn. refine (Z_lt_induction (fun n => 0 <= n -> P n) _ n Hn Hn).
  intros m Hlt Hm. apply IH; [done|]. intros Hd. apply Hlt; lia.
Qed.

Lemma div_lt_self n : 0 <= n -> n / b <> 0 -> 0 < n / b < n.
Proof.
  intros Hn Hne. assert (0 <= n / b) by (apply Z.div_pos; lia).
  assert (n <> 0) by (intros ->; rewrite Z.div_0_l in Hne by lia; lia).
  split; [lia|]. apply Z.div_lt; lia.
Qed.

Lemma of_to_digits n : 0 <= n -> of_digits (to_digits n) = n.
Proof.
  revert n. apply digits_ind. intros n Hn IH. rewrite to_digits_eq by done.
  destruct (n / b =? 0) eqn:E; zify_bool; cbn [of_digits].
  - pose proof (Z.div_mod n b). lia.
  - rewrite IH by (by apply div_lt_self). pose proof (Z.div_mod n b). lia.
Qed.

Lemma to_digits_range n : 0 <= n -> Forall (fun d => 0 <= d < b) (to_digits n).
Proof.
  revert n. apply digits_ind. intros n Hn IH. rewrite to_digits_eq by done.
  constructor; [apply Z.mod_pos_bound; lia|].
  destruct (n / b =? 0) eqn:E; zify_bool; [constructor|]. by apply IH, div_lt_self.
Qed.

(** A number below b^k has at most k digits, and at least one. *)
Lemma to_digits_length k : forall n, 0 <= n < b ^ Z.of_nat k -> (0 < k)%nat ->
  (0 < length (to_digits n) <= k)%nat.
Proof.
  induction k as [|k IH]; intros n [Hn Hlt] Hk; [lia|].
  rewrite to_digits_eq by done. destruct (n / b =? 0) eqn:E; zify_bool; cbn [length]; [lia|].
  assert (0 <= n / b < b ^ Z.of_nat k).
  { split; [apply Z.div_pos; lia|]. apply Z.div_lt_upper_bound; [lia|].
    by rewrite Nat2Z.inj_succ, Z.pow_succ_r in Hlt by lia. }
  destruct k as [|k]; [change (b ^ Z.of_nat 0) with 1 in *; lia|].
  specialize (IH (n / b) ltac:(done) ltac:(lia)). lia.
Qed.

(** No leading zero, except the numeral of zero. *)
Lemma to_digits_last n : 0 < n -> exists d, last (to_digits n) = Some d /\ 0 < d.
Proof.
  intros Hn. assert (H : 0 <= n) by lia. revert n H Hn.
  refine (digits_ind (fun n => 0 < n -> _) _). intros n Hn0 IH Hn. rewrite to_digits_eq by lia.
  destruct (n / b =? 0) eqn:E; zify_bool.
  - exists (n mod b). split; [done|]. pose proof (Z.div_mod n b). pose proof (Z.mod_pos_bound n b). lia.
  - pose proof (div_lt_self n ltac:(lia) E). destruct IH as (d & Hd & Hp); [done|lia|].
    exists d. split; [|done]. by rewrite last_cons, Hd.
Qed.

Lemma of_digits_app l k : of_digits (l ++ k) = of_digits l + b ^ Zlen l * of_digits k.
Proof.
  induction l as [|d l IH]; cbn [app of_digits].
  { change (Zlen (@nil Z)) with 0. rewrite Z.pow_0_r. lia. }
  rewrite IH, Zlen_cons, Z.pow_add_r by (pose proof (Zlen_nonneg l); lia). lia.
Qed.

Lemma of_digits_bound l : Forall (fun d => 0 <= d < b) l -> 0 <= of_digits l < b ^ Zlen l.
Proof.
  induction 1 as [|d l Hd _ IH]; [change (Zlen (@nil Z)) with 0; cbn; lia|].
  cbn [of_digits]. rewrite Zlen_cons, Z.pow_add_r by (pose proof (Zlen_nonneg l); lia).
  rewrite Z.pow_1_r. nia.
Qed.

Lemma of_digits_zeros k : of_digits (replicate k 0) = 0.
Proof. induction k as [|k IH]; [done|]. cbn [replicate of_digits]. rewrite IH. lia. Qed.

End Digits.

(** ** Decimal and hexadecimal text *)

(** The characters '0'..'9'. *)
Definition digit_char (d : Z) : Z := 48 + d.

Definition dec (n : Z) : bytes := digit_char <$> reverse (to_digits 10 n).

(** printf's "%d": a minus sign for a negative number. *)
Definition sdec (n : Z) : bytes := if n <? 0 then 45 :: dec (- n) else dec n.

Definition hex_char (d : Z) : Z := if d <? 10 then 48 + d else 97 + (d - 10).
Definition HEX_char (d : Z) : Z := if d <? 10 then 48 + d else 65 + (d - 10).

Definition HEX (n : Z) : bytes := HEX_char <$> reverse (to_digits 16 n).
Definition hex (n : Z) : bytes := hex_char <$> reverse (to_digits 16 n).

(** Reading decimal digits back. *)
Definition undec (l : bytes) : Z := of_digits 10 (reverse ((fun c => c - 48) <$> l)).

(** printf's "%0wd", "%0wx" and "%wd" for a text already formatted. *)
Definition pad (c : Z) (w : nat) (s : bytes) : bytes := replicate (w - length s) c ++ s.

(** The bytes snprintf stores in a buffer of [size] bytes, without the NUL. *)
Definition stored (size : nat) (s : bytes) : bytes := take (size - 1) s.

Lemma undec_digits (l : list Z) : (fun c => c - 48) <$> (digit_char <$> l) = l.
Proof.
  rewrite <- list_fmap_compose. rewrite <- (list_fmap_id l) at 2. apply list_fmap_ext.
  intros ? x _. unfold digit_char, compose, id. lia.
Qed.

Lemma undec_dec n : 0 <= n -> undec (dec n) = n.
Proof.
  intros. unfold undec, dec. rewrite undec_digits, reverse_involutive. apply of_to_digits; lia.
Qed.

Lemma dec_inj n m : 0 <= n -> 0 <= m -> dec n = dec m -> n = m.
Proof. intros Hn Hm E. by rewrite <- (undec_dec n), <- (undec_dec m), E. Qed.

Lemma dec_chars n : 0 <= n -> Forall (fun c => 48 <= c <= 57) (dec n).
Proof.
  intros Hn. unfold dec. apply Forall_fmap, Forall_reverse.
  eapply Forall_impl; [apply (to_digits_range 10); lia|].
  intros d Hd. unfold compose, digit_char. cbv beta in *. lia.
Qed.

Lemma dec_length n k : 0 <= n < 10 ^ Z.of_nat k -> (0 < k)%nat -> (0 < length (dec n) <= k)%nat.
Proof.
  intros. unfold dec. rewrite length_fmap, length_reverse. by apply (to_digits_length 10).
Qed.

Lemma undec_app l k : undec (l ++ k) = undec l * 10 ^ Zlen k + undec k.
Proof.
  unfold undec. rewrite fmap_app, reverse_app, of_digits_app.
  unfold Zlen. rewrite length_reverse, length_fmap. lia.
Qed.

Lemma undec_bound l : Forall (fun c => 48 <= c <= 57) l -> undec l < 10 ^ Zlen l.
Proof.
  intros Hl. unfold undec.
  assert (Zlen l = Zlen (reverse ((fun c => c - 48) <$> l))) as ->
    by (unfold Zlen; by rewrite length_reverse, length_fmap).
  apply of_digits_bound; [lia|]. apply Forall_reverse, Forall_fmap.
  eapply Forall_impl; [exact Hl|]. intros c Hc. unfold compose. cbv beta in *. lia.
Qed.

Lemma undec_pad w s : undec (pad 48 w s) = undec s.
Proof.
  unfold pad. rewrite undec_app. unfold undec at 1.
  rewrite fmap_replicate, reverse_replicate. change (48 - 48) with 0.
  rewrite of_digits_zeros. lia.
Qed.

Lemma length_pad c w s : length (pad c w s) = Nat.max w (length s).
Proof. unfold pad. rewrite length_app, length_replicate. lia. Qed.
