(* ===== verification/Timestamp.v ===== *)
(** * time/Timestamp: microseconds since the epoch

    claire/common/time/Timestamp.{h,cc}. The calendar conversion gmtime_r is the
    C library's and is a parameter. *)

From S2P Require Import Prelude Bytes.

(* @src claire/common/time/Timestamp.h:21-21 Timestamp::kMicroSecondsPerSecond *)
Definition kMicroSecondsPerSecond : Z := 1000 * 1000.

(* @src claire/common/time/Timestamp.h:33-34 Timestamp::Timestamp *)
Record Timestamp := MkTimestamp { microseconds_since_epoch_ : Z }.

#[export] Instance Timestamp_eq_dec : EqDecision Timestamp.
Proof. solve_decision. Defined.

(* @src claire/common/time/Timestamp.h:60-63 Timestamp::Invalid *)
Definition Invalid : Timestamp := MkTimestamp 0.

(* @src claire/common/time/Timestamp.h:44-47 Timestamp::Valid *)
Definition Valid (t : Timestamp) : bool := 0 <? microseconds_since_epoch_ t.

(* @src claire/common/time/Timestamp.h:49-52 Timestamp::SecondsSinceEpoch *)
Definition SecondsSinceEpoch (t : Timestamp) : Z :=
  Z.quot (microseconds_since_epoch_ t) kMicroSecondsPerSecond.

(* @src claire/common/time/Timestamp.h:54-57 Timestamp::MicroSecondsSinceEpoch *)
Definition MicroSecondsSinceEpoch (t : Timestamp) : Z := microseconds_since_epoch_ t.

(* @src claire/common/time/Timestamp.h:69-72 operator< *)
Definition Timestamp_lt (a b : Timestamp) : bool :=
  MicroSecondsSinceEpoch a <? MicroSecondsSinceEpoch b.

(* @src claire/common/time/Timestamp.h:74-77 operator== *)
Definition Timestamp_eq (a b : Timestamp) : bool :=
  MicroSecondsSinceEpoch a =? MicroSecondsSinceEpoch b.

(* @src claire/common/time/Timestamp.h:80-83 TimeDifference *)
Definition TimeDifference (high low : Timestamp) : Z :=
  int64 (MicroSecondsSinceEpoch high - MicroSecondsSinceEpoch low).

(* @src claire/common/time/Timestamp.h:86-89 AddTime *)
Definition AddTime (t : Timestamp) (microseconds : Z) : Timestamp :=
  MkTimestamp (int64 (MicroSecondsSinceEpoch t + microseconds)).

(** [sec] and [usec] are what gettimeofday stored. *)
(* @src claire/common/time/Timestamp.cc:42-47 Timestamp::Now *)
Definition Now (sec usec : Z) : Timestamp :=
  MkTimestamp (int64 (sec * kMicroSecondsPerSecond + usec)).

(** printf's "%0wd": zeros after the sign, up to width [w]. *)
Definition zero_padded (w : nat) (n : Z) : bytes :=
  if n <? 0 then 45 :: pad 48 (w - 1) (dec (- n)) else pad 48 w (dec n).

(* @src claire/common/time/Timestamp.cc:17-25 Timestamp::ToString *)
Definition ToString (t : Timestamp) : bytes :=
  let seconds := Z.quot (microseconds_since_epoch_ t) kMicroSecondsPerSecond in
  let microseconds := Z.rem (microseconds_since_epoch_ t) kMicroSecondsPerSecond in
  stored 31 (sdec seconds ++ str "." ++ zero_padded 6 microseconds).

Record tm := MkTm { tm_year : Z; tm_mon : Z; tm_mday : Z; tm_hour : Z; tm_min : Z; tm_sec : Z }.

Section Formatted.
Variable gmtime : Z -> tm.

(* @src claire/common/time/Timestamp.cc:27-40 Timestamp::ToFormattedString *)
Definition ToFormattedString (t : Timestamp) : bytes :=
  let seconds := Z.quot (microseconds_since_epoch_ t) kMicroSecondsPerSecond in
  let microseconds := int32 (Z.rem (microseconds_since_epoch_ t) kMicroSecondsPerSecond) in
  let m := gmtime seconds in
  stored 32 (pad 32 4 (sdec (tm_year m + 1900)) ++ zero_padded 2 (tm_mon m + 1) ++
    zero_padded 2 (tm_mday m) ++ str " " ++ zero_padded 2 (tm_hour m) ++ str ":" ++
    zero_padded 2 (tm_min m) ++ str ":" ++ zero_padded 2 (tm_sec m) ++ str "." ++
    zero_padded 6 microseconds).

End Formatted.

(** ** Properties *)

Lemma zero_padded_nonneg w n : 0 <= n -> zero_padded w n = pad 48 w (dec n).
Proof. intros. unfold zero_padded. by rewrite (proj2 (Z.ltb_ge _ _)). Qed.

Lemma length_zero_padded w n : (0 < w)%nat -> 0 <= n < 10 ^ Z.of_nat w ->
  length (zero_padded w n) = w.
Proof.
  intros Hw Hn. rewrite zero_padded_nonneg, length_pad by lia.
  pose proof (dec_length n w Hn Hw). lia.
Qed.

(** For a time since the epoch, ToString never truncates: it is the seconds,
    a dot and exactly six digits, and the digits read back as the number of
    microseconds. *)
Theorem ToString_exact t :
  0 <= microseconds_since_epoch_ t < 2 ^ 63 ->
  exists secs frac, ToString t = secs ++ str "." ++ frac /\ length frac = 6%nat /\
    undec secs = SecondsSinceEpoch t /\ undec (secs ++ frac) = microseconds_since_epoch_ t.
Proof.
  intros Ht. destruct t as [m]. unfold ToString, SecondsSinceEpoch. cbn [microseconds_since_epoch_] in *.
  change kMicroSecondsPerSecond with 1000000.
  rewrite Z.quot_div_nonneg, Z.rem_mod_nonneg by lia.
  pose proof (Z.mod_pos_bound m 1000000 ltac:(lia)) as Hm.
  assert (Hd : 0 <= m / 1000000 < 10 ^ Z.of_nat 13).
  { change (10 ^ Z.of_nat 13) with 10000000000000. split; [apply Z.div_pos; lia|]. apply Z.div_lt_upper_bound; lia. }
  pose proof (dec_length _ 13 Hd ltac:(lia)) as Hl.
  pose proof (length_zero_padded 6 _ ltac:(lia) Hm) as Hf.
  exists (dec (m / 1000000)), (zero_padded 6 (m mod 1000000)).
  unfold sdec. rewrite (proj2 (Z.ltb_ge _ _)) by lia.
  split; [unfold stored; apply take_ge; rewrite !length_app, Hf; change (length (str ".")) with 1%nat; lia|].
  split; [done|]. split; [apply undec_dec; lia|].
  rewrite undec_app. unfold Zlen. rewrite Hf, zero_padded_nonneg, undec_pad, !undec_dec by lia.
  change (10 ^ Z.of_nat 6) with 1000000. pose proof (Z.div_mod m 1000000). lia.
Qed.

(** Time arithmetic is consistent at machine width: the difference between
    a timestamp moved by [d] microseconds and the original is [d], whether or not
    the sum wrapped around; without wrap-around, moving by a positive amount
    gives a later time. *)
Theorem AddTime_difference t d :
  fits_s 64 d ->
  TimeDifference (AddTime t d) t = d /\
  (fits_s 64 (microseconds_since_epoch_ t + d) -> Timestamp_lt t (AddTime t d) = (0 <? d)).
Proof.
  intros Hd. unfold TimeDifference, AddTime, Timestamp_lt, MicroSecondsSinceEpoch. cbn [microseconds_since_epoch_].
  split.
  - unfold Z.sub. rewrite wrap_s_add_l by lia.
    replace (_ + d + - _) with d by lia. by apply wrap_s_id.
  - intros Hf. rewrite wrap_s_id by done. apply eq_true_iff_eq. rewrite !Z.ltb_lt. lia.
Qed.

Lemma ToString_exact_witness :
  let t := MkTimestamp 1370000000001234 in
  ToString t = str "1370000000.001234" /\
  exists secs frac, ToString t = secs ++ str "." ++ frac /\ length frac = 6%nat /\
    undec secs = SecondsSinceEpoch t /\ undec (secs ++ frac) = microseconds_since_epoch_ t.
Proof.
  intros t. split; [vm_compute; reflexivity|]. apply (ToString_exact t).
  change (microseconds_since_epoch_ t) with 1370000000001234. lia.
Defined.

Lemma AddTime_difference_witness :
  let t := MkTimestamp INT64_MAX in
  TimeDifference (AddTime t 5) t = 5 /\
  (fits_s 64 (microseconds_since_epoch_ t + 5) -> Timestamp_lt t (AddTime t 5) = (0 <? 5)).
Proof.
  intros t. apply (AddTime_difference t 5). unfold fits_s. lia.
Defined.
