(* ===== verification/Registry.v ===== *)
(** * The registry interface

    HistogramRecorder and TraceRecorder keep heap objects in a map and promise
    the same thing to the factories that use them: RegisterOrDeleteDuplicate
    returns the object registered under the argument's key, which is the argument
    itself unless the key was taken, in which case the argument is deleted.
    [RegistryLaws] states that contract; [get_or_create] is the factories' use of
    it, and is verified against the contract alone. *)

From S2P Require Import Prelude.

Abbreviation ptr := nat.

(** The heap of objects of one class: [new] takes the next address. *)
Record store (T : Type) := MkStore { objs : gmap ptr T; next_addr : ptr }.
Global Arguments MkStore {T}.
Global Arguments objs {T}.
Global Arguments next_addr {T}.

Definition new {T} (x : T) (s : store T) : ptr * store T :=
  (next_addr s, MkStore (<[next_addr s := x]> (objs s)) (S (next_addr s))).

(** [delete p], which does nothing on NULL. *)
Definition del {T} (p : option ptr) (s : store T) : store T :=
  match p with Some p => MkStore (delete p (objs s)) (next_addr s) | None => s end.

Definition load {T} (s : store T) (p : ptr) : res T :=
  match objs s !! p with Some x => Ok x | None => Err NullDeref end.

(** A method that leaves [y] in the object at [p]. *)
Definition assign {T} (p : ptr) (y : T) (s : store T) : store T :=
  MkStore (<[p := y]> (objs s)) (next_addr s).

Definition store_empty {T} : store T := MkStore ∅ 0%nat.

Class Registry (K T R : Type) := {
  reg_key : T -> K;
  reg_find : K -> R -> option ptr;
  reg_register : ptr -> store T -> R -> res (ptr * store T * R);
}.

(** What registering the live object [x] at [p] does. *)
Class RegistryLaws (K T R : Type) `{Registry K T R} := {
  reg_register_new : forall p x s r, objs s !! p = Some x -> reg_find (reg_key x) r = None ->
    exists r', reg_register p s r = Ok (p, s, r') /\
      reg_find (reg_key x) r' = Some p /\
      forall k, k <> reg_key x -> reg_find k r' = reg_find k r;
  reg_register_dup : forall p q x s r, objs s !! p = Some x ->
    reg_find (reg_key x) r = Some q -> p <> q ->
    reg_register p s r = Ok (q, del (Some p) s, r);
  reg_register_same : forall p x s r, objs s !! p = Some x ->
    reg_find (reg_key x) r = Some p -> reg_register p s r = Ok (p, s, r);
}.

Section Client.
Context {K T R : Type} `{EqDecision K} `{L : RegistryLaws K T R}.

(** [new T(...)], then RegisterOrDeleteDuplicate. *)
Definition get_or_create (x : T) (s : store T) (r : R) : res (ptr * store T * R) :=
  let '(p, s) := new x s in reg_register p s r.

(** The live objects are exactly the registered ones, each under its key. *)
Record reg_inv (s : store T) (r : R) : Prop := {
  reg_live : forall k p, reg_find k r = Some p -> exists x, objs s !! p = Some x /\ reg_key x = k;
  reg_owned : forall p x, objs s !! p = Some x -> reg_find (reg_key x) r = Some p;
  reg_fresh : forall p, (next_addr s <= p)%nat -> objs s !! p = None;
}.

(** The object the factory hands out for the key of [x]. *)
Lemma get_or_create_spec x s r :
  reg_inv s r ->
  exists p s' r' y, get_or_create x s r = Ok (p, s', r') /\ reg_inv s' r' /\
    reg_find (reg_key x) r' = Some p /\ objs s' !! p = Some y /\
    (forall k, k <> reg_key x -> reg_find k r' = reg_find k r) /\
    match reg_find (reg_key x) r with
    | Some q => p = q /\ r' = r /\ objs s' = objs s
    | None => p = next_addr s /\ y = x /\ objs s' = <[p := x]> (objs s)
    end.
Proof.
  intros I. unfold get_or_create, new.
  set (p := next_addr s). set (s1 := MkStore (<[p := x]> (objs s)) (S p)).
  assert (Hp : objs s !! p = None) by (apply (reg_fresh _ _ I); done).
  assert (H1 : objs s1 !! p = Some x) by apply lookup_insert_eq.
  destruct (reg_find (reg_key x) r) as [q|] eqn:Hq.
  - destruct (reg_live _ _ I _ _ Hq) as (y & Hy & Hk).
    assert (p <> q) as Hne by (intros ->; congruence).
    exists q, (del (Some p) s1), r, y.
    assert (Ho : objs (del (Some p) s1) = objs s)
      by (cbn; by rewrite delete_insert_id).
    rewrite (reg_register_dup p q x) by done.
    split; [done|]. split; [|by rewrite Ho].
    split; rewrite Ho; [apply I|apply I|]. intros a Ha. apply (reg_fresh _ _ I). cbn in Ha. lia.
  - destruct (reg_register_new p x s1 r H1 Hq) as (r' & Hr & Hf & Hother).
    exists p, s1, r', x. split; [done|]. split; [|done]. split; cbn.
    + intros k a Ha. destruct (decide (k = reg_key x)) as [->|Hk].
      * rewrite Hf in Ha. injection Ha as <-. exists x. by rewrite lookup_insert_eq.
      * rewrite Hother in Ha by done. destruct (reg_live _ _ I _ _ Ha) as (y & Hy & Hky).
        assert (p <> a) by (intros ->; congruence). exists y. by rewrite lookup_insert_ne.
    + intros a y. rewrite lookup_insert. case_decide as Hd; [intros [= <-]; by subst|].
      intros Hy. pose proof (reg_owned _ _ I _ _ Hy) as Ho.
      rewrite Hother; [done|]. intros Heq. congruence.
    + intros a Ha. rewrite lookup_insert_ne by lia. apply (reg_fresh _ _ I). unfold p in *. lia.
Qed.

(** A method called on a live object that keeps its key. *)
Lemma assign_inv p x y s r : reg_inv s r -> objs s !! p = Some x -> reg_key y = reg_key x ->
  reg_inv (assign p y s) r.
Proof.
  intros I Hx Hk. split; cbn.
  - intros k q Hq. destruct (reg_live _ _ I _ _ Hq) as (z & Hz & Hkz). destruct (decide (p = q)) as [<-|Hne].
    + exists y. rewrite lookup_insert_eq. split; [done|]. congruence.
    + exists z. by rewrite lookup_insert_ne.
  - intros q z. rewrite lookup_insert. case_decide as Hd; [intros [= <-]; subst q|apply I].
    rewrite Hk. by apply I.
  - intros q Hq. rewrite lookup_insert_ne; [by apply I|]. intros <-.
    pose proof (reg_fresh _ _ I _ Hq). congruence.
Qed.

(** Asking twice for the same key gives the same object and leaves the heap and
    the registry as they were. *)
Lemma get_or_create_again x y s r p s' r' :
  reg_inv s r -> reg_key y = reg_key x -> get_or_create x s r = Ok (p, s', r') ->
  exists s'', get_or_create y s' r' = Ok (p, s'', r') /\ objs s'' = objs s'.
Proof.
  intros I Hk Hx. destruct (get_or_create_spec x s r I) as (p1 & s1 & r1 & z & H1 & I1 & Hf & _).
  rewrite Hx in H1. injection H1 as <- <- <-.
  destruct (get_or_create_spec y s' r' I1) as (p2 & s2 & r2 & z2 & H2 & _ & _ & _ & _ & Hm).
  rewrite Hk, Hf in Hm. destruct Hm as (-> & -> & Ho). by exists s2.
Qed.

End Client.
