(* ===== verification/Trace.v ===== *)
(** * tracing: traces, their recorder and the thread's trace context

    claire/common/tracing/: Trace, TraceRecorder, TraceContext and Tracing.
    Traces are heap objects owned by the recorder. The random identifiers of
    UniqueId come from boost::random and are arguments. *)

From S2P Require Import Prelude Timestamp Registry Bytes.

(** ** The thread's trace context *)

(* @src claire/common/tracing/TraceContext.h:14-14 TraceContext *)
Definition TraceContext : Type := Z * Z.

(** The two thread-local variables tTraceId and tSpanId of one thread. *)
(* @src claire/common/tracing/TraceContext.cc:10-11 tTraceId, tSpanId *)
Record ThisThread := MkThisThread { tTraceId : Z; tSpanId : Z }.

(* @src claire/common/tracing/TraceContext.cc:19-23 SetTraceContext *)
Definition SetTraceContext (c : TraceContext) (t : ThisThread) : ThisThread :=
  MkThisThread c.1 c.2.

(* @src claire/common/tracing/TraceContext.cc:25-28 GetTraceContext *)
Definition GetTraceContext (t : ThisThread) : TraceContext := (tTraceId t, tSpanId t).

(* @src claire/common/tracing/TraceContext.cc:29-33 ResetTraceContext *)
Definition ResetTraceContext (t : ThisThread) : ThisThread := MkThisThread 0 0.

(** The body of a scope that holds a TraceContextGuard. *)
(* @src claire/common/tracing/TraceContext.h:25-44 TraceContextGuard *)
Definition with_TraceContextGuard {A} (c : TraceContext) (body : ThisThread -> A * ThisThread)
  (t : ThisThread) : A * ThisThread :=
  let '(a, t) := body (SetTraceContext c t) in (a, ResetTraceContext t).

(** ** Traces and annotations *)

(* @src claire/common/tracing/Trace.h:17-45 Endpoint *)
Record Endpoint := MkEndpoint { ipv4 : Z; port : Z; service_name : bytes }.

(* @src claire/common/tracing/Trace.h:19-22 Endpoint::Endpoint *)
Definition Endpoint_default : Endpoint := MkEndpoint 0 (-1) [].

(* @src claire/common/tracing/Trace.h:30-33 Endpoint::Valid *)
Definition Endpoint_Valid (e : Endpoint) : bool := negb (ipv4 e =? 0) && (0 <=? port e).

(* @src claire/common/tracing/Trace.h:47-69 Annotation *)
Record Annotation := MkAnnotation {
  timestamp : Timestamp;
  value : bytes;
  a_host : Endpoint;
}.

(** [now] is Timestamp::Now() in the constructors. *)
(* @src claire/common/tracing/Trace.h:50-53 Annotation::Annotation *)
Definition Annotation_new (now : Timestamp) (value : bytes) : Annotation := MkAnnotation now value Endpoint_default.
(* @src claire/common/tracing/Trace.h:55-59 Annotation::Annotation *)
Definition Annotation_hosted (now : Timestamp) (value : bytes) (host : Endpoint) : Annotation :=
  MkAnnotation now value host.
(* @src claire/common/tracing/Trace.h:61-61 Annotation::client_send *)
Definition client_send (now : Timestamp) : Annotation := Annotation_new now (str "cs").
(* @src claire/common/tracing/Trace.h:62-62 Annotation::client_recv *)
Definition client_recv (now : Timestamp) : Annotation := Annotation_new now (str "cr").
(* @src claire/common/tracing/Trace.h:63-63 Annotation::server_send *)
Definition server_send (now : Timestamp) : Annotation := Annotation_new now (str "ss").
(* @src claire/common/tracing/Trace.h:64-64 Annotation::server_recv *)
Definition server_recv (now : Timestamp) : Annotation := Annotation_new now (str "sr").

(* @src claire/common/tracing/Trace.h:71-90 BinaryAnnotation *)
Record BinaryAnnotation := MkBinaryAnnotation {
  b_name : bytes;
  b_value : bytes;
  annotation_type : bytes;
  b_host : Endpoint;
}.

(* @src claire/common/tracing/Trace.h:81-84 BinaryAnnotation::message *)
Definition message (name value : bytes) : BinaryAnnotation :=
  MkBinaryAnnotation name value (str "string") Endpoint_default.

(* @src claire/common/tracing/Trace.h:131-135 Trace *)
Record Trace := MkTrace {
  name_ : bytes;
  trace_id_ : Z;
  span_id_ : Z;
  parent_span_id_ : Z;
  host_ : Endpoint;
}.

(* @src claire/common/tracing/Trace.cc:49-57 Trace::Trace *)
Definition Trace_new (name : bytes) (trace_id span_id parent_span_id : Z) : Trace :=
  MkTrace name trace_id span_id parent_span_id Endpoint_default.

(* @src claire/common/tracing/Trace.h:104-104 Trace::has_host *)
Definition has_host (t : Trace) : bool := Endpoint_Valid (host_ t).
(* @src claire/common/tracing/Trace.h:106-109 Trace::set_host *)
Definition set_host (h : Endpoint) (t : Trace) : Trace :=
  MkTrace (name_ t) (trace_id_ t) (span_id_ t) (parent_span_id_ t) h.
(* @src claire/common/tracing/Trace.h:115-115 Trace::has_parent_span_id *)
Definition has_parent_span_id (t : Trace) : bool := 0 <? parent_span_id_ t.

(** ** TraceRecorder *)

(** traces_, a std::map from (trace id, span id) to the trace. *)
(* @src claire/common/tracing/TraceRecorder.h:45-55 TraceRecorder *)
Record TraceRecorder := TR { traces_ : gmap (Z * Z) ptr }.

Definition TraceRecorder_init : TraceRecorder := TR ∅.

Definition trace_id_of (t : Trace) : Z * Z := (trace_id_ t, span_id_ t).

(* @src claire/common/tracing/TraceRecorder.cc:19-47 TraceRecorder::RegisterOrDeleteDuplicate *)
Definition RegisterOrDeleteDuplicate (trace : ptr) (s : store Trace) (r : TraceRecorder)
  : res (ptr * store Trace * TraceRecorder) :=
  t ← load s trace;
  let id := (trace_id_ t, span_id_ t) in
  let '(to_return, to_delete, traces) :=
    match traces_ r !! id with
    | None => (trace, None, <[id := trace]> (traces_ r))
    | Some other =>
        if (trace =? other)%nat then (trace, None, traces_ r) else (other, Some trace, traces_ r)
    end in
  Ok (to_return, del to_delete s, TR traces).

(* @src claire/common/tracing/TraceRecorder.cc:49-56 TraceRecorder::Find *)
Definition Find (trace_id span_id : Z) (r : TraceRecorder) : option ptr :=
  traces_ r !! (trace_id, span_id).

(* @src claire/common/tracing/TraceRecorder.cc:58-68 TraceRecorder::Erase *)
Definition Erase (trace_id span_id : Z) (s : store Trace) (r : TraceRecorder)
  : store Trace * TraceRecorder :=
  match traces_ r !! (trace_id, span_id) with
  | None => (s, r)
  | Some p => (del (Some p) s, TR (delete (trace_id, span_id) (traces_ r)))
  end.

#[export] Instance trace_registry : Registry (Z * Z) Trace TraceRecorder := {
  reg_key := trace_id_of;
  reg_find := fun k r => Find k.1 k.2 r;
  reg_register := RegisterOrDeleteDuplicate;
}.

#[export] Instance trace_registry_laws : RegistryLaws (Z * Z) Trace TraceRecorder.
Proof.
  split; cbn; unfold RegisterOrDeleteDuplicate, load, Find, trace_id_of; cbn [fst snd].
  - intros p x s r -> Hf. rstep. rewrite Hf. eexists. split; [reflexivity|].
    split; [apply lookup_insert_eq|]. intros [a b] Hk. by apply lookup_insert_ne.
  - intros p q x s r -> Hf Hne. rstep. rewrite Hf, (proj2 (Nat.eqb_neq _ _)) by done. by destruct r.
  - intros p x s r -> Hf. rstep. rewrite Hf, Nat.eqb_refl. by destruct r.
Qed.

(** ** The factory *)

(* @src claire/common/tracing/Trace.cc:40-47 Trace::FactoryGet *)
Definition FactoryGet (name : bytes) (trace_id span_id parent_span_id : Z)
  (s : store Trace) (r : TraceRecorder) : res (ptr * store Trace * TraceRecorder) :=
  get_or_create (Trace_new name trace_id span_id parent_span_id) s r.

(** The root trace; [uid1] and [uid2] are the two results of UniqueId(). *)
(* @src claire/common/tracing/Trace.cc:28-31 Trace::FactoryGet *)
Definition FactoryGet_root (name : bytes) (uid1 uid2 : Z) (s : store Trace) (r : TraceRecorder)
  : res (ptr * store Trace * TraceRecorder) := FactoryGet name uid1 uid2 0 s r.

(* @src claire/common/tracing/Trace.cc:33-38 Trace::FactoryGet *)
Definition FactoryGet_span (name : bytes) (trace_id span_id : Z) (s : store Trace)
  (r : TraceRecorder) : res (ptr * store Trace * TraceRecorder) :=
  FactoryGet name trace_id span_id 0 s r.

(* @src claire/common/tracing/Trace.cc:73-76 Trace::MakeChild *)
Definition MakeChild (p : ptr) (name : bytes) (s : store Trace) (r : TraceRecorder)
  : res (ptr * store Trace * TraceRecorder) :=
  t ← load s p;
  FactoryGet name (trace_id_ t) (int64 (span_id_ t + 1)) (span_id_ t) s r.

(** ** Tracing: the installed tracer *)
Section Tracing.
Context {Out : Type}.

(** A tracer's Record overloads; the null tracer outputs nothing. *)
(* @src claire/common/tracing/Tracer.h:12-18 Tracer *)
Definition Tracer : Type := Trace -> Annotation + BinaryAnnotation -> list Out.

(* @src claire/common/tracing/Tracing.cc:10-11 g_null_tracer, g_tracer *)
Definition g_null_tracer : Tracer := fun _ _ => [].

(* @src claire/common/tracing/Tracing.cc:13-16 InstallClaireTracer *)
Definition InstallClaireTracer (tracer g_tracer : Tracer) : Tracer := tracer.

(* @src claire/common/tracing/Tracing.cc:18-26 OutputTrace *)
Definition OutputTrace (g_tracer : Tracer) (t : Trace) (a : Annotation + BinaryAnnotation) : list Out :=
  g_tracer t a.

(** The log line is left out. *)
(* @src claire/common/tracing/Trace.cc:59-71 Trace::Record *)
Definition Record_ (g_tracer : Tracer) (s : store Trace) (p : ptr) (a : Annotation + BinaryAnnotation)
  : res (list Out) := t ← load s p; Ok (OutputTrace g_tracer t a).

(** ** The macros: the trace of this thread

    A macro is a function of the thread, the recorder and the live traces. *)

(* @src claire/common/tracing/TraceRecorder.h:35-38 TraceRecorder::Find *)
Definition Find_context (c : TraceContext) (r : TraceRecorder) : option ptr := Find c.1 c.2 r.
(* @src claire/common/tracing/TraceRecorder.h:42-45 TraceRecorder::Erase *)
Definition Erase_context (c : TraceContext) (s : store Trace) (r : TraceRecorder)
  : store Trace * TraceRecorder := Erase c.1 c.2 s r.

(* @src claire/common/tracing/Tracing.h:19-20 GET_TRACE_BY_TRACEID *)
Definition GET_TRACE_BY_TRACEID (trace_id span_id : Z) (r : TraceRecorder) : option ptr := Find trace_id span_id r.

(* @src claire/common/tracing/Tracing.h:22-23 THISTHREAD_TRACE *)
Definition THISTHREAD_TRACE (t : ThisThread) (r : TraceRecorder) : option ptr :=
  Find_context (GetTraceContext t) r.

(* @src claire/common/tracing/Tracing.h:25-29 TRACE_ANNOTATION *)
Definition TRACE_ANNOTATION (g_tracer : Tracer) (a : Annotation + BinaryAnnotation) (t : ThisThread)
  (s : store Trace) (r : TraceRecorder) : res (list Out) :=
  match THISTHREAD_TRACE t r with Some p => Record_ g_tracer s p a | None => Ok [] end.

(** [text] is StringPrintf's result; it is computed only when there is a trace. *)
(* @src claire/common/tracing/Tracing.h:13-17 TRACE_PRINTF *)
Definition TRACE_PRINTF (g_tracer : Tracer) (now : Timestamp) (text : bytes) (t : ThisThread)
  (s : store Trace) (r : TraceRecorder) : res (list Out) :=
  TRACE_ANNOTATION g_tracer (inl (Annotation_new now text)) t s r.

End Tracing.

(* @src claire/common/tracing/Tracing.h:31-35 TRACE_SET_HOST *)
Definition TRACE_SET_HOST (ip port : Z) (service_name : bytes) (t : ThisThread) (s : store Trace)
  (r : TraceRecorder) : res (store Trace) :=
  match THISTHREAD_TRACE t r with
  | Some p => x ← load s p; Ok (MkStore (<[p := set_host (MkEndpoint ip port service_name) x]> (objs s)) (next_addr s))
  | None => Ok s
  end.

(* @src claire/common/tracing/Tracing.h:37-38 ERASE_TRACE *)
Definition ERASE_TRACE (t : ThisThread) (s : store Trace) (r : TraceRecorder) : store Trace * TraceRecorder :=
  Erase_context (GetTraceContext t) s r.

(** ** Properties *)

Lemma trace_inv_empty : reg_inv (store_empty : store Trace) TraceRecorder_init.
Proof. split; cbn; unfold Find; intros *; rewrite ?lookup_empty; naive_solver. Qed.

(** FactoryGet returns the trace registered under its two ids: a new one
    made from the arguments when there is none, otherwise the one registered
    before, the duplicate being deleted. The live traces stay exactly the
    registered ones, and a second call with the same ids returns the same trace
    and changes no trace and no registration, whatever its name and parent. *)
Theorem FactoryGet_registered name tid sid psid s r :
  reg_inv s r ->
  exists p s' r' t, FactoryGet name tid sid psid s r = Ok (p, s', r') /\ reg_inv s' r' /\
    Find tid sid r' = Some p /\ objs s' !! p = Some t /\ trace_id_of t = (tid, sid) /\
    match Find tid sid r with
    | Some q => p = q /\ objs s' = objs s
    | None => t = Trace_new name tid sid psid
    end /\
    forall name2 psid2, exists s'', FactoryGet name2 tid sid psid2 s' r' = Ok (p, s'', r') /\
      objs s'' = objs s'.
Proof.
  intros I. destruct (get_or_create_spec (Trace_new name tid sid psid) s r I)
    as (p & s' & r' & t & Hg & I' & Hf & Ht & _ & Hm).
  exists p, s', r', t. split; [done|]. split; [done|]. split; [done|]. split; [done|]. split.
  { destruct (reg_live _ _ I' _ _ Hf) as (y & Hy & Hk). rewrite Ht in Hy. by injection Hy as <-. }
  split.
  - cbn in Hm. unfold Find in *. cbn in Hm. destruct (traces_ r !! (tid, sid)); naive_solver.
  - intros name2 psid2. by apply (get_or_create_again (Trace_new name tid sid psid)) with s r.
Qed.

(** Erasing frees exactly the trace with those ids: afterwards it is not
    found, its memory is gone, every other trace is still registered and live, and
    the live traces are again exactly the registered ones. *)
Theorem Erase_frees tid sid s r :
  reg_inv s r ->
  let '(s', r') := Erase tid sid s r in
  reg_inv s' r' /\ Find tid sid r' = None /\
  (forall p, Find tid sid r = Some p -> objs s' !! p = None) /\
  forall k, k <> (tid, sid) -> Find k.1 k.2 r' = Find k.1 k.2 r /\
    forall p, Find k.1 k.2 r = Some p -> objs s' !! p = objs s !! p.
Proof.
  intros I. unfold Erase. destruct (traces_ r !! (tid, sid)) as [p|] eqn:Hp.
  - pose proof (reg_live _ _ I (tid, sid) p Hp) as (t & Ht & Hk). cbn in Hk.
    assert (Hother : forall k q, k <> (tid, sid) -> traces_ r !! k = Some q -> p <> q).
    { intros k q Hne Hq ->. destruct k as [a b].
      destruct (reg_live _ _ I (a, b) q Hq) as (t' & Ht' & Hk'). cbn in *. congruence. }
    split; [|split; [|split]].
    + split; cbn; unfold Find.
      * intros [a b] q [Hne Hq]%lookup_delete_Some. cbn in *.
        destruct (reg_live _ _ I (a, b) q Hq) as (t' & Ht' & Hk'). exists t'.
        rewrite lookup_delete_ne by (by eapply Hother). done.
      * intros q x [Hne Hx]%lookup_delete_Some. pose proof (reg_owned _ _ I _ _ Hx) as Ho.
        cbn in Ho. unfold Find in Ho. apply lookup_delete_Some. split; [|done].
        intros Heq. cbn in Heq. rewrite <- Heq in Ho. congruence.
      * intros q Hq. rewrite lookup_delete_None. right. by apply (reg_fresh _ _ I).
    + apply lookup_delete_eq.
    + unfold Find. intros q Hq. simplify_eq. apply lookup_delete_eq.
    + unfold Find. intros [a b] Hne. cbn. split; [by apply lookup_delete_ne|].
      intros q Hq. apply lookup_delete_ne. by eapply Hother.
  - split; [done|]. split; [done|]. split; [unfold Find; congruence|]. done.
Qed.

(** A parent has one child: a second MakeChild on the same trace, whatever
    the name, returns the first child, because both children get the span id
    after the parent's. *)
Theorem MakeChild_same_child p t name1 name2 s r c s' r' :
  reg_inv s r -> objs s !! p = Some t -> MakeChild p name1 s r = Ok (c, s', r') ->
  exists s'', MakeChild p name2 s' r' = Ok (c, s'', r') /\ objs s'' = objs s'.
Proof.
  intros I Hp. unfold MakeChild, load. rewrite Hp. rstep. intros H1.
  set (x := Trace_new name1 (trace_id_ t) (int64 (span_id_ t + 1)) (span_id_ t)).
  destruct (get_or_create_spec x s r I) as (p1 & s1 & r1 & y & E1 & I1 & _ & _ & _ & Hm).
  unfold FactoryGet in H1. fold x in H1. rewrite E1 in H1. injection H1 as <- <- <-.
  assert (objs s1 !! p = Some t) as ->.
  { destruct (reg_find _ r); [destruct Hm as (_ & _ & ->)|destruct Hm as (-> & _ & ->)]; [done|].
    rewrite lookup_insert_ne; [done|]. intros <-.
    by rewrite (reg_fresh _ _ I) in Hp by lia. }
  rstep. by apply (get_or_create_again x) with s r.
Qed.

(** What a thread's macros do: annotations go to the tracer with the trace of the
    thread's context and are dropped when there is none, a host is set on that
    trace alone, and after the trace is erased annotations are dropped. *)
Theorem this_thread_trace {Out} (g : @Tracer Out) a ip port name t s r :
  reg_inv s r ->
  TRACE_ANNOTATION g a t s r =
    Ok (match THISTHREAD_TRACE t r with
        | Some p => match objs s !! p with Some x => g x a | None => [] end
        | None => []
        end) /\
  (exists s', TRACE_SET_HOST ip port name t s r = Ok s' /\ reg_inv s' r /\
     forall q, objs s' !! q =
       if bool_decide (THISTHREAD_TRACE t r = Some q)
       then set_host (MkEndpoint ip port name) <$> objs s !! q else objs s !! q) /\
  (let '(s', r') := ERASE_TRACE t s r in TRACE_ANNOTATION g a t s' r' = Ok []).
Proof.
  intros I. split; [|split].
  - unfold TRACE_ANNOTATION. destruct (THISTHREAD_TRACE t r) as [p|] eqn:E; [|done].
    destruct (reg_live _ _ I (GetTraceContext t) p E) as (x & Hx & _). unfold Record_, load. rewrite Hx. by rstep.
  - unfold TRACE_SET_HOST. destruct (THISTHREAD_TRACE t r) as [p|] eqn:E.
    2: { exists s. split; [done|]. split; [done|]. intros q. by rewrite bool_decide_eq_false_2. }
    destruct (reg_live _ _ I (GetTraceContext t) p E) as (x & Hx & Hk). unfold load. rewrite Hx. rstep.
    eexists. split; [reflexivity|]. split; [split; cbn [objs next_addr]|].
    + intros k q Hq. destruct (reg_live _ _ I k q Hq) as (y & Hy & Hky). destruct (decide (p = q)) as [<-|Hne].
      * rewrite lookup_insert_eq. eexists. split; [reflexivity|]. by simplify_eq.
      * rewrite lookup_insert_ne by done. eauto.
    + intros q y. rewrite lookup_insert_Some. intros [[<- <-]|[_ Hy]]; [|by apply (reg_owned _ _ I)].
      apply (reg_owned _ _ I _ _ Hx).
    + intros q Hq. rewrite lookup_insert_ne; [by apply (reg_fresh _ _ I)|].
      intros <-. by rewrite (reg_fresh _ _ I) in Hx.
    + intros q. cbn [objs]. case_bool_decide as Hq.
      * injection Hq as <-. by rewrite lookup_insert_eq, Hx.
      * apply lookup_insert_ne. congruence.
  - unfold ERASE_TRACE, Erase_context. pose proof (Erase_frees (tTraceId t) (tSpanId t) s r I) as H.
    cbn [GetTraceContext fst snd]. destruct (Erase _ _ s r) as [s' r']. destruct H as (_ & Hf & _).
    unfold TRACE_ANNOTATION, THISTHREAD_TRACE, Find_context. cbn [GetTraceContext fst snd]. by rewrite Hf.
Qed.

(** A pointer to a trace does not outlive it: recording through one kept over
    ERASE_TRACE reads freed memory. *)
Theorem erased_trace_faults {Out} (g : @Tracer Out) a t s r p :
  reg_inv s r -> THISTHREAD_TRACE t r = Some p ->
  Record_ g (ERASE_TRACE t s r).1 p a = Err NullDeref.
Proof.
  intros I Hp. unfold ERASE_TRACE, Erase_context. cbn [GetTraceContext fst snd].
  pose proof (Erase_frees (tTraceId t) (tSpanId t) s r I) as H. destruct (Erase _ _ s r) as [s' r'].
  destruct H as (_ & _ & Hf & _). unfold Record_, load. cbn [fst]. by rewrite (Hf p Hp).
Qed.

Definition demo_store : store Trace * TraceRecorder :=
  match FactoryGet (str "root") 7 1 0 store_empty TraceRecorder_init with Ok (_, s, r) => (s, r) | Err _ => (store_empty, TraceRecorder_init) end.

Lemma demo_inv : reg_inv demo_store.1 demo_store.2.
Proof.
  destruct (get_or_create_spec (Trace_new (str "root") 7 1 0) store_empty TraceRecorder_init trace_inv_empty)
    as (p & s & r & t & Hg & I & _).
  unfold demo_store, FactoryGet. by rewrite Hg.
Qed.

Lemma FactoryGet_registered_witness :
  exists p s' r' t, FactoryGet (str "again") 7 1 3 demo_store.1 demo_store.2 = Ok (p, s', r') /\
    reg_inv s' r' /\ Find 7 1 r' = Some p /\ objs s' !! p = Some t /\ trace_id_of t = (7, 1) /\
    match Find 7 1 demo_store.2 with
    | Some q => p = q /\ objs s' = objs demo_store.1
    | None => t = Trace_new (str "again") 7 1 3
    end /\
    forall name2 psid2, exists s'', FactoryGet name2 7 1 psid2 s' r' = Ok (p, s'', r') /\
      objs s'' = objs s'.
Proof. apply (FactoryGet_registered (str "again") 7 1 3 _ _ demo_inv). Defined.

Lemma Erase_frees_witness :
  let '(s', r') := Erase 7 1 demo_store.1 demo_store.2 in
  reg_inv s' r' /\ Find 7 1 r' = None /\
  (forall p, Find 7 1 demo_store.2 = Some p -> objs s' !! p = None) /\
  forall k, k <> (7, 1) -> Find k.1 k.2 r' = Find k.1 k.2 demo_store.2 /\
    forall p, Find k.1 k.2 demo_store.2 = Some p -> objs s' !! p = objs demo_store.1 !! p.
Proof. apply (Erase_frees 7 1 _ _ demo_inv). Defined.

Lemma MakeChild_same_child_witness :
  exists c s' r', MakeChild 0%nat (str "a") demo_store.1 demo_store.2 = Ok (c, s', r') /\
  exists s'', MakeChild 0%nat (str "b") s' r' = Ok (c, s'', r') /\ objs s'' = objs s'.
Proof.
  do 3 eexists. split; [reflexivity|].
  apply (MakeChild_same_child 0%nat (Trace_new (str "root") 7 1 0) (str "a") (str "b")
           demo_store.1 demo_store.2 _ _ _ demo_inv); reflexivity.
Defined.

Definition demo_tracer : @Tracer bytes := fun t a =>
  match a with inl a => [name_ t ++ value a] | inr a => [name_ t ++ b_value a] end.

Lemma this_thread_trace_witness :
  TRACE_PRINTF demo_tracer (MkTimestamp 5) (str " here") (MkThisThread 7 1) demo_store.1 demo_store.2 =
    Ok [str "root here"] /\
  (exists s', TRACE_SET_HOST 1 80 (str "web") (MkThisThread 7 1) demo_store.1 demo_store.2 = Ok s' /\
     reg_inv s' demo_store.2 /\
     forall q, objs s' !! q =
       if bool_decide (THISTHREAD_TRACE (MkThisThread 7 1) demo_store.2 = Some q)
       then set_host (MkEndpoint 1 80 (str "web")) <$> objs demo_store.1 !! q else objs demo_store.1 !! q).
Proof.
  split; [reflexivity|].
  apply (this_thread_trace demo_tracer (inr (message (str "k") (str "v"))) 1 80 (str "web") (MkThisThread 7 1) _ _ demo_inv).
Defined.

Lemma erased_trace_faults_witness :
  Record_ demo_tracer (ERASE_TRACE (MkThisThread 7 1) demo_store.1 demo_store.2).1 0%nat
    (inr (message (str "k") (str "v"))) = Err NullDeref.
Proof. apply (erased_trace_faults demo_tracer _ (MkThisThread 7 1) _ _ 0%nat demo_inv). reflexivity. Defined.
