(* ===== verification/Channel.v ===== *)
(** * events/Channel: a selectable I/O channel

    The state and the event dispatch of claire/common/events/Channel.{h,cc}.
    Callbacks are opaque values; [effect] is what calling one does to the
    channel (it may change interest, callbacks or revents). *)

From S2P Require Import Prelude.

(** poll(2) event bits on Linux. *)
Definition POLLIN : Z := 1.
Definition POLLPRI : Z := 2.
Definition POLLOUT : Z := 4.
Definition POLLERR : Z := 8.
Definition POLLHUP : Z := 16.
Definition POLLNVAL : Z := 32.
Definition POLLRDHUP : Z := 8192.

(* @src claire/common/events/Channel.h:31-36 Channel::Priority *)
Inductive Priority := kLow | kNormal | kHigh.

#[export] Instance Priority_eq_dec : EqDecision Priority.
Proof. solve_decision. Defined.

(** static_cast<int>(priority). *)
Definition priority_to_int (p : Priority) : Z :=
  match p with kLow => 0 | kNormal => 1 | kHigh => 2 end.

(* @src claire/common/events/Channel.cc:14-14 Channel::kNoneEvent *)
Definition kNoneEvent : Z := 0.
(* @src claire/common/events/Channel.cc:15-15 Channel::kReadEvent *)
Definition kReadEvent : Z := Z.lor POLLIN POLLPRI.
(* @src claire/common/events/Channel.cc:16-16 Channel::kWriteEvent *)
Definition kWriteEvent : Z := POLLOUT.

Section Channel.
Context {Cb : Type}.

(** [tie_] is the object the channel is tied to (a boost::weak_ptr); the
    members loop_ and the callbacks' closures are outside the model. *)
(* @src claire/common/events/Channel.h:97-115 Channel *)
Record Channel := MkChannel {
  fd_ : Z;
  events_ : Z;
  revents_ : Z;
  context_ : Z;
  priority_ : Priority;
  tie_ : option nat;
  tied_ : bool;
  event_handling_ : bool;
  read_callback_ : option Cb;
  write_callback_ : option Cb;
  close_callback_ : option Cb;
  error_callback_ : option Cb;
}.

(* @src claire/common/events/Channel.cc:18-27 Channel::Channel *)
Definition Channel_new (fd : Z) : Channel :=
  MkChannel fd 0 0 (-1) kNormal None false false None None None None.

(* @src claire/common/events/Channel.cc:29-29 Channel::~Channel *)
Definition Channel_destroy (c : Channel) : res unit := check (negb (event_handling_ c)).

(* @src claire/common/events/Channel.h:44-47 Channel::set_read_callback *)
Definition set_read_callback (cb : option Cb) (c : Channel) : Channel :=
  MkChannel (fd_ c) (events_ c) (revents_ c) (context_ c) (priority_ c) (tie_ c) (tied_ c)
    (event_handling_ c) cb (write_callback_ c) (close_callback_ c) (error_callback_ c).

(* @src claire/common/events/Channel.h:49-52 Channel::set_write_callback *)
Definition set_write_callback (cb : option Cb) (c : Channel) : Channel :=
  MkChannel (fd_ c) (events_ c) (revents_ c) (context_ c) (priority_ c) (tie_ c) (tied_ c)
    (event_handling_ c) (read_callback_ c) cb (close_callback_ c) (error_callback_ c).

(* @src claire/common/events/Channel.h:54-57 Channel::set_close_callback *)
Definition set_close_callback (cb : option Cb) (c : Channel) : Channel :=
  MkChannel (fd_ c) (events_ c) (revents_ c) (context_ c) (priority_ c) (tie_ c) (tied_ c)
    (event_handling_ c) (read_callback_ c) (write_callback_ c) cb (error_callback_ c).

(* @src claire/common/events/Channel.h:59-62 Channel::set_error_callback *)
Definition set_error_callback (cb : option Cb) (c : Channel) : Channel :=
  MkChannel (fd_ c) (events_ c) (revents_ c) (context_ c) (priority_ c) (tie_ c) (tied_ c)
    (event_handling_ c) (read_callback_ c) (write_callback_ c) (close_callback_ c) cb.

(* @src claire/common/events/Channel.cc:31-35 Channel::tie *)
Definition tie (owner : nat) (c : Channel) : Channel :=
  MkChannel (fd_ c) (events_ c) (revents_ c) (context_ c) (priority_ c) (Some owner) true
    (event_handling_ c) (read_callback_ c) (write_callback_ c) (close_callback_ c) (error_callback_ c).

(* @src claire/common/events/Channel.h:72-72 Channel::set_revents *)
Definition set_revents (r : Z) (c : Channel) : Channel :=
  MkChannel (fd_ c) (events_ c) r (context_ c) (priority_ c) (tie_ c) (tied_ c)
    (event_handling_ c) (read_callback_ c) (write_callback_ c) (close_callback_ c) (error_callback_ c).

(* @src claire/common/events/Channel.h:76-76 Channel::set_context *)
Definition set_context (x : Z) (c : Channel) : Channel :=
  MkChannel (fd_ c) (events_ c) (revents_ c) x (priority_ c) (tie_ c) (tied_ c)
    (event_handling_ c) (read_callback_ c) (write_callback_ c) (close_callback_ c) (error_callback_ c).

(* @src claire/common/events/Channel.h:79-79 Channel::set_priority *)
Definition set_priority (p : Priority) (c : Channel) : Channel :=
  MkChannel (fd_ c) (events_ c) (revents_ c) (context_ c) p (tie_ c) (tied_ c)
    (event_handling_ c) (read_callback_ c) (write_callback_ c) (close_callback_ c) (error_callback_ c).

Definition set_events (e : Z) (c : Channel) : Channel :=
  MkChannel (fd_ c) e (revents_ c) (context_ c) (priority_ c) (tie_ c) (tied_ c)
    (event_handling_ c) (read_callback_ c) (write_callback_ c) (close_callback_ c) (error_callback_ c).

Definition set_event_handling (b : bool) (c : Channel) : Channel :=
  MkChannel (fd_ c) (events_ c) (revents_ c) (context_ c) (priority_ c) (tie_ c) (tied_ c)
    b (read_callback_ c) (write_callback_ c) (close_callback_ c) (error_callback_ c).

(* @src claire/common/events/Channel.h:81-81 Channel::IsNoneEvent *)
Definition IsNoneEvent (c : Channel) : bool := events_ c =? kNoneEvent.
(* @src claire/common/events/Channel.h:82-82 Channel::IsWriting *)
Definition IsWriting (c : Channel) : bool := negb (Z.land (events_ c) kWriteEvent =? 0).

(** The change of the interest set; the caller, [Poller.change_interest], then
    performs Update(). *)
Inductive Interest := EnableReading | EnableWriting | DisableReading | DisableWriting | DisableAll.

(* @src claire/common/events/Channel.h:84-89 Channel::EnableReading..DisableAll *)
Definition interest_bits (i : Interest) (e : Z) : Z :=
  match i with
  | EnableReading => Z.lor e kReadEvent
  | EnableWriting => Z.lor e kWriteEvent
  | DisableReading => Z.land e (Z.lnot kReadEvent)
  | DisableWriting => Z.land e (Z.lnot kWriteEvent)
  | DisableAll => kNoneEvent
  end.

(** ** Event dispatch *)
Variable effect : Cb -> Channel -> Channel.

Definition has_bits (c : Channel) (mask : Z) : bool := negb (Z.land (revents_ c) mask =? 0).

(** [if (slot) slot();] the callbacks called so far are logged. *)
Definition call_slot (slot : Channel -> option Cb) (st : list Cb * Channel) : list Cb * Channel :=
  let '(log, c) := st in
  match slot c with
  | Some f => (log ++ [f], effect f c)
  | None => (log, c)
  end.

Definition call_when (cond : Channel -> bool) (slot : Channel -> option Cb)
  (st : list Cb * Channel) : list Cb * Channel :=
  if cond st.2 then call_slot slot st else st.

(** The conditions of the four tests, as functions of the channel. *)
Definition wants_close (c : Channel) : bool := has_bits c POLLHUP && negb (has_bits c POLLIN).
Definition wants_error (c : Channel) : bool := has_bits c (Z.lor POLLERR POLLNVAL).
Definition wants_read (c : Channel) : bool := has_bits c (Z.lor (Z.lor POLLIN POLLPRI) POLLRDHUP).
Definition wants_write (c : Channel) : bool := has_bits c POLLOUT.

(* @src claire/common/events/Channel.cc:63-107 Channel::OnEventWithGuard *)
Definition OnEventWithGuard (c : Channel) : list Cb * Channel :=
  let st := ([], set_event_handling true c) in
  let st := call_when wants_close close_callback_ st in
  let st := call_when wants_error error_callback_ st in
  let st := call_when wants_read read_callback_ st in
  let st := call_when wants_write write_callback_ st in
  (st.1, set_event_handling false st.2).

(** [alive o] tells whether tie_.lock() succeeds for owner [o]. *)
(* @src claire/common/events/Channel.cc:47-61 Channel::OnEvent *)
Definition OnEvent (alive : nat -> bool) (c : Channel) : list Cb * Channel :=
  if tied_ c then
    if (match tie_ c with Some o => alive o | None => false end)
    then OnEventWithGuard c else ([], c)
  else OnEventWithGuard c.

(** ** Lemmas and properties *)

(** What the dispatch of revents [r] amounts to. *)
Definition dispatch_spec (r : Z) (c : Channel) : list Cb :=
  let bits mask := negb (Z.land r mask =? 0) in
  (if bits POLLHUP && negb (bits POLLIN) then option_list (close_callback_ c) else []) ++
  (if bits (Z.lor POLLERR POLLNVAL) then option_list (error_callback_ c) else []) ++
  (if bits (Z.lor (Z.lor POLLIN POLLPRI) POLLRDHUP) then option_list (read_callback_ c) else []) ++
  (if bits POLLOUT then option_list (write_callback_ c) else []).

(** The parts of a channel that decide the dispatch. *)
Definition same_dispatch (c c' : Channel) : Prop :=
  revents_ c = revents_ c' /\ read_callback_ c = read_callback_ c' /\
  write_callback_ c = write_callback_ c' /\ close_callback_ c = close_callback_ c' /\
  error_callback_ c = error_callback_ c'.

#[export] Instance same_dispatch_equiv : Equivalence same_dispatch.
Proof. unfold same_dispatch. split; red; intuition congruence. Qed.

Lemma call_when_spec cond slot st c0 :
  (forall f c, same_dispatch c (effect f c)) ->
  (forall c c', same_dispatch c c' -> cond c = cond c' /\ slot c = slot c') ->
  same_dispatch c0 st.2 ->
  (call_when cond slot st).1 = st.1 ++ (if cond c0 then option_list (slot c0) else []) /\
  same_dispatch c0 (call_when cond slot st).2.
Proof.
  intros He Hext Hc. destruct (Hext _ _ Hc) as [Hcond Hslot]. destruct st as [log c].
  unfold call_when, call_slot. simpl in *. rewrite Hcond, Hslot.
  destruct (cond c); [|by rewrite app_nil_r].
  destruct (slot c) as [f|]; simpl; [|by rewrite app_nil_r].
  split; [done|]. etransitivity; [exact Hc|apply He].
Qed.

Local Ltac ext :=
  unfold wants_close, wants_error, wants_read, wants_write, has_bits;
  intros c1 c2 (R & E1 & E2 & E3 & E4); rewrite ?R, ?E1, ?E2, ?E3, ?E4; done.

Lemma OnEventWithGuard_log c :
  (forall f c, same_dispatch c (effect f c)) ->
  (OnEventWithGuard c).1 = dispatch_spec (revents_ c) c.
Proof.
  intros He. unfold OnEventWithGuard. cbn zeta.
  set (st0 := ([], set_event_handling true c)).
  assert (D0 : same_dispatch c st0.2) by done.
  destruct (call_when_spec wants_close close_callback_ st0 c He) as [L1 D1]; [ext|done|].
  set (st1 := call_when wants_close _ _) in *.
  destruct (call_when_spec wants_error error_callback_ st1 c He) as [L2 D2]; [ext|done|].
  set (st2 := call_when wants_error _ _) in *.
  destruct (call_when_spec wants_read read_callback_ st2 c He) as [L3 D3]; [ext|done|].
  set (st3 := call_when wants_read _ _) in *.
  destruct (call_when_spec wants_write write_callback_ st3 c He) as [L4 D4]; [ext|done|].
  cbn [fst]. rewrite L4, L3, L2, L1. by rewrite <- !app_assoc.
Qed.

(** When the callbacks leave the channel's revents and callbacks alone,
    OnEvent calls exactly the callbacks that revents_ asks for, in the order
    close, error, read, write: close on POLLHUP without POLLIN, error on POLLERR
    or POLLNVAL, read on POLLIN, POLLPRI or POLLRDHUP, write on POLLOUT; nothing
    is called when the tied owner is gone. *)
Theorem OnEvent_dispatch alive c :
  (forall f c, same_dispatch c (effect f c)) ->
  (OnEvent alive c).1 =
    if tied_ c && negb (match tie_ c with Some o => alive o | None => false end)
    then [] else dispatch_spec (revents_ c) c.
Proof.
  intros He. unfold OnEvent.
  destruct (tied_ c); cbn [andb]; [|apply OnEventWithGuard_log, He].
  destruct (match tie_ c with Some o => alive o | None => false end); cbn [negb fst];
    [apply OnEventWithGuard_log, He | reflexivity].
Qed.

End Channel.
Arguments Channel : clear implicits.

(** A HUP with data still to read calls the read callback, not the close one. *)
Lemma OnEvent_dispatch_witness :
  let c := set_revents (Z.lor POLLHUP POLLIN) (set_close_callback (Some "close"%string)
             (set_read_callback (Some "read"%string) (Channel_new 7))) in
  (OnEvent (fun _ c => c) (fun _ => true) c).1 = ["read"%string] /\
  (OnEvent (fun _ c => c) (fun _ => true) c).1 =
    if tied_ c && negb (match tie_ c with Some o => true | None => false end)
    then [] else dispatch_spec (revents_ c) c.
Proof.
  intros c. split; [vm_compute; reflexivity|].
  apply (OnEvent_dispatch (fun _ c => c) (fun _ => true) c). done.
Defined.
