(* ===== verification/Poller.v ===== *)
(** * events/Poller and events/poller/EPollPoller

    Channels are shared objects: they live in a heap indexed by pointers, and
    the poller updates their context and revents through it. [Poller] is the
    abstract class of claire/common/events/Poller.h; [EPollPoller] implements it
    over epoll, whose system calls are recorded in [ctl_log]. *)

From S2P Require Import Prelude Registry Channel.

Section Poller.
Context {Cb : Type}.

Abbreviation heap := (gmap ptr (Channel Cb)).

Definition deref (h : heap) (p : ptr) : res (Channel Cb) :=
  match h !! p with Some c => Ok c | None => Err NullDeref end.

(** The result of epoll_wait: events (data, events), or a failure. *)
Inductive wait_result :=
  | Ready (l : list (Z * Z))
  | Interrupted
  | WaitFailed.

(** The interface: [in_loop] is loop_->IsInLoopThread(). *)
(* @src claire/common/events/Poller.h:16-34 Poller *)
Class Poller (P : Type) := {
  poll : wait_result -> heap -> P -> res (list ptr * heap * P);
  UpdateChannel : bool -> ptr -> heap -> P -> res (heap * P);
  RemoveChannel : bool -> ptr -> heap -> P -> res (heap * P);
}.

(** Channel::EnableReading() and the other four: change the interest set, then
    Update(), which reaches the poller through EventLoop::UpdateChannel. *)
(* @src claire/common/events/Channel.cc:37-40 Channel::Update *)
Definition change_interest {P} `{Poller P} (in_loop : bool) (i : Interest) (p : ptr)
  (h : heap) (e : P) : res (heap * P) :=
  c ← deref h p;
  UpdateChannel in_loop p (<[p := set_events (interest_bits i (events_ c)) c]> h) e.

(* @src claire/common/events/Channel.cc:42-45 Channel::Remove *)
Definition Remove {P} `{Poller P} (in_loop : bool) (p : ptr) (h : heap) (e : P)
  : res (heap * P) := RemoveChannel in_loop p h e.

(** ** EPollPoller *)

(* @src claire/common/events/poller/EPollPoller.cc:31-31 kNew *)
Definition kNew : Z := -1.
(* @src claire/common/events/poller/EPollPoller.cc:32-32 kAdded *)
Definition kAdded : Z := 1.
(* @src claire/common/events/poller/EPollPoller.cc:33-33 kDeleted *)
Definition kDeleted : Z := 2.

Inductive ctl_op := EPOLL_CTL_ADD | EPOLL_CTL_MOD | EPOLL_CTL_DEL.

(** [events_size] is events_.size(); loop_ and epoll_fd_ are not modelled. *)
(* @src claire/common/events/poller/EPollPoller.h:29-32 EPollPoller *)
Record EPollPoller := EPoll {
  events_size : Z;
  channels_ : list (option ptr);
  ctl_log : list (ctl_op * Z * Z);
}.

(* @src claire/common/events/poller/EPollPoller.cc:37-42 EPollPoller::EPollPoller *)
Definition EPollPoller_init : EPollPoller := EPoll 64 (replicate 64 None) [].

(** The outcome of epoll_ctl is only logged, so the call itself is the effect. *)
(* @src claire/common/events/poller/EPollPoller.cc:154-168 EPollPoller::Update *)
Definition Update (op : ctl_op) (c : Channel Cb) (e : EPollPoller) : EPollPoller :=
  EPoll (events_size e) (channels_ e) (ctl_log e ++ [(op, fd_ c, events_ c)]).

(** The loop over the reported events; [act] are the active channels so far. *)
(* @src claire/common/events/poller/EPollPoller.cc:61-76 EPollPoller::poll *)
Fixpoint poll_loop (l : list (Z * Z)) (e : EPollPoller) (act : list ptr) (h : heap)
  : res (list ptr * heap) :=
  match l with
  | [] => Ok (act, h)
  | (data, evs) :: l =>
      let fd := int32 data in
      if Zlen (channels_ e) <=? fd then poll_loop l e act h
      else
        slot ← vget (channels_ e) fd;
        match slot with
        | None => Err NullDeref
        | Some p =>
            c ← deref h p;
            _ ← check (fd_ c =? fd);
            poll_loop l e (act ++ [p]) (<[p := set_revents evs c]> h)
        end
  end.

(* @src claire/common/events/poller/EPollPoller.cc:46-84 EPollPoller::poll *)
Definition epoll_poll (w : wait_result) (h : heap) (e : EPollPoller)
  : res (list ptr * heap * EPollPoller) :=
  match w with
  | WaitFailed => Err CheckFailed
  | Interrupted => Ok ([], h, e)
  | Ready l =>
      '(act, h) ← poll_loop l e [] h;
      let size := if events_size e =? Zlen l then 2 * Zlen l else events_size e in
      Ok (act, h, EPoll size (channels_ e) (ctl_log e))
  end.

(** std::vector::resize to [n] entries, new ones NULL. *)
Definition resize (l : list (option ptr)) (n : nat) : list (option ptr) :=
  take n l ++ replicate (n - length l) None.

(* @src claire/common/events/poller/EPollPoller.cc:86-131 EPollPoller::UpdateChannel *)
Definition epoll_UpdateChannel (in_loop : bool) (p : ptr) (h : heap) (e : EPollPoller)
  : res (heap * EPollPoller) :=
  _ ← check in_loop;
  c ← deref h p;
  let state := context_ c in
  let big := Zlen (channels_ e) <=? uint64 (fd_ c) in
  if big && negb (state =? kNew) then Ok (h, e)
  else
    let e := if big
             then EPoll (events_size e) (resize (channels_ e) (length (channels_ e) * 2)) (ctl_log e)
             else e in
    if (state =? kNew) || (state =? kDeleted) then
      e ← (if state =? kNew
           then chs ← vset (channels_ e) (uint64 (fd_ c)) (Some p);
                Ok (EPoll (events_size e) chs (ctl_log e))
           else slot ← vget (channels_ e) (uint64 (fd_ c));
                _ ← check (bool_decide (slot = Some p));
                Ok e);
      let c := set_context kAdded c in
      Ok (<[p := c]> h, Update EPOLL_CTL_ADD c e)
    else if state =? kAdded then
      slot ← vget (channels_ e) (uint64 (fd_ c));
      _ ← check (bool_decide (slot = Some p));
      if IsNoneEvent c
      then Ok (<[p := set_context kDeleted c]> h, Update EPOLL_CTL_DEL c e)
      else Ok (h, Update EPOLL_CTL_MOD c e)
    else Ok (h, e).

(* @src claire/common/events/poller/EPollPoller.cc:133-152 EPollPoller::RemoveChannel *)
Definition epoll_RemoveChannel (in_loop : bool) (p : ptr) (h : heap) (e : EPollPoller)
  : res (heap * EPollPoller) :=
  _ ← check in_loop;
  c ← deref h p;
  _ ← check (uint64 (fd_ c) <? Zlen (channels_ e));
  slot ← vget (channels_ e) (uint64 (fd_ c));
  _ ← check (bool_decide (slot = Some p));
  _ ← check (IsNoneEvent c);
  let state := context_ c in
  _ ← check ((state =? kAdded) || (state =? kDeleted));
  let e := if state =? kAdded then Update EPOLL_CTL_DEL c e else e in
  chs ← vset (channels_ e) (uint64 (fd_ c)) None;
  Ok (<[p := set_context kNew c]> h, EPoll (events_size e) chs (ctl_log e)).

(* @src claire/common/events/poller/EPollPoller.h:16-24 EPollPoller *)
#[export] Instance epoll_poller : Poller EPollPoller := {
  poll := epoll_poll;
  UpdateChannel := epoll_UpdateChannel;
  RemoveChannel := epoll_RemoveChannel;
}.

(** ** The kernel's interest set

    [replay] runs the recorded epoll_ctl calls as epoll(7) documents them: ADD
    fails on a registered descriptor, MOD and DEL on one that is not. *)
Definition replay1 (k : gmap Z Z) (call : ctl_op * Z * Z) : option (gmap Z Z) :=
  let '(op, fd, evs) := call in
  match op, k !! fd with
  | EPOLL_CTL_ADD, None => Some (<[fd := evs]> k)
  | EPOLL_CTL_MOD, Some _ => Some (<[fd := evs]> k)
  | EPOLL_CTL_DEL, Some _ => Some (delete fd k)
  | _, _ => None
  end.

Definition replay (log : list (ctl_op * Z * Z)) : option (gmap Z Z) :=
  foldl (fun k call => k ≫= fun k => replay1 k call) (Some ∅) log.

Lemma replay_snoc log k call :
  replay log = Some k -> replay (log ++ [call]) = replay1 k call.
Proof. intros Hk. unfold replay in *. rewrite foldl_app. simpl. by rewrite Hk. Qed.

(** ** The invariant

    A channel is registered when its context is not kNew; the table holds
    exactly the registered channels, at their descriptors; the kernel watches
    exactly the channels whose context is kAdded. *)
Definition registered (c : Channel Cb) : Prop := context_ c <> kNew.

Record poller_inv (h : heap) (e : EPollPoller) (k : gmap Z Z) : Prop := {
  inv_log : replay (ctl_log e) = Some k;
  inv_size : (0 < length (channels_ e))%nat;
  inv_ctx : forall p c, h !! p = Some c ->
    0 <= fd_ c < 2 ^ 31 /\ (context_ c = kNew \/ context_ c = kAdded \/ context_ c = kDeleted);
  inv_fd : forall p q c d, h !! p = Some c -> h !! q = Some d -> fd_ c = fd_ d -> p = q;
  inv_slot : forall p c, h !! p = Some c -> registered c ->
    channels_ e !! Z.to_nat (fd_ c) = Some (Some p);
  inv_table : forall i p, channels_ e !! i = Some (Some p) ->
    exists c, h !! p = Some c /\ fd_ c = Z.of_nat i /\ registered c;
  inv_kernel : forall fd, is_Some (k !! fd) <->
    exists p c, h !! p = Some c /\ fd_ c = fd /\ context_ c = kAdded;
}.

Lemma resize_lookup l n i x : l !! i = Some x -> (length l <= n)%nat -> resize l n !! i = Some x.
Proof.
  intros Hi Hn. unfold resize. rewrite take_ge by done.
  by apply lookup_app_l_Some.
Qed.

Lemma resize_inv l n i p : (length l <= n)%nat -> resize l n !! i = Some (Some p) -> l !! i = Some (Some p).
Proof.
  intros Hn. unfold resize. rewrite take_ge by done. intros [H|[_ H]]%lookup_app_Some; [done|].
  by apply lookup_replicate in H as [? _].
Qed.

Lemma length_resize l n : (length l <= n)%nat -> length (resize l n) = n.
Proof. intros. unfold resize. rewrite take_ge, length_app, length_replicate by done. lia. Qed.

(** One channel changes, with the table and the kernel's set following it. *)
Lemma inv_change h e k p c c' size chs log k' :
  poller_inv h e k -> h !! p = Some c -> fd_ c' = fd_ c ->
  (context_ c' = kNew \/ context_ c' = kAdded \/ context_ c' = kDeleted) ->
  (0 < length chs)%nat -> replay log = Some k' ->
  (forall i q, i <> Z.to_nat (fd_ c) ->
     chs !! i = Some (Some q) <-> channels_ e !! i = Some (Some q)) ->
  (forall q, chs !! Z.to_nat (fd_ c) = Some (Some q) <-> registered c' /\ q = p) ->
  (forall fd, fd <> fd_ c -> k' !! fd = k !! fd) ->
  (is_Some (k' !! fd_ c) <-> context_ c' = kAdded) ->
  poller_inv (<[p := c']> h) (EPoll size chs log) k'.
Proof.
  intros I Hp Hfd Hctx Hlen Hlog Hother Hslot Hk Hkp.
  destruct (inv_ctx _ _ _ I _ _ Hp) as [Hr _].
  assert (Hne : forall q d, q <> p -> h !! q = Some d -> fd_ d <> fd_ c).
  { intros q d Hq Hd Heq. by apply Hq, (inv_fd _ _ _ I q p d c). }
  split; simpl; [done|done| | | | | ].
  - intros q d. rewrite lookup_insert. case_decide; [intros [= <-]; rewrite Hfd; auto|].
    apply (inv_ctx _ _ _ I).
  - intros q r d f. rewrite !lookup_insert. repeat case_decide; subst; intros Hd Hf Heq; simplify_eq.
    + done.
    + destruct (Hne _ _ ltac:(done) Hf). congruence.
    + destruct (Hne _ _ ltac:(done) Hd). congruence.
    + by eapply (inv_fd _ _ _ I).
  - intros q d. rewrite lookup_insert. case_decide; subst.
    + intros [= <-] Hreg. rewrite Hfd. by apply Hslot.
    + intros Hd Hreg. apply Hother; [|by apply (inv_slot _ _ _ I)].
      destruct (inv_ctx _ _ _ I _ _ Hd) as [? _]. specialize (Hne q d ltac:(done) Hd). lia.
  - intros i q Hi. destruct (decide (i = Z.to_nat (fd_ c))) as [->|Hi'].
    + apply Hslot in Hi as [Hreg ->]. exists c'. rewrite lookup_insert_eq, Hfd.
      split; [done|]. split; [lia|done].
    + apply Hother in Hi; [|done]. destruct (inv_table _ _ _ I _ _ Hi) as (d & Hd & Hf & Hreg).
      assert (p <> q) by (intros <-; simplify_eq; lia).
      exists d. by rewrite lookup_insert_ne.
  - intros fd. destruct (decide (fd = fd_ c)) as [->|Hf].
    + rewrite Hkp. split.
      * intros Ha. exists p, c'. by rewrite lookup_insert_eq.
      * intros (q & d & Hd & Hf & Ha). rewrite lookup_insert in Hd. case_decide; simplify_eq; [done|].
        by destruct (Hne q d).
    + rewrite Hk by done. rewrite (inv_kernel _ _ _ I fd). split; intros (q & d & Hd & Hf' & Ha).
      * assert (p <> q) by (intros <-; simplify_eq; done).
        exists q, d. by rewrite lookup_insert_ne.
      * rewrite lookup_insert in Hd. case_decide; simplify_eq. by exists q, d.
Qed.

(** Changes that leave the descriptor and the context alone. *)
Lemma inv_same h e k p c c' :
  poller_inv h e k -> h !! p = Some c -> fd_ c' = fd_ c -> context_ c' = context_ c ->
  poller_inv (<[p := c']> h) e k.
Proof.
  intros I Hp Hfd Hc. destruct e as [sz chs log].
  destruct (inv_ctx _ _ _ I _ _ Hp) as [Hr Hctx].
  eapply (inv_change h _ k p c c'); [exact I|exact Hp|exact Hfd|by rewrite Hc|apply I|apply I|done| |done|].
  - intros q. split.
    + intros Hq. destruct (inv_table _ _ _ I _ _ Hq) as (d & Hd & Hf & Hreg).
      assert (q = p) as -> by (apply (inv_fd _ _ _ I q p d c); [done|done|lia]).
      simplify_eq. unfold registered in *. by rewrite Hc.
    + intros [Hreg ->]. unfold registered in Hreg. rewrite Hc in Hreg.
      by apply (inv_slot _ _ _ I).
  - rewrite Hc, (inv_kernel _ _ _ I). split.
    + intros (q & d & Hd & Hf & Ha).
      assert (q = p) as -> by (by apply (inv_fd _ _ _ I q p d c)). by simplify_eq.
    + intros Ha. by exists p, c.
Qed.

Lemma uint64_fd h e k p c : poller_inv h e k -> h !! p = Some c -> uint64 (fd_ c) = fd_ c.
Proof.
  intros I Hp. destruct (inv_ctx _ _ _ I _ _ Hp) as [? _]. apply wrap_u_id. unfold fits_u. lia.
Qed.

(** A registered channel is found in the table. *)
Lemma inv_vget h e k p c :
  poller_inv h e k -> h !! p = Some c -> registered c ->
  vget (channels_ e) (fd_ c) = Ok (Some p) /\ fd_ c < Zlen (channels_ e).
Proof.
  intros I Hp Hr. pose proof (inv_slot _ _ _ I _ _ Hp Hr) as Hs.
  destruct (inv_ctx _ _ _ I _ _ Hp) as [? _].
  split; [apply vget_lookup; [lia|done]|]. apply lookup_lt_Some in Hs. unfold Zlen. lia.
Qed.

Lemma not_kernel h e k p c :
  poller_inv h e k -> h !! p = Some c -> context_ c <> kAdded -> k !! fd_ c = None.
Proof.
  intros I Hp Hc. apply eq_None_not_Some. rewrite (inv_kernel _ _ _ I).
  intros (q & d & Hd & Hf & Ha). assert (q = p) as -> by (by apply (inv_fd _ _ _ I q p d c)).
  by simplify_eq.
Qed.

(** The calls that stay within the table: a new channel's descriptor is below
    twice its size. *)
Definition fd_fits (c : Channel Cb) (e : EPollPoller) : Prop :=
  context_ c = kNew -> fd_ c < 2 * Zlen (channels_ e).

(** What a successful update leaves: the invariant, and the kernel watching the
    descriptor with the channel's events, unless an added channel lost them all. *)
Definition updated (p : ptr) (c : Channel Cb) (k : gmap Z Z) (h : heap) (r : res (heap * EPollPoller))
  : Prop :=
  let gone := (context_ c =? kAdded) && IsNoneEvent c in
  exists e' k',
    let h' := <[p := set_context (if gone then kDeleted else kAdded) c]> h in
    r = Ok (h', e') /\ poller_inv h' e' k' /\
    k' = (if gone then delete (fd_ c) k else <[fd_ c := events_ c]> k).

(** The table slot of a changed channel. *)
Lemma slot_spec h e k p c :
  poller_inv h e k -> h !! p = Some c -> registered c ->
  forall q, channels_ e !! Z.to_nat (fd_ c) = Some (Some q) <-> q = p.
Proof.
  intros I Hp Hr q. rewrite (inv_slot _ _ _ I _ _ Hp Hr). naive_solver.
Qed.

Lemma update_known h e k p c :
  poller_inv h e k -> h !! p = Some c -> registered c -> updated p c k h (epoll_UpdateChannel true p h e).
Proof.
  intros I Hp Hr. destruct (inv_vget _ _ _ _ _ I Hp Hr) as [Hv Hlt].
  pose proof (slot_spec _ _ _ _ _ I Hp Hr) as Hs.
  destruct (inv_ctx _ _ _ I _ _ Hp) as [Hfd Hctx].
  unfold updated, epoll_UpdateChannel, deref. rewrite Hp. rstep.
  rewrite (uint64_fd _ _ _ _ _ I Hp), (proj2 (Z.leb_gt _ _) Hlt). rstep. rewrite Hv. rstep.
  rewrite bool_decide_eq_true_2 by done.
  destruct Hctx as [Hc|[Hc|Hc]]; [by destruct (Hr Hc)|..]; rewrite Hc; cbn.
  - assert (is_Some (k !! fd_ c)) as [x Hx] by (apply (inv_kernel _ _ _ I); by exists p, c).
    destruct (IsNoneEvent c) eqn:En; cbn.
    + eexists _, _; (split; [reflexivity|split; [|reflexivity]]).
      eapply (inv_change h e k p c _ _ _ _ _ I Hp); cbn; try done; try apply I; auto.
      * rewrite (replay_snoc _ k) by apply I. cbn. by rewrite Hx.
      * intros q. rewrite Hs. split; [|tauto]. by intros ->.
      * intros fd Hne. by rewrite lookup_delete_ne.
      * rewrite lookup_delete_eq. split; [by intros [? [=]]|done].
    + assert (<[p := set_context kAdded c]> h = h) as ->
        by (apply insert_id; rewrite Hp; f_equal; destruct c; cbn in *; by subst).
      eexists _, _; (split; [reflexivity|split; [|reflexivity]]).
      pose proof (inv_change h e k p c c (events_size e) (channels_ e)
        (ctl_log e ++ [(EPOLL_CTL_MOD, fd_ c, events_ c)]) (<[fd_ c := events_ c]> k) I Hp) as J.
      rewrite (insert_id h p c) in J by done. apply J; cbn; try done; try apply I; auto.
      * rewrite (replay_snoc _ k) by apply I. cbn. by rewrite Hx.
      * intros q. rewrite Hs. tauto.
      * intros fd Hne. by rewrite lookup_insert_ne.
      * rewrite lookup_insert_eq. split; [done|by eexists].
  - assert (k !! fd_ c = None) as Hx by (eapply not_kernel; eauto; by rewrite Hc).
    eexists _, _; (split; [reflexivity|split; [|reflexivity]]).
    eapply (inv_change h e k p c _ _ _ _ _ I Hp); cbn; try done; try apply I; auto.
    + rewrite (replay_snoc _ k) by apply I. cbn. by rewrite Hx.
    + intros q. rewrite Hs. split; [|tauto]. by intros ->.
    + intros fd Hne. by rewrite lookup_insert_ne.
    + rewrite lookup_insert_eq. split; [done|by eexists].
Qed.

(** The table after room has been made for a new channel. *)
Definition grown (c : Channel Cb) (e : EPollPoller) : list (option ptr) :=
  if Zlen (channels_ e) <=? fd_ c
  then resize (channels_ e) (length (channels_ e) * 2) else channels_ e.

Lemma grown_spec h e k c i p :
  poller_inv h e k -> grown c e !! i = Some (Some p) <-> channels_ e !! i = Some (Some p).
Proof.
  intros I. pose proof (inv_size _ _ _ I). unfold grown. case_match; [|done]. split.
  - apply resize_inv. lia.
  - intros. apply resize_lookup; [done|lia].
Qed.

Lemma grown_length h e k c :
  poller_inv h e k -> fd_ c < 2 * Zlen (channels_ e) -> 0 <= fd_ c -> fd_ c < Zlen (grown c e).
Proof.
  intros I. pose proof (inv_size _ _ _ I). unfold grown, Zlen in *.
  destruct (_ <=? _) eqn:E; zify_bool; [rewrite length_resize by lia|]; lia.
Qed.

Lemma update_new h e k p c :
  poller_inv h e k -> h !! p = Some c -> context_ c = kNew -> fd_ c < 2 * Zlen (channels_ e) ->
  updated p c k h (epoll_UpdateChannel true p h e).
Proof.
  intros I Hp Hc Hfit. destruct (inv_ctx _ _ _ I _ _ Hp) as [Hfd _].
  pose proof (grown_length _ _ _ c I Hfit ltac:(lia)) as Hg.
  assert (k !! fd_ c = None) as Hx by (eapply not_kernel; eauto; by rewrite Hc).
  unfold updated, epoll_UpdateChannel, deref. rewrite Hp. rstep.
  rewrite (uint64_fd _ _ _ _ _ I Hp), Hc. rewrite andb_false_r.
  set (e1 := if _ <=? _ then _ else _).
  assert (channels_ e1 = grown c e /\ ctl_log e1 = ctl_log e) as [E1 E2]
    by (unfold e1, grown; by case_match).
  change (kNew =? kNew) with true. change (kNew =? kAdded) with false. rstep. rewrite E1.
  rewrite vset_ok by (split; [lia|done]). rstep.
  eexists _, _; (split; [reflexivity|split; [|reflexivity]]).
  eapply (inv_change h e k p c _ _ _ _ _ I Hp); cbn; try done; auto.
  - rewrite length_insert. unfold Zlen in Hg. lia.
  - rewrite E2, (replay_snoc _ k) by apply I. cbn. by rewrite Hx.
  - intros i q Hne. rewrite list_lookup_insert_ne by done. by eapply grown_spec.
  - intros q. rewrite list_lookup_insert_eq by (unfold Zlen in Hg; lia). split; [|by intros [_ ->]].
    by intros [= ->].
  - intros fd Hne. by rewrite lookup_insert_ne.
  - rewrite lookup_insert_eq. split; [done|by eexists].
Qed.

(** EnableReading() and the other interest changes never fail on the loop
    thread while the invariant holds and a new channel's descriptor is below
    twice the table's size: afterwards the invariant holds again, and the
    kernel watches the descriptor with exactly the new interest set, except
    that an added channel without any interest is no longer watched. *)
Theorem change_interest_ok h e k p c i :
  poller_inv h e k -> h !! p = Some c -> fd_fits c e ->
  let c' := set_events (interest_bits i (events_ c)) c in
  let gone := (context_ c =? kAdded) && IsNoneEvent c' in
  exists h' e' k', change_interest true i p h e = Ok (h', e') /\ poller_inv h' e' k' /\
    h' !! p = Some (set_context (if gone then kDeleted else kAdded) c') /\
    (forall fd, fd <> fd_ c -> k' !! fd = k !! fd) /\
    k' !! fd_ c = (if gone then None else Some (events_ c')).
Proof.
  intros I Hp Hfit c' gone.
  assert (poller_inv (<[p := c']> h) e k) as I' by (by eapply inv_same).
  assert (Hp' : <[p := c']> h !! p = Some c') by apply lookup_insert_eq.
  assert (updated p c' k (<[p := c']> h) (epoll_UpdateChannel true p (<[p := c']> h) e)) as U.
  { destruct (decide (context_ c = kNew)) as [Hn|Hn].
    - apply update_new; [done..|]. by apply Hfit.
    - by apply update_known. }
  destruct U as (e' & k' & Hr & J & Hk). exists (<[p := set_context (if gone then kDeleted else kAdded) c']> (<[p := c']> h)), e', k'.
  unfold change_interest, deref. rewrite Hp. rstep. split; [exact Hr|]. split; [exact J|].
  split; [apply lookup_insert_eq|]. subst k'. change (context_ c') with (context_ c).
  change (fd_ c') with (fd_ c). fold gone. destruct gone.
  - split; [intros; by rewrite lookup_delete_ne|apply lookup_delete_eq].
  - split; [intros; by rewrite lookup_insert_ne|apply lookup_insert_eq].
Qed.

(** A new channel whose descriptor is at least twice the table's size is
    written outside the table: channels_ is doubled once, not up to the
    descriptor. *)
Theorem UpdateChannel_large_fd e h p c :
  h !! p = Some c -> context_ c = kNew -> 0 <= fd_ c < 2 ^ 31 ->
  2 * Zlen (channels_ e) <= fd_ c ->
  epoll_UpdateChannel true p h e = Err OutOfBounds.
Proof.
  intros Hp Hc Hr Hbig. pose proof (Zlen_nonneg (channels_ e)).
  unfold epoll_UpdateChannel, deref. rewrite Hp. rstep.
  rewrite wrap_u_id by (unfold fits_u; lia). rewrite (proj2 (Z.leb_le _ _)) by lia.
  rewrite Hc. change (kNew =? kNew) with true. rstep. cbn [channels_].
  rewrite vset_oob; [done|]. right. unfold Zlen in *.
  destruct (decide (length (channels_ e) = 0)%nat) as [E|E].
  - destruct (channels_ e); [done|]. done.
  - rewrite length_resize by lia. lia.
Qed.

(** Remove() succeeds on a registered channel that has no interest left; the
    channel is new again, its table slot is NULL and the kernel no longer
    watches its descriptor. *)
Theorem RemoveChannel_ok h e k p c :
  poller_inv h e k -> h !! p = Some c -> registered c -> IsNoneEvent c = true ->
  exists h' e' k', Remove true p h e = Ok (h', e') /\ poller_inv h' e' k' /\
    h' !! p = Some (set_context kNew c) /\
    channels_ e' !! Z.to_nat (fd_ c) = Some None /\ k' = delete (fd_ c) k.
Proof.
  intros I Hp Hr Hn. destruct (inv_vget _ _ _ _ _ I Hp Hr) as [Hv Hlt].
  destruct (inv_ctx _ _ _ I _ _ Hp) as [Hfd Hctx].
  assert (Z.to_nat (fd_ c) < length (channels_ e))%nat as Hlt' by (unfold Zlen in Hlt; lia).
  unfold Remove, RemoveChannel, epoll_poller, epoll_RemoveChannel, deref. rewrite Hp. rstep.
  rewrite (uint64_fd _ _ _ _ _ I Hp), (proj2 (Z.ltb_lt _ _) Hlt), Hv, Hn. rstep.
  rewrite bool_decide_eq_true_2 by done. rstep.
  assert (Hst : (context_ c =? kAdded) || (context_ c =? kDeleted) = true).
  { destruct Hctx as [Hc|[Hc|Hc]]; [by destruct (Hr Hc)|..]; by rewrite Hc. }
  rewrite Hst. rstep. set (e1 := if _ =? _ then _ else _).
  assert (channels_ e1 = channels_ e) as -> by (unfold e1; by case_match).
  rewrite vset_ok by lia. rstep.
  eexists _, _, _; (split; [reflexivity|split; [|split; [apply lookup_insert_eq|split]]]); [| |reflexivity].
  - eapply (inv_change h e k p c _ _ _ _ _ I Hp); cbn; try done; auto.
    + rewrite length_insert. lia.
    + unfold e1. destruct (context_ c =? kAdded) eqn:Ec; zify_bool; cbn.
      * rewrite (replay_snoc _ k) by apply I. cbn.
        assert (is_Some (k !! fd_ c)) as [x ->]; [|done].
        apply (inv_kernel _ _ _ I). by exists p, c.
      * rewrite delete_id; [apply I|]. by eapply not_kernel.
    + intros i q Hne. by rewrite list_lookup_insert_ne.
    + intros q. rewrite list_lookup_insert_eq by done. split; [done|]. by intros [? _].
    + intros fd Hne. by rewrite lookup_delete_ne.
    + rewrite lookup_delete_eq. split; [by intros [? ?]|done].
  - cbn. by rewrite list_lookup_insert_eq.
Qed.

(** The last event mask reported for [fd], [r] when there is none. *)
Fixpoint last_event (fd : Z) (l : list (Z * Z)) (r : Z) : Z :=
  match l with
  | [] => r
  | (d, evs) :: l => last_event fd l (if d =? fd then evs else r)
  end.

Definition notify (l : list (Z * Z)) (c : Channel Cb) : Channel Cb :=
  set_revents (last_event (fd_ c) l (revents_ c)) c.

(** [p] is the channel of a reported event. *)
Definition event_channel (h : heap) (ev : Z * Z) (p : ptr) : Prop :=
  exists c, h !! p = Some c /\ fd_ c = ev.1 /\ context_ c = kAdded.

Lemma notify_fmap_cons h e k fd evs l p c :
  poller_inv h e k -> h !! p = Some c -> fd_ c = fd ->
  notify l <$> (<[p := set_revents evs c]> h) = notify ((fd, evs) :: l) <$> h.
Proof.
  intros I Hp Hf. apply map_eq. intros q. rewrite !lookup_fmap, lookup_insert. case_decide; subst.
  - rewrite Hp. cbn. unfold notify. cbn. by rewrite Z.eqb_refl.
  - destruct (h !! q) as [d|] eqn:Hq; [|done]. cbn. unfold notify. cbn.
    destruct (fd_ c =? fd_ d) eqn:E; zify_bool; [|done].
    by destruct (inv_fd _ _ _ I p q c d).
Qed.

Lemma poll_loop_ok l : forall h e k act,
  poller_inv h e k -> Forall (fun ev => is_Some (k !! ev.1)) l ->
  exists ps, poll_loop l e act h = Ok (act ++ ps, notify l <$> h) /\ Forall2 (event_channel h) l ps.
Proof.
  induction l as [|[fd evs] l IH]; intros h e k act I Hl; cbn [poll_loop].
  - exists []. rewrite app_nil_r. split; [|constructor]. f_equal. f_equal.
    symmetry. apply map_eq. intros p. rewrite lookup_fmap. destruct (h !! p) as [c|]; [|done].
    cbn. f_equal. by destruct c.
  - apply Forall_cons in Hl as [Hfd Hl]. cbn in Hfd.
    apply (inv_kernel _ _ _ I) in Hfd as (p & c & Hp & Hf & Ha).
    assert (registered c) as Hr by (unfold registered; by rewrite Ha).
    destruct (inv_vget _ _ _ _ _ I Hp Hr) as [Hv Hlt].
    destruct (inv_ctx _ _ _ I _ _ Hp) as [Hrange _]. subst fd.
    rewrite wrap_s_id by (unfold fits_s; lia).
    rewrite (proj2 (Z.leb_gt _ _) Hlt), Hv. rstep. unfold deref. rewrite Hp. rstep.
    rewrite Z.eqb_refl. rstep.
    assert (poller_inv (<[p := set_revents evs c]> h) e k) as I' by (by eapply inv_same).
    destruct (IH _ e k (act ++ [p]) I' Hl) as (ps & -> & Hps).
    exists (p :: ps). rewrite <- app_assoc. rewrite (notify_fmap_cons h e k (fd_ c)) by done.
    split; [done|]. constructor; [by exists c|].
    eapply Forall2_impl; [exact Hps|]. intros ev q (d & Hd & Hd' & Hd'').
    rewrite lookup_insert in Hd. case_decide; subst; [|by exists d].
    injection Hd as <-. by exists c.
Qed.

Lemma inv_notify h e k l : poller_inv h e k -> poller_inv (notify l <$> h) e k.
Proof.
  intros I. assert (forall p c', (notify l <$> h) !! p = Some c' ->
    exists c, h !! p = Some c /\ fd_ c' = fd_ c /\ context_ c' = context_ c) as Hn.
  { intros p c'. rewrite lookup_fmap. intros (c & -> & Hc)%fmap_Some. exists c. by subst. }
  split; try apply I.
  - intros p c' (c & Hc & -> & ->)%Hn. by eapply (inv_ctx _ _ _ I).
  - intros p q c' d' (c & Hc & -> & _)%Hn (d & Hd & -> & _)%Hn. by apply (inv_fd _ _ _ I).
  - unfold registered. intros p c' (c & Hc & -> & ->)%Hn. by apply (inv_slot _ _ _ I).
  - intros i p (c & Hc & Hf & Hr)%(inv_table _ _ _ I). exists (notify l c).
    by rewrite lookup_fmap, Hc.
  - intros fd. rewrite (inv_kernel _ _ _ I). split.
    + intros (p & c & Hc & Hf & Ha). exists p, (notify l c). by rewrite lookup_fmap, Hc.
    + intros (p & c' & (c & Hc & Hf & Ha)%Hn & Hf' & Ha'). exists p, c. split; [done|]. by rewrite <- Hf, <- Ha.
Qed.

(** When epoll_wait reports descriptors the kernel watches, poll does not
    fail and fills the active list with, event for event, the channel registered
    for the descriptor; each channel's revents becomes the events reported for
    it, nothing else of any channel changes, and the event buffer doubles when
    it was full. *)
Theorem poll_active h e k l :
  poller_inv h e k -> Forall (fun ev => is_Some (k !! ev.1)) l ->
  exists act e', epoll_poll (Ready l) h e = Ok (act, notify l <$> h, e') /\
    Forall2 (event_channel h) l act /\ poller_inv (notify l <$> h) e' k /\
    events_size e' = if events_size e =? Zlen l then 2 * Zlen l else events_size e.
Proof.
  intros I Hl. destruct (poll_loop_ok l h e k [] I Hl) as (ps & Hr & Hps).
  exists ps. unfold epoll_poll. rewrite Hr. rstep. eexists. split; [reflexivity|].
  split; [done|]. split; [|done]. apply (inv_notify _ _ _ l) in I. split; apply I.
Qed.

(** ** Reachable states

    Channels are created for descriptors no other channel has, change their
    interest, are removed, notified, and destroyed once they are new again. *)
Inductive poller_step : heap * EPollPoller -> heap * EPollPoller -> Prop :=
  | step_new h e p c : h !! p = None -> context_ c = kNew -> 0 <= fd_ c < 2 ^ 31 ->
      (forall q d, h !! q = Some d -> fd_ d <> fd_ c) -> poller_step (h, e) (<[p := c]> h, e)
  | step_change h e p c i h' e' : h !! p = Some c -> fd_fits c e ->
      change_interest true i p h e = Ok (h', e') -> poller_step (h, e) (h', e')
  | step_remove h e p c h' e' : h !! p = Some c -> registered c ->
      Remove true p h e = Ok (h', e') -> poller_step (h, e) (h', e')
  | step_poll h e w act h' e' k l : w = Ready l -> replay (ctl_log e) = Some k ->
      Forall (fun ev => is_Some (k !! ev.1)) l ->
      epoll_poll w h e = Ok (act, h', e') -> poller_step (h, e) (h', e')
  | step_destroy h e p c : h !! p = Some c -> context_ c = kNew -> poller_step (h, e) (delete p h, e).

Lemma poller_inv_init : poller_inv ∅ EPollPoller_init ∅.
Proof.
  split; try done; cbn; [lia|..].
  - intros i p H. change (replicate 64 None !! i = Some (Some p)) in H.
    by apply lookup_replicate in H as [? _].
  - intros fd. split; [by intros [? ?]|]. by intros (p & c & ? & _).
Qed.

Lemma inv_new h e k p c :
  poller_inv h e k -> h !! p = None -> context_ c = kNew -> 0 <= fd_ c < 2 ^ 31 ->
  (forall q d, h !! q = Some d -> fd_ d <> fd_ c) -> poller_inv (<[p := c]> h) e k.
Proof.
  intros I Hp Hc Hr Hfresh. split; try apply I.
  - intros q d. rewrite lookup_insert. case_decide; [intros [= <-]; auto|]. apply (inv_ctx _ _ _ I).
  - intros q r d f. rewrite !lookup_insert. repeat case_decide; subst; intros Hd Hf Heq; simplify_eq.
    + done.
    + by destruct (Hfresh _ _ Hf).
    + by destruct (Hfresh _ _ Hd).
    + by eapply (inv_fd _ _ _ I).
  - intros q d. rewrite lookup_insert. case_decide; [|apply (inv_slot _ _ _ I)].
    intros [= <-] Hreg. by destruct (Hreg Hc).
  - intros i q (d & Hd & Hf & Hreg)%(inv_table _ _ _ I). exists d.
    assert (p <> q) by (intros ->; congruence). by rewrite lookup_insert_ne.
  - intros fd. rewrite (inv_kernel _ _ _ I). split; intros (q & d & Hd & Hf & Ha); exists q, d.
    + assert (p <> q) by (intros ->; congruence). by rewrite lookup_insert_ne.
    + rewrite lookup_insert in Hd. case_decide; simplify_eq; [|done].
      rewrite Hc in Ha. done.
Qed.

Lemma inv_destroy h e k p c :
  poller_inv h e k -> h !! p = Some c -> context_ c = kNew -> poller_inv (delete p h) e k.
Proof.
  intros I Hp Hc. assert (Hdel : forall q d, delete p h !! q = Some d -> h !! q = Some d).
  { intros q d [_ ?]%lookup_delete_Some. done. }
  assert (Hkeep : forall q d, h !! q = Some d -> context_ d <> kNew -> delete p h !! q = Some d).
  { intros q d Hq Hd. apply lookup_delete_Some. split; [|done]. intros <-. by simplify_eq. }
  split; try apply I.
  - intros q d Hq%Hdel. by eapply (inv_ctx _ _ _ I).
  - intros q r d f Hq%Hdel Hr%Hdel. by apply (inv_fd _ _ _ I).
  - intros q d Hq%Hdel. by apply (inv_slot _ _ _ I).
  - intros i q (d & Hd & Hf & Hreg)%(inv_table _ _ _ I). exists d. auto.
  - intros fd. rewrite (inv_kernel _ _ _ I). split; intros (q & d & Hd & Hf & Ha); exists q, d.
    + split; [apply Hkeep; [done|by rewrite Ha]|done].
    + auto.
Qed.

Lemma Remove_needs_none in_loop h e p c r :
  h !! p = Some c -> Remove in_loop p h e = Ok r -> in_loop = true /\ IsNoneEvent c = true.
Proof.
  intros Hp Hr. unfold Remove, RemoveChannel, epoll_poller, epoll_RemoveChannel, deref in Hr.
  rewrite Hp in Hr. res_inv. by simplify_eq.
Qed.

Lemma poller_step_inv st st' :
  poller_step st st' -> (exists k, poller_inv st.1 st.2 k) -> exists k, poller_inv st'.1 st'.2 k.
Proof.
  intros Hs [k I]. inversion Hs as [h e p c|h e p c i h' e'|h e p c h' e' Hp Hr Hrm|h e w act h' e' k0 l|h e p c];
    subst; cbn [fst snd] in *.
  - exists k. by apply inv_new.
  - destruct (change_interest_ok h e k p c i) as (h3 & e3 & k3 & ? & ? & _); [done..|].
    ok_eq. by exists k3.
  - destruct (Remove_needs_none _ _ _ _ _ _ Hp Hrm) as [_ Hn].
    destruct (RemoveChannel_ok h e k p c) as (h3 & e3 & k3 & ? & ? & _); [done..|].
    ok_eq. by exists k3.
  - assert (k0 = k) as -> by (pose proof (inv_log _ _ _ I); congruence).
    destruct (poll_active h e k l) as (act' & e3 & ? & _ & ? & _); [done..|].
    ok_eq. by exists k.
  - exists k. by eapply inv_destroy.
Qed.

(** C17: in every reachable state the table holds exactly the registered
    channels, each at its descriptor, the kernel watches exactly the added ones,
    and no epoll_ctl call so far could fail: the calls form a valid sequence of
    ADD, MOD and DEL for every descriptor. *)
Theorem poller_reachable st :
  rtc poller_step (∅, EPollPoller_init) st -> exists k, poller_inv st.1 st.2 k.
Proof.
  intros Hr. assert (exists k, poller_inv (∅ : heap) EPollPoller_init k) as H0
    by (exists ∅; apply poller_inv_init).
  change (∅ : heap) with ((∅ : heap, EPollPoller_init).1) in H0.
  change EPollPoller_init with ((∅ : heap, EPollPoller_init).2) in H0 at 2.
  induction Hr as [st|st1 st2 st3 H12 _ IH]; [done|]. apply IH. by eapply poller_step_inv.
Qed.

End Poller.
Arguments EPollPoller : clear implicits.

(** One channel on descriptor 5, watched for reading, then removed. *)
Definition demo_channel (fd : Z) : Channel nat := Channel_new fd.

Lemma demo_reach fd : 0 <= fd < 128 ->
  poller_inv {[0%nat := demo_channel fd]} EPollPoller_init ∅.
Proof.
  intros Hfd. apply inv_new; try done; [apply poller_inv_init|cbn; lia].
Qed.

Lemma change_interest_ok_witness :
  exists h' e' k',
    change_interest true EnableReading 0%nat {[0%nat := demo_channel 5]} EPollPoller_init = Ok (h', e') /\
    poller_inv h' e' k' /\
    h' !! 0%nat = Some (set_context kAdded (set_events kReadEvent (demo_channel 5))) /\
    (forall fd, fd <> 5 -> k' !! fd = (∅ : gmap Z Z) !! fd) /\ k' !! 5 = Some kReadEvent.
Proof.
  apply (change_interest_ok {[0%nat := demo_channel 5]} EPollPoller_init ∅ 0%nat (demo_channel 5) EnableReading).
  - apply demo_reach. lia.
  - reflexivity.
  - intros _. vm_compute. reflexivity.
Defined.

Lemma UpdateChannel_large_fd_witness :
  epoll_UpdateChannel true 0%nat {[0%nat := demo_channel 128]} EPollPoller_init = Err OutOfBounds.
Proof.
  apply (UpdateChannel_large_fd EPollPoller_init _ 0%nat (demo_channel 128)); vm_compute; intuition discriminate.
Defined.

(** The channel registered without interest, as a new DisableAll() leaves it. *)
Definition demo_added (fd : Z) : gmap ptr (Channel nat) := {[0%nat := set_context kAdded (demo_channel fd)]}.

Lemma demo_added_reach fd : 0 <= fd < 128 -> exists e, poller_inv (demo_added fd) e {[fd := 0]}.
Proof.
  intros Hfd. destruct (update_new {[0%nat := demo_channel fd]} EPollPoller_init ∅ 0%nat (demo_channel fd))
    as (e & k & _ & I & Hk); [by apply demo_reach|apply lookup_singleton_eq|done| |].
  - change (fd < 2 * 64). lia.
  - exists e. cbn in *. rewrite insert_singleton_eq in I. subst k. exact I.
Qed.

Lemma RemoveChannel_ok_witness :
  exists e h' e' k',
    Remove true 0%nat (demo_added 5) e = Ok (h', e') /\ poller_inv h' e' k' /\
    h' !! 0%nat = Some (set_context kNew (set_context kAdded (demo_channel 5))) /\
    channels_ e' !! Z.to_nat 5 = Some None /\ k' = delete 5 {[5 := 0]}.
Proof.
  destruct (demo_added_reach 5 ltac:(lia)) as [e I]. exists e.
  apply (RemoveChannel_ok _ e {[5 := 0]} 0%nat (set_context kAdded (demo_channel 5)) I); done.
Defined.

Lemma poll_active_witness :
  exists e act e', epoll_poll (Ready [(5, POLLIN)]) (demo_added 5) e =
      Ok (act, notify [(5, POLLIN)] <$> demo_added 5, e') /\
    Forall2 (event_channel (demo_added 5)) [(5, POLLIN)] act /\
    poller_inv (notify [(5, POLLIN)] <$> demo_added 5) e' {[5 := 0]} /\
    events_size e' = if events_size e =? Zlen [(5, POLLIN)] then 2 * Zlen [(5, POLLIN)] else events_size e.
Proof.
  destruct (demo_added_reach 5 ltac:(lia)) as [e I]. exists e.
  apply (poll_active _ e {[5 := 0]} [(5, POLLIN)] I). by repeat constructor.
Defined.

Lemma poller_reachable_witness :
  rtc poller_step (∅, EPollPoller_init) ({[0%nat := demo_channel 5]}, EPollPoller_init) /\
  exists k, poller_inv {[0%nat := demo_channel 5]} EPollPoller_init k.
Proof.
  assert (rtc poller_step (∅, EPollPoller_init) ({[0%nat := demo_channel 5]}, EPollPoller_init)) as R.
  { apply rtc_once, (step_new ∅ EPollPoller_init 0%nat (demo_channel 5)); done. }
  split; [exact R|]. apply (poller_reachable _ R).
Defined.
