(* ===== verification/TimeoutQueue.v ===== *)
(** * events/TimeoutQueue: timers of an event loop

    The queue of pending timeouts, the timerfd it arms, and the operations of
    claire/common/events/TimeoutQueue.{h,cc}. The boost::multi_index container
    is used through the interface [EventSet]; callbacks are opaque values whose
    calls back into the queue are given by [script]. *)

From S2P Require Import Prelude Timestamp.
From Stdlib Require Import Sorted.

(* @src claire/common/events/TimeoutQueue.h:82-88 TimeoutQueue::Event *)
Record Event {Callback : Type} := MkEvent {
  ev_id : Z;
  expiration : Z;
  repeat_interval : Z;
  callback : Callback;
}.
Arguments Event : clear implicits.
Arguments MkEvent {Callback}.

Definition expires_le {C} (a b : Event C) : Prop := expiration a <= expiration b.

(** ** The multi_index container

    What the queue uses of [timeouts_]: the traversal of the by-expiration
    index, insertion (refused when the id is taken), erasure by id, and erasure
    of the range [begin(), upper_bound(now)) of the by-expiration index. *)
(* @src claire/common/events/TimeoutQueue.h:90-106 TimeoutQueue::Set *)
Class EventSet (C S : Type) := {
  es_empty : S;
  by_expiration : S -> list (Event C);
  es_insert : Event C -> S -> S;
  es_erase_id : Z -> S -> S;
  es_erase_upto : Z -> S -> S;
}.

Definition ids {C} (l : list (Event C)) : list Z := ev_id <$> l.

Class EventSetLaws (C S : Type) `{EventSet C S} := {
  es_empty_law : by_expiration es_empty = [];
  es_sorted_law : forall s, StronglySorted expires_le (by_expiration s);
  es_unique_law : forall s, NoDup (ids (by_expiration s));
  es_insert_new_law : forall e s,
    ev_id e ∉ ids (by_expiration s) ->
    by_expiration (es_insert e s) ≡ₚ e :: by_expiration s;
  es_insert_dup_law : forall e s,
    ev_id e ∈ ids (by_expiration s) -> by_expiration (es_insert e s) = by_expiration s;
  es_erase_id_law : forall i s,
    by_expiration (es_erase_id i s) = filter (fun e => ev_id e <> i) (by_expiration s);
  es_erase_upto_law : forall now s,
    by_expiration (es_erase_upto now s) = filter (fun e => now < expiration e) (by_expiration s);
}.

(** ** The timer file descriptor *)

Record timespec := MkTimespec { tv_sec : Z; tv_nsec : Z }.

(** What [timerfd_settime] last programmed, and the wall clock (microseconds)
    read just before; [None] until the first call. *)
Definition TimerFd : Type := option (timespec * Z).

(* @src claire/common/events/TimeoutQueue.cc:50-62 HowMuchTimeFromNow *)
Definition HowMuchTimeFromNow (when now : Z) : timespec :=
  let delta := int64 (when - now) in
  let delta := if delta <? 100 then 100 else delta in
  MkTimespec (Z.quot delta 1000000) (Z.rem delta kMicroSecondsPerSecond * 1000).

(** [now] is what Timestamp::Now() returns during the call. *)
(* @src claire/common/events/TimeoutQueue.cc:74-89 ResetTimerfd *)
Definition ResetTimerfd (now expiration : Z) : TimerFd :=
  Some (HowMuchTimeFromNow expiration now, now).

(** ** The queue *)
Section TimeoutQueue.
Context {C S : Type} `{EventSet C S}.

(* @src claire/common/events/TimeoutQueue.h:131-136 TimeoutQueue *)
Record TimeoutQueue := TQ {
  timeouts_ : S;
  next_ : Z;
  timer_ : TimerFd;
}.

(** What Add, AddRepeating and Cancel hand to loop_->Run. *)
Inductive QueueTask :=
  | AddTask (e : Event C)
  | CancelTask (i : Z).

(* @src claire/common/events/TimeoutQueue.cc:93-103 TimeoutQueue::TimeoutQueue *)
Definition TimeoutQueue_init : TimeoutQueue := TQ es_empty 1 None.

(* @src claire/common/events/TimeoutQueue.cc:171-175 TimeoutQueue::NextExpiration *)
Definition NextExpiration (q : TimeoutQueue) : Z :=
  match by_expiration (timeouts_ q) with
  | [] => INT64_MAX
  | e :: _ => expiration e
  end.

(* @src claire/common/events/TimeoutQueue.cc:116-130 TimeoutQueue::Add *)
Definition Add (exp : Z) (cb : C) (q : TimeoutQueue) : Z * TimeoutQueue * QueueTask :=
  let id := next_ q in
  (id, TQ (timeouts_ q) (next_ q + 1) (timer_ q), AddTask (MkEvent id exp (-1) cb)).

(* @src claire/common/events/TimeoutQueue.cc:132-146 TimeoutQueue::AddRepeating *)
Definition AddRepeating (now interval : Z) (cb : C) (q : TimeoutQueue)
  : Z * TimeoutQueue * QueueTask :=
  let id := next_ q in
  (id, TQ (timeouts_ q) (next_ q + 1) (timer_ q),
   AddTask (MkEvent id (int64 (now + interval)) interval cb)).

(* @src claire/common/events/TimeoutQueue.cc:160-163 TimeoutQueue::Cancel *)
Definition Cancel (i : Z) : QueueTask := CancelTask i.

(** [in_loop] is loop_->IsInLoopThread(). *)
(* @src claire/common/events/TimeoutQueue.cc:148-158 TimeoutQueue::AddInLoop *)
Definition AddInLoop (in_loop : bool) (clock : Z) (e : Event C) (q : TimeoutQueue)
  : res TimeoutQueue :=
  _ ← check in_loop;
  let reset := expiration e <? NextExpiration q in
  let q := TQ (es_insert e (timeouts_ q)) (next_ q) (timer_ q) in
  if reset
  then Ok (TQ (timeouts_ q) (next_ q) (ResetTimerfd clock (NextExpiration q)))
  else Ok q.

(* @src claire/common/events/TimeoutQueue.cc:165-169 TimeoutQueue::CancelInLoop *)
Definition CancelInLoop (in_loop : bool) (i : Z) (q : TimeoutQueue) : res TimeoutQueue :=
  _ ← check in_loop;
  Ok (TQ (es_erase_id i (timeouts_ q)) (next_ q) (timer_ q)).

Definition run_task (in_loop : bool) (clock : Z) (t : QueueTask) (q : TimeoutQueue)
  : res TimeoutQueue :=
  match t with
  | AddTask e => AddInLoop in_loop clock e q
  | CancelTask i => CancelInLoop in_loop i q
  end.

(** A call of the queue's public interface; [clock] is the wall clock during
    the call. *)
Inductive QueueOp :=
  | OpAdd (clock exp : Z) (cb : C)
  | OpAddRepeating (clock now interval : Z) (cb : C)
  | OpCancel (i : Z).

(** The call made by the loop thread: loop_->Run executes the task at once. *)
Definition exec_op (op : QueueOp) (q : TimeoutQueue) : res TimeoutQueue :=
  match op with
  | OpAdd clock exp cb =>
      let '(_, q, t) := Add exp cb q in run_task true clock t q
  | OpAddRepeating clock now interval cb =>
      let '(_, q, t) := AddRepeating now interval cb q in run_task true clock t q
  | OpCancel i => run_task true 0 (Cancel i) q
  end.

Fixpoint exec_ops (ops : list QueueOp) (q : TimeoutQueue) : res TimeoutQueue :=
  match ops with
  | [] => Ok q
  | op :: ops => q ← exec_op op q; exec_ops ops q
  end.

(** What a callback does to the queue when it is called in a given state. *)
Variable script : C -> TimeoutQueue -> list QueueOp.

(** The first loop of Run: repeating events are inserted again. *)
(* @src claire/common/events/TimeoutQueue.cc:185-195 TimeoutQueue::Run *)
Fixpoint reinsert (now : Z) (expired : list (Event C)) (s : S) : S :=
  match expired with
  | [] => s
  | e :: rest =>
      reinsert now rest
        (if 0 <=? repeat_interval e
         then es_insert (MkEvent (ev_id e) (int64 (now + repeat_interval e))
                                 (repeat_interval e) (callback e)) s
         else s)
  end.

(** The call of a callback: the queue after the call, with the record of the call. *)
(* @src claire/common/events/TimeoutQueue.cc:201-201 TimeoutQueue::Run *)
Definition call (e : Event C) (q : TimeoutQueue) : res (list (Event C) * TimeoutQueue) :=
  q ← exec_ops (script (callback e) q) q; Ok ([e], q).

(** The second loop of Run: the callbacks are called, in order. *)
(* @src claire/common/events/TimeoutQueue.cc:199-202 TimeoutQueue::Run *)
Fixpoint call_all (expired : list (Event C)) (q : TimeoutQueue) : res (list (Event C) * TimeoutQueue) :=
  match expired with
  | [] => Ok ([], q)
  | e :: rest =>
      '(now_called, q) ← call e q;
      '(then_called, q) ← call_all rest q;
      Ok (now_called ++ then_called, q)
  end.

(** Run returns the record of the calls it made, the next expiration and the
    queue. *)
(* @src claire/common/events/TimeoutQueue.cc:177-204 TimeoutQueue::Run *)
Definition Run (now : Z) (q : TimeoutQueue) : res (list (Event C) * Z * TimeoutQueue) :=
  let expired := filter (fun e => expiration e <= now) (by_expiration (timeouts_ q)) in
  let s := es_erase_upto now (timeouts_ q) in
  let q := TQ (reinsert now expired s) (next_ q) (timer_ q) in
  '(called, q) ← call_all expired q;
  Ok (called, NextExpiration q, q).

(** [now] and [clock] are the two readings of Timestamp::Now(). *)
(* @src claire/common/events/TimeoutQueue.cc:110-114 TimeoutQueue::OnTimer *)
Definition OnTimer (now clock : Z) (q : TimeoutQueue) : res (list (Event C) * TimeoutQueue) :=
  '(fired, next, q) ← Run now q;
  Ok (fired, TQ (timeouts_ q) (next_ q) (ResetTimerfd clock next)).

End TimeoutQueue.
Arguments TimeoutQueue : clear implicits.
Arguments QueueTask : clear implicits.
Arguments QueueOp : clear implicits.

(** ** A container that satisfies the interface

    Events are kept in a list and sorted when they are traversed. *)
Module ListEventSet.
Section ListEventSet.
Context {C : Type}.

Fixpoint dedup (l : list (Event C)) : list (Event C) :=
  match l with
  | [] => []
  | e :: l => e :: filter (fun x => ev_id x <> ev_id e) (dedup l)
  end.

Fixpoint ins (e : Event C) (l : list (Event C)) : list (Event C) :=
  match l with
  | [] => [e]
  | x :: r => if expiration e <=? expiration x then e :: l else x :: ins e r
  end.

Definition sort (l : list (Event C)) : list (Event C) := foldr ins [] l.

#[export] Instance list_event_set : EventSet C (list (Event C)) := {
  es_empty := [];
  by_expiration s := sort (dedup s);
  es_insert e s :=
    if decide (ev_id e ∈ ids (sort (dedup s))) then s else e :: sort (dedup s);
  es_erase_id i s := filter (fun e => ev_id e <> i) (sort (dedup s));
  es_erase_upto now s := filter (fun e => now < expiration e) (sort (dedup s));
}.

Lemma ins_perm e l : ins e l ≡ₚ e :: l.
Proof.
  induction l as [|x l IH]; simpl; [done|].
  destruct (_ <=? _); [done|]. rewrite IH. apply Permutation_swap.
Qed.

Lemma sort_perm l : sort l ≡ₚ l.
Proof. induction l as [|e l IH]; simpl; [done|]. by rewrite ins_perm, IH. Qed.

Lemma ins_sorted e l : StronglySorted expires_le l -> StronglySorted expires_le (ins e l).
Proof.
  induction 1 as [|x l Hl IH Hx]; simpl; [by repeat constructor|].
  destruct (_ <=? _) eqn:E; zify_bool.
  - constructor; [by constructor|]. constructor; [done|].
    eapply Forall_impl; [exact Hx|]. unfold expires_le. lia.
  - constructor; [done|]. rewrite ins_perm. constructor; [unfold expires_le; lia | done].
Qed.

Lemma sort_sorted l : StronglySorted expires_le (sort l).
Proof. induction l; simpl; [constructor | by apply ins_sorted]. Qed.

Lemma sort_id l : StronglySorted expires_le l -> sort l = l.
Proof.
  induction 1 as [|x l Hl IH Hx]; simpl; [done|]. rewrite IH.
  destruct l as [|y l]; simpl; [done|].
  inversion Hx; subst. unfold expires_le in *.
  by rewrite (proj2 (Z.leb_le _ _)).
Qed.

Lemma ids_filter_in (P : Event C -> Prop) `{!forall x, Decision (P x)} i l :
  i ∈ ids (filter P l) -> i ∈ ids l.
Proof.
  unfold ids. rewrite !list_elem_of_fmap. intros (e & -> & He%list_elem_of_filter). naive_solver.
Qed.

Lemma NoDup_ids_filter (P : Event C -> Prop) `{!forall x, Decision (P x)} l :
  NoDup (ids l) -> NoDup (ids (filter P l)).
Proof.
  induction l as [|e l IH]; [done|]. unfold ids in *. rewrite fmap_cons, NoDup_cons.
  intros [Hn Hl]. rewrite filter_cons. case_decide; [|by apply IH].
  rewrite fmap_cons, NoDup_cons. split; [|by apply IH].
  contradict Hn. by eapply ids_filter_in.
Qed.

Lemma dedup_nodup l : NoDup (ids (dedup l)).
Proof.
  induction l as [|e l IH]; simpl; [constructor|].
  constructor; [|by apply NoDup_ids_filter].
  intros (x & Hx & [Hne _]%list_elem_of_filter)%list_elem_of_fmap. congruence.
Qed.

Lemma dedup_id l : NoDup (ids l) -> dedup l = l.
Proof.
  induction l as [|e l IH]; [done|]. unfold ids. rewrite fmap_cons, NoDup_cons. intros [Hn Hl].
  simpl. rewrite IH by done. f_equal. apply filter_all, Forall_forall. intros x Hx ?.
  apply Hn, list_elem_of_fmap. eauto.
Qed.

Lemma StronglySorted_filter (P : Event C -> Prop) `{!forall x, Decision (P x)} l :
  StronglySorted expires_le l -> StronglySorted expires_le (filter P l).
Proof.
  induction 1 as [|x l Hl IH Hx]; [constructor|]. rewrite filter_cons. case_decide; [|done].
  constructor; [done|]. rewrite Forall_forall in Hx |- *.
  intros y [_ Hy]%list_elem_of_filter. by apply Hx.
Qed.

Lemma sort_dedup_nodup l : NoDup (ids (sort (dedup l))).
Proof. unfold ids. rewrite sort_perm. apply dedup_nodup. Qed.

Lemma norm_filter (P : Event C -> Prop) `{!forall x, Decision (P x)} l :
  sort (dedup (filter P (sort (dedup l)))) = filter P (sort (dedup l)).
Proof.
  rewrite dedup_id by apply NoDup_ids_filter, sort_dedup_nodup.
  apply sort_id, StronglySorted_filter, sort_sorted.
Qed.

#[export] Instance list_event_set_laws : EventSetLaws C (list (Event C)).
Proof.
  split; simpl.
  - done.
  - intros s. apply sort_sorted.
  - intros s. apply sort_dedup_nodup.
  - intros e s Hn. rewrite decide_False by done. rewrite sort_perm. simpl. apply perm_skip.
    rewrite (dedup_id (sort (dedup s))) by apply sort_dedup_nodup.
    rewrite filter_all; [done|]. apply Forall_forall. intros x Hx Heq. apply Hn.
    rewrite <- Heq. apply list_elem_of_fmap. eauto.
  - intros e s Hin. by rewrite decide_True.
  - intros i s. apply norm_filter.
  - intros i s. apply norm_filter.
Qed.

End ListEventSet.
End ListEventSet.

(** ** Lemmas *)
Section Lemmas.
Context {C S : Type} `{L : EventSetLaws C S}.
Variable script : C -> TimeoutQueue S -> list (QueueOp C).

Definition elems (q : TimeoutQueue S) : list (Event C) := by_expiration (timeouts_ q).

Lemma NextExpiration_le q e : e ∈ elems q -> NextExpiration q <= expiration e.
Proof.
  unfold NextExpiration, elems. pose proof (es_sorted_law (timeouts_ q)) as Hs.
  destruct (by_expiration (timeouts_ q)) as [|x l]; [by intros ?%not_elem_of_nil|].
  inversion Hs as [|? ? _ Hx]; subst. rewrite Forall_forall in Hx.
  intros [->|Hin]%elem_of_cons; [lia|]. by apply Hx in Hin.
Qed.

Lemma NextExpiration_cases q :
  (elems q = [] /\ NextExpiration q = INT64_MAX) \/
  (exists e, e ∈ elems q /\ NextExpiration q = expiration e).
Proof.
  unfold NextExpiration, elems. destruct (by_expiration (timeouts_ q)) as [|x l]; [by left|].
  right. exists x. split; [apply elem_of_cons; by left | done].
Qed.

(** Two states with the same events, up to order, have the same next expiration. *)
Lemma NextExpiration_ge q n :
  n <= INT64_MAX -> (forall e, e ∈ elems q -> n <= expiration e) -> n <= NextExpiration q.
Proof.
  intros Hn He. destruct (NextExpiration_cases q) as [[_ ->]|(e & Hin & ->)]; auto.
Qed.

(** The identifiers after an operation are old ones or freshly allocated. *)
Definition grows (q q' : TimeoutQueue S) : Prop :=
  next_ q <= next_ q' /\
  forall i, i ∈ ids (elems q') -> i ∈ ids (elems q) \/ next_ q <= i < next_ q'.

#[export] Instance grows_preorder : PreOrder grows.
Proof.
  split.
  - intros q. split; [lia|auto].
  - intros q1 q2 q3 [N1 I1] [N2 I2]. split; [lia|].
    intros i [Hi|Hi]%I2; [apply I1 in Hi as [?|?]; [auto|right; lia] | right; lia].
Qed.

Lemma ids_insert e s i :
  i ∈ ids (by_expiration (es_insert e s)) -> i = ev_id e \/ i ∈ ids (by_expiration s).
Proof.
  destruct (decide (ev_id e ∈ ids (by_expiration s))) as [Hin|Hin].
  - rewrite es_insert_dup_law by done. auto.
  - unfold ids. rewrite (es_insert_new_law e s) by done. by intros [->|?]%elem_of_cons; auto.
Qed.

Lemma elems_insert e s x :
  x ∈ by_expiration (es_insert e s) -> x = e \/ x ∈ by_expiration s.
Proof.
  destruct (decide (ev_id e ∈ ids (by_expiration s))) as [Hin|Hin].
  - rewrite es_insert_dup_law by done. auto.
  - rewrite (es_insert_new_law e s) by done. by intros [->|?]%elem_of_cons; auto.
Qed.

Lemma AddInLoop_ok clock e q :
  exists q', AddInLoop true clock e q = Ok q' /\ next_ q' = next_ q /\
    timeouts_ q' = es_insert e (timeouts_ q).
Proof. unfold AddInLoop. simpl. destruct (_ <? _); eexists; split; done. Qed.

Lemma add_grows clock id exp r cb q q' :
  id = next_ q ->
  AddInLoop true clock (MkEvent id exp r cb) (TQ (timeouts_ q) (next_ q + 1) (timer_ q)) = Ok q' ->
  grows q q'.
Proof.
  intros -> Hq.
  destruct (AddInLoop_ok clock (MkEvent (next_ q) exp r cb)
              (TQ (timeouts_ q) (next_ q + 1) (timer_ q))) as (q1 & E & N & T).
  rewrite E in Hq. injection Hq as <-. unfold grows, elems. rewrite N, T. simpl.
  split; [lia|]. intros i [->|Hi]%ids_insert; simpl; [right; lia | by left].
Qed.

Lemma ids_erase i s j :
  j ∈ ids (by_expiration (es_erase_id i s)) -> j <> i /\ j ∈ ids (by_expiration s).
Proof.
  rewrite es_erase_id_law. intros (x & -> & [Hne Hx]%list_elem_of_filter)%list_elem_of_fmap.
  split; [done|]. apply list_elem_of_fmap. eauto.
Qed.

Lemma exec_op_ok op q : exists q', exec_op op q = Ok q' /\ grows q q'.
Proof.
  destruct op as [clock exp cb|clock now iv cb|i]; simpl.
  - edestruct AddInLoop_ok as (q1 & E & _). rewrite E. eauto using add_grows.
  - edestruct AddInLoop_ok as (q1 & E & _). rewrite E. eauto using add_grows.
  - eexists; split; [done|]. split; simpl; [lia|]. unfold elems. simpl.
    intros j [_ Hj]%ids_erase. auto.
Qed.

Lemma exec_ops_ok ops q : exists q', exec_ops ops q = Ok q' /\ grows q q'.
Proof.
  revert q. induction ops as [|op ops IH]; intros q; simpl.
  - exists q. split; [done|reflexivity].
  - destruct (exec_op_ok op q) as (q1 & -> & G1). simpl.
    destruct (IH q1) as (q2 & -> & G2). exists q2. split; [done|]. by transitivity q1.
Qed.

(** The callbacks of the events in [l] run one after the other, each in the state
    the one before has left. *)
Inductive called_in_turn : list (Event C) -> TimeoutQueue S -> TimeoutQueue S -> Prop :=
  | turn_nil q : called_in_turn [] q q
  | turn_cons e l q q1 q2 : exec_ops (script (callback e) q) q = Ok q1 -> called_in_turn l q1 q2 ->
      called_in_turn (e :: l) q q2.

Lemma call_all_ok l q : exists q', call_all script l q = Ok (l, q') /\ grows q q' /\ called_in_turn l q q'.
Proof.
  revert q. induction l as [|e l IH]; intros q; simpl.
  - exists q. split; [done|]. split; [reflexivity|constructor].
  - unfold call. destruct (exec_ops_ok (script (callback e) q) q) as (q1 & E & G1). rewrite E. simpl.
    destruct (IH q1) as (q2 & -> & G2 & T). exists q2. split; [done|].
    split; [by transitivity q1|by econstructor].
Qed.

(** [call_all] records what it is given and executes the callbacks. *)
Lemma call_all_turns l q f q' : call_all script l q = Ok (f, q') -> f = l /\ called_in_turn l q q'.
Proof.
  intros Hc. destruct (call_all_ok l q) as (q1 & E & _ & T). rewrite E in Hc. by injection Hc as <- <-.
Qed.

Lemma called_in_turn_fun l q q1 q2 : called_in_turn l q q1 -> called_in_turn l q q2 -> q1 = q2.
Proof.
  intros T. revert q2. induction T as [q|e l q q1 q2 E _ IH]; intros q3 T'; inversion T'; subst; [done|].
  apply IH. congruence.
Qed.

Lemma called_in_turn_app l1 l2 q q2 : called_in_turn (l1 ++ l2) q q2 ->
  exists q1, called_in_turn l1 q q1 /\ called_in_turn l2 q1 q2.
Proof.
  revert q. induction l1 as [|e l1 IH]; intros q T; [exists q; split; [constructor|done]|].
  inversion T as [|? ? ? q1 ? E T1]; subst. destruct (IH q1 T1) as (q3 & T3 & T4).
  exists q3. split; [by econstructor|done].
Qed.

Lemma called_in_turn_grows l q q' : called_in_turn l q q' -> grows q q'.
Proof.
  induction 1 as [q|e l q q1 q2 E _ IH]; [reflexivity|]. transitivity q1; [|done].
  destruct (exec_ops_ok (script (callback e) q) q) as (q3 & E3 & G). rewrite E in E3. by injection E3 as <-.
Qed.

Definition resched (now : Z) (e : Event C) : Event C :=
  MkEvent (ev_id e) (int64 (now + repeat_interval e)) (repeat_interval e) (callback e).

Lemma ids_reinsert now l s i :
  i ∈ ids (by_expiration (reinsert now l s)) -> i ∈ ids l \/ i ∈ ids (by_expiration s).
Proof.
  revert s. induction l as [|e l IH]; intros s; simpl; [auto|].
  intros [Hi|Hi]%IH.
  - left. apply elem_of_cons. by right.
  - destruct (0 <=? _); [|auto]. apply ids_insert in Hi as [->|Hi]; [|auto].
    left. apply elem_of_cons. by left.
Qed.

Definition due (now : Z) (q : TimeoutQueue S) : list (Event C) :=
  filter (fun e => expiration e <= now) (elems q).

(** The state in which Run starts to call the callbacks. *)
Definition before_calls (now : Z) (q : TimeoutQueue S) : TimeoutQueue S :=
  TQ (reinsert now (due now q) (es_erase_upto now (timeouts_ q))) (next_ q) (timer_ q).

Lemma before_calls_grows now q : grows q (before_calls now q).
Proof.
  split; simpl; [lia|]. intros i Hi. left. unfold elems in *. simpl in Hi.
  apply ids_reinsert in Hi as [Hi|Hi].
  - unfold due, elems in Hi. by eapply ListEventSet.ids_filter_in.
  - rewrite es_erase_upto_law in Hi. by eapply ListEventSet.ids_filter_in.
Qed.

Lemma Run_ok now q :
  exists q', Run script now q = Ok (due now q, NextExpiration q', q') /\ grows q q' /\
    called_in_turn (due now q) (before_calls now q) q'.
Proof.
  unfold Run. fold (elems q). fold (due now q). fold (before_calls now q).
  destruct (call_all_ok (due now q) (before_calls now q)) as (q' & E & G & T). rewrite E.
  exists q'. split; [done|]. split; [|done]. etransitivity; [apply before_calls_grows|done].
Qed.

Lemma OnTimer_ok now clock q :
  exists q', OnTimer script now clock q = Ok (due now q, q') /\ grows q q' /\
    timer_ q' = ResetTimerfd clock (NextExpiration q').
Proof.
  unfold OnTimer. destruct (Run_ok now q) as (q' & -> & G & _).
  eexists. split; [done|]. split; [exact G|done].
Qed.

End Lemmas.

(** ** Executions

    [tq_step] is one call of the public interface by the loop thread or one
    expiry of the timer; [fired] are the events whose callbacks it calls. *)
Section Executions.
Context {C S : Type} `{L : EventSetLaws C S}.
Variable script : C -> TimeoutQueue S -> list (QueueOp C).

Inductive tq_step : TimeoutQueue S -> list (Event C) -> TimeoutQueue S -> Prop :=
  | step_op op q q' : exec_op op q = Ok q' -> tq_step q [] q'
  | step_timer now clock fired q q' :
      OnTimer script now clock q = Ok (fired, q') -> tq_step q fired q'.

Inductive tq_trace : TimeoutQueue S -> list (Event C) -> TimeoutQueue S -> Prop :=
  | trace_nil q : tq_trace q [] q
  | trace_cons q1 f1 q2 f2 q3 :
      tq_step q1 f1 q2 -> tq_trace q2 f2 q3 -> tq_trace q1 (f1 ++ f2) q3.

Lemma trace_one q f q' : tq_step q f q' -> tq_trace q f q'.
Proof. intros Hs. rewrite <- (app_nil_r f). by eapply trace_cons, trace_nil. Qed.

(** Every identifier in the queue was allocated by Add or AddRepeating. *)
Definition wf (q : TimeoutQueue S) : Prop := forall i, i ∈ ids (elems q) -> i < next_ q.

Definition one_shot (e : Event C) : Prop := repeat_interval e < 0.
#[export] Instance one_shot_dec e : Decision (one_shot e).
Proof. unfold one_shot. apply _. Defined.

Lemma wf_grows q q' : wf q -> grows q q' -> wf q'.
Proof. intros W [N I] i [Hi|Hi]%I; [apply W in Hi; lia | lia]. Qed.

Lemma step_grows q f q' : tq_step q f q' -> grows q q'.
Proof.
  destruct 1 as [op q q' Hop|now clock f q q' Ht].
  - destruct (exec_op_ok op q) as (q1 & E & G). rewrite Hop in E. by injection E as <-.
  - destruct (OnTimer_ok script now clock q) as (q1 & E & G & _). rewrite Ht in E.
    by injection E as -> <-.
Qed.

Lemma trace_grows q f q' : tq_trace q f q' -> grows q q'.
Proof.
  induction 1 as [|q1 f1 q2 f2 q3 Hs _ IH]; [reflexivity|].
  etransitivity; [by eapply step_grows | done].
Qed.

Lemma ids_reinsert_repeating now (l : list (Event C)) (s : S) i :
  i ∈ ids (by_expiration (reinsert now l s)) ->
  i ∈ ids (filter (fun e => ~ one_shot e) l) \/ i ∈ ids (by_expiration s).
Proof.
  revert s. induction l as [|e l IH]; intros s; simpl; [auto|].
  rewrite filter_cons. intros [Hi|Hi]%IH.
  - left. case_decide; [apply elem_of_cons; by right | done].
  - destruct (0 <=? repeat_interval e) eqn:E; zify_bool; [|by right].
    apply ids_insert in Hi as [->|Hi]; [|by right].
    left. rewrite decide_True by (unfold one_shot; lia). apply elem_of_cons. by left.
Qed.

(** Events of a queue with the same identifier are the same event. *)
Lemma elems_unique q e e' :
  e ∈ elems q -> e' ∈ elems q -> ev_id e = ev_id e' -> e = e'.
Proof.
  pose proof (es_unique_law (timeouts_ q)) as Hu. fold (elems q) in Hu.
  generalize dependent (elems q). intros l.
  induction l as [|x l IH]; [by intros _ ?%not_elem_of_nil|].
  unfold ids. rewrite fmap_cons, NoDup_cons. intros [Hn Hl] He He' Hid.
  apply elem_of_cons in He as [->|He]; apply elem_of_cons in He' as [->|He']; auto.
  - destruct Hn. rewrite Hid. by apply list_elem_of_fmap_2.
  - destruct Hn. rewrite <- Hid. by apply list_elem_of_fmap_2.
Qed.

(** A one-shot event that Run calls is gone when the callbacks start, and its
    identifier cannot come back. *)
Lemma one_shot_gone now clock q q' e f :
  wf q -> OnTimer script now clock q = Ok (f, q') -> e ∈ f -> one_shot e ->
  ev_id e ∉ ids (elems q') /\ ev_id e < next_ q'.
Proof.
  intros W Ht He Ho. unfold OnTimer in Ht.
  destruct (Run_ok script now q) as (q1 & E & [N1 G1] & Hc). rewrite E in Ht. simpl in Ht.
  injection Ht as <- <-. simpl.
  assert (Hq : e ∈ elems q) by (apply list_elem_of_filter in He; tauto).
  assert (Hlt : ev_id e < next_ q) by (apply W, list_elem_of_fmap_2, Hq).
  split; [|lia].
  intros Hin. change (ev_id e ∈ ids (elems q1)) in Hin.
  pose proof (called_in_turn_grows script _ _ _ Hc) as [_ G2]. apply G2 in Hin as [Hin|Hin]; [|simpl in Hin; lia].
  unfold elems in Hin. simpl in Hin. apply ids_reinsert_repeating in Hin as [Hin|Hin].
  - apply list_elem_of_fmap in Hin as (x & Hx & Hf). apply list_elem_of_filter in Hf as [Hr Hf].
    apply list_elem_of_filter in Hf as [_ Hf].
    by rewrite (elems_unique q e x Hq Hf Hx) in Ho.
  - rewrite es_erase_upto_law in Hin.
    apply list_elem_of_fmap in Hin as (x & Hx & Hf). apply list_elem_of_filter in Hf as [Hr Hf].
    rewrite <- (elems_unique q e x Hq Hf Hx) in Hr.
    apply list_elem_of_filter in He as [He _]. lia.
Qed.

Lemma due_nodup now q : NoDup (ids (filter one_shot (due now q))).
Proof. by apply ListEventSet.NoDup_ids_filter, ListEventSet.NoDup_ids_filter, es_unique_law. Qed.

Lemma trace_one_shot q f q' :
  tq_trace q f q' -> wf q ->
  NoDup (ids (filter one_shot f)) /\
  (forall i, i ∈ ids (filter one_shot f) -> i ∈ ids (elems q) \/ next_ q <= i).
Proof.
  induction 1 as [q|q1 f1 q2 f2 q3 Hs Ht IH]; intros W.
  - split; [constructor | by intros i ?%not_elem_of_nil].
  - pose proof (step_grows _ _ _ Hs) as [N G].
    destruct IH as [ND IN]; [by eapply wf_grows|].
    assert (Hdead : forall i, i ∈ ids (filter one_shot f1) ->
              i ∈ ids (elems q1) /\ i ∉ ids (elems q2) /\ i < next_ q2).
    { intros i (e & -> & [Ho He]%list_elem_of_filter)%list_elem_of_fmap.
      destruct Hs as [|now clock fired q q' Ht']; [by apply not_elem_of_nil in He|].
      split; [|by eapply one_shot_gone].
      destruct (OnTimer_ok script now clock q) as (q1' & E & _). rewrite Ht' in E.
      injection E as -> <-. apply list_elem_of_fmap_2. apply list_elem_of_filter in He. tauto. }
    rewrite filter_app. unfold ids. rewrite fmap_app. split.
    + apply NoDup_app. split.
      * destruct Hs as [|now clock fired q q' Ht']; [constructor|].
        destruct (OnTimer_ok script now clock q) as (q1' & E & _). rewrite Ht' in E.
        injection E as -> <-. apply due_nodup.
      * split; [|done]. intros i (H1 & H2 & H3)%Hdead [H4|H4]%IN; [done|lia].
    + intros i [(H1 & _)%Hdead|[Hi|Hi]%IN]%elem_of_app; [by left| |right; lia].
      apply G in Hi as [Hi|Hi]; [by left | right; lia].
Qed.

End Executions.

(** ** The timer is armed *)

(** When the timer goes off, in nanoseconds of the wall clock. *)
Definition deadline (ts : timespec) (set_at : Z) : Z :=
  1000 * set_at + 1000000000 * tv_sec ts + tv_nsec ts.

Lemma int64_id z : - 2 ^ 63 <= z < 2 ^ 63 -> int64 z = z.
Proof. intros. apply wrap_s_id; [lia|]. unfold fits_s. done. Qed.

Lemma HowMuchTimeFromNow_deadline when now :
  0 <= when <= INT64_MAX -> 0 <= now <= INT64_MAX ->
  deadline (HowMuchTimeFromNow when now) now = 1000 * Z.max when (now + 100).
Proof.
  unfold INT64_MAX, deadline, HowMuchTimeFromNow, kMicroSecondsPerSecond. intros Hw Hn.
  rewrite int64_id by lia. cbn [tv_sec tv_nsec].
  destruct (Z.ltb_spec (when - now) 100).
  - change (Z.quot 100 1000000) with 0. change (Z.rem 100 (1000 * 1000) * 1000) with 100000. lia.
  - rewrite Z.quot_div_nonneg, Z.rem_mod_nonneg by lia.
    pose proof (Z.div_mod (when - now) 1000000 ltac:(lia)).
    change (1000 * 1000) with 1000000. lia.
Qed.

Section Timer.
Context {C S : Type} `{L : EventSetLaws C S}.
Variable script : C -> TimeoutQueue S -> list (QueueOp C).

(** Times in the model's range: the wall clock and intervals below 2^62
    microseconds, expirations any non-negative int64_t. *)
Definition clock_ok (t : Z) : Prop := 0 <= t < 2 ^ 62.
Definition event_ok (e : Event C) : Prop :=
  0 <= expiration e <= INT64_MAX /\ repeat_interval e < 2 ^ 62.
Definition op_ok (op : QueueOp C) : Prop :=
  match op with
  | OpAdd clock exp _ => clock_ok clock /\ 0 <= exp <= INT64_MAX
  | OpAddRepeating clock now interval _ => clock_ok clock /\ clock_ok now /\ clock_ok interval
  | OpCancel _ => True
  end.
Hypothesis script_ok : forall cb q, Forall op_ok (script cb q).

Definition times_ok (q : TimeoutQueue S) : Prop := forall e, e ∈ elems q -> event_ok e.

(** If something is pending, the timer was programmed to go off no later than
    the next expiration, or 100 microseconds after it was programmed. *)
Definition timer_ok (q : TimeoutQueue S) : Prop :=
  NextExpiration q < INT64_MAX ->
  exists ts set_at, timer_ q = Some (ts, set_at) /\
    deadline ts set_at <= 1000 * Z.max (NextExpiration q) (set_at + 100).

Lemma next_range q : times_ok q -> 0 <= NextExpiration q <= INT64_MAX.
Proof.
  intros T. destruct (NextExpiration_cases q) as [[_ ->]|(e & He & ->)].
  - unfold INT64_MAX. lia.
  - by apply T in He as [? _].
Qed.

Lemma reset_ok q clock :
  times_ok q -> clock_ok clock -> timer_ q = ResetTimerfd clock (NextExpiration q) -> timer_ok q.
Proof.
  intros T Hc E _. rewrite E. do 2 eexists. split; [done|].
  unfold clock_ok in Hc. rewrite HowMuchTimeFromNow_deadline; [lia| |unfold INT64_MAX; lia].
  by apply next_range.
Qed.

Lemma times_insert s e :
  (forall x, x ∈ by_expiration s -> event_ok x) -> event_ok e ->
  forall x, x ∈ by_expiration (es_insert e s) -> event_ok x.
Proof. intros Hs He x [->|Hx]%elems_insert; auto. Qed.

Lemma next_insert q e :
  times_ok q -> event_ok e -> NextExpiration q <= expiration e ->
  NextExpiration (TQ (es_insert e (timeouts_ q)) (next_ q) (timer_ q)) = NextExpiration q.
Proof.
  intros T [He _] Hge. set (q' := TQ _ _ _).
  apply Z.le_antisymm.
  - destruct (NextExpiration_cases q) as [[Hn ->]|(x & Hx & ->)].
    + transitivity (expiration e); [|lia]. apply NextExpiration_le.
      unfold elems, q'. simpl. unfold elems in Hn.
      rewrite (es_insert_new_law e) by (rewrite Hn; apply not_elem_of_nil). by left.
    + apply NextExpiration_le. unfold elems, q'. simpl.
      destruct (decide (ev_id e ∈ ids (elems q))) as [Hin|Hin].
      * by rewrite es_insert_dup_law.
      * rewrite (es_insert_new_law e) by done. by right.
  - apply NextExpiration_ge; [by apply next_range|].
    intros x [->|Hx]%elems_insert; [done|]. by apply NextExpiration_le.
Qed.

Lemma AddInLoop_times clock e q q' :
  times_ok q -> event_ok e -> AddInLoop true clock e q = Ok q' -> times_ok q'.
Proof.
  intros T He Hq. destruct (AddInLoop_ok clock e q) as (q1 & E & _ & Ht).
  rewrite E in Hq. injection Hq as <-. unfold times_ok, elems. rewrite Ht.
  by apply times_insert.
Qed.

Lemma AddInLoop_timer clock e q q' :
  times_ok q -> timer_ok q -> event_ok e -> clock_ok clock ->
  AddInLoop true clock e q = Ok q' -> timer_ok q'.
Proof.
  intros T A He Hc Hq. pose proof (AddInLoop_times _ _ _ _ T He Hq) as T'.
  unfold AddInLoop in Hq. simpl in Hq. destruct (_ <? _) eqn:E; zify_bool; injection Hq as <-.
  - by eapply reset_ok.
  - unfold timer_ok. rewrite next_insert by done. exact A.
Qed.

Lemma CancelInLoop_sub i q x :
  x ∈ by_expiration (es_erase_id i (timeouts_ q)) -> x ∈ elems q.
Proof. rewrite es_erase_id_law. intros Hx%list_elem_of_filter. tauto. Qed.

Lemma CancelInLoop_timer i q q' :
  times_ok q -> timer_ok q -> CancelInLoop true i q = Ok q' -> timer_ok q'.
Proof.
  intros T A [= <-] Hlt.
  assert (Hle : NextExpiration q <=
    NextExpiration (TQ (es_erase_id i (timeouts_ q)) (next_ q) (timer_ q))).
  { apply NextExpiration_ge; [by apply next_range|].
    intros x Hx%CancelInLoop_sub. by apply NextExpiration_le. }
  destruct A as (ts & t0 & Ht & Hd); [lia|]. exists ts, t0. split; [done|]. lia.
Qed.

(** The event that an Add or AddRepeating in range creates is in range. *)
Lemma repeating_event_ok i now iv (cb : C) :
  clock_ok now -> clock_ok iv -> event_ok (MkEvent i (int64 (now + iv)) iv cb).
Proof.
  unfold clock_ok. intros. split; simpl; [rewrite int64_id; unfold INT64_MAX|]; lia.
Qed.

Lemma one_shot_event_ok i exp (cb : C) :
  0 <= exp <= INT64_MAX -> event_ok (MkEvent i exp (-1) cb).
Proof. split; simpl; lia. Qed.

Lemma exec_op_times op q q' :
  times_ok q -> op_ok op -> exec_op op q = Ok q' -> times_ok q'.
Proof.
  intros T Hop. destruct op as [clock exp cb|clock now iv cb|i]; simpl in *.
  - apply AddInLoop_times; [exact T|]. apply one_shot_event_ok; tauto.
  - apply AddInLoop_times; [exact T|]. apply repeating_event_ok; tauto.
  - intros [= <-] x Hx%CancelInLoop_sub. by apply T.
Qed.

Lemma exec_op_timer op q q' :
  times_ok q -> timer_ok q -> op_ok op -> exec_op op q = Ok q' -> timer_ok q'.
Proof.
  intros T A Hop. destruct op as [clock exp cb|clock now iv cb|i]; simpl in *.
  - apply AddInLoop_timer; [exact T|exact A| |tauto]. apply one_shot_event_ok; tauto.
  - apply AddInLoop_timer; [exact T|exact A| |tauto]. apply repeating_event_ok; tauto.
  - by apply CancelInLoop_timer.
Qed.

Lemma exec_ops_times ops q q' :
  times_ok q -> Forall op_ok ops -> exec_ops ops q = Ok q' -> times_ok q'.
Proof.
  intros T Hops. revert q T. induction Hops as [|op ops Hop _ IH]; simpl; intros q T Hq;
    res_inv; [done|]. eapply IH; [|exact Hq]. by eapply exec_op_times.
Qed.

Lemma calls_times l q q' : times_ok q -> called_in_turn script l q q' -> times_ok q'.
Proof. intros T HT. induction HT as [|e l q q1 q2 E _ IH]; [done|]. apply IH. by eapply exec_ops_times. Qed.

Lemma reinsert_times now l s :
  clock_ok now -> Forall event_ok l -> (forall x, x ∈ by_expiration s -> event_ok x) ->
  forall x, x ∈ by_expiration (reinsert now l s) -> event_ok x.
Proof.
  intros Hn Hl. revert s. induction Hl as [|e l He _ IH]; simpl; intros s Hs; [done|].
  apply IH. destruct (0 <=? _) eqn:E; zify_bool; [|done].
  apply times_insert; [done|]. apply repeating_event_ok; [done|].
  destruct He. unfold clock_ok. lia.
Qed.

Lemma OnTimer_timer now clock f q q' :
  times_ok q -> clock_ok now -> clock_ok clock ->
  OnTimer script now clock q = Ok (f, q') -> times_ok q' /\ timer_ok q'.
Proof.
  intros T Hn Hc Ht. unfold OnTimer in Ht.
  destruct (Run_ok script now q) as (q1 & E & _ & Hcall). rewrite E in Ht. simpl in Ht.
  injection Ht as <- <-.
  assert (T1 : times_ok q1).
  { eapply calls_times; [|exact Hcall]. intros x. unfold elems. simpl. apply reinsert_times; [done| |].
    - apply Forall_forall. intros y Hy%list_elem_of_filter. apply T. tauto.
    - intros y. rewrite es_erase_upto_law. intros Hy%list_elem_of_filter. apply T. tauto. }
  split; [exact T1|]. by eapply reset_ok.
Qed.

(** Executions whose times are in range. *)
Inductive timed_step : TimeoutQueue S -> TimeoutQueue S -> Prop :=
  | timed_op op q q' : op_ok op -> exec_op op q = Ok q' -> timed_step q q'
  | timed_timer now clock fired q q' :
      clock_ok now -> clock_ok clock ->
      OnTimer script now clock q = Ok (fired, q') -> timed_step q q'.

Lemma timed_steps_ok q q' :
  rtc timed_step q q' -> times_ok q -> timer_ok q -> times_ok q' /\ timer_ok q'.
Proof.
  induction 1 as [|q1 q2 q3 Hs _ IH]; intros T A; [done|].
  destruct Hs as [op q1 q2 Hop Hq|now clock fired q1 q2 Hn Hc Hq].
  - apply IH; [by eapply exec_op_times | by eapply exec_op_timer].
  - destruct (OnTimer_timer _ _ _ _ _ T Hn Hc Hq). auto.
Qed.

End Timer.

(** ** Lemmas for the theorems on firing *)
Section Firing.
Context {C S : Type} `{L : EventSetLaws C S}.
Variable script : C -> TimeoutQueue S -> list (QueueOp C).

Lemma step_fired q f q' : tq_step script q f q' -> forall i, i ∈ ids f -> i ∈ ids (elems q).
Proof.
  destruct 1 as [op q q' Hop|now clock f q q' Ht]; [by intros i ?%not_elem_of_nil|].
  destruct (OnTimer_ok script now clock q) as (q1 & E & _). rewrite Ht in E.
  injection E as -> _. intros i. by apply ListEventSet.ids_filter_in.
Qed.

Lemma trace_dead q f q' i :
  tq_trace script q f q' -> i < next_ q -> i ∉ ids (elems q) -> i ∉ ids f.
Proof.
  induction 1 as [q|q1 f1 q2 f2 q3 Hs _ IH]; intros Hlt Hn; [apply not_elem_of_nil|].
  pose proof (step_grows _ _ _ _ Hs) as [N G].
  unfold ids. rewrite fmap_app, elem_of_app. intros [Hi|Hi].
  - by eapply Hn, step_fired.
  - revert Hi. apply IH; [lia|]. intros [?|?]%G; [done|lia].
Qed.

Definition cancels (i : Z) (op : QueueOp C) : Prop :=
  match op with OpCancel j => i = j | _ => False end.

Lemma insert_keeps e s x : x ∈ by_expiration s -> x ∈ by_expiration (es_insert e s).
Proof.
  intros Hx. destruct (decide (ev_id e ∈ ids (by_expiration s))).
  - by rewrite es_insert_dup_law.
  - rewrite (es_insert_new_law e s) by done. by right.
Qed.

Lemma exec_op_keeps op q q' x :
  exec_op op q = Ok q' -> x ∈ elems q -> ~ cancels (ev_id x) op -> x ∈ elems q'.
Proof.
  intros Hq Hx Hnc. destruct op as [clock exp cb|clock now iv cb|i]; simpl in Hq.
  - edestruct AddInLoop_ok as (q1 & E & _ & Ht). rewrite E in Hq. injection Hq as <-.
    unfold elems. rewrite Ht. by apply insert_keeps.
  - edestruct AddInLoop_ok as (q1 & E & _ & Ht). rewrite E in Hq. injection Hq as <-.
    unfold elems. rewrite Ht. by apply insert_keeps.
  - injection Hq as <-. unfold elems. simpl. rewrite es_erase_id_law.
    apply list_elem_of_filter. split; [|done]. intros Heq. by apply Hnc.
Qed.

Lemma exec_ops_keeps ops q q' x :
  Forall (fun op => ~ cancels (ev_id x) op) ops -> exec_ops ops q = Ok q' -> x ∈ elems q -> x ∈ elems q'.
Proof.
  intros Hs. revert q. induction Hs as [|op ops Hop _ IH]; simpl; intros q Hq Hx; res_inv; [done|].
  eapply IH; [exact Hq|]. by eapply exec_op_keeps.
Qed.

Lemma calls_keep l q q' x :
  (forall cb q, Forall (fun op => ~ cancels (ev_id x) op) (script cb q)) ->
  called_in_turn script l q q' -> x ∈ elems q -> x ∈ elems q'.
Proof.
  intros Hs. induction 1 as [|e l q q1 q2 E _ IH]; [done|]. intros Hx. apply IH. by eapply exec_ops_keeps.
Qed.

(** After a Cancel among the operations the identifier is gone. *)
Lemma exec_ops_cancel i ops q q' : i < next_ q -> OpCancel i ∈ ops -> exec_ops ops q = Ok q' -> i ∉ ids (elems q').
Proof.
  revert q. induction ops as [|op ops IH]; intros q Hlt Hin; [by apply not_elem_of_nil in Hin|]. simpl.
  destruct (exec_op_ok op q) as (q1 & E & [N G]). rewrite E. simpl. apply elem_of_cons in Hin as [<-|Hin].
  - intros Hq Hi. destruct (exec_ops_ok ops q1) as (q2 & E2 & [N2 G2]). rewrite Hq in E2. injection E2 as <-.
    injection E as <-. apply G2 in Hi as [Hi|Hi]; [|simpl in Hi; lia]. unfold elems in Hi. simpl in Hi.
    by apply ids_erase in Hi as [? _].
  - apply IH; [lia|done].
Qed.

Lemma reinsert_keeps now l s x : x ∈ by_expiration s -> x ∈ by_expiration (reinsert now l s).
Proof.
  revert s. induction l as [|e l IH]; simpl; intros s Hx; [done|].
  apply IH. destruct (0 <=? _); [by apply insert_keeps | done].
Qed.

Lemma reinsert_in now l s e :
  NoDup (ids l) -> (forall i, i ∈ ids l -> i ∉ ids (by_expiration s)) ->
  e ∈ l -> 0 <= repeat_interval e -> resched now e ∈ by_expiration (reinsert now l s).
Proof.
  revert s. induction l as [|x l IH]; intros s ND Hd; [by intros ?%not_elem_of_nil|].
  unfold ids in ND. rewrite fmap_cons, NoDup_cons in ND. destruct ND as [Hn ND]. simpl.
  intros [->|He]%elem_of_cons Hr.
  - rewrite (proj2 (Z.leb_le _ _)) by done. apply reinsert_keeps.
    rewrite es_insert_new_law; [by left|]. apply Hd. apply elem_of_cons. by left.
  - apply IH; [done| |done|done]. intros i Hi Hin.
    assert (Hin' : i = ev_id x \/ i ∈ ids (by_expiration s)).
    { destruct (0 <=? _); [|by right]. by apply ids_insert in Hin. }
    destruct Hin' as [->|Hin']; [done|]. eapply Hd; [|exact Hin']. apply elem_of_cons. by right.
Qed.

Lemma calls_cancel i before e after q qe q' : i < next_ q -> called_in_turn script (before ++ e :: after) q q' ->
  called_in_turn script before q qe -> OpCancel i ∈ script (callback e) qe -> i ∉ ids (elems q').
Proof.
  intros Hlt Hall Hb Hin. apply called_in_turn_app in Hall as (q1 & Hb' & Ht).
  rewrite (called_in_turn_fun script _ _ _ _ Hb Hb') in Hin. inversion Ht as [|? ? ? q2 ? E T]; subst.
  pose proof (called_in_turn_grows script _ _ _ Hb') as [N1 _].
  destruct (exec_ops_ok (script (callback e) q1) q1) as (q3 & E3 & [N3 _]). rewrite E in E3. injection E3 as <-.
  assert (Hlt1 : i < next_ q1) by lia. pose proof (exec_ops_cancel i _ _ _ Hlt1 Hin E) as Hn.
  pose proof (called_in_turn_grows script _ _ _ T) as [_ G]. intros [Hi|Hi]%G; [done|lia].
Qed.

Lemma ids_due now q i : i ∈ ids (due now q) <-> exists x, x ∈ elems q /\ ev_id x = i /\ expiration x <= now.
Proof.
  unfold ids, due. rewrite list_elem_of_fmap. split.
  - intros (x & -> & [? ?]%list_elem_of_filter). by exists x.
  - intros (x & Hx & <- & He). exists x. split; [done|]. by apply list_elem_of_filter.
Qed.

(** What is in the queue when the callbacks are called. *)
Lemma elems_reinsert now l s e : e ∈ by_expiration (reinsert now l s) ->
  e ∈ by_expiration s \/ exists x, x ∈ l /\ 0 <= repeat_interval x /\ e = resched now x.
Proof.
  revert s. induction l as [|x l IH]; intros s; simpl; [by left|].
  intros [He|(y & Hy & Hr & ->)]%IH; [|right; exists y; by split; [right|]].
  destruct (0 <=? repeat_interval x) eqn:E; zify_bool; [|by left].
  apply elems_insert in He as [->|He]; [|by left]. right. exists x. by split; [left|].
Qed.

Lemma due_fresh now q i : i ∈ ids (due now q) -> i ∉ ids (by_expiration (es_erase_upto now (timeouts_ q))).
Proof.
  intros (x & -> & Hx)%list_elem_of_fmap (y & Hxy & Hy)%list_elem_of_fmap.
  apply list_elem_of_filter in Hx as [Hx1 Hx2]. rewrite es_erase_upto_law in Hy.
  apply list_elem_of_filter in Hy as [Hy1 Hy2].
  rewrite (elems_unique q x y Hx2 Hy2 Hxy) in Hx1. lia.
Qed.

Lemma before_calls_elems now q e : e ∈ elems (before_calls now q) <->
  (e ∈ elems q /\ now < expiration e) \/ (exists x, x ∈ due now q /\ 0 <= repeat_interval x /\ e = resched now x).
Proof.
  assert (Hin : forall x, x ∈ by_expiration (es_erase_upto now (timeouts_ q)) <-> x ∈ elems q /\ now < expiration x)
    by (intros x; rewrite es_erase_upto_law, list_elem_of_filter; tauto).
  unfold elems at 1. simpl. split.
  - intros [He|He]%elems_reinsert; [left; by apply Hin|by right].
  - intros [He|(x & Hx & Hr & ->)]; [by apply reinsert_keeps, Hin|].
    apply reinsert_in; [|apply due_fresh|done|done]. apply ListEventSet.NoDup_ids_filter, es_unique_law.
Qed.

Lemma OnTimer_reschedules now clock q q' f e :
  (forall cb q, Forall (fun op => ~ cancels (ev_id e) op) (script cb q)) ->
  OnTimer script now clock q = Ok (f, q') -> e ∈ f -> 0 <= repeat_interval e ->
  resched now e ∈ elems q'.
Proof.
  intros Hs Ht He Hr. unfold OnTimer in Ht.
  destruct (Run_ok script now q) as (q1 & E & _ & Hcall). rewrite E in Ht. simpl in Ht.
  injection Ht as <- <-. change (resched now e ∈ elems q1).
  eapply calls_keep; [exact Hs|exact Hcall|].
  unfold elems. simpl. apply reinsert_in; [| |done|done].
  - apply ListEventSet.NoDup_ids_filter, es_unique_law.
  - apply due_fresh.
Qed.

(** ** Properties *)

(** C5: Run calls exactly the events that are due (expiration <= now), each
    once and in order of expiration, whatever their callbacks do to the queue: the
    record of its calls is the list of those events; before the first call the due
    events have left the queue and the repeating ones among them are in it again,
    rescheduled; then the callbacks run one after the other, each in the state the
    one before has left; and Run returns the next expiration of the queue they
    leave. It never aborts. *)
Theorem Run_fires_due now (q : TimeoutQueue S) :
  exists fired q0 q', Run script now q = Ok (fired, NextExpiration q', q') /\
    StronglySorted expires_le fired /\ NoDup (ids fired) /\
    (forall e, e ∈ fired <-> e ∈ elems q /\ expiration e <= now) /\
    (forall e, e ∈ elems q0 <->
       (e ∈ elems q /\ now < expiration e) \/
       (exists x, x ∈ fired /\ 0 <= repeat_interval x /\ e = resched now x)) /\
    (next_ q0, timer_ q0) = (next_ q, timer_ q) /\
    called_in_turn script fired q0 q'.
Proof.
  destruct (Run_ok script now q) as (q' & E & _ & T). exists (due now q), (before_calls now q), q'. split; [exact E|].
  split; [by apply ListEventSet.StronglySorted_filter, es_sorted_law|].
  split; [by apply ListEventSet.NoDup_ids_filter, es_unique_law|].
  split; [intros e; unfold due; rewrite list_elem_of_filter; tauto|].
  split; [apply before_calls_elems|]. by split.
Qed.

(** C13: a one-shot timeout fires at most once: in every execution from the
    constructor, with callbacks that call back into the queue, no identifier of
    a one-shot event occurs twice among the events called. *)
Theorem one_shot_fires_once f (q : TimeoutQueue S) :
  tq_trace script TimeoutQueue_init f q -> NoDup (ids (filter one_shot f)).
Proof.
  intros Ht. eapply trace_one_shot; [exact Ht|].
  intros i Hi. unfold elems in Hi. simpl in Hi. rewrite es_empty_law in Hi.
  by apply not_elem_of_nil in Hi.
Qed.


(** C16: a repeating timeout that fires is pending again, [repeat_interval] after
    the [now] given to Run, unless a callback cancels it. *)
Theorem repeating_rescheduled now clock (q q' : TimeoutQueue S) f e :
  (forall cb q, Forall (fun op => ~ cancels (ev_id e) op) (script cb q)) ->
  OnTimer script now clock q = Ok (f, q') -> e ∈ f ->
  0 <= repeat_interval e -> clock_ok now -> repeat_interval e < 2 ^ 62 ->
  MkEvent (ev_id e) (now + repeat_interval e) (repeat_interval e) (callback e) ∈ elems q'.
Proof.
  intros Hs Ht He Hr Hn Hi.
  pose proof (OnTimer_reschedules _ _ _ _ _ _ Hs Ht He Hr) as Hin. unfold resched in Hin.
  unfold clock_ok in Hn. by rewrite int64_id in Hin by lia.
Qed.

(** C15: the timerfd is never left disarmed or late: after any sequence of
    operations and timer expiries with times in range, if some timeout is
    pending then the timer was programmed for the earliest expiration or
    earlier (or for 100us after the call, when that is already past). *)
Theorem timer_never_late (q : TimeoutQueue S) :
  (forall cb q, Forall op_ok (script cb q)) ->
  rtc (timed_step script) TimeoutQueue_init q -> NextExpiration q < INT64_MAX ->
  exists ts set_at, timer_ q = Some (ts, set_at) /\
    deadline ts set_at <= 1000 * Z.max (NextExpiration q) (set_at + 100).
Proof.
  intros Hs Hr. assert (He : elems TimeoutQueue_init = []) by apply es_empty_law.
  eapply timed_steps_ok; [exact Hs|exact Hr| |].
  - intros e. rewrite He. by intros ?%not_elem_of_nil.
  - unfold timer_ok, NextExpiration. fold (elems TimeoutQueue_init). rewrite He. lia.
Qed.

End Firing.

(** The timespec given to timerfd_settime is valid and not zero (zero would
    disarm the timer), and stands for max(when - now, 100) microseconds. *)
Theorem HowMuchTimeFromNow_valid when now :
  0 <= when <= INT64_MAX -> 0 <= now <= INT64_MAX ->
  let ts := HowMuchTimeFromNow when now in
  0 <= tv_nsec ts < 1000000000 /\ 0 <= tv_sec ts /\
  0 < 1000000000 * tv_sec ts + tv_nsec ts /\
  1000000000 * tv_sec ts + tv_nsec ts = 1000 * Z.max (when - now) 100.
Proof.
  intros Hw Hn. pose proof (HowMuchTimeFromNow_deadline when now Hw Hn) as D.
  unfold deadline in D. revert D.
  unfold HowMuchTimeFromNow, kMicroSecondsPerSecond, INT64_MAX in *.
  rewrite int64_id by lia. cbn [tv_sec tv_nsec].
  change (1000 * 1000) with 1000000.
  destruct (Z.ltb_spec (when - now) 100).
  - change (Z.quot 100 1000000) with 0. change (Z.rem 100 1000000) with 100. lia.
  - rewrite Z.quot_div_nonneg, Z.rem_mod_nonneg by lia.
    pose proof (Z.mod_pos_bound (when - now) 1000000 ltac:(lia)).
    pose proof (Z.div_pos (when - now) 1000000 ltac:(lia) ltac:(lia)). lia.
Qed.

(** ** Witnesses

    Callback 0 cancels timeout 2 from inside Run; the others do nothing. *)
#[export] Existing Instances ListEventSet.list_event_set ListEventSet.list_event_set_laws.

Definition demo_script (cb : nat) (q : TimeoutQueue (list (Event nat))) : list (QueueOp nat) :=
  if decide (cb = 0%nat) then [OpCancel 2] else [].

Definition demo_queue : TimeoutQueue (list (Event nat)) :=
  TQ [MkEvent 1 500 (-1) 0%nat; MkEvent 2 600 50 1%nat; MkEvent 3 400 1000 2%nat;
      MkEvent 4 9000 (-1) 3%nat] 5 None.

Lemma Run_fires_due_witness :
  exists fired q0 q', Run demo_script 700 demo_queue = Ok (fired, NextExpiration q', q') /\
    StronglySorted expires_le fired /\ NoDup (ids fired) /\
    (forall e, e ∈ fired <-> e ∈ elems demo_queue /\ expiration e <= 700) /\
    (forall e, e ∈ elems q0 <->
       (e ∈ elems demo_queue /\ 700 < expiration e) \/
       (exists x, x ∈ fired /\ 0 <= repeat_interval x /\ e = resched 700 x)) /\
    (next_ q0, timer_ q0) = (next_ demo_queue, timer_ demo_queue) /\
    called_in_turn demo_script fired q0 q'.
Proof. apply (Run_fires_due demo_script 700 demo_queue). Defined.

(** Callback 0, of timeout 1, cancels timeout 2, which is called all the same and
    does not come back; timeout 3 repeats. *)
Example demo_run_calls :
  match Run demo_script 700 demo_queue with
  | Ok (fired, next, q) => ids fired = [3; 1; 2] /\ ids (elems q) = [3; 4] /\ next = 1700
  | Err _ => False
  end.
Proof. vm_compute. done. Qed.

(** The two timers of the test program: a one-shot and a repeating one. *)
Definition demo_run : res (list (Event nat) * TimeoutQueue (list (Event nat))) :=
  q ← exec_op (OpAdd 10 500 7%nat) TimeoutQueue_init;
  q ← exec_op (OpAddRepeating 20 20 300 8%nat) q;
  OnTimer demo_script 600 605 q.

Definition demo_end : TimeoutQueue (list (Event nat)) :=
  match demo_run with Ok (_, q) => q | Err _ => TimeoutQueue_init end.

Definition demo_fired : list (Event nat) :=
  match demo_run with Ok (f, _) => f | Err _ => [] end.

Lemma one_shot_fires_once_witness :
  demo_fired = [MkEvent 2 320 300 8%nat; MkEvent 1 500 (-1) 7%nat] /\
  NoDup (ids (filter one_shot demo_fired)).
Proof.
  split; [vm_compute; reflexivity|].
  apply (one_shot_fires_once demo_script demo_fired demo_end).
  change demo_fired with ([] ++ [] ++ demo_fired ++ []).
  eapply trace_cons; [apply (step_op _ (OpAdd 10 500 7%nat)); reflexivity|].
  eapply trace_cons; [apply (step_op _ (OpAddRepeating 20 20 300 8%nat)); reflexivity|].
  eapply trace_cons; [|constructor].
  apply (step_timer demo_script 600 605). vm_compute. reflexivity.
Defined.


Lemma repeating_rescheduled_witness :
  exists q' f, OnTimer demo_script 700 701 demo_queue = Ok (f, q') /\
    MkEvent 3 1700 1000 2%nat ∈ elems q'.
Proof.
  do 2 eexists. split; [vm_compute; reflexivity|].
  apply (repeating_rescheduled demo_script 700 701 demo_queue _
           [MkEvent 3 400 1000 2%nat; MkEvent 1 500 (-1) 0%nat; MkEvent 2 600 50 1%nat]
           (MkEvent 3 400 1000 2%nat)).
  - intros cb q. unfold demo_script. case_decide; repeat constructor. simpl. lia.
  - vm_compute. reflexivity.
  - by left.
  - simpl. lia.
  - unfold clock_ok. lia.
  - simpl. lia.
Defined.

Lemma timer_never_late_witness :
  NextExpiration demo_end = 900 /\
  exists ts set_at, timer_ demo_end = Some (ts, set_at) /\
    deadline ts set_at <= 1000 * Z.max (NextExpiration demo_end) (set_at + 100).
Proof.
  split; [vm_compute; reflexivity|]. apply (timer_never_late demo_script).
  - intros cb q. unfold demo_script. case_decide; repeat constructor.
  - eapply rtc_l; [apply (timed_op _ (OpAdd 10 500 7%nat)); [|reflexivity]|].
    { unfold op_ok, clock_ok, INT64_MAX. lia. }
    eapply rtc_l; [apply (timed_op _ (OpAddRepeating 20 20 300 8%nat)); [|reflexivity]|].
    { unfold op_ok, clock_ok. lia. }
    eapply rtc_once, (timed_timer demo_script 600 605 demo_fired); unfold clock_ok;
      [lia|lia|vm_compute; reflexivity].
  - vm_compute. reflexivity.
Defined.

Lemma HowMuchTimeFromNow_valid_witness :
  HowMuchTimeFromNow 5500000 1000000 = MkTimespec 4 500000000 /\
  0 <= 500000000 < 1000000000 /\ 0 <= 4 /\
  0 < 1000000000 * 4 + 500000000 /\
  1000000000 * 4 + 500000000 = 1000 * Z.max (5500000 - 1000000) 100.
Proof.
  split; [vm_compute; reflexivity|].
  apply (HowMuchTimeFromNow_valid 5500000 1000000); unfold INT64_MAX; lia.
Defined.
