(* ===== verification/SignalSet.v ===== *)
(** * events/SignalSet

    claire/common/events/SignalSet.{h,cc}: a set of signals read through a
    signalfd. The source does not compile as it stands (the constructors with
    signals and Add use the undeclared signalfd_, signalfdChannel_ and
    SetLowPriority), so those are not modelled; the rest is, with the members the
    header declares, and OnSignal's ReadSignalfd is ReadSignalFd. *)

From S2P Require Import Prelude.
Open Scope Z_scope.

Section SignalSet.
Context {Handler : Type}.

(** signal.h: the numbers that sigaddset takes, and those that can be blocked. *)
Variables valid blockable : Z -> bool.

(** The signals blocked in the thread, and the mask of each signalfd. *)
Record kernel := Kernel { blocked : gset Z; masks : gmap Z (gset Z) }.

(* @src claire/common/events/SignalSet.h:61-65 SignalSet *)
Record SignalSet := MkSignalSet { signals_ : gset Z; handlers_ : list Handler; fd_ : Z }.

Definition sigaddset (mask : gset Z) (n : Z) : gset Z := if valid n then {[n]} ∪ mask else mask.

(** [masked] is whether sigprocmask succeeds, and [answer] what signalfd returns. *)
(* @src claire/common/events/SignalSet.cc:20-43 CreateSignalfd *)
Definition CreateSignalfd (masked : bool) (answer : Z) (sfd : Z) (signals : gset Z) (k : kernel) : res (Z * kernel) :=
  let mask := foldl sigaddset ∅ (elements signals) in
  if negb masked then Ok (-1, k)
  else
    let k := Kernel (blocked k ∪ filter (fun n => blockable n = true) mask) (masks k) in
    let signalfd := answer in
    if signalfd <? 0 then Err CheckFailed
    else Ok (signalfd, Kernel (blocked k) (<[signalfd := mask]> (masks k))).

(** [s] is what read returns, sizeof(signalfd_siginfo) being 128, and [ssi_signo]
    what it has stored. *)
(* @src claire/common/events/SignalSet.cc:45-55 ReadSignalFd *)
Definition ReadSignalFd (s ssi_signo : Z) : Z := if negb (s =? 128) then -1 else int32 ssi_signo.

(* @src claire/common/events/SignalSet.cc:60-63 SignalSet::SignalSet *)
Definition SignalSet_new : SignalSet := MkSignalSet ∅ [] (-1).

(* @src claire/common/events/SignalSet.cc:105-111 SignalSet::~SignalSet *)
Definition SignalSet_destroy (s : SignalSet) (k : kernel) : kernel :=
  if negb (fd_ s =? -1) then Kernel (blocked k) (delete (fd_ s) (masks k)) else k.

(* @src claire/common/events/SignalSet.cc:132-136 SignalSet::Wait *)
Definition Wait (in_loop : bool) (handler : Handler) (s : SignalSet) : res SignalSet :=
  _ ← check in_loop; Ok (MkSignalSet (signals_ s) (handlers_ s ++ [handler]) (fd_ s)).

(* @src claire/common/events/SignalSet.cc:138-143 SignalSet::Cancel *)
Definition Cancel (in_loop : bool) (s : SignalSet) : res SignalSet :=
  _ ← check in_loop; Ok (MkSignalSet (signals_ s) [] (fd_ s)).

(* @src claire/common/events/SignalSet.cc:145-149 SignalSet::Clear *)
Definition Clear (s : SignalSet) : SignalSet := MkSignalSet ∅ (handlers_ s) (fd_ s).

(* @src claire/common/events/SignalSet.cc:151-161 SignalSet::Remove *)
Definition Remove (in_loop masked : bool) (answer : Z) (signal_number : Z) (s : SignalSet) (k : kernel)
  : res (SignalSet * kernel) :=
  _ ← check in_loop;
  let signals := signals_ s ∖ {[signal_number]} in
  if bool_decide (signal_number ∈ signals_ s) then
    '(fd, k) ← CreateSignalfd masked answer (fd_ s) signals k;
    Ok (MkSignalSet signals (handlers_ s) fd, k)
  else Ok (MkSignalSet signals (handlers_ s) (fd_ s), k).

(** The calls of the handlers; a handler that calls Wait or Cancel is not
    modelled, it would change the vector under the loop. *)
(* @src claire/common/events/SignalSet.cc:163-174 SignalSet::OnSignal *)
Definition OnSignal (n ssi_signo : Z) (s : SignalSet) : list (Handler * Z) :=
  let signal_number := ReadSignalFd n ssi_signo in
  if negb (signal_number =? -1) then map (fun handler => (handler, signal_number)) (handlers_ s) else [].

(** The descriptor reads the signals of the set, and the thread blocks them. *)
Definition watching (s : SignalSet) (k : kernel) : Prop :=
  masks k !! fd_ s = Some (filter (fun n => valid n = true) (signals_ s)) /\
  filter (fun n => valid n = true /\ blockable n = true) (signals_ s) ⊆ blocked k.

(** ** Proofs *)

Lemma mask_of_signals signals : foldl sigaddset ∅ (elements signals) = filter (fun n => valid n = true) signals.
Proof.
  enough (H : forall l acc, foldl sigaddset acc l = acc ∪ filter (fun n => valid n = true) (list_to_set l)).
  { by rewrite H, list_to_set_elements_L, (left_id_L ∅ (∪)). }
  induction l as [|n l IH]; intros acc; cbn; [set_solver|].
  rewrite IH. apply set_eq. intros x. unfold sigaddset. destruct (valid n) eqn:E; set_unfold; naive_solver congruence.
Qed.

(** Remove of a signal of the set leaves a descriptor that reads exactly the others,
    through the same descriptor when signalfd takes the old one; but the thread
    still blocks the removed signal: no call unblocks it, so that it is neither
    read nor delivered any more. *)
Theorem Remove_stays_blocked n s k : n ∈ signals_ s -> watching s k -> 0 <= fd_ s ->
  exists s' k', Remove true true (fd_ s) n s k = Ok (s', k') /\ watching s' k' /\ fd_ s' = fd_ s /\
    signals_ s' = signals_ s ∖ {[n]} /\ handlers_ s' = handlers_ s /\
    blocked k ⊆ blocked k' /\
    (valid n = true -> blockable n = true -> n ∈ blocked k' /\ forall m, masks k' !! fd_ s' = Some m -> n ∉ m).
Proof.
  intros Hn [Hm Hb] Hfd. unfold Remove, CreateSignalfd. rstep. rewrite bool_decide_eq_true_2 by done.
  rewrite (proj2 (Z.ltb_ge _ _)), mask_of_signals by done. rstep. eexists _, _. split; [reflexivity|].
  split; [split; cbn; [apply lookup_insert_eq|set_solver]|]. do 3 (split; [done|]). split; [set_solver|].
  intros Hv Hbl. split; [set_solver|]. cbn. intros m. rewrite lookup_insert_eq. intros [= <-]. set_solver.
Qed.

(** When sigprocmask fails, Remove forgets the descriptor, which stays open with
    its old mask: the destructor does not close it. *)
Theorem Remove_leaks answer n s k : n ∈ signals_ s ->
  exists s', Remove true false answer n s k = Ok (s', k) /\ fd_ s' = -1 /\ SignalSet_destroy s' k = k.
Proof. intros Hn. unfold Remove, CreateSignalfd. rstep. rewrite bool_decide_eq_true_2 by done. by eexists. Qed.

(** Clear empties the set and leaves the descriptor as it was: its signals are
    still read and reported to the handlers. *)
Theorem Clear_keeps_reading s k : watching s k ->
  masks k !! fd_ (Clear s) = Some (filter (fun n => valid n = true) (signals_ s)) /\ signals_ (Clear s) = ∅ /\
  forall signo, 0 < signo < 65 -> OnSignal 128 signo (Clear s) = map (fun h => (h, signo)) (handlers_ s).
Proof.
  intros [Hm _]. do 2 (split; [done|]). intros signo Hs. unfold OnSignal, ReadSignalFd. cbn [Z.eqb Pos.eqb negb].
  change (negb (128 =? 128)) with false. cbv iota. rewrite wrap_s_id by (unfold fits_s; lia).
  by rewrite (proj2 (Z.eqb_neq _ _)) by lia.
Qed.
End SignalSet.

(** ** Witnesses *)

Definition linux_valid (n : Z) : bool := (1 <=? n) && (n <=? 64).
Definition linux_blockable (n : Z) : bool := negb ((n =? 9) || (n =? 19)).

Definition demo_set : @SignalSet nat := MkSignalSet {[2; 15]} [7%nat] 5.
Definition demo_kernel : kernel := Kernel {[2; 15]} {[5 := {[2; 15]}]}.

Lemma demo_watching : watching linux_valid linux_blockable demo_set demo_kernel.
Proof. by apply (bool_decide_unpack (_ /\ _)). Qed.

Lemma Remove_stays_blocked_witness : exists s' k',
  Remove linux_valid linux_blockable true true 5 15 demo_set demo_kernel = Ok (s', k') /\
  watching linux_valid linux_blockable s' k' /\ fd_ s' = 5 /\ signals_ s' = {[2; 15]} ∖ {[15]} /\ handlers_ s' = [7%nat] /\
  ({[2; 15]} : gset Z) ⊆ blocked k' /\
  (true = true -> true = true -> 15 ∈ blocked k' /\ forall m, masks k' !! fd_ s' = Some m -> 15 ∉ m).
Proof. apply (Remove_stays_blocked linux_valid linux_blockable 15 demo_set demo_kernel); [set_solver|apply demo_watching|done]. Defined.

Lemma Remove_leaks_witness : exists s',
  Remove linux_valid linux_blockable true false 5 15 demo_set demo_kernel = Ok (s', demo_kernel) /\ fd_ s' = -1 /\
  SignalSet_destroy s' demo_kernel = demo_kernel.
Proof. apply (Remove_leaks linux_valid linux_blockable 5 15 demo_set demo_kernel). set_solver. Defined.

Lemma Clear_keeps_reading_witness :
  masks demo_kernel !! 5 = Some (filter (fun n => linux_valid n = true) (signals_ demo_set)) /\
  signals_ (Clear demo_set) = ∅ /\
  forall signo, 0 < signo < 65 -> OnSignal 128 signo (Clear demo_set) = map (fun h => (h, signo)) [7%nat].
Proof. apply (Clear_keeps_reading linux_valid linux_blockable demo_set demo_kernel demo_watching). Defined.
