(* ===== verification/EventLoop.v ===== *)
(** * events/EventLoop

    claire/common/events/EventLoop.{h,cc}: the loop, the task queue shared with
    other threads, the eventfd that wakes the loop up, and the timer calls. One
    action of [step] is what a thread does between two points where another
    thread can intervene; [run] executes a list of actions. *)

From stdpp Require Import sorting.
From S2P Require Import Prelude Timestamp Registry Channel Poller Trace TimeoutQueue.
Open Scope Z_scope.

(* @src claire/common/events/EventLoop.cc:26-26 kPollTimeMs *)
Definition kPollTimeMs : Z := 10.

(** The counter of an eventfd stops at 2^64 - 2 (eventfd(2)). *)
Definition EVENTFD_MAX : Z := 2 ^ 64 - 2.

(** The order of the active channels; [prio] is channel->priority(). *)
(* @src claire/common/events/EventLoop.cc:28-34 Cmp *)
Definition Cmp (prio : ptr -> Priority) (lhs rhs : ptr) : bool :=
  priority_to_int (prio rhs) <? priority_to_int (prio lhs).

(** A result std::sort may produce: no element is before a later one it must
    follow. *)
Definition sorted_by (prio : ptr -> Priority) (l : list ptr) : Prop :=
  StronglySorted (fun a b => Cmp prio b a = false) l.

#[export] Instance sorted_by_dec prio l : Decision (sorted_by prio l).
Proof.
  unfold sorted_by. induction l as [|a l IH]; [left; constructor|].
  destruct (decide (Forall (fun b => Cmp prio b a = false) l)) as [Hf|Hf].
  - destruct IH as [IH|IH]; [left; by constructor|right; by inversion 1].
  - right. by inversion 1.
Defined.

Section EventLoop.
Context {Task : Type}.

(* @src claire/common/events/EventLoop.h:96-96 EventLoop::Entry *)
Definition Entry : Type := TraceContext * Task.

(** Where the loop thread is in loop(); the lists are what is left of the
    active channels, and of the tasks taken by RunPendingTasks. *)
(* @src claire/common/events/EventLoop.cc:107-123 EventLoop::loop *)
Inductive location :=
  | Outside                           (** not in loop() *)
  | AtTest                            (** while(!quit_) *)
  | InPoll                            (** in poller_->poll *)
  | Dispatching (rest : list ptr)
  | InEvent (rest : list ptr)         (** in (star it)->OnEvent() *)
  | BeforeTasks                       (** at RunPendingTasks() *)
  | Tasks (rest : list Entry)
  | InTask (rest : list Entry).

(** [counter] is the eventfd's; [tls] the loop thread's trace context;
    [waking] counts the other threads that are about to call Wakeup(). [polled],
    [delivered], [posted] and [executed] are history: the channels of the last
    poll and those notified since, and all tasks pushed and started, each
    started one with the trace context it found. *)
(* @src claire/common/events/EventLoop.h:106-120 EventLoop *)
Record EventLoop := MkLoop {
  looping_ : bool;
  quit_ : bool;
  active_channels_ : list ptr;
  current_active_channel_ : option ptr;
  pending_tasks_ : list Entry;
  counter : Z;
  tls : ThisThread;
  at_ : location;
  waking : nat;
  polled : list ptr;
  prio_ : ptr -> Priority;
  delivered : list ptr;
  posted : list Entry;
  executed : list Entry;
}.

Definition goto (a : location) (l : EventLoop) : EventLoop :=
  MkLoop (looping_ l) (quit_ l) (active_channels_ l) (current_active_channel_ l) (pending_tasks_ l)
    (counter l) (tls l) a (waking l) (polled l) (prio_ l) (delivered l) (posted l) (executed l).
Definition set_looping (b : bool) (l : EventLoop) : EventLoop :=
  MkLoop b (quit_ l) (active_channels_ l) (current_active_channel_ l) (pending_tasks_ l)
    (counter l) (tls l) (at_ l) (waking l) (polled l) (prio_ l) (delivered l) (posted l) (executed l).
Definition set_quit (l : EventLoop) : EventLoop :=
  MkLoop (looping_ l) true (active_channels_ l) (current_active_channel_ l) (pending_tasks_ l)
    (counter l) (tls l) (at_ l) (waking l) (polled l) (prio_ l) (delivered l) (posted l) (executed l).
Definition set_current (c : option ptr) (l : EventLoop) : EventLoop :=
  MkLoop (looping_ l) (quit_ l) (active_channels_ l) c (pending_tasks_ l)
    (counter l) (tls l) (at_ l) (waking l) (polled l) (prio_ l) (delivered l) (posted l) (executed l).
Definition set_counter (n : Z) (l : EventLoop) : EventLoop :=
  MkLoop (looping_ l) (quit_ l) (active_channels_ l) (current_active_channel_ l) (pending_tasks_ l)
    n (tls l) (at_ l) (waking l) (polled l) (prio_ l) (delivered l) (posted l) (executed l).
Definition set_tls (t : ThisThread) (l : EventLoop) : EventLoop :=
  MkLoop (looping_ l) (quit_ l) (active_channels_ l) (current_active_channel_ l) (pending_tasks_ l)
    (counter l) t (at_ l) (waking l) (polled l) (prio_ l) (delivered l) (posted l) (executed l).
Definition set_waking (n : nat) (l : EventLoop) : EventLoop :=
  MkLoop (looping_ l) (quit_ l) (active_channels_ l) (current_active_channel_ l) (pending_tasks_ l)
    (counter l) (tls l) (at_ l) n (polled l) (prio_ l) (delivered l) (posted l) (executed l).
Definition set_pending (p : list Entry) (l : EventLoop) : EventLoop :=
  MkLoop (looping_ l) (quit_ l) (active_channels_ l) (current_active_channel_ l) p
    (counter l) (tls l) (at_ l) (waking l) (polled l) (prio_ l) (delivered l) (posted l) (executed l).
Definition log_executed (e : Entry) (l : EventLoop) : EventLoop :=
  MkLoop (looping_ l) (quit_ l) (active_channels_ l) (current_active_channel_ l) (pending_tasks_ l)
    (counter l) (tls l) (at_ l) (waking l) (polled l) (prio_ l) (delivered l) (posted l) (executed l ++ [e]).
Definition log_delivered (c : ptr) (l : EventLoop) : EventLoop :=
  MkLoop (looping_ l) (quit_ l) (active_channels_ l) (current_active_channel_ l) (pending_tasks_ l)
    (counter l) (tls l) (at_ l) (waking l) (polled l) (prio_ l) (delivered l ++ [c]) (posted l) (executed l).
Definition set_active (prio : ptr -> Priority) (act order : list ptr) (l : EventLoop) : EventLoop :=
  MkLoop (looping_ l) (quit_ l) order (current_active_channel_ l) (pending_tasks_ l)
    (counter l) (tls l) (at_ l) (waking l) act prio [] (posted l) (executed l).

(** [existing] is tLoopInThisThread. *)
(* @src claire/common/events/EventLoop.cc:63-87 EventLoop::EventLoop *)
Definition EventLoop_new (existing : option ptr) : res EventLoop :=
  match existing with
  | Some _ => Err CheckFailed
  | None => Ok (MkLoop false false [] None [] 0 (MkThisThread 0 0) Outside 0 [] (fun _ => kNormal) [] [] [])
  end.

(* @src claire/common/events/EventLoop.cc:237-245 EventLoop::Wakeup *)
Definition Wakeup (l : EventLoop) : EventLoop :=
  set_counter (if counter l <? EVENTFD_MAX then counter l + 1 else counter l) l.

(* @src claire/common/events/EventLoop.cc:247-255 EventLoop::OnWakeup *)
Definition OnWakeup (l : EventLoop) : EventLoop := set_counter 0 l.

(** pending_tasks_.push_back under the lock, with the caller's trace context. *)
(* @src claire/common/events/EventLoop.cc:152-155 EventLoop::Post *)
Definition push_task (e : Entry) (l : EventLoop) : EventLoop :=
  MkLoop (looping_ l) (quit_ l) (active_channels_ l) (current_active_channel_ l)
    (pending_tasks_ l ++ [e]) (counter l) (tls l) (at_ l) (waking l) (polled l) (prio_ l)
    (delivered l) (posted l ++ [e]) (executed l).

(** Post as one call of a single thread. *)
(* @src claire/common/events/EventLoop.cc:150-161 EventLoop::Post *)
Definition Post (in_loop : bool) (ctx : TraceContext) (t : Task) (l : EventLoop) : EventLoop :=
  let l := push_task (ctx, t) l in
  if negb in_loop || bool_decide (current_active_channel_ l = None) then Wakeup l else l.

(** Run calls the task, or posts it. *)
(* @src claire/common/events/EventLoop.cc:138-148 EventLoop::Run *)
Definition Run (in_loop : bool) (ctx : TraceContext) (t : Task)
  (call : Task -> EventLoop -> EventLoop) (l : EventLoop) : EventLoop :=
  if in_loop then call t l else Post in_loop ctx t l.

(* @src claire/common/events/EventLoop.cc:129-136 EventLoop::quit *)
Definition quit (in_loop : bool) (l : EventLoop) : EventLoop :=
  let l := set_quit l in if negb in_loop then Wakeup l else l.

(** tasks.swap(pending_tasks_) under the lock. *)
(* @src claire/common/events/EventLoop.cc:259-263 EventLoop::RunPendingTasks *)
Definition take_tasks (l : EventLoop) : list Entry * EventLoop := (pending_tasks_ l, set_pending [] l).

Inductive action :=
  (* other threads *)
  | OtherPush (ctx : TraceContext) (t : Task)   (** Post, up to the wake-up *)
  | OtherSetQuit                                (** quit, up to the wake-up *)
  | OtherWakeup                                 (** the Wakeup() of such a call *)
  (* the loop thread, in a callback, in a task or outside loop() *)
  | LoopPost (t : Task)
  | LoopQuit
  | LoopSetContext (ctx : TraceContext)
  (* the loop thread, in loop() *)
  | Enter
  | TestQuit
  | Poll (prio : ptr -> Priority) (act order : list ptr)
  | NextEvent
  | ReadWakeup                                  (** the wake-up channel's callback *)
  | EventDone
  | SwapTasks
  | NextTask
  | TaskDone.

Definition in_callback (a : location) : bool :=
  match a with Outside | InEvent _ | InTask _ => true | _ => false end.

(* @src claire/common/events/EventLoop.cc:99-127 EventLoop::loop *)
Definition step (a : action) (l : EventLoop) : option EventLoop :=
  match a with
  | OtherPush ctx t => Some (set_waking (S (waking l)) (push_task (ctx, t) l))
  | OtherSetQuit => Some (set_waking (S (waking l)) (set_quit l))
  | OtherWakeup =>
      match waking l with O => None | S n => Some (set_waking n (Wakeup l)) end
  | LoopPost t =>
      if in_callback (at_ l) then Some (Post true (GetTraceContext (tls l)) t l) else None
  | LoopQuit => if in_callback (at_ l) then Some (quit true l) else None
  | LoopSetContext c =>
      if in_callback (at_ l) then Some (set_tls (SetTraceContext c (tls l)) l) else None
  | Enter =>
      match at_ l with
      | Outside => if looping_ l then None else Some (goto AtTest (set_looping true l))
      | _ => None
      end
  | TestQuit =>
      match at_ l with
      | AtTest => Some (if quit_ l then goto Outside (set_looping false l) else goto InPoll l)
      | _ => None
      end
  | Poll prio act order =>
      match at_ l with
      | InPoll =>
          if bool_decide (order ≡ₚ act /\ sorted_by prio order)
          then Some (goto (Dispatching order) (set_active prio act order l)) else None
      | _ => None
      end
  | NextEvent =>
      match at_ l with
      | Dispatching (c :: rest) =>
          Some (goto (InEvent rest) (log_delivered c (set_current (Some c) l)))
      | Dispatching [] => Some (goto BeforeTasks (set_current None l))
      | _ => None
      end
  | ReadWakeup => match at_ l with InEvent _ => Some (OnWakeup l) | _ => None end
  | EventDone => match at_ l with InEvent rest => Some (goto (Dispatching rest) l) | _ => None end
  | SwapTasks =>
      match at_ l with
      | BeforeTasks => let '(tasks, l) := take_tasks l in Some (goto (Tasks tasks) l)
      | _ => None
      end
  | NextTask =>
      match at_ l with
      | Tasks ((ctx, t) :: rest) =>
          let l := set_tls (SetTraceContext ctx (tls l)) l in
          Some (goto (InTask rest) (log_executed (GetTraceContext (tls l), t) l))
      | Tasks [] => Some (goto AtTest l)
      | _ => None
      end
  | TaskDone =>
      match at_ l with
      | InTask rest => Some (goto (Tasks rest) (set_tls (ResetTraceContext (tls l)) l))
      | _ => None
      end
  end.

Fixpoint run (acts : list action) (l : EventLoop) : option EventLoop :=
  match acts with
  | [] => Some l
  | a :: acts => l ← step a l; run acts l
  end.

Definition init : EventLoop :=
  MkLoop false false [] None [] 0 (MkThisThread 0 0) Outside 0 [] (fun _ => kNormal) [] [] [].

Definition reachable (l : EventLoop) : Prop := exists acts, run acts init = Some l.

(** ** Channels and timers *)

(* @src claire/common/events/EventLoop.cc:209-214 EventLoop::UpdateChannel *)
Definition loop_UpdateChannel {Cb P} `{Poller Cb P} (in_loop : bool) (p : ptr)
  (h : gmap ptr (Channel Cb)) (e : P) : res (gmap ptr (Channel Cb) * P) :=
  _ ← check in_loop; UpdateChannel in_loop p h e.

(* @src claire/common/events/EventLoop.cc:216-228 EventLoop::RemoveChannel *)
Definition loop_RemoveChannel {Cb P} `{Poller Cb P} (in_loop : bool) (p : ptr) (l : EventLoop)
  (h : gmap ptr (Channel Cb)) (e : P) : res (gmap ptr (Channel Cb) * P) :=
  _ ← check in_loop;
  _ ← (match current_active_channel_ l with
       | Some c => check (bool_decide (c = p) || negb (bool_decide (p ∈ active_channels_ l)))
       | None => Ok tt
       end);
  RemoveChannel in_loop p h e.

End EventLoop.
Arguments EventLoop : clear implicits.
Arguments Entry : clear implicits.
Arguments action : clear implicits.
Arguments location : clear implicits.

Section Timers.
Context {C S : Type} `{EventSet C S}.

(* @src claire/common/events/EventLoop.cc:188-191 EventLoop::RunAt *)
Definition RunAt (time : Timestamp) (cb : C) (q : TimeoutQueue S)
  : Z * TimeoutQueue S * QueueTask C := Add (MicroSecondsSinceEpoch time) cb q.

(** [now] is Timestamp::Now(); the product is an [int]. *)
(* @src claire/common/events/EventLoop.cc:193-196 EventLoop::RunAfter *)
Definition RunAfter (now : Timestamp) (delay_in_milliseconds : Z) (cb : C) (q : TimeoutQueue S)
  : Z * TimeoutQueue S * QueueTask C :=
  RunAt (AddTime now (int32 (delay_in_milliseconds * 1000))) cb q.

(* @src claire/common/events/EventLoop.cc:198-202 EventLoop::RunEvery *)
Definition RunEvery (now : Timestamp) (interval_in_milliseconds : Z) (cb : C) (q : TimeoutQueue S)
  : Z * TimeoutQueue S * QueueTask C :=
  AddRepeating (MicroSecondsSinceEpoch now) (int32 (interval_in_milliseconds * 1000)) cb q.

(* @src claire/common/events/EventLoop.cc:204-207 EventLoop::Cancel *)
Definition loop_Cancel (id : Z) : QueueTask C := Cancel id.

End Timers.

(** ** The invariant *)
Section Properties.
Context {Task : Type}.
Abbreviation Loop := (EventLoop Task).

(** The tasks taken by RunPendingTasks and not started yet. *)
Definition taken (a : location Task) : list (Entry Task) :=
  match a with Tasks r | InTask r => r | _ => [] end.

(** Between a poll and the RunPendingTasks that follows it. *)
Definition dispatch_phase (a : location Task) : bool :=
  match a with Dispatching _ | InEvent _ | BeforeTasks => true | _ => false end.

(** Someone has written, or is about to write, the eventfd. *)
Definition awake (l : Loop) : Prop := 0 < counter l \/ (0 < waking l)%nat.

(** The active channels not notified yet. *)
Definition upcoming (a : location Task) : list ptr :=
  match a with Dispatching r | InEvent r => r | _ => [] end.

Record loop_inv (l : Loop) : Prop := {
  inv_wake : pending_tasks_ l <> [] -> dispatch_phase (at_ l) = true \/ awake l;
  inv_quit : quit_ l = true -> at_ l = InPoll -> awake l;
  inv_fifo : posted l = executed l ++ taken (at_ l) ++ pending_tasks_ l;
  inv_current : dispatch_phase (at_ l) = false \/ at_ l = BeforeTasks -> current_active_channel_ l = None;
  inv_event : forall r, at_ l = InEvent r -> exists c before,
    current_active_channel_ l = Some c /\ delivered l = before ++ [c];
  inv_counter : 0 <= counter l <= EVENTFD_MAX;
  inv_active : dispatch_phase (at_ l) = true -> active_channels_ l = delivered l ++ upcoming (at_ l);
  inv_sorted : active_channels_ l ≡ₚ polled l /\ sorted_by (prio_ l) (active_channels_ l);
  inv_looping : looping_ l = match at_ l with Outside => false | _ => true end;
}.

Lemma awake_Wakeup (l : Loop) : 0 <= counter l <= EVENTFD_MAX -> awake (Wakeup l).
Proof.
  intros Hc. left. unfold Wakeup. cbn. destruct (counter l <? EVENTFD_MAX) eqn:E; zify_bool; [lia|].
  unfold EVENTFD_MAX in *. lia.
Qed.

Lemma Wakeup_range (l : Loop) : 0 <= counter l <= EVENTFD_MAX -> 0 <= counter (Wakeup l) <= EVENTFD_MAX.
Proof.
  intros Hc. unfold Wakeup. cbn. destruct (counter l <? EVENTFD_MAX) eqn:E; zify_bool; lia.
Qed.

Lemma inv_init_loop : loop_inv (init : Loop).
Proof. split; cbn; try done. split; [done|constructor]. Qed.

(** Posting and quitting keep the invariant when the caller wakes the loop, will
    wake it, or is in the dispatch phase. *)
Lemma inv_push e (l : Loop) (n : nat) :
  loop_inv l -> (waking l <= n)%nat -> (0 < n)%nat \/ dispatch_phase (at_ l) = true ->
  loop_inv (set_waking n (push_task e l)).
Proof.
  intros I Hn Hd. split; cbn; try apply I.
  - intros _. unfold awake. cbn. tauto.
  - intros Hq Ha. destruct (inv_quit _ I Hq Ha) as [H|H]; [by left|right; cbn; lia].
  - rewrite (inv_fifo _ I). by rewrite !app_assoc.
Qed.

Lemma inv_Wakeup (l : Loop) (n : nat) :
  loop_inv l -> loop_inv (set_waking n (Wakeup l)).
Proof.
  intros I. pose proof (awake_Wakeup l (inv_counter _ I)) as Ha.
  assert (Hc : 0 < counter (Wakeup l)).
  { destruct (awake_Wakeup (set_waking 0 l) (inv_counter _ I)) as [H|H]; [exact H|cbn in H; lia]. }
  split; try apply I.
  - intros _. right. by left.
  - intros _ _. by left.
  - apply Wakeup_range, I.
Qed.

Lemma set_waking_id (l : Loop) : set_waking (waking l) l = l.
Proof. by destruct l. Qed.

Lemma inv_Post ctx t (l : Loop) :
  loop_inv l -> in_callback (at_ l) = true -> loop_inv (Post true ctx t l).
Proof.
  intros I Hin. unfold Post. cbn [negb orb]. case_bool_decide as Hcur; cbn in Hcur.
  - pose proof (inv_push (ctx, t) l (S (waking l)) I ltac:(lia) ltac:(lia)) as J.
    pose proof (inv_Wakeup _ (waking l) J) as K. exact K.
  - rewrite <- (set_waking_id (push_task _ _)). apply inv_push; [done|cbn; lia|].
    right. destruct (at_ l) eqn:E; cbn in *; try done;
      exfalso; apply Hcur, (inv_current _ I); rewrite E; auto.
Qed.

(** The loop thread moves on. *)
Local Ltac at_loc l E :=
  destruct (at_ l) eqn:E; try discriminate.

Lemma loop_inv_step a (l l' : Loop) : step a l = Some l' -> loop_inv l -> loop_inv l'.
Proof.
  intros Hs I. destruct a; cbn [step] in Hs.
  - injection Hs as <-. apply inv_push; [done|lia|lia].
  - injection Hs as <-. split; cbn; try apply I; intros; unfold awake; cbn; right; lia.
  - destruct (waking l) as [|n]; [done|]. injection Hs as <-. by apply inv_Wakeup.
  - destruct (in_callback (at_ l)) eqn:E; [|done]. injection Hs as <-. by apply inv_Post.
  - destruct (in_callback (at_ l)) eqn:E; [|done]. injection Hs as <-.
    split; cbn; try apply I. intros _ Ha. by rewrite Ha in E.
  - destruct (in_callback (at_ l)) eqn:E; [|done]. injection Hs as <-. split; cbn; apply I.
  - at_loc l E. destruct (looping_ l); [done|]. injection Hs as <-.
    destruct I as [W Q F C Ev N A So L]; rewrite E in *; split; cbn in *; auto; done.
  - at_loc l E. destruct (quit_ l) eqn:Hq; injection Hs as <-;
      destruct I as [W Q F C Ev N A So L]; rewrite E in *; split; cbn in *; auto; congruence.
  - at_loc l E. case_bool_decide as Hb; [|done]. destruct Hb as [Hp Hsort]. injection Hs as <-.
    destruct I as [W Q F C Ev N A So L]; rewrite E in *; split; cbn in *; auto; intuition discriminate.
  - at_loc l E. destruct rest as [|c rest]; injection Hs as <-;
      destruct I as [W Q F C Ev N A So L]; rewrite E in *; split; cbn in *; auto; try done.
    + by intros [|].
    + intros r _. by exists c, (delivered l).
    + intros _. rewrite A by done. by rewrite <- app_assoc.
  - at_loc l E. injection Hs as <-.
    destruct I as [W Q F C Ev N A So L]; rewrite E in *; split; cbn in *; rewrite ?E; auto; try done.
  - at_loc l E. injection Hs as <-.
    destruct I as [W Q F C Ev N A So L]; rewrite E in *; split; cbn in *; auto; try done.
    by intros [|].
  - at_loc l E. injection Hs as <-.
    destruct I as [W Q F C Ev N A So L]; rewrite E in *; split; cbn in *; auto; try done.
    by rewrite app_nil_r.
  - at_loc l E. destruct rest as [|[ctx t] rest]; injection Hs as <-;
      destruct I as [W Q F C Ev N A So L]; rewrite E in *; split; cbn in *; auto; try done.
    rewrite F. rewrite <- app_assoc. by destruct ctx.
  - at_loc l E. injection Hs as <-.
    destruct I as [W Q F C Ev N A So L]; rewrite E in *; split; cbn in *; auto; try done.
Qed.

Lemma loop_run_inv acts : forall l l' : Loop, run acts l = Some l' -> loop_inv l -> loop_inv l'.
Proof.
  induction acts as [|a acts IH]; cbn; intros l l' Hr I; [by injection Hr as <-|].
  destruct (step a l) as [l1|] eqn:Hs; [|done]. cbn in Hr. eapply IH; [done|]. by eapply loop_inv_step.
Qed.

Lemma reachable_inv (l : Loop) : reachable l -> loop_inv l.
Proof. intros [acts Hr]. eapply loop_run_inv; [done|apply inv_init_loop]. Qed.

Lemma run_app (a1 a2 : list (action Task)) (l : Loop) : run (a1 ++ a2) l = l' ← run a1 l; run a2 l'.
Proof.
  revert l. induction a1 as [|a a1 IH]; intros l; cbn; [done|].
  destruct (step a l); cbn; [apply IH|done].
Qed.

(** C1: no wake-up is lost. Whenever the loop thread is about to block in poll, a
    task that is waiting, or a quit request, has made the eventfd readable or is
    about to: its poster is between the push (or the flag) and the write. *)
Theorem no_lost_wakeup (l : Loop) :
  reachable l -> at_ l = InPoll -> pending_tasks_ l <> [] \/ quit_ l = true -> awake l.
Proof.
  intros Hr Ha [Hp|Hq]; apply reachable_inv in Hr as I.
  - destruct (inv_wake _ I Hp) as [H|H]; [by rewrite Ha in H|done].
  - by apply (inv_quit _ I).
Qed.

(** C10: tasks run exactly once and in the order they were posted, each with the
    trace context of its poster: the tasks pushed so far are the ones started,
    with the context they found on the loop thread, followed by those taken and
    those still pending. *)
Theorem tasks_fifo (l : Loop) :
  reachable l -> posted l = executed l ++ taken (at_ l) ++ pending_tasks_ l.
Proof. intros Hr. apply (inv_fifo _ (reachable_inv _ Hr)). Qed.

(** C12: every iteration notifies each channel the poll reported exactly once,
    in order of decreasing priority: when the tasks are about to run, the
    channels notified since the poll are a permutation of the reported ones in
    which no channel follows one of lower priority. *)
Theorem dispatch_by_priority (l : Loop) :
  reachable l -> at_ l = BeforeTasks ->
  delivered l ≡ₚ polled l /\
  forall i j p q, (i < j)%nat -> delivered l !! i = Some p -> delivered l !! j = Some q ->
    priority_to_int (prio_ l q) <= priority_to_int (prio_ l p).
Proof.
  intros Hr Ha. apply reachable_inv in Hr as I. destruct (inv_sorted _ I) as [Hp Hs].
  pose proof (inv_active _ I) as Hact. rewrite Ha in Hact. specialize (Hact eq_refl).
  cbn in Hact. rewrite app_nil_r in Hact. rewrite Hact in Hp, Hs. split; [done|].
  clear -Hs. induction Hs as [|a l0 Hs IH Hf]; [done|].
  intros [|i] [|j] p q Hij Hi Hj; cbn in *; [lia| |lia|apply (IH i j); [lia|done..]].
  injection Hi as <-. rewrite Forall_lookup in Hf. specialize (Hf _ _ Hj). unfold Cmp in Hf.
  zify_bool. lia.
Qed.

(** ** Progress *)

(** The actions of the loop thread in loop(), outside callbacks and tasks. *)
Definition loop_action (a : action Task) : bool :=
  match a with
  | TestQuit | Poll _ _ _ | NextEvent | EventDone | SwapTasks | NextTask | TaskDone => true
  | _ => false
  end.

(** The started tasks all return: RunPendingTasks ends. *)
Lemma run_taken r : forall l : Loop, at_ l = Tasks r ->
  exists acts l', run acts l = Some l' /\ forallb loop_action acts = true /\ at_ l' = AtTest /\
    executed l' = executed l ++ r /\ pending_tasks_ l' = pending_tasks_ l /\ posted l' = posted l /\
    quit_ l' = quit_ l.
Proof.
  induction r as [|[ctx t] r IH]; intros l Ha.
  - exists [NextTask]. cbn. rewrite Ha. cbn. eexists. split; [done|]. by rewrite app_nil_r.
  - set (l1 := goto (Tasks r) (set_tls (MkThisThread 0 0) (log_executed (ctx, t)
          (set_tls (SetTraceContext ctx (tls l)) l)))).
    destruct (IH l1 eq_refl) as (acts & l' & Hr & Hf & Ha' & He & Hp & Hpo & Hq).
    exists (NextTask :: TaskDone :: acts), l'. cbn. rewrite Ha. cbn.
    unfold GetTraceContext, SetTraceContext, ResetTraceContext. cbn.
    destruct ctx as [a b]. cbn. split; [exact Hr|]. split; [done|]. split; [done|].
    rewrite He, Hp, Hpo, Hq. cbn. by rewrite <- app_assoc.
Qed.

Lemma run_dispatch r : forall l : Loop, at_ l = Dispatching r ->
  exists acts l', run acts l = Some l' /\ forallb loop_action acts = true /\ at_ l' = BeforeTasks /\
    executed l' = executed l /\ pending_tasks_ l' = pending_tasks_ l /\ posted l' = posted l /\
    quit_ l' = quit_ l.
Proof.
  induction r as [|c r IH]; intros l Ha.
  - exists [NextEvent]. cbn. rewrite Ha. cbn. eexists. by split.
  - set (l1 := goto (Dispatching r) (log_delivered c (set_current (Some c) l))).
    destruct (IH l1 eq_refl) as (acts & l' & Hr & Hf & Hrest).
    exists (NextEvent :: EventDone :: acts), l'. cbn. rewrite Ha. cbn. by split.
Qed.

(** To the end of the iteration from RunPendingTasks on. *)
Lemma run_tasks (l : Loop) : at_ l = BeforeTasks -> loop_inv l ->
  exists acts l', run acts l = Some l' /\ forallb loop_action acts = true /\ at_ l' = AtTest /\
    executed l' = posted l /\ posted l' = posted l /\ pending_tasks_ l' = [] /\ quit_ l' = quit_ l.
Proof.
  intros Ha I. pose proof (inv_fifo _ I) as F. rewrite Ha in F. cbn in F.
  set (l1 := goto (Tasks (pending_tasks_ l)) (set_pending [] l)).
  destruct (run_taken _ l1 eq_refl) as (acts & l' & Hr & Hf & Ha' & He & Hp & Hpo & Hq).
  exists (SwapTasks :: acts), l'. cbn. rewrite Ha. cbn.
  split; [exact Hr|]. split; [done|]. split; [done|]. rewrite He, Hp, Hpo, Hq. by rewrite F.
Qed.

(** What is left of the current iteration, from anywhere in loop(). *)
Lemma finish_iteration (l : Loop) : loop_inv l -> at_ l <> Outside ->
  exists acts l', run acts l = Some l' /\ forallb loop_action acts = true /\ at_ l' = AtTest /\
    posted l' = posted l /\ quit_ l' = quit_ l.
Proof.
  intros I Hne.
  assert (Hd : forall r (l0 : Loop), at_ l0 = Dispatching r -> loop_inv l0 ->
    exists acts l', run acts l0 = Some l' /\ forallb loop_action acts = true /\ at_ l' = AtTest /\
    posted l' = posted l0 /\ quit_ l' = quit_ l0).
  { intros r l0 Ha I0. destruct (run_dispatch r l0 Ha) as (a1 & l1 & R1 & F1 & A1 & _ & _ & P1 & Q1).
    destruct (run_tasks l1 A1 (loop_run_inv _ _ _ R1 I0)) as (a2 & l2 & R2 & F2 & A2 & _ & P2 & _ & Q2).
    exists (a1 ++ a2), l2. rewrite run_app, R1, forallb_app, F1, F2. cbn.
    split; [done|]. split; [done|]. split; [done|]. split; congruence. }
  destruct (at_ l) eqn:E; try done.
  - exists [], l. by cbn.
  - set (l1 := goto (Dispatching []) (set_active (prio_ l) [] [] l)).
    assert (run [Poll (prio_ l) [] []] l = Some l1) as R1.
    { cbn. rewrite E. rewrite bool_decide_eq_true_2; [done|]. split; [done|constructor]. }
    destruct (Hd [] l1 eq_refl (loop_run_inv _ _ _ R1 I)) as (a2 & l2 & R2 & F2 & A2 & P2 & Q2).
    exists ([Poll (prio_ l) [] []] ++ a2), l2. rewrite run_app, R1. by cbn.
  - by apply (Hd rest).
  - destruct (Hd rest (goto (Dispatching rest) l) eq_refl) as (a2 & l2 & R2 & F2 & A2 & P2 & Q2).
    { apply (loop_inv_step EventDone l); [cbn; by rewrite E|done]. }
    exists (EventDone :: a2), l2. cbn. rewrite E. cbn. by rewrite F2.
  - destruct (run_tasks l E I) as (a2 & l2 & R2 & F2 & A2 & _ & P2 & _ & Q2). by exists a2, l2.
  - destruct (run_taken rest l E) as (a2 & l2 & R2 & F2 & A2 & _ & _ & P2 & Q2). by exists a2, l2.
  - set (l1 := goto (Tasks rest) (set_tls (MkThisThread 0 0) l)).
    destruct (run_taken rest l1 eq_refl) as (a2 & l2 & R2 & F2 & A2 & _ & _ & P2 & Q2).
    exists (TaskDone :: a2), l2. cbn. rewrite E. cbn. by rewrite F2.
Qed.

(** C11: no posted task waits forever. From every reachable state in loop() that
    has not been asked to quit, when callbacks and tasks return the loop thread
    alone reaches a state in which every task posted so far has run, in order,
    and none is pending. *)
Theorem posted_tasks_run (l : Loop) :
  reachable l -> at_ l <> Outside -> quit_ l = false ->
  exists acts l', run acts l = Some l' /\ forallb loop_action acts = true /\ at_ l' = AtTest /\
    executed l' = posted l /\ pending_tasks_ l' = [].
Proof.
  intros Hr Hne Hq. apply reachable_inv in Hr as I.
  destruct (finish_iteration l I Hne) as (a1 & l1 & R1 & F1 & A1 & P1 & Q1).
  set (l2 := goto (Dispatching []) (set_active (prio_ l1) [] [] (goto InPoll l1))).
  assert (run [TestQuit; Poll (prio_ l1) [] []] l1 = Some l2) as R2.
  { cbn. rewrite A1. cbn. rewrite Q1, Hq. cbn.
    rewrite bool_decide_eq_true_2; [done|]. split; [done|constructor]. }
  pose proof (loop_run_inv _ _ _ R2 (loop_run_inv _ _ _ R1 I)) as I2.
  destruct (run_dispatch [] l2 eq_refl) as (a3 & l3 & R3 & F3 & A3 & _ & _ & P3 & _).
  destruct (run_tasks l3 A3 (loop_run_inv _ _ _ R3 I2)) as (a4 & l4 & R4 & F4 & A4 & E4 & P4 & N4 & _).
  exists (a1 ++ [TestQuit; Poll (prio_ l1) [] []] ++ a3 ++ a4), l4.
  rewrite !run_app, R1. cbn [mbind option_bind]. rewrite run_app, R2. cbn [mbind option_bind].
  rewrite run_app, R3. cbn [mbind option_bind]. split; [done|].
  rewrite !forallb_app, F1, F3, F4. split; [done|]. split; [done|]. split; [|done].
  rewrite E4, P3. exact P1.
Qed.

Fixpoint polls (acts : list (action Task)) : nat :=
  match acts with
  | [] => 0
  | Poll _ _ _ :: acts => S (polls acts)
  | _ :: acts => polls acts
  end.

Lemma quit_step a (l l' : Loop) : step a l = Some l' -> quit_ l = true -> quit_ l' = true.
Proof.
  intros Hs Hq. unfold Post, take_tasks in *. destruct a; cbn [step] in Hs; unfold Post, take_tasks in Hs;
    repeat case_match; try discriminate Hs; injection Hs as <-; try done.
Qed.

(** In loop() with quit_ set, the loop thread does not come back to poll. *)
Lemma quit_polls acts : forall l l' : Loop, run acts l = Some l' -> quit_ l = true ->
  (polls acts <= match at_ l with InPoll => 1 | _ => 0 end)%nat.
Proof.
  induction acts as [|a acts IH]; cbn [run polls]; intros l l' Hr Hq; [lia|].
  destruct (step a l) as [l1|] eqn:Hs; [|done]. cbn in Hr.
  pose proof (IH _ _ Hr (quit_step _ _ _ Hs Hq)) as H1.
  destruct a; cbn [step] in Hs; unfold Post, take_tasks in Hs; rewrite ?Hq in Hs;
    repeat case_match; try discriminate Hs; injection Hs as <-; cbn in *; simplify_eq; (lia || congruence).
Qed.

(** C20: a quit request stops the loop. Once quit_ is set, whatever the threads do
    the loop polls at most once more, and only if it was already on its way into
    poll; and the loop thread alone always gets out of loop(). *)
Theorem quit_stops (l : Loop) :
  reachable l -> quit_ l = true ->
  (forall acts l', run acts l = Some l' ->
     (polls acts <= match at_ l with InPoll => 1 | _ => 0 end)%nat) /\
  exists acts l', run acts l = Some l' /\ forallb loop_action acts = true /\ at_ l' = Outside /\
    looping_ l' = false.
Proof.
  intros Hr Hq. split; [intros acts l' Hrun; by eapply quit_polls|].
  apply reachable_inv in Hr as I.
  assert (at_ l = Outside \/ at_ l <> Outside) as [Ho|Hne] by (destruct (at_ l); auto).
  - exists [], l. split; [done|]. split; [done|]. split; [done|]. by rewrite (inv_looping _ I), Ho.
  - destruct (finish_iteration l I Hne) as (a1 & l1 & R1 & F1 & A1 & _ & Q1).
    exists (a1 ++ [TestQuit]), (goto Outside (set_looping false l1)).
    rewrite run_app, R1, forallb_app, F1. cbn. rewrite A1. cbn. by rewrite Q1, Hq.
Qed.

(** A channel that is still to be notified cannot be removed: when
    RemoveChannel succeeds while the loop dispatches the events of distinct
    channels, the removed channel is not among those coming up, so the loop
    never calls a channel that was destroyed in between. *)
Theorem removed_not_upcoming {Cb P} `{Poller Cb P} (l : Loop) p h (e : P) r rest :
  reachable l -> NoDup (polled l) -> at_ l = InEvent rest ->
  loop_RemoveChannel true p l h e = Ok r -> p ∉ rest.
Proof.
  intros Hr Hnd Ha Hrm. apply reachable_inv in Hr as I.
  destruct (inv_sorted _ I) as [Hp _]. rewrite <- Hp in Hnd.
  pose proof (inv_active _ I) as Hact. rewrite Ha in Hact. specialize (Hact eq_refl). cbn in Hact.
  unfold loop_RemoveChannel in Hrm. res_inv. destruct (inv_event _ I _ Ha) as (c & before & Hcur & Hb).
  rewrite Hcur in *. res_inv. apply orb_true_iff in E0 as [E0|E0].
  - apply bool_decide_eq_true in E0. subst c. rewrite Hact, Hb in Hnd. intros Hin. apply NoDup_app in Hnd as (_ & Hdis & _).
    apply (Hdis p); [|done]. apply elem_of_app. right. by apply list_elem_of_singleton.
  - apply negb_true_iff, bool_decide_eq_false in E0. rewrite Hact in E0.
    intros Hin. apply E0, elem_of_app. by right.
Qed.

End Properties.

(** ** Timer delays *)
Section TimerProperties.
Context {C S : Type} `{EventSet C S}.

(** RunAfter schedules the callback exactly [delay] milliseconds after now, as
    long as the delay is at most 2147483 ms in absolute value: the conversion to
    microseconds is exact in that range. *)
Theorem RunAfter_exact now delay (cb : C) (q : TimeoutQueue S) :
  -2147483 <= delay <= 2147483 -> 0 <= microseconds_since_epoch_ now < 2 ^ 62 ->
  RunAfter now delay cb q =
    (next_ q, TQ (timeouts_ q) (next_ q + 1) (timer_ q),
     AddTask (MkEvent (next_ q) (microseconds_since_epoch_ now + delay * 1000) (-1) cb)).
Proof.
  intros Hd Hn. unfold RunAfter, RunAt, Add, AddTime, MicroSecondsSinceEpoch.
  cbn [microseconds_since_epoch_]. rewrite (wrap_s_id 32) by (unfold fits_s; lia).
  by rewrite wrap_s_id by (unfold fits_s; lia).
Qed.

(** Longer delays overflow the int product: a delay just above 2147483 ms
    (about 35.8 minutes) is scheduled in the past and fires at once, and RunEvery
    with such an interval creates an event with a negative interval, which
    TimeoutQueue treats as a one-shot timer. *)
Theorem long_delay_overflows now delay (cb : C) (q : TimeoutQueue S) :
  2147484 <= delay <= 4294967 -> 2 ^ 32 <= microseconds_since_epoch_ now < 2 ^ 62 ->
  (exists e q', RunAfter now delay cb q = (next_ q, q', AddTask e) /\
   expiration e < microseconds_since_epoch_ now) /\
   (exists e q', RunEvery now delay cb q = (next_ q, q', AddTask e) /\ repeat_interval e < 0).
Proof.
  intros Hd Hn. assert (Hw : int32 (delay * 1000) = delay * 1000 - 2 ^ 32).
  { unfold wrap_s. rewrite <- (Z.mod_unique _ _ 1 (delay * 1000 + 2 ^ 31 - 2 ^ 32)); lia. }
  split; do 2 eexists; (split; [reflexivity|]); cbn [expiration repeat_interval]; rewrite Hw.
  - unfold AddTime, MicroSecondsSinceEpoch. cbn [microseconds_since_epoch_].
    rewrite wrap_s_id by (unfold fits_s; lia). lia.
  - lia.
Qed.
End TimerProperties.

(** ** A run: two posts from another thread, one from an event callback *)
Section Demo.
Import ListEventSet.
Definition demo_prio (p : ptr) : Priority := if (p =? 1)%nat then kHigh else kLow.

Definition demo_actions : list (action nat) :=
  [Enter; TestQuit; OtherPush (7, 1) 10%nat; OtherWakeup; OtherPush (0, 0) 11%nat;
   Poll demo_prio [0%nat; 1%nat] [1%nat; 0%nat]; NextEvent; LoopSetContext (3, 3); LoopPost 12%nat;
   EventDone; NextEvent; ReadWakeup; EventDone; NextEvent].

Definition demo_loop : EventLoop nat := match run demo_actions init with Some l => l | None => init end.

Lemma demo_reachable : reachable demo_loop.
Proof. exists demo_actions. vm_compute. reflexivity. Qed.

Definition demo_polling : EventLoop nat :=
  match run [Enter; TestQuit; OtherPush (7, 1) 10%nat] init with Some l => l | None => init end.

Lemma no_lost_wakeup_witness : at_ demo_polling = InPoll /\ awake demo_polling.
Proof.
  split; [reflexivity|]. apply (no_lost_wakeup demo_polling).
  - exists [Enter; TestQuit; OtherPush (7, 1) 10%nat]. reflexivity.
  - reflexivity.
  - left. discriminate.
Defined.

Lemma tasks_fifo_witness :
  posted demo_loop = [((7, 1), 10%nat); ((0, 0), 11%nat); ((3, 3), 12%nat)] /\
   posted demo_loop = executed demo_loop ++ taken (at_ demo_loop) ++ pending_tasks_ demo_loop.
Proof. split; [reflexivity|]. apply (tasks_fifo demo_loop demo_reachable). Defined.

Lemma dispatch_by_priority_witness :
  delivered demo_loop = [1%nat; 0%nat] /\ delivered demo_loop ≡ₚ polled demo_loop /\
   forall i j p q, (i < j)%nat -> delivered demo_loop !! i = Some p -> delivered demo_loop !! j = Some q ->
    priority_to_int (prio_ demo_loop q) <= priority_to_int (prio_ demo_loop p).
Proof. split; [reflexivity|]. apply (dispatch_by_priority demo_loop demo_reachable). reflexivity. Defined.

Lemma posted_tasks_run_witness :
  exists acts l', run acts demo_loop = Some l' /\ forallb loop_action acts = true /\ at_ l' = AtTest /\
   executed l' = posted demo_loop /\ pending_tasks_ l' = [].
Proof. apply (posted_tasks_run demo_loop demo_reachable); [discriminate|reflexivity]. Defined.

Lemma quit_stops_witness :
  let l := set_waking 1 (set_quit (goto InPoll (set_looping true (@init nat)))) in
  (forall acts l', run acts l = Some l' -> (polls acts <= 1)%nat) /\
   exists acts l', run acts l = Some l' /\ forallb loop_action acts = true /\ at_ l' = Outside /\
   looping_ l' = false.
Proof.
  intros l. apply (quit_stops l); [|reflexivity].
  exists [Enter; TestQuit; OtherSetQuit]. reflexivity.
Defined.

Definition demo_timers : TimeoutQueue (list (Event nat)) := TimeoutQueue_init.

Lemma RunAfter_exact_witness :
  RunAfter (MkTimestamp 5000000) 1500 0%nat demo_timers =
    (1, TQ [] 2 None, AddTask (MkEvent 1 6500000 (-1) 0%nat)).
Proof.
  apply (RunAfter_exact (MkTimestamp 5000000) 1500 0%nat demo_timers); cbn; lia.
Defined.

Lemma long_delay_overflows_witness :
  let now := MkTimestamp 1400000000000000 in
  (exists e q', RunAfter now 2147484 0%nat demo_timers =
     (1, q', AddTask e) /\ expiration e < microseconds_since_epoch_ now) /\
   (exists e q', RunEvery now 2147484 0%nat demo_timers =
     (1, q', AddTask e) /\ repeat_interval e < 0).
Proof.
  intros now. apply (long_delay_overflows now 2147484 0%nat demo_timers); cbn; lia.
Defined.

Definition demo_event : EventLoop nat :=
  match run [Enter; TestQuit; Poll demo_prio [0%nat; 1%nat] [1%nat; 0%nat]; NextEvent] init with
  | Some l => l | None => init end.

Definition demo_heap : gmap ptr (Channel nat) :=
  {[1%nat := set_context kAdded (Channel_new 5)]}.

(** The high priority channel removes itself. *)
Lemma removed_not_upcoming_witness :
  let e := EPoll 64 [None; None; None; None; None; Some 1%nat] [] in
  is_ok (loop_RemoveChannel true 1%nat demo_event demo_heap e) = true /\ 1%nat ∉ [0%nat].
Proof.
  intros e. split; [vm_compute; reflexivity|].
  destruct (loop_RemoveChannel true 1%nat demo_event demo_heap e) as [r|] eqn:E; [|vm_compute in E; discriminate].
  apply (removed_not_upcoming demo_event 1%nat demo_heap e r [0%nat]).
  - exists [Enter; TestQuit; Poll demo_prio [0%nat; 1%nat] [1%nat; 0%nat]; NextEvent]. vm_compute. reflexivity.
  - apply (bool_decide_unpack _). vm_compute. exact I.
  - reflexivity.
  - exact E.
Defined.
End Demo.
