(* ===== verification/Reactor.v ===== *)
(** * events: the life of a loop, its poller, timers and wake-up channel

    The constructors and destructors of claire/common/events/EventLoop.cc,
    TimeoutQueue.cc and poller/EPollPoller.cc, composed: the descriptors a loop
    owns, the channels it registers with its poller for the timer and the
    wake-ups, tLoopInThisThread, and what a poll that reports both descriptors
    ends in. A loop has a heap of its own for its channels; the kernel's answers
    to epoll_create1, timerfd_create and eventfd are arguments. *)

From stdpp Require Import sorting.
From S2P Require Import Prelude Registry Channel Poller TimeoutQueue EventLoop.
Open Scope Z_scope.

(** What a channel's callback is bound to: the member functions of the loop's own
    channels, or a closure of the user, by name. *)
Inductive member := OnTimer_ | OnWakeup_ | User_ (code : nat).

#[export] Instance member_eq_dec : EqDecision member.
Proof. solve_decision. Defined.

Section Reactor.
Context {C S Task : Type} `{EventSet C S}.

(** [closed] are the descriptors closed so far, in order. *)
(* @src claire/common/events/EventLoop.cc:25-25 tLoopInThisThread *)
Record Thread := MkThread {
  tLoopInThisThread : option ptr;
  heap : store (Channel member);
  closed : list Z;
}.

(** The members of a loop; [core] is the state [EventLoop.step] works on. *)
(* @src claire/common/events/EventLoop.h:106-117 EventLoop *)
Record Reactor := MkReactor {
  this : ptr;
  core : EventLoop Task;
  epoll_fd_ : Z;
  poller_ : EPollPoller;
  timer_fd_ : Z;
  timer_channel_ : ptr;
  queue : TimeoutQueue S;
  wakeup_fd_ : Z;
  wakeup_channel_ : ptr;
}.

(** ** Construction *)

(* @src claire/common/events/TimeoutQueue.cc:39-48 CreateTimerfd *)
Definition CreateTimerfd (answer : Z) : res Z := _ ← check (0 <=? answer); Ok answer.

(* @src claire/common/events/EventLoop.cc:36-45 CreateEventfd *)
Definition CreateEventfd (answer : Z) : res Z := _ ← check (0 <=? answer); Ok answer.

(** A change of a channel in its heap. *)
Definition with_channel (p : ptr) (f : Channel member -> Channel member) (s : store (Channel member))
  : res (store (Channel member)) :=
  c ← load s p; Ok (MkStore (<[p := f c]> (objs s)) (next_addr s)).

(** channel->EnableReading() on the loop's thread. *)
Definition enable_reading (p : ptr) (s : store (Channel member)) (e : EPollPoller)
  : res (store (Channel member) * EPollPoller) :=
  '(h, e) ← change_interest true EnableReading p (objs s) e; Ok (MkStore h (next_addr s), e).

(* @src claire/common/events/TimeoutQueue.cc:93-103 TimeoutQueue::TimeoutQueue *)
Definition TimeoutQueue_construct (answer : Z) (s : store (Channel member)) (e : EPollPoller)
  : res (Z * ptr * TimeoutQueue S * store (Channel member) * EPollPoller) :=
  fd ← CreateTimerfd answer;
  let '(p, s) := new (Channel_new fd) s in
  s ← with_channel p (set_read_callback (Some OnTimer_)) s;
  '(s, e) ← enable_reading p s e;
  s ← with_channel p (set_priority kHigh) s;
  Ok (fd, p, TimeoutQueue_init, s, e).

(** [epfd], [tfd] and [wfd] are the kernel's answers; the result of epoll_create1
    is not tested. *)
(* @src claire/common/events/EventLoop.cc:63-87 EventLoop::EventLoop *)
Definition EventLoop_construct (self : ptr) (epfd tfd wfd : Z) (t : Thread) : res (Reactor * Thread) :=
  '(tfd, tp, q, s, e) ← TimeoutQueue_construct tfd (heap t) EPollPoller_init;
  wfd ← CreateEventfd wfd;
  let '(wp, s) := new (Channel_new wfd) s in
  core ← EventLoop_new (tLoopInThisThread t);
  s ← with_channel wp (set_read_callback (Some OnWakeup_)) s;
  '(s, e) ← enable_reading wp s e;
  Ok (MkReactor self core epfd e tfd tp q wfd wp, MkThread (Some self) s (closed t)).

(** ** Destruction *)

Definition close_fd (fd : Z) (t : Thread) : Thread :=
  MkThread (tLoopInThisThread t) (heap t) (closed t ++ [fd]).

(** delete of a channel: its destructor's CHECK, then the memory. *)
(* @src claire/common/events/Channel.cc:29-29 Channel::~Channel *)
Definition delete_channel (p : ptr) (t : Thread) : res Thread :=
  c ← load (heap t) p; _ ← Channel_destroy c;
  Ok (MkThread (tLoopInThisThread t) (del (Some p) (heap t)) (closed t)).

(** The body, then the members from the last to the first. *)
(* @src claire/common/events/TimeoutQueue.cc:105-108 TimeoutQueue::~TimeoutQueue *)
Definition TimeoutQueue_destroy (r : Reactor) (t : Thread) : res Thread :=
  delete_channel (timer_channel_ r) (close_fd (timer_fd_ r) t).

(* @src claire/common/events/poller/EPollPoller.cc:44-44 EPollPoller::~EPollPoller *)
Definition EPollPoller_destroy (r : Reactor) (t : Thread) : Thread := close_fd (epoll_fd_ r) t.

(* @src claire/common/events/EventLoop.cc:89-97 EventLoop::~EventLoop *)
Definition EventLoop_destroy (r : Reactor) (t : Thread) : res Thread :=
  let t := close_fd (wakeup_fd_ r) t in
  _ ← check (bool_decide (tLoopInThisThread t = Some (this r)));
  let t := MkThread None (heap t) (closed t) in
  t ← delete_channel (wakeup_channel_ r) t;
  t ← TimeoutQueue_destroy r t;
  Ok (EPollPoller_destroy r t).

(** ** What construction establishes *)

(** A channel of the loop as its constructor leaves it. *)
Definition own_channel (fd : Z) (cb : member) (prio : Priority) : Channel member :=
  set_priority prio (set_context kAdded (set_events kReadEvent (set_read_callback (Some cb) (Channel_new fd)))).

(** The loop's channels are registered with its poller, which watches exactly
    their two descriptors. *)
Record reactor_ok (r : Reactor) (t : Thread) : Prop := {
  ro_loop : tLoopInThisThread t = Some (this r);
  ro_timer : objs (heap t) !! timer_channel_ r = Some (own_channel (timer_fd_ r) OnTimer_ kHigh);
  ro_wakeup : objs (heap t) !! wakeup_channel_ r = Some (own_channel (wakeup_fd_ r) OnWakeup_ kNormal);
  ro_poller : poller_inv (objs (heap t)) (poller_ r)
    (<[wakeup_fd_ r := kReadEvent]> {[timer_fd_ r := kReadEvent]});
}.

Lemma with_channel_ok p f s c : objs s !! p = Some c ->
  with_channel p f s = Ok (MkStore (<[p := f c]> (objs s)) (next_addr s)).
Proof. intros Hp. unfold with_channel, load. rewrite Hp. by rstep. Qed.

(** The poller's table never shrinks. *)
Lemma UpdateChannel_length in_loop p (h : gmap ptr (Channel member)) e h' e' :
  epoll_UpdateChannel in_loop p h e = Ok (h', e') -> Zlen (channels_ e) <= Zlen (channels_ e').
Proof.
  assert (Hr : forall l n, (length l <= n)%nat -> Zlen l <= Zlen (resize l n))
    by (intros; unfold Zlen; rewrite length_resize; lia).
  assert (Hs : forall l i x l', vset l i x = Ok l' -> Zlen l' = Zlen (l : list (option ptr))).
  { intros l i x l'. unfold vset. case_match; [|done]. intros [= <-]. unfold Zlen. by rewrite length_insert. }
  unfold epoll_UpdateChannel. intros E. res_inv.
  all: repeat (case_match; res_inv); simplify_eq; cbn [channels_ Update] in *.
  all: try match goal with H : vset _ _ _ = Ok _ |- _ => apply Hs in H end; cbn [channels_ Update] in *.
  all: first [done|lia|idtac].
  all: try (pose proof (Hr (channels_ e) (length (channels_ e) * 2)%nat); lia).
Qed.

(** A new channel with descriptor [fd] and callback [cb] is registered for
    reading. *)
Lemma register_own s e k fd cb :
  poller_inv (objs s) e k -> (forall p, (next_addr s <= p)%nat -> objs s !! p = None) ->
  0 <= fd < 2 ^ 31 -> fd < 2 * Zlen (channels_ e) -> (forall q d, objs s !! q = Some d -> fd_ d <> fd) ->
  let '(p, s1) := new (Channel_new fd) s in
  exists s2 e', with_channel p (set_read_callback (Some cb)) s1 = Ok s2 /\
    enable_reading p s2 e = Ok (MkStore (<[p := own_channel fd cb kNormal]> (objs s)) (next_addr s1), e') /\
    poller_inv (<[p := own_channel fd cb kNormal]> (objs s)) e' (<[fd := kReadEvent]> k) /\
    Zlen (channels_ e) <= Zlen (channels_ e').
Proof.
  intros I Hfresh Hfd Hfit Hne. unfold new. set (p := next_addr s).
  assert (Hp : objs s !! p = None) by (by apply Hfresh).
  set (c := set_events kReadEvent (set_read_callback (Some cb) (Channel_new fd)) : Channel member).
  assert (I1 : poller_inv (<[p := c]> (objs s)) e k) by (by apply inv_new).
  destruct (update_new _ _ _ p c I1) as (e' & k' & Hu & I' & ->); [apply lookup_insert_eq|done|exact Hfit|].
  change ((context_ c =? kAdded) && IsNoneEvent c) with false in Hu, I'. cbn iota in Hu, I'.
  rewrite insert_insert_eq in Hu, I'.
  exists (MkStore (<[p := set_read_callback (Some cb) (Channel_new fd)]> (objs s)) (Datatypes.S p)), e'.
  split; [rewrite (with_channel_ok _ _ _ (Channel_new fd)) by apply lookup_insert_eq; cbn; by rewrite insert_insert_eq|].
  split; [|split; [exact I'|by eapply UpdateChannel_length]].
  unfold enable_reading, change_interest, deref. cbn [objs next_addr]. rewrite lookup_insert_eq. rstep.
  rewrite insert_insert_eq. fold c. cbn [UpdateChannel epoll_poller].
  change (set_events (interest_bits EnableReading _) _) with c. rewrite Hu. by rstep.
Qed.

(** A thread without a loop and without channels. *)
Definition idle (t : Thread) : Prop :=
  tLoopInThisThread t = None /\ objs (heap t) = ∅ /\ forall p, (next_addr (heap t) <= p)%nat -> objs (heap t) !! p = None.

Lemma own_priority fd cb : set_priority kHigh (own_channel fd cb kNormal) = own_channel fd cb kHigh.
Proof. done. Qed.

(** A loop is constructed on a thread that has none: the loop is the thread's, it
    is in the first state of [EventLoop.step], and its two channels are registered
    for reading with their callbacks, the timer's with the high priority. The
    descriptors have to be below 128, twice the poller's first table. *)
Theorem construct_ok self epfd tfd wfd t :
  idle t -> 0 <= tfd < 128 -> 0 <= wfd < 128 -> tfd <> wfd ->
  exists r t', EventLoop_construct self epfd tfd wfd t = Ok (r, t') /\ reactor_ok r t' /\ closed t' = closed t /\
    this r = self /\ core r = init /\ queue r = TimeoutQueue_init /\ timer_channel_ r <> wakeup_channel_ r /\
    epoll_fd_ r = epfd /\ timer_fd_ r = tfd /\ wakeup_fd_ r = wfd /\
    objs (heap t') = <[wakeup_channel_ r := own_channel wfd OnWakeup_ kNormal]>
      {[timer_channel_ r := own_channel tfd OnTimer_ kHigh]} /\
    forall p, (next_addr (heap t') <= p)%nat -> objs (heap t') !! p = None.
Proof.
  intros (Hl & Hh & Hf) Htfd Hwfd Hne. unfold EventLoop_construct, TimeoutQueue_construct, CreateTimerfd, CreateEventfd.
  rewrite (proj2 (Z.leb_le 0 tfd)) by lia. rstep. set (s0 := heap t) in *.
  assert (I0 : poller_inv (objs s0) EPollPoller_init ∅) by (rewrite Hh; apply poller_inv_init).
  pose proof (register_own s0 EPollPoller_init ∅ tfd OnTimer_ I0 Hf ltac:(lia)) as R1.
  unfold new in R1 |- *. set (tp := next_addr s0) in *.
  destruct R1 as (s1 & e1 & E1 & E1' & I1 & L1); [change (Zlen (channels_ EPollPoller_init)) with 64; lia| |].
  { intros q d. by rewrite Hh, lookup_empty. }
  rewrite E1. rstep. rewrite E1'. rstep.
  rewrite (with_channel_ok _ _ _ (own_channel tfd OnTimer_ kNormal)) by apply lookup_insert_eq. rstep.
  cbn [objs next_addr]. rewrite insert_insert_eq, own_priority.
  set (s2 := MkStore (<[tp := own_channel tfd OnTimer_ kHigh]> (objs s0)) (Datatypes.S tp)).
  assert (I2 : poller_inv (objs s2) e1 (<[tfd := kReadEvent]> ∅)).
  { pose proof (inv_same _ _ _ tp _ (own_channel tfd OnTimer_ kHigh) I1 (lookup_insert_eq _ _ _) eq_refl eq_refl) as I2.
    by rewrite insert_insert_eq in I2. }
  assert (Hf2 : forall p, (next_addr s2 <= p)%nat -> objs s2 !! p = None).
  { intros p Hp. cbn [s2 objs next_addr] in *. rewrite lookup_insert_ne by lia. apply Hf. lia. }
  rewrite (proj2 (Z.leb_le 0 wfd)) by lia. rstep.
  pose proof (register_own s2 e1 _ wfd OnWakeup_ I2 Hf2 ltac:(lia)) as R2. unfold new in R2. cbn [s2 next_addr objs] in R2 |- *.
  change (Zlen (channels_ EPollPoller_init)) with 64 in L1.
  destruct R2 as (s3 & e2 & E2 & E2' & I3 & L2); [lia| |].
  { intros q d. rewrite Hh. intros [[<- <-]|[_ ?]]%lookup_insert_Some; [done|by rewrite lookup_empty in *]. }
  unfold EventLoop_new. rewrite Hl. rstep. rewrite E2. rstep. rewrite E2'. rstep.
  eexists _, _. split; [reflexivity|]. split; [|cbn; repeat (split; [done||lia|]); split; [by rewrite Hh|]].
  2: { intros p Hp. rewrite !lookup_insert_ne by lia. apply Hf. lia. }
  split; cbn; [done| |by rewrite lookup_insert_eq|exact I3].
  rewrite lookup_insert_ne by lia. apply lookup_insert_eq.
Qed.

(** Construction aborts when the kernel refuses a descriptor or the thread already
    has a loop; a timer descriptor of 128 or more is written outside the poller's
    table. *)
Theorem construct_fails self epfd tfd wfd t :
  (forall p, (next_addr (heap t) <= p)%nat -> objs (heap t) !! p = None) ->
  (tfd < 0 -> EventLoop_construct self epfd tfd wfd t = Err CheckFailed) /\
  (128 <= tfd < 2 ^ 31 -> EventLoop_construct self epfd tfd wfd t = Err OutOfBounds) /\
  (forall other, tLoopInThisThread t = Some other -> objs (heap t) = ∅ -> 0 <= tfd < 128 ->
     EventLoop_construct self epfd tfd wfd t = Err CheckFailed).
Proof.
  intros Hf. unfold EventLoop_construct, TimeoutQueue_construct, CreateTimerfd, CreateEventfd. split; [|split].
  - intros Ht. by rewrite (proj2 (Z.leb_gt 0 tfd)).
  - intros Ht. rewrite (proj2 (Z.leb_le 0 tfd)) by lia. rstep. unfold new.
    rewrite (with_channel_ok _ _ _ (Channel_new tfd)) by apply lookup_insert_eq. rstep. cbn [objs next_addr].
    rewrite insert_insert_eq. unfold enable_reading, change_interest, deref. cbn [objs next_addr].
    rewrite lookup_insert_eq. rstep. rewrite insert_insert_eq. cbn [UpdateChannel epoll_poller].
    rewrite (UpdateChannel_large_fd _ _ _ (set_events kReadEvent (set_read_callback (Some OnTimer_) (Channel_new tfd))));
      [done|apply lookup_insert_eq|done|cbn; lia|].
    change (Zlen (channels_ EPollPoller_init)) with 64. cbn. lia.
  - intros other Ho Hh Ht. rewrite (proj2 (Z.leb_le 0 tfd)) by lia. rstep.
    assert (I0 : poller_inv (objs (heap t)) EPollPoller_init ∅) by (rewrite Hh; apply poller_inv_init).
    pose proof (register_own (heap t) EPollPoller_init ∅ tfd OnTimer_ I0 Hf ltac:(lia)) as R1.
    unfold new in R1 |- *.
    destruct R1 as (s1 & e1 & E1 & E1' & _); [change (Zlen (channels_ EPollPoller_init)) with 64; lia| |].
    { intros q d. by rewrite Hh, lookup_empty. }
    rewrite E1. rstep. rewrite E1'. rstep.
    rewrite (with_channel_ok _ _ _ (own_channel tfd OnTimer_ kNormal)) by apply lookup_insert_eq. rstep.
    destruct (0 <=? wfd); rstep; [|done]. unfold EventLoop_new. by rewrite Ho.
Qed.

(** ** What destruction does *)

Lemma delete_channel_ok p t c : objs (heap t) !! p = Some c -> event_handling_ c = false ->
  delete_channel p t = Ok (MkThread (tLoopInThisThread t) (del (Some p) (heap t)) (closed t)).
Proof. intros Hp Hc. unfold delete_channel, load, Channel_destroy. rewrite Hp. rstep. rewrite Hc. by rstep. Qed.

(** The destructor of a loop, in its thread and outside its two channels'
    callbacks, closes the three descriptors once each, deletes the two channels
    and leaves the thread without a loop; in another thread, or in a callback of
    the wake-up or the timer channel, it aborts. *)
Theorem destroy_releases r t wc tc :
  timer_channel_ r <> wakeup_channel_ r ->
  objs (heap t) !! wakeup_channel_ r = Some wc -> objs (heap t) !! timer_channel_ r = Some tc ->
  EventLoop_destroy r t =
    if bool_decide (tLoopInThisThread t = Some (this r)) && negb (event_handling_ wc) && negb (event_handling_ tc)
    then Ok (MkThread None (MkStore (delete (timer_channel_ r) (delete (wakeup_channel_ r) (objs (heap t))))
               (next_addr (heap t))) (closed t ++ [wakeup_fd_ r; timer_fd_ r; epoll_fd_ r]))
    else Err CheckFailed.
Proof.
  intros Hne Hw Ht. unfold EventLoop_destroy, TimeoutQueue_destroy, close_fd. cbn [tLoopInThisThread heap closed].
  case_bool_decide as Hl; rstep; [|done]. cbn [andb].
  destruct (event_handling_ wc) eqn:Ew; cbn [andb negb].
  { unfold delete_channel, load, Channel_destroy. cbn [heap]. rewrite Hw. rstep. by rewrite Ew. }
  rewrite (delete_channel_ok _ _ wc) by done. rstep.
  assert (Ht' : objs (del (Some (wakeup_channel_ r)) (heap t)) !! timer_channel_ r = Some tc)
    by (cbn; by rewrite lookup_delete_ne by congruence).
  destruct (event_handling_ tc) eqn:Et; cbn [andb negb].
  { unfold delete_channel, load, Channel_destroy. cbn [heap]. rewrite Ht'. rstep. by rewrite Et. }
  rewrite (delete_channel_ok _ _ tc) by done. rstep. unfold EPollPoller_destroy, close_fd. cbn.
  by rewrite <- !app_assoc.
Qed.

(** A thread can have one loop after another: constructed and destroyed, a loop
    leaves the thread as it was, with its descriptors closed. *)
Theorem loop_lifetime self epfd tfd wfd t :
  idle t -> 0 <= tfd < 128 -> 0 <= wfd < 128 -> tfd <> wfd ->
  exists r t1 t2, EventLoop_construct self epfd tfd wfd t = Ok (r, t1) /\ EventLoop_destroy r t1 = Ok t2 /\
    idle t2 /\ closed t2 = closed t ++ [wfd; tfd; epfd].
Proof.
  intros Hi Ht Hw Hne.
  destruct (construct_ok self epfd tfd wfd t Hi Ht Hw Hne)
    as (r & t1 & E & O & Hc & Hs & _ & _ & Hp & <- & <- & <- & Ho & Hf).
  eexists r, t1, _. split; [exact E|].
  rewrite (destroy_releases r t1 _ _ Hp (ro_wakeup _ _ O) (ro_timer _ _ O)), (ro_loop _ _ O), bool_decide_eq_true_2 by done.
  split; [reflexivity|]. cbn [closed]. rewrite Hc. split; [|done]. split; [done|]. cbn [heap objs next_addr]. split.
  - rewrite Ho, delete_insert_id; [apply delete_singleton_eq|]. by apply lookup_singleton_ne.
  - assert (Hx : forall q c, objs (heap t1) !! q = Some c -> (q < next_addr (heap t1))%nat).
    { intros q c Hq. destruct (decide (q < next_addr (heap t1))%nat); [done|]. rewrite Hf in Hq by lia. done. }
    pose proof (Hx _ _ (ro_wakeup _ _ O)). pose proof (Hx _ _ (ro_timer _ _ O)).
    intros p Hp'. rewrite !lookup_delete_ne by lia. by apply Hf.
Qed.

(** ** From the descriptors to the loop's own callbacks *)

Definition priority_in (h : gmap ptr (Channel member)) (p : ptr) : Priority :=
  match h !! p with Some c => priority_ c | None => kNormal end.

(** The last mask reported for each of two descriptors. *)
Lemma last_event_pair f g l : f <> g -> l ≡ₚ [(f, POLLIN); (g, POLLIN)] ->
  last_event f l 0 = POLLIN /\ last_event g l 0 = POLLIN.
Proof.
  intros Hne Hl. apply Permutation_sym, Permutation_length_2_inv in Hl as [-> | ->]; cbn [last_event]; rewrite ?Z.eqb_refl;
    rewrite ?(proj2 (Z.eqb_neq f g)), ?(proj2 (Z.eqb_neq g f)) by done; by rewrite ?Z.eqb_refl.
Qed.

(** The channels of the two descriptors' events. *)
Lemma active_own r t l act : reactor_ok r t -> l ≡ₚ [(timer_fd_ r, POLLIN); (wakeup_fd_ r, POLLIN)] ->
  Forall2 (event_channel (objs (heap t))) l act -> act ≡ₚ [timer_channel_ r; wakeup_channel_ r].
Proof.
  intros [_ Ht Hw I] Hl Hact.
  assert (Hev : forall fd p, event_channel (objs (heap t)) (fd, POLLIN) p ->
    (fd = timer_fd_ r -> p = timer_channel_ r) /\ (fd = wakeup_fd_ r -> p = wakeup_channel_ r)).
  { intros fd p (c & Hp & Hf & _). cbn in Hf.
    split; intros ->; eapply (inv_fd _ _ _ I); [exact Hp|exact Ht|done|exact Hp|exact Hw|done]. }
  apply Permutation_sym, Permutation_length_2_inv in Hl as [-> | ->];
    apply Forall2_cons_inv_l in Hact as (p & act1 & H1 & Hact & ->);
    apply Forall2_cons_inv_l in Hact as (q & act2 & H2 & Hact & ->); apply Forall2_nil_inv_l in Hact as ->;
    apply Hev in H1 as [H1 H1'], H2 as [H2 H2'].
  - by rewrite H1, H2'.
  - rewrite H1', H2 by done. apply Permutation_swap.
Qed.

(** When epoll reports the timer and the eventfd readable, in either order, poll
    returns the loop's two channels; sorted by priority the timer's comes first,
    and OnEvent calls OnTimer for it and OnWakeup for the other. *)
Theorem own_events_dispatched r t l : reactor_ok r t -> timer_channel_ r <> wakeup_channel_ r ->
  timer_fd_ r <> wakeup_fd_ r -> l ≡ₚ [(timer_fd_ r, POLLIN); (wakeup_fd_ r, POLLIN)] ->
  exists act h' e', epoll_poll (Ready l) (objs (heap t)) (poller_ r) = Ok (act, h', e') /\
    (forall order, order ≡ₚ act /\ sorted_by (priority_in h') order <->
       order = [timer_channel_ r; wakeup_channel_ r]) /\
    exists tc wc, h' !! timer_channel_ r = Some tc /\ h' !! wakeup_channel_ r = Some wc /\
      forall alive, (OnEvent (fun _ c => c) alive tc).1 = [OnTimer_] /\ (OnEvent (fun _ c => c) alive wc).1 = [OnWakeup_].
Proof.
  intros O Hne Hfd Hl. pose proof O as [_ Ht Hw I]. unfold epoll_poll.
  destruct (poll_loop_ok l (objs (heap t)) (poller_ r) _ [] I) as (act & E & Hact).
  { rewrite Hl. repeat constructor; cbn [fst]; [rewrite lookup_insert_ne, lookup_singleton_eq by done|rewrite lookup_insert_eq]; by eexists. }
  rewrite E. rstep. eexists _, _, _. split; [reflexivity|]. cbn [app].
  destruct (last_event_pair _ _ l Hfd Hl) as [L1 L2].
  assert (Hacts : act ≡ₚ [timer_channel_ r; wakeup_channel_ r]) by (by apply (active_own r t l)).
  assert (Hpt : priority_in (notify l <$> objs (heap t)) (timer_channel_ r) = kHigh)
    by (unfold priority_in; by rewrite lookup_fmap, Ht).
  assert (Hpw : priority_in (notify l <$> objs (heap t)) (wakeup_channel_ r) = kNormal)
    by (unfold priority_in; by rewrite lookup_fmap, Hw).
  split.
  - intros order. rewrite Hacts. split.
    + intros [Ho Hs]. apply Permutation_sym, Permutation_length_2_inv in Ho as [-> | ->]; [done|exfalso].
      apply StronglySorted_inv in Hs as [_ Hs]. apply Forall_inv in Hs. unfold Cmp in Hs. by rewrite Hpt, Hpw in Hs.
    + intros ->. split; [done|]. repeat constructor. unfold Cmp. by rewrite Hpt, Hpw.
  - rewrite !lookup_fmap, Ht, Hw. eexists _, _. split; [reflexivity|]. split; [reflexivity|]. intros alive.
    unfold OnEvent, notify. cbn [tied_ set_revents own_channel set_priority set_context
      set_events set_read_callback Channel_new fd_ revents_]. rewrite L1, L2.
    by split; rewrite OnEventWithGuard_log.
Qed.

(** From construction to the callbacks: a new loop's poller reports the timer and
    the eventfd, in whatever order epoll does, as the loop's own two channels;
    sorted by priority the timer's is first, and their OnEvent calls OnTimer and
    OnWakeup, once each and nothing else. *)
Theorem new_loop_dispatches self epfd tfd wfd t l :
  idle t -> 0 <= tfd < 128 -> 0 <= wfd < 128 -> tfd <> wfd -> l ≡ₚ [(tfd, POLLIN); (wfd, POLLIN)] ->
  exists r t' act h' e' tc wc, EventLoop_construct self epfd tfd wfd t = Ok (r, t') /\
    epoll_poll (Ready l) (objs (heap t')) (poller_ r) = Ok (act, h', e') /\
    (forall order, order ≡ₚ act /\ sorted_by (priority_in h') order <->
       order = [timer_channel_ r; wakeup_channel_ r]) /\
    h' !! timer_channel_ r = Some tc /\ h' !! wakeup_channel_ r = Some wc /\
    forall alive, (OnEvent (fun _ c => c) alive tc).1 = [OnTimer_] /\ (OnEvent (fun _ c => c) alive wc).1 = [OnWakeup_].
Proof.
  intros Hi Ht Hw Hne Hl.
  destruct (construct_ok self epfd tfd wfd t Hi Ht Hw Hne) as (r & t' & E & O & _ & _ & _ & _ & Hp & _ & <- & <- & _).
  destruct (own_events_dispatched r t' l O Hp Hne Hl) as (act & h' & e' & E' & Ho & tc & wc & Htc & Hwc & Hcall).
  exists r, t', act, h', e', tc, wc. repeat (split; [done|]). done.
Qed.
End Reactor.

(** ** Witnesses *)

Definition demo_thread : Thread := MkThread None store_empty [].

Lemma demo_idle : idle demo_thread.
Proof. split; [done|]. split; [done|]. intros p _. apply lookup_empty. Qed.

Abbreviation demo_construct := (@EventLoop_construct nat (list (Event nat)) nat _).

Lemma construct_fails_witness :
  demo_construct 1%nat 3 4 5 (MkThread (Some 9%nat) store_empty []) = Err CheckFailed /\
  demo_construct 1%nat 3 200 5 demo_thread = Err OutOfBounds.
Proof.
  split.
  - apply (construct_fails 1%nat 3 4 5 (MkThread (Some 9%nat) store_empty []) (fun p _ => lookup_empty p)) with 9%nat;
      [done|done|lia].
  - apply (construct_fails 1%nat 3 200 5 demo_thread (fun p _ => lookup_empty p)). lia.
Defined.

Lemma loop_lifetime_witness :
  exists r t1 t2, demo_construct 1%nat 3 4 5 demo_thread = Ok (r, t1) /\ EventLoop_destroy r t1 = Ok t2 /\
    idle t2 /\ closed t2 = [] ++ [5; 4; 3].
Proof. apply (loop_lifetime 1%nat 3 4 5 demo_thread demo_idle); lia. Defined.

Lemma construct_ok_witness :
  exists r t', demo_construct 1%nat 3 4 70 demo_thread = Ok (r, t') /\ reactor_ok r t'.
Proof.
  destruct (construct_ok (C := nat) (S := list (Event nat)) (Task := nat) 1%nat 3 4 70 demo_thread demo_idle ltac:(lia) ltac:(lia) ltac:(lia)) as (r & t & E & O & _).
  exists r, t. by split.
Defined.

Lemma destroy_releases_witness :
  match demo_construct 1%nat 3 4 5 demo_thread with
  | Ok (r, t) => EventLoop_destroy r (MkThread (Some 2%nat) (heap t) (closed t)) = Err CheckFailed
  | Err _ => False
  end.
Proof.
  destruct (demo_construct 1%nat 3 4 5 demo_thread) as [[r t]|] eqn:E; [|vm_compute in E; discriminate E].
  vm_compute in E. injection E as <- <-.
  erewrite (destroy_releases _ (MkThread (Some 2%nat) _ _)); [reflexivity|vm_compute; congruence|reflexivity|reflexivity].
Defined.

Lemma own_events_dispatched_witness :
  match demo_construct 1%nat 3 4 5 demo_thread with
  | Ok (r, t) => exists act h' e',
      epoll_poll (Ready [(5, POLLIN); (4, POLLIN)]) (objs (heap t)) (poller_ r) = Ok (act, h', e') /\
      forall order, order ≡ₚ act /\ sorted_by (priority_in h') order <->
        order = [timer_channel_ r; wakeup_channel_ r]
  | Err _ => False
  end.
Proof.
  destruct (construct_ok (C := nat) (S := list (Event nat)) (Task := nat) 1%nat 3 4 5 demo_thread demo_idle ltac:(lia) ltac:(lia) ltac:(lia))
    as (r & t & -> & O & _ & _ & _ & _ & Hp & _ & Ht & Hw & _).
  destruct (own_events_dispatched r t [(5, POLLIN); (4, POLLIN)] O Hp) as (act & h' & e' & E & Ho & _);
    [lia|rewrite Ht, Hw; apply Permutation_swap|]. exists act, h', e'. by split.
Defined.

Lemma new_loop_dispatches_witness :
  exists r t' act h' e' tc wc, demo_construct 1%nat 3 4 70 demo_thread = Ok (r, t') /\
    epoll_poll (Ready [(70, POLLIN); (4, POLLIN)]) (objs (heap t')) (poller_ r) = Ok (act, h', e') /\
    (forall order, order ≡ₚ act /\ sorted_by (priority_in h') order <->
       order = [timer_channel_ r; wakeup_channel_ r]) /\
    h' !! timer_channel_ r = Some tc /\ h' !! wakeup_channel_ r = Some wc /\
    forall alive, (OnEvent (fun _ c => c) alive tc).1 = [OnTimer_] /\ (OnEvent (fun _ c => c) alive wc).1 = [OnWakeup_].
Proof.
  apply (new_loop_dispatches 1%nat 3 4 70 demo_thread [(70, POLLIN); (4, POLLIN)] demo_idle);
    [lia|lia|lia|apply Permutation_swap].
Defined.
