(* ===== verification/LoopSystem.v ===== *)
(** * events: the loop with its poller, channels, timers and tasks

    One EventLoop as a whole: the members modelled by EventLoop.v, Poller.v,
    Channel.v and TimeoutQueue.v, put together by Reactor.v, driven by the
    callbacks of channels, the callbacks of timers and the posted tasks, which
    call back into the loop. What a user's closure does is a list of [command]s;
    other threads intervene between any two of them. *)

From stdpp Require Import sorting.
From S2P Require Import Prelude Registry Channel Poller Trace TimeoutQueue EventLoop Reactor.
Open Scope Z_scope.

(** A closure of the user, by name. *)
Abbreviation code := nat.

Section System.
Context {S : Type} `{EventSet code S}.

(** What is posted to a loop: a user's closure, or the queue's AddInLoop or
    CancelInLoop bound by a call from another thread. *)
Inductive task :=
  | Closure (k : code)
  | TimerTask (t : QueueTask code).

(** What other threads do to the loop. *)
Inductive remote :=
  | RemotePost (ctx : TraceContext) (k : code)        (** Post, Run; up to the wake-up *)
  | RemoteAdd (ctx : TraceContext) (exp : Z) (k : code)                 (** RunAt, RunAfter *)
  | RemoteAddRepeating (ctx : TraceContext) (now interval : Z) (k : code)   (** RunEvery *)
  | RemoteCancel (ctx : TraceContext) (id : Z)
  | RemoteQuit
  | RemoteWakeup.                                     (** the Wakeup() of such a call *)

(** A call of a closure on the loop thread, or of another thread meanwhile. *)
Inductive command :=
  | DoPost (k : code)
  | DoQuit
  | DoSetContext (ctx : TraceContext)
  | DoTimer (op : QueueOp code)                       (** RunAt, RunAfter, RunEvery, Cancel *)
  | DoNew (fd : Z) (k : code)                         (** a channel that reads by calling [k] *)
  | DoInterest (p : ptr) (i : Interest)
  | DoRemove (p : ptr)
  | DoDelete (p : ptr)
  | Meanwhile (a : remote).

Inductive call :=
  | Called (k : code)                                 (** a closure, as a channel's callback or a task *)
  | Fired (e : Event code)                            (** a timer's callback *)
  | WokenUp.                                          (** OnWakeup *)

(** [calls] is the history of the calls made in loop(). *)
Record System := MkSystem {
  reactor : Reactor (S := S) (Task := task);
  thread : Thread;
  calls : list call;
}.

Definition loop (s : System) : EventLoop task := core (reactor s).
Definition channels (s : System) : gmap ptr (Channel member) := objs (heap (thread s)).
Definition poller (s : System) : EPollPoller := poller_ (reactor s).
Definition timers (s : System) : TimeoutQueue S := queue (reactor s).

Definition set_core (l : EventLoop task) (r : Reactor (S := S) (Task := task)) : Reactor (S := S) (Task := task) :=
  MkReactor (this r) l (epoll_fd_ r) (poller_ r) (timer_fd_ r) (timer_channel_ r) (queue r) (wakeup_fd_ r) (wakeup_channel_ r).
Definition set_poller (e : EPollPoller) (r : Reactor (S := S) (Task := task)) : Reactor (S := S) (Task := task) :=
  MkReactor (this r) (core r) (epoll_fd_ r) e (timer_fd_ r) (timer_channel_ r) (queue r) (wakeup_fd_ r) (wakeup_channel_ r).
Definition set_queue (q : TimeoutQueue S) (r : Reactor (S := S) (Task := task)) : Reactor (S := S) (Task := task) :=
  MkReactor (this r) (core r) (epoll_fd_ r) (poller_ r) (timer_fd_ r) (timer_channel_ r) q (wakeup_fd_ r) (wakeup_channel_ r).

Definition with_loop (l : EventLoop task) (s : System) : System := MkSystem (set_core l (reactor s)) (thread s) (calls s).
Definition with_timers (q : TimeoutQueue S) (s : System) : System := MkSystem (set_queue q (reactor s)) (thread s) (calls s).
Definition with_heap (h : gmap ptr (Channel member)) (n : ptr) (s : System) : System :=
  MkSystem (reactor s) (MkThread (tLoopInThisThread (thread s)) (MkStore h n) (closed (thread s))) (calls s).
Definition with_poller (h : gmap ptr (Channel member)) (e : EPollPoller) (s : System) : System :=
  with_heap h (next_addr (heap (thread s))) (MkSystem (set_poller e (reactor s)) (thread s) (calls s)).
Definition log_call (c : call) (s : System) : System := MkSystem (reactor s) (thread s) (calls s ++ [c]).

(** ** Other threads *)

Definition push_remote (ctx : TraceContext) (t : task) (s : System) : System :=
  with_loop (set_waking (Datatypes.S (waking (loop s))) (push_task (ctx, t) (loop s))) s.

(** TimeoutQueue::Add on another thread takes the id and posts AddInLoop. *)
Definition exec_remote (a : remote) (s : System) : System :=
  match a with
  | RemotePost ctx k => push_remote ctx (Closure k) s
  | RemoteAdd ctx exp k => let '(_, q, t) := Add exp k (timers s) in push_remote ctx (TimerTask t) (with_timers q s)
  | RemoteAddRepeating ctx now interval k =>
      let '(_, q, t) := AddRepeating now interval k (timers s) in push_remote ctx (TimerTask t) (with_timers q s)
  | RemoteCancel ctx id => push_remote ctx (TimerTask (Cancel id)) s
  | RemoteQuit => with_loop (set_waking (Datatypes.S (waking (loop s))) (set_quit (loop s))) s
  | RemoteWakeup =>
      match waking (loop s) with
      | O => s
      | Datatypes.S n => with_loop (set_waking n (Wakeup (loop s))) s
      end
  end.

(** ** The loop thread's calls *)

(* @src claire/common/events/EventLoop.cc:209-228 EventLoop::UpdateChannel, EventLoop::RemoveChannel *)
Definition exec (c : command) (s : System) : res System :=
  match c with
  | DoPost k => Ok (with_loop (Post true (GetTraceContext (tls (loop s))) (Closure k) (loop s)) s)
  | DoQuit => Ok (with_loop (quit true (loop s)) s)
  | DoSetContext ctx => Ok (with_loop (set_tls (SetTraceContext ctx (tls (loop s))) (loop s)) s)
  | DoTimer op => q ← exec_op op (timers s); Ok (with_timers q s)
  | DoNew fd k =>
      let '(p, st) := new (set_read_callback (Some (User_ k)) (Channel_new fd)) (heap (thread s)) in
      Ok (with_heap (objs st) (next_addr st) s)
  | DoInterest p i =>
      '(h, e) ← change_interest true i p (channels s) (poller s); Ok (with_poller h e s)
  | DoRemove p =>
      '(h, e) ← loop_RemoveChannel true p (loop s) (channels s) (poller s); Ok (with_poller h e s)
  | DoDelete p => t ← delete_channel p (thread s); Ok (MkSystem (reactor s) t (calls s))
  | Meanwhile a => Ok (exec_remote a s)
  end.

Fixpoint exec_all (cs : list command) (s : System) : res System :=
  match cs with
  | [] => Ok s
  | c :: cs => s ← exec c s; exec_all cs s
  end.

(** What a closure does when it is called. *)
Variable script : code -> System -> list command.

(** Whether the object a channel is tied to is alive. *)
Variable alive : nat -> bool.

Definition call_code (k : code) (s : System) : res System :=
  let s := log_call (Called k) s in exec_all (script k s) s.

(** The second loop of TimeoutQueue::Run. *)
(* @src claire/common/events/TimeoutQueue.cc:199-202 TimeoutQueue::Run *)
Fixpoint fire (expired : list (Event code)) (s : System) : res System :=
  match expired with
  | [] => Ok s
  | e :: rest =>
      let s := log_call (Fired e) s in
      s ← exec_all (script (callback e) s) s; fire rest s
  end.

(** [now] and [clock] are the two readings of Timestamp::Now(). *)
(* @src claire/common/events/TimeoutQueue.cc:110-114 TimeoutQueue::OnTimer *)
Definition on_timer (now clock : Z) (s : System) : res System :=
  let q := timers s in
  let expired := filter (fun e => expiration e <= now) (by_expiration (timeouts_ q)) in
  s ← fire expired (with_timers (TQ (reinsert now expired (es_erase_upto now (timeouts_ q))) (next_ q) (timer_ q)) s);
  let q := timers s in
  Ok (with_timers (TQ (timeouts_ q) (next_ q) (ResetTimerfd clock (NextExpiration q))) s).

Definition call_member (now clock : Z) (m : member) (s : System) : res System :=
  match m with
  | OnTimer_ => on_timer now clock s
  | OnWakeup_ => Ok (log_call WokenUp (with_loop (OnWakeup (loop s)) s))
  | User_ k => call_code k s
  end.

(** ** OnEvent, on the channel as it is at each test *)

(** [if (condition && slot) slot();] *)
Definition test_slot (now clock : Z) (p : ptr) (cond : Channel member -> bool) (slot : Channel member -> option member)
  (s : System) : res System :=
  c ← deref (channels s) p;
  if cond c then match slot c with Some m => call_member now clock m s | None => Ok s end else Ok s.

Definition set_handling (p : ptr) (b : bool) (s : System) : res System :=
  c ← deref (channels s) p;
  Ok (with_heap (<[p := set_event_handling b c]> (channels s)) (next_addr (heap (thread s))) s).

(* @src claire/common/events/Channel.cc:63-107 Channel::OnEventWithGuard *)
Definition on_event_with_guard (now clock : Z) (p : ptr) (s : System) : res System :=
  s ← set_handling p true s;
  s ← test_slot now clock p wants_close close_callback_ s;
  s ← test_slot now clock p wants_error error_callback_ s;
  s ← test_slot now clock p wants_read read_callback_ s;
  s ← test_slot now clock p wants_write write_callback_ s;
  set_handling p false s.

(* @src claire/common/events/Channel.cc:47-61 Channel::OnEvent *)
Definition on_event (now clock : Z) (p : ptr) (s : System) : res System :=
  c ← deref (channels s) p;
  if tied_ c && negb (match tie_ c with Some o => alive o | None => false end) then Ok s
  else on_event_with_guard now clock p s.

(** ** The steps of the loop *)

(** A posted task: a closure, or the queue's own. *)
Definition call_task (clock : Z) (t : task) (s : System) : res System :=
  match t with
  | Closure k => call_code k s
  | TimerTask qt => q ← run_task true clock qt (timers s); Ok (with_timers q s)
  end.

(** One pass over the range-based loop: (star it)->OnEvent(). *)
(* @src claire/common/events/EventLoop.cc:115-119 EventLoop::loop *)
Definition next_event (now clock : Z) (p : ptr) (rest : list ptr) (s : System) : res System :=
  s ← on_event now clock p (with_loop (goto (InEvent rest) (log_delivered p (set_current (Some p) (loop s)))) s);
  Ok (with_loop (goto (Dispatching rest) (loop s)) s).

(* @src claire/common/events/EventLoop.cc:265-270 EventLoop::RunPendingTasks *)
Definition next_task (clock : Z) (ctx : TraceContext) (t : task) (rest : list (Entry task)) (s : System) : res System :=
  let l := set_tls (SetTraceContext ctx (tls (loop s))) (loop s) in
  s ← call_task clock t (with_loop (goto (InTask rest) (log_executed (GetTraceContext (tls l), t) l)) s);
  Ok (with_loop (goto (Tasks rest) (set_tls (ResetTraceContext (tls (loop s))) (loop s))) s).

(** The descriptors epoll_wait reports are watched, each is reported once, and the
    eventfd only when its counter is not zero; epoll_wait does not fail. *)
Definition kernel_ok (w : wait_result) (s : System) : Prop :=
  match w with
  | WaitFailed => False
  | Interrupted => True
  | Ready l => NoDup (fst <$> l) /\ (forall k, replay (ctl_log (poller s)) = Some k -> Forall (fun ev => is_Some (k !! ev.1)) l) /\
      (wakeup_fd_ (reactor s) ∈ fst <$> l -> 0 < counter (loop s))
  end.

(** What the caller of loop() does before and after. *)
Variable may : command -> System -> Prop.

(** What runs between two points at which the loop thread is inside loop() or its
    caller: another thread's call, or the loop thread's next move. *)
(* @src claire/common/events/EventLoop.cc:99-127 EventLoop::loop *)
Inductive sstep : System -> System -> Prop :=
  | s_remote a s : sstep s (exec_remote a s)
  | s_command c s s' : at_ (loop s) = Outside -> may c s -> exec c s = Ok s' -> sstep s s'
  | s_enter s : at_ (loop s) = Outside -> looping_ (loop s) = false ->
      sstep s (with_loop (goto AtTest (set_looping true (loop s))) s)
  | s_test s : at_ (loop s) = AtTest ->
      sstep s (with_loop (if quit_ (loop s) then goto Outside (set_looping false (loop s)) else goto InPoll (loop s)) s)
  | s_poll w act order h e s : at_ (loop s) = InPoll -> kernel_ok w s -> epoll_poll w (channels s) (poller s) = Ok (act, h, e) ->
      order ≡ₚ act -> sorted_by (priority_in h) order ->
      sstep s (with_poller h e (with_loop (goto (Dispatching order) (set_active (priority_in h) act order (loop s))) s))
  | s_event now clock p rest s s' : at_ (loop s) = Dispatching (p :: rest) -> next_event now clock p rest s = Ok s' -> sstep s s'
  | s_events_done s : at_ (loop s) = Dispatching [] -> sstep s (with_loop (goto BeforeTasks (set_current None (loop s))) s)
  | s_swap s : at_ (loop s) = BeforeTasks ->
      sstep s (with_loop (goto (Tasks (take_tasks (loop s)).1) (take_tasks (loop s)).2) s)
  | s_task clock ctx t rest s s' : at_ (loop s) = Tasks ((ctx, t) :: rest) -> next_task clock ctx t rest s = Ok s' -> sstep s s'
  | s_tasks_done s : at_ (loop s) = Tasks [] -> sstep s (with_loop (goto AtTest (loop s)) s).
End System.

(** ** The system does what EventLoop.v says a loop does *)
Section Refinement.
Context {S : Type} `{EventSet code S}.
Variable script : code -> System (S := S) -> list command.
Variable alive : nat -> bool.
Variable may : command -> System (S := S) -> Prop.

(** Some actions of the model of EventLoop.v lead from one state to the other. *)
Definition steps (l l' : EventLoop task) : Prop := exists acts, run acts l = Some l'.

#[export] Instance steps_preorder : PreOrder steps.
Proof.
  split.
  - intros l. by exists [].
  - intros l1 l2 l3 [a1 H1] [a2 H2]. exists (a1 ++ a2). by rewrite run_app, H1.
Qed.

Lemma steps_one a l l' : EventLoop.step a l = Some l' -> steps l l'.
Proof. intros Hs. exists [a]. cbn. by rewrite Hs. Qed.

Lemma steps_inv l l' : steps l l' -> loop_inv l -> loop_inv l'.
Proof. intros [acts Hr]. by apply (loop_run_inv acts). Qed.

(** What a callback or a task leaves of the loop's members. *)
Definition moves (s s' : System (S := S)) : Prop :=
  steps (loop s) (loop s') /\ at_ (loop s') = at_ (loop s) /\
  active_channels_ (loop s') = active_channels_ (loop s) /\
  current_active_channel_ (loop s') = current_active_channel_ (loop s) /\ executed (loop s') = executed (loop s).

#[export] Instance moves_preorder : PreOrder moves.
Proof.
  split; [by intros s|]. intros s1 s2 s3 (H1 & A1 & C1 & D1 & E1) (H2 & A2 & C2 & D2 & E2). unfold moves.
  split; [by etrans|]. by rewrite A2, C2, D2, E2.
Qed.

(** Any change that leaves the core alone. *)
Lemma moves_same s s' : loop s' = loop s -> moves s s'.
Proof. intros Hl. unfold moves. by rewrite Hl. Qed.

Lemma moves_step a s l : EventLoop.step a (loop s) = Some l -> at_ l = at_ (loop s) ->
  active_channels_ l = active_channels_ (loop s) -> current_active_channel_ l = current_active_channel_ (loop s) ->
  executed l = executed (loop s) -> moves s (with_loop l s).
Proof. intros Hs Ha Hc Hd He. split; [by eapply steps_one|done]. Qed.

Lemma push_moves ctx t s : moves s (push_remote ctx t s).
Proof. by apply (moves_step (OtherPush ctx t)). Qed.

Lemma remote_moves a s : moves s (exec_remote a s).
Proof.
  destruct a as [ctx k|ctx exp k|ctx now iv k|ctx id| |]; cbn [exec_remote].
  - apply push_moves.
  - etrans; [|apply push_moves]. by apply moves_same.
  - etrans; [|apply push_moves]. by apply moves_same.
  - apply push_moves.
  - by apply (moves_step OtherSetQuit).
  - destruct (waking (loop s)) eqn:E; [done|]. apply (moves_step OtherWakeup); [cbn; by rewrite E|done..].
Qed.

Lemma exec_moves c s s' : in_callback (at_ (loop s)) = true -> exec c s = Ok s' -> moves s s'.
Proof.
  intros Hin Hr. destruct c; cbn [exec] in Hr.
  - injection Hr as <-. apply (moves_step (LoopPost (Closure k))); [cbn; by rewrite Hin|..];
      unfold Post; cbn [negb orb]; by case_bool_decide.
  - injection Hr as <-. apply (moves_step LoopQuit); [cbn; by rewrite Hin|done..].
  - injection Hr as <-. apply (moves_step (LoopSetContext ctx)); [cbn; by rewrite Hin|done..].
  - res_inv. by apply moves_same.
  - injection Hr as <-. by apply moves_same.
  - res_inv. destruct a as [h e]. injection Hr as <-. by apply moves_same.
  - res_inv. destruct a as [h e]. injection Hr as <-. by apply moves_same.
  - res_inv. by apply moves_same.
  - injection Hr as <-. apply remote_moves.
Qed.

Lemma exec_all_moves cs : forall s s', in_callback (at_ (loop s)) = true -> exec_all cs s = Ok s' -> moves s s'.
Proof.
  induction cs as [|c cs IH]; cbn; intros s s' Hin Hr; [by injection Hr as <-|].
  res_inv. pose proof (exec_moves _ _ _ Hin E) as M. etrans; [exact M|]. apply IH; [|done].
  destruct M as (_ & -> & _). done.
Qed.

Lemma fire_moves l : forall s s', in_callback (at_ (loop s)) = true -> fire script l s = Ok s' -> moves s s'.
Proof.
  induction l as [|e l IH]; cbn; intros s s' Hin Hr; [by injection Hr as <-|].
  res_inv. pose proof (exec_all_moves _ (log_call (Fired e) s) _ Hin E) as M. etrans; [exact M|]. apply IH; [|done].
  destruct M as (_ & -> & _). done.
Qed.

Lemma on_timer_moves now clock s s' : in_callback (at_ (loop s)) = true -> on_timer script now clock s = Ok s' -> moves s s'.
Proof.
  intros Hin Hr. unfold on_timer in Hr. res_inv. etrans; [|by apply moves_same].
  by apply (fire_moves _ (with_timers _ s) _ Hin) in E.
Qed.

Lemma member_moves now clock m rest s s' : at_ (loop s) = InEvent rest -> call_member script now clock m s = Ok s' -> moves s s'.
Proof.
  intros Ha Hr. assert (Hin : in_callback (at_ (loop s)) = true) by by rewrite Ha. destruct m as [| |k]; cbn [call_member] in Hr.
  - by eapply on_timer_moves.
  - injection Hr as <-. etrans; [apply (moves_step ReadWakeup s); [cbn; by rewrite Ha|done..]|by apply moves_same].
  - apply (exec_all_moves _ (log_call (Called k) s) _ Hin Hr).
Qed.

Lemma test_slot_moves now clock p cond slot rest s s' : at_ (loop s) = InEvent rest ->
  test_slot script now clock p cond slot s = Ok s' -> moves s s'.
Proof.
  intros Ha Hr. unfold test_slot in Hr. res_inv. destruct (cond a); [|by injection Hr as <-].
  destruct (slot a); [|by injection Hr as <-]. by eapply member_moves.
Qed.

Lemma moves_event rest s s' : moves s s' -> at_ (loop s) = InEvent rest -> at_ (loop s') = InEvent rest.
Proof. by intros (_ & -> & _). Qed.

Lemma handling_moves p b s s' : set_handling p b s = Ok s' -> moves s s'.
Proof. intros Hr. unfold set_handling in Hr. res_inv. by apply moves_same. Qed.

Lemma on_event_moves now clock p rest s s' : at_ (loop s) = InEvent rest ->
  on_event script alive now clock p s = Ok s' -> moves s s'.
Proof.
  intros Ha Hr. unfold on_event in Hr. res_inv. destruct (_ && _); [by injection Hr as <-|].
  unfold on_event_with_guard in Hr. res_inv. apply handling_moves in E0.
  assert (moves s a1) as M1 by (etrans; [exact E0|eapply test_slot_moves; [by eapply moves_event|done]]).
  assert (moves s a2) as M2 by (etrans; [exact M1|eapply test_slot_moves; [by eapply moves_event|done]]).
  assert (moves s a3) as M3 by (etrans; [exact M2|eapply test_slot_moves; [by eapply moves_event|done]]).
  assert (moves s a4) as M4 by (etrans; [exact M3|eapply test_slot_moves; [by eapply moves_event|done]]).
  etrans; [exact M4|by eapply handling_moves].
Qed.

Lemma call_task_moves clock t s s' : in_callback (at_ (loop s)) = true -> call_task script clock t s = Ok s' -> moves s s'.
Proof.
  intros Hin Hr. destruct t as [k|qt]; cbn in Hr.
  - apply (exec_all_moves _ (log_call (Called k) s) _ Hin Hr).
  - res_inv. by apply moves_same.
Qed.

(** Every step of the whole system, with the real poller, channels, timer queue and
    closures, is a run of the actions EventLoop.v gives the loop and the threads. *)
Lemma sstep_steps s s' : sstep script alive may s s' -> steps (loop s) (loop s').
Proof.
  intros Hs. destruct Hs as [a s|c s s' Ha _ Hr|s Ha Hl|s Ha|w act order h e s Ha Hk Hp Ho Hsort
    |now clock p rest s s' Ha Hr|s Ha|s Ha|clock ctx t rest s s' Ha Hr|s Ha].
  - apply remote_moves.
  - apply (exec_moves c); [by rewrite Ha|done].
  - apply (steps_one Enter). cbn. by rewrite Ha, Hl.
  - apply (steps_one TestQuit). cbn. by rewrite Ha.
  - apply (steps_one (Poll (priority_in h) act order)). cbn. rewrite Ha. by rewrite bool_decide_eq_true_2.
  - unfold next_event in Hr. res_inv. apply (on_event_moves _ _ _ rest) in E as M; [|done].
    etrans; [apply (steps_one NextEvent); cbn; by rewrite Ha|]. etrans; [apply M|].
    apply (steps_one EventDone). cbn. destruct M as (_ & -> & _). done.
  - apply (steps_one NextEvent). cbn. by rewrite Ha.
  - apply (steps_one SwapTasks). cbn. by rewrite Ha.
  - unfold next_task in Hr. res_inv. apply call_task_moves in E as M; [|done].
    etrans; [apply (steps_one NextTask); cbn; by rewrite Ha|]. etrans; [apply M|].
    apply (steps_one TaskDone). cbn. destruct M as (_ & -> & _). done.
  - apply (steps_one NextTask). cbn. by rewrite Ha.
Qed.

Lemma rtc_steps s s' : rtc (sstep script alive may) s s' -> steps (loop s) (loop s').
Proof. induction 1 as [|x y z Hxy _ IH]; [reflexivity|]. etrans; [by apply sstep_steps|exact IH]. Qed.

(** C4: Every step of the whole loop - its real poller, channels and timer queue, the
    user's closures, and the other threads' calls between any two of their calls -
    is a sequence of the actions of EventLoop.v: from a loop as constructed, in
    whatever way the closures behave as long as none of their calls fails, the loop's
    state is always one that model reaches. *)
Theorem system_refines_loop s s' :
  reachable (loop s) -> rtc (sstep script alive may) s s' -> reachable (loop s').
Proof. intros [a1 H1] Hr. apply rtc_steps in Hr as [a2 H2]. exists (a1 ++ a2). by rewrite run_app, H1. Qed.
End Refinement.

(** ** The invariant of the whole system *)
Section Invariant.
Context {S : Type} `{L : EventSetLaws code S}.
Variable script : code -> System (S := S) -> list command.
Variable alive : nat -> bool.

(** One of the loop's own channels, as its constructor registered it. *)
Record own_ok (fd : Z) (m : member) (prio : Priority) (c : Channel member) : Prop := {
  own_fd : fd_ c = fd;
  own_context : context_ c = kAdded;
  own_tied : tied_ c = false;
  own_prio : priority_ c = prio;
  own_read : read_callback_ c = Some m;
  own_others : write_callback_ c = None /\ close_callback_ c = None /\ error_callback_ c = None;
}.

Record sys_ok (s : System (S := S)) : Prop := {
  ok_poller : exists k, poller_inv (channels s) (poller s) k;
  ok_timer : exists c, channels s !! timer_channel_ (reactor s) = Some c /\ own_ok (timer_fd_ (reactor s)) OnTimer_ kHigh c;
  ok_wakeup : exists c, channels s !! wakeup_channel_ (reactor s) = Some c /\ own_ok (wakeup_fd_ (reactor s)) OnWakeup_ kNormal c;
  ok_fresh : forall p, (next_addr (heap (thread s)) <= p)%nat -> channels s !! p = None;
  ok_loop : loop_inv (loop s);
  ok_upcoming : forall p, p ∈ upcoming (at_ (loop s)) -> exists c, channels s !! p = Some c /\ registered c;
  ok_nodup : NoDup (active_channels_ (loop s));
}.

(** What the users of a loop are held to: they do not have its own channels, have
    one channel for a descriptor, change the interest of a channel they have (whose
    descriptor fits the poller's table), remove one that is registered, without
    interest and not about to be notified, and delete one they removed, outside its
    own callbacks. *)
Definition user (p : ptr) (s : System (S := S)) : Prop := p <> timer_channel_ (reactor s) /\ p <> wakeup_channel_ (reactor s).

Definition allowed (c : command) (s : System (S := S)) : Prop :=
  match c with
  | DoNew fd _ => 0 <= fd < 2 ^ 31 /\ forall q d, channels s !! q = Some d -> fd_ d <> fd
  | DoInterest p _ => user p s /\ exists c, channels s !! p = Some c /\ fd_fits c (poller s)
  | DoRemove p => user p s /\ exists c, channels s !! p = Some c /\ registered c /\ IsNoneEvent c = true /\
      match current_active_channel_ (loop s) with Some x => x = p \/ p ∉ active_channels_ (loop s) | None => True end
  | DoDelete p => user p s /\ exists c, channels s !! p = Some c /\ context_ c = kNew /\ event_handling_ c = false
  | _ => True
  end.

Fixpoint allowed_all (cs : list command) (s : System (S := S)) : Prop :=
  match cs with
  | [] => True
  | c :: cs => allowed c s /\ forall s', exec c s = Ok s' -> allowed_all cs s'
  end.

Definition polite : Prop := forall k s, sys_ok s -> in_callback (at_ (loop s)) = true -> allowed_all (script k s) s.

(** The loop keeps its wake-up channel, with the events reported for it, and the
    history of calls grows. *)
Record fixed (s s' : System (S := S)) : Prop := {
  fx_wakeup : wakeup_channel_ (reactor s') = wakeup_channel_ (reactor s) /\ wakeup_fd_ (reactor s') = wakeup_fd_ (reactor s);
  fx_revents : forall c, channels s !! wakeup_channel_ (reactor s) = Some c ->
    exists c', channels s' !! wakeup_channel_ (reactor s) = Some c' /\ revents_ c' = revents_ c;
  fx_calls : calls s `prefix_of` calls s';
}.

#[export] Instance fixed_preorder : PreOrder fixed.
Proof.
  split; [intros s; split; eauto; done|]. intros s1 s2 s3 [[W1 W1'] R1 C1] [[W2 W2'] R2 C2]. split.
  - by rewrite W2, W2'.
  - intros c Hc. destruct (R1 c Hc) as (c1 & Hc1 & <-). rewrite <- W1 in Hc1 |- *. by apply R2.
  - by etrans.
Qed.

(** In addition, the channels whose callbacks are running stay. *)
Record frame (s s' : System (S := S)) : Prop := {
  fr_fixed : fixed s s';
  fr_handled : forall p c, channels s !! p = Some c -> event_handling_ c = true ->
    exists c', channels s' !! p = Some c' /\ event_handling_ c' = true;
}.

#[export] Instance frame_preorder : PreOrder frame.
Proof.
  split; [intros s; split; [done|eauto]|]. intros s1 s2 s3 [F1 H1] [F2 H2]. split; [by etrans|].
  intros p c Hp Hc. destruct (H1 p c Hp Hc) as (c' & Hp' & Hc'). eauto.
Qed.

(** *** The poller's operations touch the channel they are given *)

Lemma change_frame i p (h : gmap ptr (Channel member)) e h' e' : change_interest true i p h e = Ok (h', e') ->
  forall q, q <> p -> h' !! q = h !! q.
Proof.
  unfold change_interest. cbn [UpdateChannel epoll_poller]. unfold epoll_UpdateChannel. intros Hr q Hq. res_inv.
  repeat (case_match; res_inv); simplify_eq; by rewrite ?lookup_insert_ne by done.
Qed.

Lemma remove_frame p (h : gmap ptr (Channel member)) e h' e' : RemoveChannel true p h e = Ok (h', e') ->
  forall q, q <> p -> h' !! q = h !! q.
Proof.
  cbn [RemoveChannel epoll_poller]. unfold epoll_RemoveChannel. intros Hr q Hq. res_inv. by rewrite lookup_insert_ne.
Qed.

(** A command that leaves the channels and the poller alone. *)
Lemma ok_core s s' : sys_ok s -> moves s s' -> channels s' = channels s -> poller s' = poller s ->
  next_addr (heap (thread s')) = next_addr (heap (thread s)) ->
  timer_channel_ (reactor s') = timer_channel_ (reactor s) -> timer_fd_ (reactor s') = timer_fd_ (reactor s) ->
  wakeup_channel_ (reactor s') = wakeup_channel_ (reactor s) -> wakeup_fd_ (reactor s') = wakeup_fd_ (reactor s) ->
  calls s `prefix_of` calls s' -> sys_ok s' /\ frame s s'.
Proof.
  intros [P T W F LI U N] (Hst & Ha & Hact & _) Hc Hp Hn Ht Ht' Hw Hw' Hcalls. split.
  - split; rewrite ?Hc, ?Hp, ?Hn, ?Ht, ?Ht', ?Hw, ?Hw', ?Ha, ?Hact; auto. by eapply steps_inv.
  - split; [split; rewrite ?Hc; eauto|]. rewrite Hc. eauto.
Qed.

(** One that changes one of the user's channels. *)
Lemma ok_channel s p h e n : sys_ok s -> user p s -> (exists k, poller_inv h e k) ->
  (forall q, q <> p -> h !! q = channels s !! q) -> (next_addr (heap (thread s)) <= n)%nat ->
  (forall q, (n <= q)%nat -> h !! q = None) ->
  (p ∈ upcoming (at_ (loop s)) -> exists c, h !! p = Some c /\ registered c) ->
  (forall c, channels s !! p = Some c -> event_handling_ c = true -> exists c', h !! p = Some c' /\ event_handling_ c' = true) ->
  forall s', s' = with_heap h n (MkSystem (set_poller e (reactor s)) (thread s) (calls s)) -> sys_ok s' /\ frame s s'.
Proof.
  intros [P T W F LI U N] [Hut Huw] Hinv Hne Hn Hf Hup Hh s' ->. split.
  - split; cbn; try done.
    + rewrite Hne by done. exact T.
    + rewrite Hne by done. exact W.
    + intros q Hq. destruct (decide (q = p)) as [->|Hqp]; [by apply Hup|]. rewrite Hne by done. by apply U.
  - split; [split; [done| |done]; cbn; rewrite Hne by done; eauto|]. intros q c Hq Hc. cbn. destruct (decide (q = p)) as [->|Hqp]; [by eapply Hh|].
    rewrite Hne by done. eauto.
Qed.

Lemma set_poller_id (s : System (S := S)) : set_poller (poller s) (reactor s) = reactor s.
Proof. unfold poller. by destruct (reactor s). Qed.

Lemma fresh_user s : sys_ok s -> user (next_addr (heap (thread s))) s.
Proof.
  intros [_ (c & Hc & _) (d & Hd & _) F _ _ _]. split; intros Heq; rewrite <- Heq in *.
  - by rewrite F in Hc.
  - by rewrite F in Hd.
Qed.

Lemma new_ok fd k s : sys_ok s -> allowed (DoNew fd k) s -> exists s', exec (DoNew fd k) s = Ok s' /\ sys_ok s' /\ frame s s'.
Proof.
  intros O [Hfd Hd]. cbn [exec]. unfold new. eexists. split; [reflexivity|]. set (p := next_addr (heap (thread s))).
  assert (Hp : channels s !! p = None) by (by apply (ok_fresh _ O)).
  apply (ok_channel s p (<[p := set_read_callback (Some (User_ k)) (Channel_new fd)]> (channels s)) (poller s) (Datatypes.S p)); try done.
  - by apply fresh_user.
  - destruct (ok_poller _ O) as [kk I]. exists kk. by apply inv_new.
  - intros q Hq. by rewrite lookup_insert_ne.
  - cbn. lia.
  - intros q Hq. rewrite lookup_insert_ne by lia. apply (ok_fresh _ O). unfold p in Hq. lia.
  - intros Hup. destruct (ok_upcoming _ O _ Hup) as (c & Hc & _). congruence.
  - intros c Hc. congruence.
  - by rewrite set_poller_id.
Qed.

Lemma interest_ok p i s : sys_ok s -> allowed (DoInterest p i) s ->
  exists s', exec (DoInterest p i) s = Ok s' /\ sys_ok s' /\ frame s s'.
Proof.
  intros O [Hu (c & Hp & Hfit)]. destruct (ok_poller _ O) as [k I].
  destruct (change_interest_ok _ _ k p c i I Hp Hfit) as (h & e & k' & Hr & I' & Hp' & _).
  cbn [exec]. rewrite Hr. rstep. eexists. split; [reflexivity|].
  pose proof (change_frame _ _ _ _ _ _ Hr) as Hne.
  eapply ok_channel; [exact O|exact Hu|by exists k'|exact Hne|reflexivity| | | |reflexivity].
  - intros q Hq. rewrite Hne; [by apply (ok_fresh _ O)|]. intros ->. by rewrite (ok_fresh _ O) in Hp.
  - intros _. eexists. split; [exact Hp'|]. unfold registered. cbn. by destruct (_ && _).
  - intros d Hd Hh. eexists. split; [exact Hp'|]. simplify_eq. exact Hh.
Qed.

(** The channel whose callbacks are running is not among those still to come. *)
Lemma current_not_upcoming s x : sys_ok s -> in_callback (at_ (loop s)) = true -> x ∈ upcoming (at_ (loop s)) ->
  exists c, current_active_channel_ (loop s) = Some c /\ c <> x /\ x ∈ active_channels_ (loop s).
Proof.
  intros O Hin Hup. pose proof (ok_nodup _ O) as Hnd. pose proof (ok_loop _ O) as LI.
  pose proof (inv_active _ LI) as Hact. pose proof (inv_event _ LI) as Hev.
  destruct (at_ (loop s)) as [| | |r|rest| |r|r] eqn:E; cbn in Hup, Hin; try done; try (by apply elem_of_nil in Hup).
  specialize (Hact eq_refl). destruct (Hev rest eq_refl) as (c & before & Hc & Hb). exists c. rewrite Hact in Hnd |- *. cbn in Hnd |- *.
  split; [done|]. split; [|rewrite elem_of_app; auto]. intros ->. rewrite Hb in Hnd.
  apply NoDup_app in Hnd as (_ & Hd & _). apply (Hd x); [|done]. rewrite elem_of_app, list_elem_of_singleton. auto.
Qed.

Lemma remove_ok p s : sys_ok s -> in_callback (at_ (loop s)) = true -> allowed (DoRemove p) s ->
  exists s', exec (DoRemove p) s = Ok s' /\ sys_ok s' /\ frame s s'.
Proof.
  intros O Hin [Hu (c & Hp & Hreg & Hnone & Hact)]. destruct (ok_poller _ O) as [k I].
  destruct (RemoveChannel_ok _ _ k p c I Hp Hreg Hnone) as (h & e & k' & Hr & I' & Hp' & _).
  unfold Remove in Hr. cbn [exec]. unfold loop_RemoveChannel. rstep.
  assert (Hchk : (match current_active_channel_ (loop s) with
     | Some x => check (bool_decide (x = p) || negb (bool_decide (p ∈ active_channels_ (loop s)))) | None => Ok tt end) = Ok tt).
  { destruct (current_active_channel_ (loop s)) as [x|]; [|done]. apply check_true.
    destruct Hact as [->|Hact]; [by rewrite bool_decide_eq_true_2|]. rewrite orb_true_iff, negb_true_iff.
    right. by apply bool_decide_eq_false_2. }
  rewrite Hchk. rstep. rewrite Hr. rstep. eexists. split; [reflexivity|].
  pose proof (remove_frame _ _ _ _ _ Hr) as Hne.
  eapply ok_channel; [exact O|exact Hu|by exists k'|exact Hne|reflexivity| | | |reflexivity].
  - intros q Hq. rewrite Hne; [by apply (ok_fresh _ O)|]. intros ->. by rewrite (ok_fresh _ O) in Hp.
  - intros Hup. exfalso. destruct (current_not_upcoming s p O Hin Hup) as (x & Hx & Hne' & Hin'). rewrite Hx in Hact.
    by destruct Hact.
  - intros d Hd Hh. eexists. split; [exact Hp'|]. simplify_eq. exact Hh.
Qed.

Lemma delete_ok p s : sys_ok s -> allowed (DoDelete p) s ->
  exists s', exec (DoDelete p) s = Ok s' /\ sys_ok s' /\ frame s s'.
Proof.
  intros O [Hu (c & Hp & Hctx & Hh)]. destruct (ok_poller _ O) as [k I].
  cbn [exec]. rewrite (delete_channel_ok p (thread s) c Hp Hh). rstep. eexists. split; [reflexivity|].
  apply (ok_channel s p (delete p (channels s)) (poller s) (next_addr (heap (thread s)))); try done.
  - exists k. by eapply inv_destroy.
  - intros q Hq. by rewrite lookup_delete_ne.
  - intros q Hq. destruct (decide (q = p)) as [->|Hqp]; [apply lookup_delete_eq|]. rewrite lookup_delete_ne by done. by apply (ok_fresh _ O).
  - intros Hup. destruct (ok_upcoming _ O _ Hup) as (d & Hd & Hr). simplify_eq. by destruct Hr.
  - intros d Hd Hdh. simplify_eq. congruence.
  - unfold with_heap. by rewrite set_poller_id.
Qed.

Lemma remote_ok a s : sys_ok s -> sys_ok (exec_remote a s) /\ frame s (exec_remote a s).
Proof. intros O. apply ok_core; [done|apply remote_moves|..]; by destruct a; cbn; try case_match. Qed.

Lemma exec_ok c s : sys_ok s -> in_callback (at_ (loop s)) = true -> allowed c s ->
  exists s', exec c s = Ok s' /\ sys_ok s' /\ frame s s'.
Proof.
  intros O Hin Ha.
  assert (Hm : forall s', exec c s = Ok s' -> moves s s') by (intros s'; by apply exec_moves).
  destruct c as [k|op|ctx|op|fd k|p i|p|p|a].
  1-3: cbn [exec] in *; eexists; split; [reflexivity|]; by apply ok_core; [done|apply Hm|..].
  - cbn [exec] in *. destruct (exec_op_ok op (timers s)) as (q & Hq & _). rewrite Hq in *. rstep. eexists. split; [reflexivity|].
    by apply ok_core; [done|apply Hm|..].
  - by apply new_ok.
  - by apply interest_ok.
  - by apply remove_ok.
  - by apply delete_ok.
  - eexists. split; [reflexivity|]. by apply remote_ok.
Qed.

(** *** Closures, timers and channels' callbacks *)

Lemma exec_all_ok cs : forall s, sys_ok s -> in_callback (at_ (loop s)) = true -> allowed_all cs s ->
  exists s', exec_all cs s = Ok s' /\ sys_ok s' /\ frame s s'.
Proof.
  induction cs as [|c cs IH]; intros s O Hin Ha; [exists s; by split|]. destruct Ha as [Hc Hcs].
  destruct (exec_ok c s O Hin Hc) as (s1 & H1 & O1 & F1). destruct (IH s1 O1) as (s2 & H2 & O2 & F2).
  - apply exec_moves in H1 as (_ & -> & _); done.
  - by apply Hcs.
  - exists s2. cbn [exec_all]. rewrite H1. rstep. split; [exact H2|]. split; [done|by etrans].
Qed.

(** The history of calls matters to nothing. *)
Lemma ok_log c s : sys_ok s -> sys_ok (log_call c s) /\ frame s (log_call c s).
Proof. intros O. apply ok_core; [done|by apply moves_same|done..|by exists [c]]. Qed.

Lemma ok_timers q s : sys_ok s -> sys_ok (with_timers q s) /\ frame s (with_timers q s).
Proof. intros O. apply ok_core; [done|by apply moves_same|done..]. Qed.

Hypothesis well_behaved : polite.

Lemma call_ok c k s : sys_ok s -> in_callback (at_ (loop s)) = true ->
  exists s', exec_all (script k (log_call c s)) (log_call c s) = Ok s' /\ sys_ok s' /\ frame s s'.
Proof.
  intros O Hin. destruct (ok_log c s O) as [O1 F1].
  destruct (exec_all_ok (script k (log_call c s)) _ O1 Hin) as (s' & Hr & O' & F'); [by apply well_behaved|].
  exists s'. split; [done|]. split; [done|by etrans].
Qed.

Lemma fire_ok l : forall s, sys_ok s -> in_callback (at_ (loop s)) = true ->
  exists s', fire script l s = Ok s' /\ sys_ok s' /\ frame s s'.
Proof.
  induction l as [|e l IH]; intros s O Hin; [exists s; by split|]. cbn [fire].
  destruct (call_ok (Fired e) (callback e) s O Hin) as (s1 & H1 & O1 & F1). rewrite H1. rstep.
  destruct (IH s1 O1) as (s2 & H2 & O2 & F2).
  - apply exec_all_moves in H1 as (_ & -> & _); done.
  - exists s2. split; [done|]. split; [done|by etrans].
Qed.

Lemma on_timer_ok now clock s : sys_ok s -> in_callback (at_ (loop s)) = true ->
  exists s', on_timer script now clock s = Ok s' /\ sys_ok s' /\ frame s s'.
Proof.
  intros O Hin. unfold on_timer. match goal with |- context [with_timers ?q s] => destruct (ok_timers q s O) as [O1 F1] end.
  destruct (fire_ok (filter (fun e => expiration e <= now) (by_expiration (timeouts_ (timers s)))) _ O1 Hin) as (s2 & -> & O2 & F2). rstep. eexists. split; [reflexivity|].
  match goal with |- context [with_timers ?q s2] => destruct (ok_timers q s2 O2) as [O3 F3] end. split; [exact O3|]. by do 2 (etrans; [eassumption|]).
Qed.

Lemma member_ok now clock m rest s : sys_ok s -> at_ (loop s) = InEvent rest ->
  exists s', call_member script now clock m s = Ok s' /\ sys_ok s' /\ frame s s'.
Proof.
  intros O Ha. assert (Hin : in_callback (at_ (loop s)) = true) by by rewrite Ha. destruct m as [| |k]; cbn [call_member].
  - by apply on_timer_ok.
  - eexists. split; [reflexivity|]. apply ok_core; try done; [|by exists [WokenUp]].
    eapply member_moves with (m := OnWakeup_) (now := now) (clock := clock) (script := script); [exact Ha|done].
  - by apply call_ok.
Qed.


(** The loop thread moves on. *)
Lemma ok_goto l s : sys_ok s -> steps (loop s) l -> (forall p, p ∈ upcoming (at_ l) -> p ∈ upcoming (at_ (loop s))) ->
  active_channels_ l = active_channels_ (loop s) -> sys_ok (with_loop l s).
Proof.
  intros [P T W F LI U N] Hs Hup Hact. split; try done; cbn; [by eapply steps_inv|by auto|by rewrite Hact].
Qed.

Lemma own_handling fd m prio b c : own_ok fd m prio c -> own_ok fd m prio (set_event_handling b c).
Proof. by intros []. Qed.

Lemma handling_ok p b s c : sys_ok s -> channels s !! p = Some c ->
  exists s', set_handling p b s = Ok s' /\ sys_ok s' /\ fixed s s' /\ (b = true -> frame s s') /\
    channels s' !! p = Some (set_event_handling b c).
Proof.
  intros O Hp. pose proof O as [[k I] (tc & Ht & Hto) (wc & Hw & Hwo) F LI U N].
  unfold set_handling, deref. rewrite Hp. rstep. eexists. split; [reflexivity|].
  assert (Hl : forall q d, channels s !! q = Some d -> exists d', <[p := set_event_handling b c]> (channels s) !! q = Some d' /\
     (d' = d \/ d' = set_event_handling b d)).
  { intros q d Hq. destruct (decide (q = p)) as [->|Hne]; [rewrite lookup_insert_eq; simplify_eq|rewrite lookup_insert_ne by done]; eauto. }
  assert (Hfix : fixed s (with_heap (<[p := set_event_handling b c]> (channels s)) (next_addr (heap (thread s))) s)).
  { split; [done| |done]. intros d Hd. destruct (Hl _ _ Hd) as (d' & Hd' & Hdd). exists d'. split; [done|]. by destruct Hdd as [->| ->]. }
  split; [|split; [done|split; [|cbn; by rewrite lookup_insert_eq]]].
  - split; cbn; try done.
    + exists k. by apply (inv_same _ _ _ p c).
    + destruct (Hl _ _ Ht) as (d' & Hd' & Hd). exists d'. split; [done|]. destruct Hd as [->| ->]; [done|by apply own_handling].
    + destruct (Hl _ _ Hw) as (d' & Hd' & Hd). exists d'. split; [done|]. destruct Hd as [->| ->]; [done|by apply own_handling].
    + intros q Hq. rewrite lookup_insert_ne; [by apply F|]. intros <-. by rewrite F in Hp.
    + intros q Hq. destruct (U q Hq) as (d & Hd & Hr). destruct (Hl _ _ Hd) as (d' & Hd' & Hdd). exists d'. split; [done|].
      by destruct Hdd as [->| ->].
  - intros ->. split; [done|]. intros q d Hq Hh. destruct (Hl _ _ Hq) as (d' & Hd' & Hd). exists d'. split; [done|].
    by destruct Hd as [->| ->].
Qed.

Lemma test_slot_ok now clock p cond slot rest s c : sys_ok s -> at_ (loop s) = InEvent rest ->
  channels s !! p = Some c -> event_handling_ c = true ->
  exists s', test_slot script now clock p cond slot s = Ok s' /\ sys_ok s' /\ frame s s' /\ at_ (loop s') = InEvent rest.
Proof.
  intros O Ha Hp Hh. unfold test_slot, deref. rewrite Hp. rstep.
  assert (Hsame : exists s', Ok s = Ok s' /\ sys_ok s' /\ frame s s' /\ at_ (loop s') = InEvent rest)
    by (exists s; split; [done|]; split; [done|]; split; [reflexivity|done]).
  destruct (cond c); [|exact Hsame]. destruct (slot c) as [m|]; [|exact Hsame].
  destruct (member_ok now clock m rest s O Ha) as (s' & Hr & O' & F'). exists s'. split; [done|]. split; [done|]. split; [done|].
  apply (member_moves script now clock m rest) in Hr as (_ & -> & _); done.
Qed.

(** The channel keeps being handled from one test to the next. *)
Lemma tests_ok now clock p rest tests : forall s c, sys_ok s -> at_ (loop s) = InEvent rest ->
  channels s !! p = Some c -> event_handling_ c = true ->
  exists s' c', foldl (fun r t => s ← r; test_slot script now clock p t.1 t.2 s) (Ok s) tests = Ok s' /\ sys_ok s' /\
    fixed s s' /\ at_ (loop s') = InEvent rest /\ channels s' !! p = Some c'.
Proof.
  induction tests as [|[cond slot] tests IH]; intros s c O Ha Hp Hh; cbn [foldl]; [by exists s, c|]. rstep.
  destruct (test_slot_ok now clock p cond slot rest s c O Ha Hp Hh) as (s1 & -> & O1 & F1 & A1).
  destruct (fr_handled _ _ F1 p c Hp Hh) as (c1 & Hp1 & Hh1).
  destruct (IH s1 c1 O1 A1 Hp1 Hh1) as (s2 & c2 & H2 & O2 & F2 & A2 & Hp2). exists s2, c2.
  split; [done|]. split; [done|]. split; [|done]. etrans; [by apply fr_fixed|done].
Qed.

Lemma guard_is_tests now clock p s : on_event_with_guard script now clock p s =
  s ← set_handling p true s;
  s ← foldl (fun r t => s ← r; test_slot script now clock p t.1 t.2 s) (Ok s)
    [(wants_close, close_callback_); (wants_error, error_callback_); (wants_read, read_callback_); (wants_write, write_callback_)];
  set_handling p false s.
Proof.
  unfold on_event_with_guard. cbn [foldl fst snd]. destruct (set_handling p true s) as [s0|]; [|done]. cbn [mbind res_bind].
  by repeat (destruct (test_slot script now clock p _ _ _); cbn [mbind res_bind]; [|done]).
Qed.

Lemma on_event_ok now clock p rest s c : sys_ok s -> at_ (loop s) = InEvent rest -> channels s !! p = Some c ->
  exists s', on_event script alive now clock p s = Ok s' /\ sys_ok s' /\ fixed s s' /\ at_ (loop s') = InEvent rest.
Proof.
  intros O Ha Hp. unfold on_event, deref. rewrite Hp. rstep. destruct (_ && _); [by exists s|].
  rewrite guard_is_tests. destruct (handling_ok p true s c O Hp) as (s1 & H1 & O1 & _ & F1 & Hp1).
  rewrite H1. cbn [mbind res_bind]. assert (A1 : at_ (loop s1) = InEvent rest) by (apply handling_moves in H1 as (_ & -> & _); done).
  destruct (tests_ok now clock p rest [(wants_close, close_callback_); (wants_error, error_callback_);
    (wants_read, read_callback_); (wants_write, write_callback_)] s1 _ O1 A1 Hp1 eq_refl) as (s2 & c2 & -> & O2 & F2 & A2 & Hp2).
  cbn [mbind res_bind]. destruct (handling_ok p false s2 c2 O2 Hp2) as (s3 & H3 & O3 & F3 & _ & _). exists s3.
  split; [done|]. split; [done|]. split.
  - etrans; [apply fr_fixed; by apply F1|]. by etrans.
  - apply handling_moves in H3 as (_ & -> & _). done.
Qed.

Lemma enter_event_ok p rest s : sys_ok s -> at_ (loop s) = Dispatching (p :: rest) ->
  sys_ok (with_loop (goto (InEvent rest) (log_delivered p (set_current (Some p) (loop s)))) s).
Proof.
  intros O Ha. apply ok_goto; [done|eapply steps_one with (a := NextEvent); cbn; by rewrite Ha| |done].
  intros q Hq. rewrite Ha. by right.
Qed.

Lemma next_event_ok now clock p rest s : sys_ok s -> at_ (loop s) = Dispatching (p :: rest) ->
  exists s', next_event script alive now clock p rest s = Ok s' /\ sys_ok s' /\ fixed s s' /\ at_ (loop s') = Dispatching rest.
Proof.
  intros O Ha. unfold next_event.
  destruct (ok_upcoming _ O p) as (c & Hp & _); [rewrite Ha; by left|].
  pose proof (enter_event_ok p rest s O Ha) as O1.
  destruct (on_event_ok now clock p rest _ c O1 eq_refl Hp) as (s2 & -> & O2 & F2 & A2). rstep.
  eexists. split; [reflexivity|]. split; [|split; [|done]].
  - apply ok_goto; [done|eapply steps_one with (a := EventDone); cbn; by rewrite A2|by rewrite A2|done].
  - by destruct F2.
Qed.

Lemma call_task_ok clock t s : sys_ok s -> in_callback (at_ (loop s)) = true ->
  exists s', call_task script clock t s = Ok s' /\ sys_ok s' /\ frame s s'.
Proof.
  intros O Hin. destruct t as [k|[e|i]]; cbn [call_task run_task].
  - by apply call_ok.
  - destruct (AddInLoop_ok clock e (timers s)) as (q & -> & _). rstep. eexists. split; [reflexivity|]. by apply ok_timers.
  - rstep. eexists. split; [reflexivity|]. by apply ok_timers.
Qed.

Lemma next_task_ok clock ctx t rest s : sys_ok s -> at_ (loop s) = Tasks ((ctx, t) :: rest) ->
  exists s', next_task script clock ctx t rest s = Ok s' /\ sys_ok s' /\ fixed s s' /\ at_ (loop s') = Tasks rest.
Proof.
  intros O Ha. unfold next_task.
  set (l := set_tls (SetTraceContext ctx (tls (loop s))) (loop s)).
  assert (O1 : sys_ok (with_loop (goto (InTask rest) (log_executed (GetTraceContext (tls l), t) l)) s)).
  { apply ok_goto; [done|eapply steps_one with (a := NextTask); cbn; by rewrite Ha|by intros q ?%elem_of_nil|done]. }
  destruct (call_task_ok clock t _ O1 eq_refl) as (s2 & H2 & O2 & F2). rewrite H2. rstep.
  assert (A2 : at_ (loop s2) = InTask rest) by (apply call_task_moves in H2 as (_ & -> & _); done).
  eexists. split; [reflexivity|]. split; [|split; [|done]].
  - apply ok_goto; [done|eapply steps_one with (a := TaskDone); cbn; by rewrite A2|by intros q ?%elem_of_nil|done].
  - apply fr_fixed in F2. by destruct F2.
Qed.

(** The events epoll_wait reports, as a list. *)
Definition events_of (w : wait_result) : list (Z * Z) := match w with Ready l => l | _ => [] end.

(** poll on a valid answer of the kernel. *)
Lemma poll_answers w s : sys_ok s -> kernel_ok w s ->
  exists act h e, epoll_poll w (channels s) (poller s) = Ok (act, h, e) /\ h = notify (events_of w) <$> channels s /\
    Forall2 (event_channel (channels s)) (events_of w) act /\ (exists k, poller_inv h e k).
Proof.
  intros O Hk. destruct (ok_poller _ O) as [k I]. destruct w as [l| |]; [|exists [], (channels s), (poller s)|done].
  - destruct Hk as (_ & Hw & _). specialize (Hw k (inv_log _ _ _ I)).
    destruct (poll_loop_ok l _ _ _ [] I Hw) as (ps & Hr & Hps). exists ps. unfold epoll_poll. rewrite Hr. rstep.
    eexists _, _. split; [reflexivity|]. split; [done|]. split; [done|]. exists k.
    apply (inv_notify _ _ _ l) in I. split; apply I.
  - split; [done|]. split; [|split; [constructor|by exists k]]. symmetry. apply map_eq. intros q. rewrite lookup_fmap.
    destruct (channels s !! q) as [c|]; [|done]. cbn. f_equal. by destruct c.
Qed.

Lemma own_notify fd m prio l c : own_ok fd m prio c -> own_ok fd m prio (notify l c).
Proof. by intros []. Qed.

Lemma events_nodup (h : gmap ptr (Channel member)) (l : list (Z * Z)) act : NoDup (fst <$> l) -> Forall2 (event_channel h) l act -> NoDup act.
Proof.
  intros Hnd Hact. induction Hact as [|ev p l act Hev Hact IH]; [constructor|]. apply NoDup_cons in Hnd as [Hn Hnd].
  constructor; [|by apply IH]. intros Hin. apply Hn. destruct Hev as (c & Hc & Hf & _). rewrite <- Hf.
  clear -Hin Hact Hc. induction Hact as [|ev q l act (d & Hd & Hfd & _) _ IH]; [by apply elem_of_nil in Hin|].
  apply elem_of_cons. apply elem_of_cons in Hin as [<-|Hin]; [left; congruence|right; by apply IH].
Qed.

Lemma poll_step_ok w act order h e s : sys_ok s -> at_ (loop s) = InPoll -> kernel_ok w s ->
  epoll_poll w (channels s) (poller s) = Ok (act, h, e) -> order ≡ₚ act -> sorted_by (priority_in h) order ->
  sys_ok (with_poller h e (with_loop (goto (Dispatching order) (set_active (priority_in h) act order (loop s))) s)).
Proof.
  intros O Ha Hk Hp Ho Hs. destruct (poll_answers w s O Hk) as (act' & h' & e' & Hp' & Hh & Hev & Hinv). ok_eq.
  destruct O as [P (tc & Ht & Hto) (wc & Hw & Hwo) F LI U N].
  assert (Hnd : NoDup act').
  { destruct w as [l| |]; [|by inversion Hev; constructor|done]. destruct Hk as (Hn & _). by eapply events_nodup. }
  assert (Hin : forall p, p ∈ act' -> exists c, channels s !! p = Some c /\ registered c).
  { intros p Hin. apply list_elem_of_lookup in Hin as [i Hi]. apply (Forall2_lookup_r _ _ _ _ _ Hev) in Hi as (ev & _ & c & Hc & _ & Hctx).
    exists c. split; [done|]. unfold registered. by rewrite Hctx. }
  split; cbn.
  - done.
  - exists (notify (events_of w) tc). rewrite lookup_fmap, Ht. split; [done|by apply own_notify].
  - exists (notify (events_of w) wc). rewrite lookup_fmap, Hw. split; [done|by apply own_notify].
  - intros q Hq. rewrite lookup_fmap. change (channels s !! q) with (channels s !! q). by rewrite F.
  - eapply steps_inv; [|exact LI]. eapply steps_one with (a := Poll _ act' order). cbn. rewrite Ha. by rewrite bool_decide_eq_true_2.
  - intros p Hp1. rewrite Ho in Hp1. destruct (Hin p Hp1) as (c & Hc & Hr). exists (notify (events_of w) c). rewrite lookup_fmap, Hc.
    by split.
  - by rewrite Ho.
Qed.

Lemma sstep_ok s s' : sstep script alive allowed s s' -> sys_ok s -> sys_ok s'.
Proof.
  intros Hs O. destruct Hs as [a s|c s s' Ha Hm Hr|s Ha Hl|s Ha|w act order h e s Ha Hk Hp Ho Hsort
    |now clock p rest s s' Ha Hr|s Ha|s Ha|clock ctx t rest s s' Ha Hr|s Ha].
  - by apply remote_ok.
  - destruct (exec_ok c s O) as (s1 & Hr' & O' & _); [by rewrite Ha|done|]. by ok_eq.
  - apply ok_goto; [done|eapply steps_one with (a := Enter); cbn; by rewrite Ha, Hl|by intros p ?%elem_of_nil|done].
  - apply ok_goto; [done|eapply steps_one with (a := TestQuit); cbn; by rewrite Ha| |by destruct (quit_ (loop s))].
    destruct (quit_ (loop s)); by intros p ?%elem_of_nil.
  - by eapply poll_step_ok.
  - destruct (next_event_ok now clock p rest s O Ha) as (s1 & Hr' & O' & _). by ok_eq.
  - apply ok_goto; [done|eapply steps_one with (a := NextEvent); cbn; by rewrite Ha|by intros p ?%elem_of_nil|done].
  - apply ok_goto; [done|eapply steps_one with (a := SwapTasks); cbn; by rewrite Ha|by intros p ?%elem_of_nil|done].
  - destruct (next_task_ok clock ctx t rest s O Ha) as (s1 & Hr' & O' & _). by ok_eq.
  - apply ok_goto; [done|eapply steps_one with (a := NextTask); cbn; by rewrite Ha|by intros p ?%elem_of_nil|done].
Qed.

(** ** A pass of the loop *)

Lemma step_posted a (l l' : EventLoop task) : EventLoop.step a l = Some l' -> posted l `prefix_of` posted l'.
Proof.
  intros Hs. destruct a; cbn [EventLoop.step] in Hs; unfold Post, take_tasks in Hs; repeat (case_match; try discriminate Hs);
    injection Hs as <-; first [reflexivity|by eexists].
Qed.

Lemma steps_posted l l' : steps l l' -> posted l `prefix_of` posted l'.
Proof.
  intros [acts Hr]. revert l Hr. induction acts as [|a acts IH]; cbn; intros l Hr; [by injection Hr as <-|].
  destruct (EventLoop.step a l) as [l1|] eqn:E; [|done]. etrans; [by eapply step_posted|by apply IH].
Qed.

Lemma next_event_executed now clock p rest s s' : next_event script alive now clock p rest s = Ok s' ->
  executed (loop s') = executed (loop s).
Proof.
  intros Hr. unfold next_event in Hr. res_inv. apply (on_event_moves _ _ _ _ _ rest) in E as (_ & _ & _ & _ & He); [|done].
  exact He.
Qed.

Lemma next_task_executed clock ctx t rest s s' : next_task script clock ctx t rest s = Ok s' ->
  executed (loop s') = executed (loop s) ++ [(ctx, t)].
Proof.
  intros Hr. unfold next_task in Hr. res_inv. apply call_task_moves in E as (_ & _ & _ & _ & He); [|done].
  cbn in He |- *. rewrite He. by destruct ctx.
Qed.

Lemma test_slot_at now clock p cond slot s c : channels s !! p = Some c ->
  test_slot script now clock p cond slot s =
  if cond c then match slot c with Some m => call_member script now clock m s | None => Ok s end else Ok s.
Proof. intros Hp. unfold test_slot, deref. rewrite Hp. by rstep. Qed.

(** The wake-up channel's callback, when epoll reported the eventfd readable. *)
Lemma wakeup_event now clock s c : sys_ok s -> channels s !! wakeup_channel_ (reactor s) = Some c -> revents_ c = POLLIN ->
  exists s', on_event script alive now clock (wakeup_channel_ (reactor s)) s = Ok s' /\ calls s' = calls s ++ [WokenUp] /\
    counter (loop s') = 0.
Proof.
  intros O Hp Hr. destruct (ok_wakeup _ O) as (d & Hd & Ho). simplify_eq. destruct Ho as [_ _ Ht _ Hread _].
  unfold on_event, deref. rewrite Hp. rstep. rewrite Ht. cbn [andb]. unfold on_event_with_guard, set_handling, deref. rewrite Hp. rstep.
  set (p := wakeup_channel_ (reactor s)). set (c1 := set_event_handling true c). set (s1 := with_heap _ _ s).
  assert (Hp1 : channels s1 !! p = Some c1) by apply lookup_insert_eq.
  assert (Hb : wants_close c1 = false /\ wants_error c1 = false /\ wants_read c1 = true /\ wants_write c1 = false)
    by (unfold wants_close, wants_error, wants_read, wants_write, has_bits; cbn [c1 revents_ set_event_handling]; by rewrite Hr).
  destruct Hb as (B1 & B2 & B3 & B4).
  rewrite (test_slot_at _ _ _ _ _ s1 c1 Hp1), B1. rstep. rewrite (test_slot_at _ _ _ _ _ s1 c1 Hp1), B2. rstep.
  rewrite (test_slot_at _ _ _ _ _ s1 c1 Hp1), B3. change (read_callback_ c1) with (read_callback_ c). rewrite Hread. cbn [call_member].
  rstep. set (s2 := log_call _ _). assert (Hp2 : channels s2 !! p = Some c1) by exact Hp1.
  rewrite (test_slot_at _ _ _ _ _ s2 c1 Hp2), B4. rstep. rewrite Hp2. rstep. eexists. by split.
Qed.

(** The rest of the notifications of a pass; the wake-up channel, when it is among
    those still to come with POLLIN reported, calls OnWakeup. *)
Lemma run_events rest : forall s c, sys_ok s -> at_ (loop s) = Dispatching rest ->
  channels s !! wakeup_channel_ (reactor s) = Some c ->
  exists s', rtc (sstep script alive allowed) s s' /\ sys_ok s' /\ at_ (loop s') = BeforeTasks /\
    executed (loop s') = executed (loop s) /\ calls s `prefix_of` calls s' /\
    (wakeup_channel_ (reactor s) ∈ rest -> revents_ c = POLLIN ->
     exists before after, calls s' = calls s ++ before ++ WokenUp :: after).
Proof.
  induction rest as [|p rest IH]; intros s c O Ha Hc.
  - eexists. split; [apply rtc_once; by apply s_events_done|]. split.
    + apply ok_goto; [done|eapply steps_one with (a := NextEvent); cbn; by rewrite Ha|by intros q ?%elem_of_nil|done].
    + do 3 (split; [done|]). by intros ?%elem_of_nil.
  - destruct (next_event_ok 0 0 p rest s O Ha) as (s1 & H1 & O1 & [W1 R1 C1] & A1).
    destruct (R1 c Hc) as (c1 & Hc1 & Hr1). destruct W1 as [W1 _]. rewrite <- W1 in Hc1.
    destruct (IH s1 c1 O1 A1 Hc1) as (s2 & Hs2 & O2 & A2 & E2 & C2 & K2). exists s2.
    split; [eapply rtc_l; [by eapply s_event|done]|]. split; [done|]. split; [done|].
    split; [by rewrite E2; eapply next_event_executed|]. split; [by etrans|].
    intros Hin Hrev. apply elem_of_cons in Hin as [Hp|Hin].
    + subst p. destruct (wakeup_event 0 0 _ c (enter_event_ok _ rest s O Ha) Hc Hrev) as (s0 & H0 & K0 & _).
      cbn [wakeup_channel_ reactor with_loop set_core] in H0. unfold next_event in H1. rewrite H0 in H1.
      cbn [mbind res_bind] in H1. injection H1 as <-. destruct C2 as [k Hk]. exists [], k. rewrite Hk. cbn in K0 |- *. rewrite K0.
      by rewrite <- app_assoc.
    + rewrite W1 in K2. destruct (K2 Hin) as (b & a & Hk); [congruence|]. destruct C1 as [k Hk1]. exists (k ++ b), a.
      rewrite Hk, Hk1. by rewrite <- !app_assoc.
Qed.

(** The tasks taken by RunPendingTasks, to the next test of quit_. *)
Lemma run_taken_tasks r : forall s, sys_ok s -> at_ (loop s) = Tasks r ->
  exists s', rtc (sstep script alive allowed) s s' /\ sys_ok s' /\ at_ (loop s') = AtTest /\
    executed (loop s') = executed (loop s) ++ r /\ calls s `prefix_of` calls s'.
Proof.
  induction r as [|[ctx t] r IH]; intros s O Ha.
  - eexists. split; [apply rtc_once; by apply s_tasks_done|]. split; [|cbn; by rewrite app_nil_r].
    apply ok_goto; [done|eapply steps_one with (a := NextTask); cbn; by rewrite Ha|by intros q ?%elem_of_nil|done].
  - destruct (next_task_ok 0 ctx t r s O Ha) as (s1 & H1 & O1 & [_ _ C1] & A1).
    destruct (IH s1 O1 A1) as (s2 & Hs2 & O2 & A2 & E2 & C2). exists s2.
    split; [eapply rtc_l; [by eapply s_task|done]|]. split; [done|]. split; [done|]. split; [|by etrans].
    rewrite E2, (next_task_executed _ _ _ _ _ _ H1). by rewrite <- app_assoc.
Qed.

Lemma run_pass_tasks s : sys_ok s -> at_ (loop s) = BeforeTasks ->
  exists s', rtc (sstep script alive allowed) s s' /\ sys_ok s' /\ at_ (loop s') = AtTest /\
    executed (loop s') = posted (loop s) /\ calls s `prefix_of` calls s'.
Proof.
  intros O Ha. pose proof (inv_fifo _ (ok_loop _ O)) as F. rewrite Ha in F. cbn in F.
  assert (Hs : sstep script alive allowed s (with_loop (goto (Tasks (take_tasks (loop s)).1) (take_tasks (loop s)).2) s)) by by apply s_swap.
  destruct (run_taken_tasks (pending_tasks_ (loop s)) _ (sstep_ok _ _ Hs O) eq_refl) as (s' & Hr & O' & A' & E' & C').
  exists s'. split; [by eapply rtc_l|]. split; [done|]. split; [done|]. split; [|exact C']. rewrite E'. cbn. by rewrite F.
Qed.

Lemma last_event_in fd ev l r : NoDup (fst <$> l) -> (fd, ev) ∈ l -> last_event fd l r = ev.
Proof.
  revert r. induction l as [|[d x] l IH]; intros r Hnd Hin; [by apply elem_of_nil in Hin|].
  apply NoDup_cons in Hnd as [Hn Hnd]. cbn. apply elem_of_cons in Hin as [[= <- <-]|Hin].
  - rewrite Z.eqb_refl. clear IH Hnd. revert ev Hn. induction l as [|[d y] l IH]; intros ev Hn; [done|].
    apply not_elem_of_cons in Hn as [Hd Hn]. cbn in Hd |- *. rewrite (proj2 (Z.eqb_neq _ _)) by congruence. by apply IH.
  - by apply IH.
Qed.

(** std::sort by [Cmp] has a result. *)
Lemma sorted_exists prio act : exists order, order ≡ₚ act /\ sorted_by prio order.
Proof.
  pose (R := fun a b : ptr => Cmp prio b a = false).
  assert (Ht : Transitive R) by (intros a b c; unfold R, Cmp; rewrite !Z.ltb_ge; lia).
  assert (Hto : Total R) by (intros a b; unfold R, Cmp; rewrite !Z.ltb_ge; lia).
  assert (Hd : forall a b, Decision (R a b)) by (intros; unfold R; apply _).
  exists (merge_sort R act). split; [apply merge_sort_Permutation|]. by apply (StronglySorted_merge_sort R).
Qed.

(** The pass from poll to the next test of quit_. *)
Lemma pass_ok w s : sys_ok s -> at_ (loop s) = InPoll -> kernel_ok w s ->
  exists s', rtc (sstep script alive allowed) s s' /\ sys_ok s' /\ at_ (loop s') = AtTest /\
    posted (loop s) `prefix_of` executed (loop s') /\
    ((wakeup_fd_ (reactor s), POLLIN) ∈ events_of w -> exists before after, calls s' = calls s ++ before ++ WokenUp :: after).
Proof.
  intros O Ha Hk. destruct (poll_answers w s O Hk) as (act & h & e & Hp & Hh & Hev & _).
  destruct (sorted_exists (priority_in h) act) as (order & Ho & Hs).
  assert (Hst : sstep script alive allowed s (with_poller h e (with_loop (goto (Dispatching order) (set_active (priority_in h) act order (loop s))) s)))
    by by eapply s_poll.
  set (s1 := with_poller _ _ _) in Hst. pose proof (sstep_ok _ _ Hst O) as O1.
  destruct (ok_wakeup _ O) as (c & Hc & Hown).
  assert (Hc1 : channels s1 !! wakeup_channel_ (reactor s1) = Some (notify (events_of w) c))
    by (cbn; by rewrite Hh, lookup_fmap, Hc).
  destruct (run_events order s1 _ O1 eq_refl Hc1) as (s2 & Hs2 & O2 & A2 & E2 & C2 & K2).
  destruct (run_pass_tasks s2 O2 A2) as (s3 & Hs3 & O3 & A3 & E3 & C3). exists s3.
  split; [eapply rtc_l; [exact Hst|by etrans]|]. split; [done|]. split; [done|]. split.
  - rewrite E3. change (posted (loop s)) with (posted (loop s1)). by eapply steps_posted, rtc_steps.
  - intros Hin. destruct K2 as (b & a & K2).
    + destruct w as [l| |]; cbn in Hin; [|by apply elem_of_nil in Hin..]. apply list_elem_of_lookup in Hin as [i Hi].
      apply (Forall2_lookup_l _ _ _ _ _ Hev) in Hi as (p & Hi & d & Hd & Hf & _). cbn [fst] in Hf. rewrite Ho.
      destruct (ok_poller _ O) as [k I]. assert (p = wakeup_channel_ (reactor s)) as ->.
      { apply (inv_fd _ _ _ I p _ d c Hd Hc). rewrite Hf. symmetry. apply (own_fd _ _ _ _ Hown). }
      apply list_elem_of_lookup. by exists i.
    + unfold notify. cbn. rewrite (own_fd _ _ _ _ Hown). destruct w as [l| |]; cbn in Hin; [|by apply elem_of_nil in Hin..].
      destruct Hk as (Hnd & _). by apply last_event_in.
    + destruct C3 as [k3 C3]. exists b, (a ++ k3). rewrite C3, K2. cbn. by rewrite <- !app_assoc.
Qed.

(** ** From construction on *)

Lemma construct_sys_ok self epfd tfd wfd t :
  idle t -> 0 <= tfd < 128 -> 0 <= wfd < 128 -> tfd <> wfd ->
  exists r t', EventLoop_construct self epfd tfd wfd t = Ok (r, t') /\ sys_ok (MkSystem r t' []).
Proof.
  intros Hi Ht Hw Hne.
  destruct (construct_ok (C := code) (S := S) (Task := task) self epfd tfd wfd t Hi Ht Hw Hne)
    as (r & t' & E & [_ Htc Hwc I] & _ & _ & Hcore & _ & _ & _ & _ & _ & _ & Hf).
  exists r, t'. split; [done|]. split; unfold channels, poller, loop; cbn; rewrite ?Hcore; cbn.
  - by eexists.
  - eexists. by split.
  - eexists. by split.
  - done.
  - apply inv_init_loop.
  - by intros p ?%elem_of_nil.
  - constructor.
Qed.

(** A loop that was constructed on an idle thread, at any point of its life. *)
Definition lives (s : System (S := S)) : Prop := exists self epfd tfd wfd t r t',
  idle t /\ 0 <= tfd < 128 /\ 0 <= wfd < 128 /\ tfd <> wfd /\ EventLoop_construct self epfd tfd wfd t = Ok (r, t') /\
  rtc (sstep script alive allowed) (MkSystem r t' []) s.

Lemma lives_ok s : lives s -> sys_ok s.
Proof.
  intros (self & epfd & tfd & wfd & t & r & t' & Hi & Ht & Hw & Hne & E & Hr).
  destruct (construct_sys_ok self epfd tfd wfd t Hi Ht Hw Hne) as (r1 & t1 & E1 & O). ok_eq.
  revert O. induction Hr as [|x y z Hxy _ IH]; [done|]. intros O. apply IH. by eapply sstep_ok.
Qed.

(** C3: The loop never fails its users. However closures, timers, tasks and other
    threads interleave, as long as closures keep the rules of [allowed], a poll that
    the kernel answers, the notification of a channel, a task and a call between two
    runs all succeed: no check fails, no deleted channel is reached, nothing is read
    or written outside the poller's table. *)
Theorem system_never_fails s : lives s ->
  (forall w, kernel_ok w s -> is_ok (epoll_poll w (channels s) (poller s)) = true) /\
  (forall now clock p rest, at_ (loop s) = Dispatching (p :: rest) -> is_ok (next_event script alive now clock p rest s) = true) /\
  (forall clock ctx t rest, at_ (loop s) = Tasks ((ctx, t) :: rest) -> is_ok (next_task script clock ctx t rest s) = true) /\
  (forall c, at_ (loop s) = Outside -> allowed c s -> is_ok (exec c s) = true).
Proof.
  intros O%lives_ok. split; [|split; [|split]].
  - intros w Hk. by destruct (poll_answers w s O Hk) as (act & h & e & -> & _).
  - intros now clock p rest Ha. by destruct (next_event_ok now clock p rest s O Ha) as (s' & -> & _).
  - intros clock ctx t rest Ha. by destruct (next_task_ok clock ctx t rest s O Ha) as (s' & -> & _).
  - intros c Ha Hc. destruct (exec_ok c s O) as (s' & -> & _); [by rewrite Ha|done|done].
Qed.

(** C2: A task posted from another thread gets the loop out of poll. When the loop polls
    while a task is pending and its poster has called Wakeup(), the eventfd is
    readable; an epoll_wait that reports readable descriptors then returns it, the
    pass that follows calls OnWakeup, and every task posted before the poll has run
    when the pass is over. *)
Theorem posted_task_wakes_loop w s :
  lives s -> at_ (loop s) = InPoll -> pending_tasks_ (loop s) <> [] -> waking (loop s) = 0%nat ->
  kernel_ok w s -> (0 < counter (loop s) -> (wakeup_fd_ (reactor s), POLLIN) ∈ events_of w) ->
  exists s', rtc (sstep script alive allowed) s s' /\ at_ (loop s') = AtTest /\
    posted (loop s) `prefix_of` executed (loop s') /\
    exists before after, calls s' = calls s ++ before ++ WokenUp :: after.
Proof.
  intros O%lives_ok Ha Hp Hw Hk Hlevel.
  assert (Hc : 0 < counter (loop s)).
  { destruct (inv_wake _ (ok_loop _ O) Hp) as [Hd|[Hc|Hn]]; [by rewrite Ha in Hd|done|lia]. }
  destruct (pass_ok w s O Ha Hk) as (s' & Hr & _ & A' & P' & K'). exists s'.
  split; [exact Hr|]. split; [exact A'|]. split; [exact P'|]. by apply K', Hlevel.
Qed.
End Invariant.

(** ** The parts and the whole *)
Section Parts.
Context {S : Type} `{EventSet code S}.
Variable script : code -> System (S := S) -> list command.
Variable queue_script : code -> TimeoutQueue S -> list (QueueOp code).

Lemma exec_all_timers ops : forall s : System (S := S), exec_all (DoTimer <$> ops) s =
  q ← exec_ops ops (timers s); Ok (if ops is [] then s else with_timers q s).
Proof.
  induction ops as [|op ops IH]; intros s; [done|]. cbn [fmap list_fmap exec_all exec exec_ops].
  destruct (exec_op op (timers s)) as [q|]; cbn [mbind res_bind]; [|done]. rewrite IH. cbn [timers with_timers reactor queue set_queue].
  destruct (exec_ops ops q) as [q'|] eqn:E; cbn [mbind res_bind]; [|done]. destruct ops; [|done]. cbn in E. by injection E as <-.
Qed.

(** Timers whose callbacks only use the queue: OnTimer of TimeoutQueue.v. *)
Lemma fire_call_all l : (forall k s, script k s = DoTimer <$> queue_script k (timers s)) ->
  forall s, match fire script l s, call_all queue_script l (timers s) with
    | Ok s', Ok (fired, q') => timers s' = q' /\ calls s' = calls s ++ (Fired <$> fired) /\ loop s' = loop s
    | Err e, Err e' => e = e'
    | _, _ => False
    end.
Proof.
  intros Hs. induction l as [|e l IH]; intros s; cbn [fire call_all]; [by rewrite app_nil_r|].
  rewrite Hs, exec_all_timers. change (timers (log_call (Fired e) s)) with (timers s).
  set (ops := queue_script (callback e) (timers s)). unfold TimeoutQueue.call. fold ops. destruct (exec_ops ops (timers s)) as [q|] eqn:E; cbn [mbind res_bind]; [|done].
  set (s1 := if ops is [] then log_call (Fired e) s else with_timers q (log_call (Fired e) s)).
  assert (Hq : timers s1 = q) by (unfold s1; destruct ops; [cbn in E; by injection E as <-|done]).
  assert (Hc : calls s1 = calls s ++ [Fired e] /\ loop s1 = loop s) by (unfold s1; by destruct ops).
  specialize (IH s1). rewrite Hq in IH. destruct (fire script l s1), (call_all queue_script l q) as [[fired q']|]; try done.
  destruct IH as (-> & -> & ->), Hc as [-> ->]. cbn. rewrite <- app_assoc. by split.
Qed.

(** With such callbacks the loop's timer channel does exactly what TimeoutQueue.v
    says of OnTimer: the same queue and timerfd, the same callbacks in the same
    order, and nothing else. *)
Theorem on_timer_is_OnTimer now clock s : (forall k s, script k s = DoTimer <$> queue_script k (timers s)) ->
  match on_timer script now clock s, OnTimer queue_script now clock (timers s) with
  | Ok s', Ok (fired, q) => timers s' = q /\ calls s' = calls s ++ (Fired <$> fired) /\ loop s' = loop s
  | Err e, Err e' => e = e'
  | _, _ => False
  end.
Proof.
  intros Hs. unfold on_timer, OnTimer, TimeoutQueue.Run. set (expired := filter _ _). set (q0 := TQ _ _ _).
  pose proof (fire_call_all expired Hs (with_timers q0 s)) as F. change (timers (with_timers q0 s)) with q0 in F.
  destruct (fire script expired (with_timers q0 s)) as [s'|], (call_all queue_script expired q0) as [[fired q']|]; cbn [mbind res_bind]; try done.
  destruct F as (<- & Hc & Hl). by cbn.
Qed.
End Parts.

(** ** Witnesses *)

(** Closure 1 posts closure 2, which asks the loop to quit; closure 3 registers a
    channel. *)
Definition demo_script (k : code) (s : System (S := list (Event nat))) : list command :=
  match k with 1%nat => [DoPost 2%nat] | 2%nat => [Meanwhile RemoteQuit; DoQuit] | _ => [] end.

Lemma demo_polite : polite demo_script.
Proof. intros [|[|[|k]]] s _ _; cbn; repeat split. Qed.

Definition demo_reactor : res (Reactor (S := list (Event nat)) (Task := task) * Thread) :=
  EventLoop_construct 1%nat 3 4 5 demo_thread.

(** The loop after its constructor, and in poll after it was entered and another
    thread has posted closure 1 and woken the loop. *)
Definition demo_start : System (S := list (Event nat)) :=
  match demo_reactor with
  | Ok (r, t) => MkSystem r t []
  | Err _ => MkSystem (MkReactor 0%nat init 0 EPollPoller_init 0 0%nat TimeoutQueue_init 0 0%nat) demo_thread []
  end.

Definition demo_entered : System := with_loop (goto AtTest (set_looping true (loop demo_start))) demo_start.
Definition demo_at_poll : System := with_loop (goto InPoll (loop demo_entered)) demo_entered.
Definition demo_woken : System := exec_remote RemoteWakeup (exec_remote (RemotePost (7, 8) 1%nat) demo_at_poll).

Lemma demo_lives : lives demo_script (fun _ => true) demo_woken.
Proof.
  destruct demo_reactor as [[r t]|] eqn:E; [|vm_compute in E; discriminate E].
  exists 1%nat, 3, 4, 5, demo_thread, r, t. split; [apply demo_idle|]. do 3 (split; [lia|]). split; [exact E|].
  assert (Hs : MkSystem r t [] = demo_start) by (unfold demo_start; by rewrite E). rewrite Hs.
  eapply rtc_l; [apply s_enter; vm_compute; reflexivity|]. fold demo_entered.
  eapply rtc_l; [apply s_test; reflexivity|]. change (if quit_ (loop demo_entered) then _ else _) with (goto InPoll (loop demo_entered)).
  fold demo_at_poll. eapply rtc_l; [apply (s_remote _ _ _ (RemotePost (7, 8) 1%nat))|].
  apply rtc_once. apply (s_remote _ _ _ RemoteWakeup).
Qed.

Lemma demo_kernel : kernel_ok (Ready [(5, POLLIN)]) demo_woken.
Proof.
  split; [repeat constructor; apply not_elem_of_nil|]. split; [|intros _; vm_compute; reflexivity].
  intros k Hk. vm_compute in Hk. injection Hk as <-. repeat constructor. by eexists.
Qed.

Lemma system_never_fails_witness :
  at_ (loop demo_woken) = InPoll /\ is_ok (epoll_poll (Ready [(5, POLLIN)]) (channels demo_woken) (poller demo_woken)) = true.
Proof.
  split; [reflexivity|].
  apply (system_never_fails demo_script (fun _ => true) demo_polite demo_woken demo_lives). apply demo_kernel.
Defined.

Lemma posted_task_wakes_loop_witness :
  exists s', rtc (sstep demo_script (fun _ => true) allowed) demo_woken s' /\ at_ (loop s') = AtTest /\
    posted (loop demo_woken) `prefix_of` executed (loop s') /\
    exists before after, calls s' = calls demo_woken ++ before ++ WokenUp :: after.
Proof.
  apply (posted_task_wakes_loop demo_script (fun _ => true) demo_polite (Ready [(5, POLLIN)]) demo_woken demo_lives);
    [reflexivity|vm_compute; discriminate|reflexivity|apply demo_kernel|intros _; by left].
Defined.

Lemma system_refines_loop_witness :
  reachable (loop demo_start) /\ reachable (loop demo_woken).
Proof.
  assert (R : reachable (loop demo_start)) by (exists []; vm_compute; reflexivity). split; [exact R|].
  apply (system_refines_loop demo_script (fun _ => true) (fun _ _ => True) demo_start demo_woken R).
  eapply rtc_l; [apply s_enter; vm_compute; reflexivity|]. fold demo_entered.
  eapply rtc_l; [apply s_test; reflexivity|]. change (if quit_ (loop demo_entered) then _ else _) with (goto InPoll (loop demo_entered)).
  fold demo_at_poll. eapply rtc_l; [apply (s_remote _ _ _ (RemotePost (7, 8) 1%nat))|].
  apply rtc_once. apply (s_remote _ _ _ RemoteWakeup).
Defined.

(** Timer 9's callback adds a timer. *)
Lemma on_timer_is_OnTimer_witness :
  let qs := fun (k : code) (_ : TimeoutQueue (list (Event nat))) => if (k =? 9)%nat then [OpAdd 0 1000 4%nat] else [] in
  let s := with_timers (TQ [MkEvent 1 50 (-1) 9%nat] 2 None) demo_start in
  match on_timer (fun k s => DoTimer <$> qs k (timers s)) 60 61 s, OnTimer qs 60 61 (timers s) with
  | Ok s', Ok (fired, q) => timers s' = q /\ calls s' = calls s ++ (Fired <$> fired) /\ loop s' = loop s
  | Err e, Err e' => e = e'
  | _, _ => False
  end.
Proof. intros qs s. apply (on_timer_is_OnTimer (fun k s => DoTimer <$> qs k (timers s)) qs 60 61 s). done. Defined.
