(* ===== verification/Threading.v ===== *)
(** * threading and base/BlockingQueue

    ThisThread, Mutex, Thread and CountDownLatch of claire/common/threading/, and
    BlockingQueue of claire/common/base/. Threads are identified by their tid.
    Mutex is modelled down to the member holder_ on top of an error-checking
    pthread mutex; the clients of a condition variable are modelled with one step
    per critical section, split where Wait releases the mutex. Monitor has
    Condition and the proof that such steps are what the threads do; ThreadMain
    has what a new thread runs. *)

From S2P Require Import Prelude Bytes.

(** ** ThisThread *)
Module ThisThread.

(** The thread-local variables. *)
(* @src claire/common/threading/ThisThread.cc:51-53 t_cached_tid, t_tid_string, t_thread_name *)
Record locals := Locals { t_cached_tid : Z; t_tid_string : bytes; t_thread_name : bytes }.

Definition initial : locals := Locals 0 [] (str "unknown").

(** [gettid] is the result of the system call. *)
(* @src claire/common/threading/ThisThread.cc:57-66 CacheTid *)
Definition CacheTid (gettid : Z) (l : locals) : res locals :=
  if t_cached_tid l =? 0 then
    let text := pad 32 5 (sdec gettid) ++ str " " in
    let n := Zlen text in
    _ ← check (n =? 6);
    Ok (Locals gettid (stored 32 text) (t_thread_name l))
  else Ok l.

(* @src claire/common/threading/ThisThread.h:21-29 tid *)
Definition tid (gettid : Z) (l : locals) : res (Z * locals) :=
  l ← (if t_cached_tid l =? 0 then CacheTid gettid l else Ok l);
  Ok (t_cached_tid l, l).

(* @src claire/common/threading/ThisThread.h:31-44 tid_string, thread_name, set_thread_name *)
Definition set_thread_name (name : bytes) (l : locals) : locals :=
  Locals (t_cached_tid l) (t_tid_string l) name.

(* @src claire/common/threading/ThisThread.cc:68-71 IsMainThread *)
Definition IsMainThread (gettid getpid : Z) (l : locals) : res (bool * locals) :=
  '(t, l) ← tid gettid l; Ok (t =? getpid, l).

(** In the child of a fork the cached tid is refreshed. *)
(* @src claire/common/threading/ThisThread.cc:28-33 after_fork *)
Definition after_fork (gettid : Z) (l : locals) : res locals :=
  '(_, l) ← tid gettid (Locals 0 (t_tid_string l) (str "main")); Ok l.

(** The timespec given to nanosleep: seconds and nanoseconds. *)
(* @src claire/common/threading/ThisThread.cc:73-79 SleepForMicroSeconds *)
Definition SleepForMicroSeconds (microseconds : Z) : Z * Z :=
  (Z.quot microseconds 10000000, Z.rem microseconds 1000000 * 1000).

Lemma tid_text_length t : 0 <= t -> Zlen (pad 32 5 (sdec t) ++ str " ") = 1 + Z.max 5 (Zlen (dec t)).
Proof.
  intros. unfold sdec. rewrite (proj2 (Z.ltb_ge _ _)) by done.
  unfold Zlen. rewrite length_app, length_pad. change (length (str " ")) with 1%nat. lia.
Qed.

(** A thread's id is cached and stays the system's id for every thread whose
    id has at most five digits; the first use in a thread with a larger id (Linux
    allows ids up to 2^22) aborts, because the text is then longer than the six
    characters the code insists on. *)
Theorem tid_cached gettid l :
  0 < gettid -> t_cached_tid l = 0 ->
  (gettid < 10 ^ 5 -> exists l', tid gettid l = Ok (gettid, l') /\ length (t_tid_string l') = 6%nat /\
     forall other, tid other l' = Ok (gettid, l')) /\
  (10 ^ 5 <= gettid -> tid gettid l = Err CheckFailed).
Proof.
  intros Hpos Hl. unfold tid, CacheTid. rewrite Hl. change (0 =? 0) with true. cbv iota.
  rewrite tid_text_length by lia. split; intros Hs.
  - pose proof (dec_length gettid 5 ltac:(change (10 ^ Z.of_nat 5) with (10 ^ 5); lia) ltac:(lia)) as Hd.
    rewrite (proj2 (Z.eqb_eq _ _)) by (unfold Zlen; lia). rstep.
    eexists. split; [reflexivity|]. split.
    + pose proof (tid_text_length gettid ltac:(lia)) as Ht. unfold Zlen in *. cbn [t_tid_string].
      unfold stored. rewrite length_take. lia.
    + intros other. cbn [t_cached_tid]. by rewrite (proj2 (Z.eqb_neq gettid 0)) by lia.
  - rewrite (proj2 (Z.eqb_neq _ _)); [done|].
    assert (~ Zlen (dec gettid) <= 5); [|lia]. intros Hd.
    assert (gettid < 10 ^ 5); [|lia].
    rewrite <- (undec_dec gettid) by lia. unfold Zlen in Hd.
    eapply Z.lt_le_trans; [apply undec_bound, dec_chars; lia|]. apply Z.pow_le_mono_r; unfold Zlen; lia.
Qed.

(** SleepForMicroSeconds divides by ten million instead of one million: from
    one second on it always asks for less time than requested; below one second
    it asks for exactly the requested time. *)
Theorem Sleep_duration us :
  0 <= us ->
  let '(sec, nsec) := SleepForMicroSeconds us in
  0 <= nsec < 10 ^ 9 /\
  (us < 10 ^ 6 -> sec * 10 ^ 9 + nsec = us * 1000) /\
  (10 ^ 6 <= us -> sec * 10 ^ 9 + nsec < us * 1000).
Proof.
  intros Hus. unfold SleepForMicroSeconds.
  rewrite Z.quot_div_nonneg, Z.rem_mod_nonneg by lia.
  pose proof (Z.mod_pos_bound us 1000000). pose proof (Z.div_mod us 1000000).
  assert (0 <= us / 10000000) by (apply Z.div_pos; lia).
  pose proof (Z.mul_div_le us 10000000 ltac:(lia)).
  pose proof (Z.div_mod us 10000000). pose proof (Z.mod_pos_bound us 10000000).
  split; [lia|]. split; [|lia].
  intros Hs. rewrite (Z.div_small us 10000000), (Z.mod_small us 1000000) by lia. lia.
Qed.

Lemma tid_cached_witness :
  (4711 < 10 ^ 5 -> exists l', tid 4711 initial = Ok (4711, l') /\ length (t_tid_string l') = 6%nat /\
     forall other, tid other l' = Ok (4711, l')) /\ (10 ^ 5 <= 4711 -> tid 4711 initial = Err CheckFailed).
Proof. apply (tid_cached 4711 initial); [lia|reflexivity]. Defined.

Lemma Sleep_duration_witness :
  let '(sec, nsec) := SleepForMicroSeconds 5000000 in
  0 <= nsec < 10 ^ 9 /\ (5000000 < 10 ^ 6 -> sec * 10 ^ 9 + nsec = 5000000 * 1000) /\
  (10 ^ 6 <= 5000000 -> sec * 10 ^ 9 + nsec < 5000000 * 1000).
Proof. apply (Sleep_duration 5000000). lia. Defined.
End ThisThread.

(** A function changed at one point, for example at one thread. *)
Definition upd {K A} `{EqDecision K} (f : K -> A) (t : K) (x : A) : K -> A := fun u => if decide (u = t) then x else f u.

Lemma upd_eq {K A} `{EqDecision K} (f : K -> A) t x : upd f t x t = x.
Proof. unfold upd. by rewrite decide_True. Qed.

Lemma upd_ne {K A} `{EqDecision K} (f : K -> A) t u x : u <> t -> upd f t x u = f u.
Proof. intros. unfold upd. by rewrite decide_False. Qed.

(** ** Mutex and Condition::Wait *)
Module Mutex.

(** Where a thread is with respect to the mutex: outside; back from
    pthread_mutex_lock or pthread_cond_wait but not yet recorded in holder_;
    inside; about to release it, holder_ already reset (in Unlock, in Wait); and
    waiting in pthread_cond_wait. *)
Inductive loc := Outside | Acquired | Inside | Unlocking | PreWait | Waiting.

#[export] Instance loc_eq_dec : EqDecision loc.
Proof. solve_decision. Defined.

(** [owner] is the state of the pthread mutex, [at_] where each thread is and
    [scopes] how many MutexLock objects for the mutex it has. *)
(* @src claire/common/threading/Mutex.h:50-54 Mutex *)
Record Mutex := MkMutex { owner : option Z; holder_ : Z; at_ : Z -> loc; scopes : Z -> nat }.

(* @src claire/common/threading/Mutex.cc:13-23 Mutex::Mutex *)
Definition init : Mutex := MkMutex None 0 (fun _ => Outside) (fun _ => 0%nat).

(* @src claire/common/threading/Mutex.cc:55-58 Mutex::AssignHolder *)
Definition AssignHolder (t : Z) (m : Mutex) : Mutex := MkMutex (owner m) t (at_ m) (scopes m).

(* @src claire/common/threading/Mutex.cc:60-63 Mutex::UnAssignHolder *)
Definition UnAssignHolder (m : Mutex) : Mutex := MkMutex (owner m) 0 (at_ m) (scopes m).

Definition move (t : Z) (l : loc) (m : Mutex) : Mutex :=
  MkMutex (owner m) (holder_ m) (upd (at_ m) t l) (scopes m).
Definition set_owner (o : option Z) (m : Mutex) : Mutex := MkMutex o (holder_ m) (at_ m) (scopes m).
Definition set_scopes (t : Z) (n : nat) (m : Mutex) : Mutex :=
  MkMutex (owner m) (holder_ m) (at_ m) (upd (scopes m) t n).

(** The pthread functions return an error number, 0 for success. *)
Definition EPERM : Z := 1.
Definition EBUSY : Z := 16.
Definition EDEADLK : Z := 35.

(** pthread_mutex_lock on an error-checking mutex: [None] blocks. *)
Definition pthread_lock (t : Z) (m : Mutex) : option (Z * Mutex) :=
  match owner m with
  | None => Some (0, set_owner (Some t) m)
  | Some o => if o =? t then Some (EDEADLK, m) else None
  end.

(** pthread_mutex_unlock. *)
Definition pthread_unlock (t : Z) (m : Mutex) : Z * Mutex :=
  if bool_decide (owner m = Some t) then (0, set_owner None m) else (EPERM, m).

(* @src claire/common/threading/Mutex.cc:45-48 Mutex::IsLockedByThisThread *)
Definition IsLockedByThisThread (t : Z) (m : Mutex) : bool := holder_ m =? t.

(* @src claire/common/threading/Mutex.cc:50-53 Mutex::AssertLocked *)
Definition AssertLocked (t : Z) (m : Mutex) : res unit := check (IsLockedByThisThread t m).

Inductive action :=
  | Lock (t : Z)            (** Lock(): pthread_mutex_lock *)
  | Assign (t : Z)          (** AssignHolder() of Lock and of ~UnAssignGuard *)
  | UnAssign (t : Z)        (** UnAssignHolder() of Unlock *)
  | Unlock (t : Z)          (** pthread_mutex_unlock of Unlock *)
  | WaitUnAssign (t : Z)    (** UnAssignGuard() of Condition::Wait *)
  | WaitRelease (t : Z)     (** pthread_cond_wait releases the mutex *)
  | WaitReacquire (t : Z).  (** it returns, with the mutex *)

Definition tid_of (a : action) : Z :=
  match a with
  | Lock t | Assign t | UnAssign t | Unlock t | WaitUnAssign t | WaitRelease t | WaitReacquire t => t
  end.

(** What the constructor and the destructor of a scope do to the mutex. *)
(* @src claire/common/threading/Mutex.h:57-73 MutexLock *)
Definition MutexLock (t : Z) : list action * list action := ([Lock t; Assign t], [UnAssign t; Unlock t]).

(* @src claire/common/threading/Mutex.h:29-45 Mutex::UnAssignGuard *)
Definition UnAssignGuard (t : Z) : list action * list action := ([WaitUnAssign t], [Assign t]).

Section Steps.
(** glog's CHECK_ERR applied to the value of its argument. *)
Variable CHECK_ERR : Z -> res unit.

(* @src claire/common/logging/Logging.h:53-53 DCHECK_ERR *)
Definition DCHECK_ERR (invocation : Z) : res unit := CHECK_ERR invocation.

(* @src claire/common/threading/Mutex.cc:25-31 Mutex::~Mutex *)
Definition Mutex_destroy (m : Mutex) : res unit :=
  DCHECK_ERR (match owner m with Some _ => EBUSY | None => 0 end).

(** Threads use the mutex through MutexLock objects: the constructor locks, the
    destructor unlocks, Wait is called inside. *)
(* @src claire/common/threading/Mutex.cc:33-43 Mutex::Lock, Mutex::Unlock *)
Definition step (a : action) (m : Mutex) : option (res Mutex) :=
  match a with
  | Lock t =>
      match at_ m t with
      | Outside | Inside =>
          '(ret, m) ← pthread_lock t m;
          Some (_ ← DCHECK_ERR ret; Ok (move t Acquired (set_scopes t (S (scopes m t)) m)))
      | _ => None
      end
  | Assign t => match at_ m t with Acquired => Some (Ok (move t Inside (AssignHolder t m))) | _ => None end
  | UnAssign t => match at_ m t with Inside => Some (Ok (move t Unlocking (UnAssignHolder m))) | _ => None end
  | Unlock t =>
      match at_ m t with
      | Unlocking =>
          let '(ret, m) := pthread_unlock t m in
          let n := Nat.pred (scopes m t) in
          Some (_ ← DCHECK_ERR ret; Ok (move t (if n is O then Outside else Inside) (set_scopes t n m)))
      | _ => None
      end
  | WaitUnAssign t => match at_ m t with Inside => Some (Ok (move t PreWait (UnAssignHolder m))) | _ => None end
  | WaitRelease t =>
      match at_ m t with
      | PreWait =>
          let '(ret, m) := pthread_unlock t m in
          Some (if ret =? 0 then Ok (move t Waiting m) else _ ← DCHECK_ERR ret; Ok (move t Acquired m))
      | _ => None
      end
  | WaitReacquire t =>
      match at_ m t, owner m with
      | Waiting, None => Some (_ ← DCHECK_ERR 0; Ok (move t Acquired (set_owner (Some t) m)))
      | _, _ => None
      end
  end.

Fixpoint run (acts : list action) (m : Mutex) : option (res Mutex) :=
  match acts with
  | [] => Some (Ok m)
  | a :: acts => match step a m with Some (Ok m) => run acts m | r => r end
  end.

(** No thread locks the mutex inside a scope it already has. *)
Definition not_nested (a : action) (m : Mutex) : Prop :=
  match a with Lock t => at_ m t = Outside | _ => True end.

Fixpoint flat (acts : list action) (m : Mutex) : Prop :=
  match acts with
  | [] => True
  | a :: acts => not_nested a m /\ match step a m with Some (Ok m) => flat acts m | _ => True end
  end.

(** glog: CHECK_ERR is for functions that return -1. *)
Definition fails_on_minus_one : Prop := forall v, CHECK_ERR v = check (negb (v =? -1)).

Definition owns (l : loc) : bool :=
  match l with Acquired | Inside | Unlocking | PreWait => true | _ => false end.

Record inv (m : Mutex) : Prop := {
  i_owner : forall t, owns (at_ m t) = true <-> owner m = Some t;
  i_holder : forall t, 0 < t -> holder_ m = t <-> at_ m t = Inside;
  i_scopes : forall t, scopes m t = if decide (at_ m t = Outside) then 0%nat else 1%nat;
}.

Lemma mutex_inv_init : inv init.
Proof. split; cbn; intros t; [done|intros Ht; split; [lia|done]|by rewrite decide_True]. Qed.

(** One thread moves, taking or releasing the mutex, and holder_ follows. *)
Lemma mutex_inv_move m t o h l sc :
  inv m -> 0 < t ->
  (forall u, u <> t -> owner m = Some u <-> o = Some u) -> (owns l = true <-> o = Some t) ->
  (forall u, u <> t -> 0 < u -> h = u <-> holder_ m = u) -> (h = t <-> l = Inside) ->
  (forall u, u <> t -> sc u = scopes m u) -> sc t = (if decide (l = Outside) then 0%nat else 1%nat) ->
  inv (MkMutex o h (upd (at_ m) t l) sc).
Proof.
  intros I Ht Ho Hl Hh Hi Hsc Hn. split; cbn; intros u; (destruct (decide (u = t)) as [->|Hne];
    [rewrite ?upd_eq|rewrite ?upd_ne by done]); try done.
  - rewrite (i_owner _ I). by apply Ho.
  - intros Hu. rewrite Hh by done. by apply (i_holder _ I).
  - rewrite Hsc by done. apply (i_scopes _ I).
Qed.

(** A thread that owns the mutex is the only one holder_ can name. *)
Lemma owner_holder m t u : inv m -> owner m = Some t -> u <> t -> 0 < u -> holder_ m <> u.
Proof.
  intros I Ho Hne Hu Heq. apply (i_holder _ I u Hu) in Heq.
  pose proof (proj1 (i_owner _ I u)) as H. rewrite Heq in H. specialize (H eq_refl). congruence.
Qed.

(** What the step of a thread that owns the mutex, or takes it, comes down to. *)
Lemma inv_owned m t h l sc : inv m -> 0 < t -> owner m = Some t -> owns l = true ->
  (h = 0 /\ l <> Inside \/ h = t /\ l = Inside) -> (forall u, u <> t -> sc u = scopes m u) -> sc t = 1%nat ->
  inv (MkMutex (owner m) h (upd (at_ m) t l) sc).
Proof.
  intros I Ht Ho Hl Hh Hsc Hn. apply mutex_inv_move; try done.
  - intros u Hne Hu. pose proof (owner_holder m t u I Ho Hne Hu). lia.
  - split; [|naive_solver]. destruct Hh as [[-> ?]|[-> ->]]; [lia|done].
  - rewrite Hn, decide_False; [done|]. by intros ->.
Qed.

Lemma inv_taken m t sc : inv m -> 0 < t -> owner m = None ->
  (forall u, u <> t -> sc u = scopes m u) -> sc t = 1%nat ->
  inv (MkMutex (Some t) (holder_ m) (upd (at_ m) t Acquired) sc).
Proof.
  intros I Ht Ho Hsc Hn. apply mutex_inv_move; try done; [intros; rewrite Ho; split; congruence|].
  rewrite (i_holder _ I) by done. split; [|done]. intros Hi. pose proof (proj1 (i_owner _ I t)) as H.
  rewrite Hi in H. specialize (H eq_refl). congruence.
Qed.

Lemma inv_released m t l sc : inv m -> 0 < t -> owner m = Some t -> at_ m t <> Inside ->
  owns l = false -> (forall u, u <> t -> sc u = scopes m u) ->
  sc t = (if decide (l = Outside) then 0%nat else 1%nat) ->
  inv (MkMutex None (holder_ m) (upd (at_ m) t l) sc).
Proof.
  intros I Ht Ho Hi Hl Hsc Hn. apply mutex_inv_move; try done.
  - intros. rewrite Ho. split; congruence.
  - rewrite Hl. split; done.
  - rewrite (i_holder _ I) by done. split; [done|]. by intros ->.
Qed.

Section Documented.
Hypothesis glog : fails_on_minus_one.

Lemma DCHECK_ERR_nonneg v : 0 <= v -> DCHECK_ERR v = Ok tt.
Proof. intros Hv. unfold DCHECK_ERR. rewrite glog. rewrite (proj2 (Z.eqb_neq _ _)) by lia. done. Qed.

(** The pthread functions' errors pass unnoticed. *)
Lemma step_ok a m r : step a m = Some r -> is_ok r = true.
Proof.
  destruct a as [t|t|t|t|t|t|t]; cbn [step]; unfold pthread_lock, pthread_unlock; destruct (at_ m t); try done;
    repeat (case_match || case_bool_decide || simplify_eq/=); try done; rewrite ?DCHECK_ERR_nonneg by done; intros; by simplify_eq.
Qed.

Lemma mutex_inv_step a m m' : 0 < tid_of a -> not_nested a m -> step a m = Some (Ok m') -> inv m -> inv m'.
Proof.
  intros Ht Hn Hs I. pose proof (i_owner _ I (tid_of a)) as Ho. pose proof (i_scopes _ I (tid_of a)) as Hsc.
  destruct a as [t|t|t|t|t|t|t]; cbn [tid_of not_nested] in *; cbn [step] in Hs;
    unfold pthread_lock, pthread_unlock in Hs; destruct (at_ m t) eqn:E; try discriminate; cbn [owns] in Ho; cbn in Hsc;
    try (rewrite (proj1 Ho eq_refl) in Hs; rewrite ?bool_decide_eq_true_2 in Hs by done); cbn in Hs.
  - destruct (owner m) as [o|] eqn:Eo; cbn in Hs.
    + destruct (o =? t) eqn:Eot; zify_bool; [|done]. subst. destruct Ho as [_ Ho]. by discriminate Ho.
    + rewrite DCHECK_ERR_nonneg in Hs by done. injection Hs as <-. apply (inv_taken m); try done; cbn.
      * intros u Hne. by apply upd_ne.
      * by rewrite upd_eq, Hsc.
  - injection Hs as <-. apply (inv_owned m); auto. tauto.
  - injection Hs as <-. apply (inv_owned m); auto. tauto.
  - rewrite DCHECK_ERR_nonneg in Hs by done. injection Hs as <-. rewrite Hsc. apply (inv_released m); try done; cbn.
    + tauto.
    + by rewrite E.
    + intros u Hne. by apply upd_ne.
    + by rewrite upd_eq.
  - injection Hs as <-. apply (inv_owned m); auto. tauto.
  - injection Hs as <-. apply (inv_released m); try done; [tauto|by rewrite E].
  - destruct (owner m) as [o|] eqn:Eo; [done|]. rewrite DCHECK_ERR_nonneg in Hs by done. injection Hs as <-.
    by apply (inv_taken m).
Qed.

(** Where the acting thread is before and after an action. *)
Definition shape (a : action) : loc * loc :=
  match a with
  | Lock _ => (Outside, Acquired)
  | Assign _ => (Acquired, Inside)
  | UnAssign _ => (Inside, Unlocking)
  | Unlock _ => (Unlocking, Outside)
  | WaitUnAssign _ => (Inside, PreWait)
  | WaitRelease _ => (PreWait, Waiting)
  | WaitReacquire _ => (Waiting, Acquired)
  end.

Definition owner_of (t : Z) (l : loc) : option Z := if owns l then Some t else None.

Lemma step_shape a m m' : not_nested a m -> step a m = Some (Ok m') -> inv m ->
  at_ m (tid_of a) = (shape a).1 /\ owner m = owner_of (tid_of a) (shape a).1 /\
  at_ m' = upd (at_ m) (tid_of a) (shape a).2 /\ owner m' = owner_of (tid_of a) (shape a).2.
Proof.
  intros Hn Hs I. pose proof (i_owner _ I (tid_of a)) as Ho. pose proof (i_scopes _ I (tid_of a)) as Hsc.
  destruct a as [t|t|t|t|t|t|t]; cbn [tid_of not_nested shape fst snd] in *; cbn [step] in Hs;
    unfold pthread_lock, pthread_unlock in Hs; destruct (at_ m t) eqn:E; try discriminate; cbn [owns] in Ho; cbn in Hsc;
    unfold owner_of; cbn [owns]; try (rewrite (proj1 Ho eq_refl) in *; rewrite ?bool_decide_eq_true_2 in Hs by done);
    cbn in Hs; rewrite ?Hsc in Hs; cbn in Hs.
  all: repeat (case_match || simplify_eq/=); rewrite ?DCHECK_ERR_nonneg in * by done; simplify_eq/=; zify_bool.
  all: try (destruct Ho as [_ Ho]; discriminate Ho; f_equal; lia).
  all: repeat split; try done; by apply Ho.
Qed.

Lemma run_inv acts : forall m m', Forall (fun a => 0 < tid_of a) acts -> flat acts m -> inv m ->
  run acts m = Some (Ok m') -> inv m'.
Proof.
  induction acts as [|a acts IH]; cbn; intros m m' Hacts Hf I Hr; [by simplify_eq|].
  apply Forall_cons in Hacts as [Ha Hacts]. destruct Hf as [Hn Hf].
  destruct (step a m) as [[m1|]|] eqn:E; try done. apply (IH m1); try done. by apply (mutex_inv_step a m).
Qed.

(** C24: mutual exclusion, and a truthful holder_. Whatever the interleaving of
    threads that lock, unlock and wait, as long as none locks the mutex again inside
    its own scope, no check fails, at most one thread is between Lock() and
    Unlock() (outside Condition::Wait), and IsLockedByThisThread() answers true
    exactly for that thread. *)
Theorem mutex_exclusive acts r :
  Forall (fun a => 0 < tid_of a) acts -> flat acts init -> run acts init = Some r ->
  exists m, r = Ok m /\
  (forall t u, at_ m t = Inside -> at_ m u = Inside -> t = u) /\
  (forall t, 0 < t -> IsLockedByThisThread t m = true <-> at_ m t = Inside).
Proof.
  intros Hacts Hf Hr. assert (exists m, r = Ok m) as [m ->].
  { clear Hacts Hf. revert Hr. generalize init as m0. induction acts as [|a acts IH]; cbn; intros m0 Hr.
    - injection Hr as <-. by eexists.
    - destruct (step a m0) as [[m1|e]|] eqn:E; [by apply (IH m1)| |done]. by apply step_ok in E. }
  exists m. split; [done|]. assert (I : inv m) by (by eapply run_inv; [..|apply mutex_inv_init|]).
  assert (Hown : forall t, at_ m t = Inside -> owner m = Some t)
    by (intros t Ht; apply (i_owner _ I); by rewrite Ht).
  split.
  - intros t u Ht%Hown Hu%Hown. congruence.
  - intros t Ht. unfold IsLockedByThisThread. rewrite Z.eqb_eq. by apply (i_holder _ I).
Qed.

(** Runs the actions of two threads on a concrete state. *)
Local Ltac run_mutex t u :=
  repeat (progress (unfold pthread_lock, pthread_unlock; cbn; rewrite ?DCHECK_ERR_nonneg by done; cbn;
    rewrite ?upd_eq, ?(upd_ne _ t u), ?Z.eqb_refl, ?bool_decide_eq_true_2 by done; cbn)).

(** A thread that locks the mutex again inside its scope is not stopped: the error
    EDEADLK is not -1. Its inner scope then unlocks the mutex for the outer one, and
    another thread can be inside at the same time. *)
Theorem nested_lock_unsafe t u : t <> u ->
  exists m, run [Lock t; Assign t; Lock t; Assign t; UnAssign t; Unlock t; Lock u; Assign u] init = Some (Ok m) /\
    at_ m t = Inside /\ at_ m u = Inside.
Proof.
  intros Hne. eexists. split.
  - run_mutex t u. reflexivity.
  - cbn. rewrite !(upd_ne _ u t) by done. by rewrite !upd_eq.
Qed.

(** A scope holds the mutex from its beginning to its end: after the constructor
    AssertLocked() succeeds in the thread and fails in every other, and the
    destructor leaves the mutex as the constructor found it. *)
Theorem scope_holds t m : 0 < t -> inv m -> at_ m t = Outside -> owner m = None ->
  exists m1 m2, run (MutexLock t).1 m = Some (Ok m1) /\ AssertLocked t m1 = Ok tt /\
    (forall u, u <> t -> AssertLocked u m1 = Err CheckFailed) /\
    run (MutexLock t).2 m1 = Some (Ok m2) /\ owner m2 = None /\ (forall u, at_ m2 u = at_ m u) /\
    (forall u, 0 < u -> AssertLocked u m2 = Err CheckFailed).
Proof.
  intros Ht I Ea Ho. pose proof (i_scopes _ I t) as Hs. rewrite Ea, decide_True in Hs by done.
  assert (Hal : forall u m', AssertLocked u m' = if holder_ m' =? u then Ok tt else Err CheckFailed) by done.
  eexists _, _. split; [unfold MutexLock, run, step, pthread_lock; cbn; rewrite Ea, Ho; cbn; rewrite DCHECK_ERR_nonneg by done; cbn;
    rewrite upd_eq; reflexivity|].
  split; [rewrite Hal; change (holder_ _) with t; by rewrite Z.eqb_refl|].
  split; [intros u Hu; rewrite Hal; change (holder_ _) with t; by rewrite (proj2 (Z.eqb_neq _ _)) by congruence|].
  split; [cbn; rewrite upd_eq; unfold pthread_unlock; cbn; rewrite upd_eq; cbn; rewrite bool_decide_eq_true_2 by done; cbn;
    rewrite DCHECK_ERR_nonneg by done; cbn; rewrite upd_eq, Hs; reflexivity|].
  split; [done|]. split; [|intros u Hu; rewrite Hal; change (holder_ _) with 0; by rewrite (proj2 (Z.eqb_neq _ _)) by lia].
  intros u. cbn. destruct (decide (u = t)) as [->|Hu]; [by rewrite upd_eq|by rewrite !upd_ne].
Qed.

(** A locked mutex can be destroyed: EBUSY is not -1 either. *)
Theorem destroy_locked_unnoticed m : Mutex_destroy m = Ok tt.
Proof. unfold Mutex_destroy. by destruct (owner m); apply DCHECK_ERR_nonneg. Qed.
End Documented.
End Steps.

Definition glog_check_err (v : Z) : res unit := check (negb (v =? -1)).

Definition demo_actions : list action :=
  [Lock 1; Assign 1; WaitUnAssign 1; WaitRelease 1; Lock 2; Assign 2; UnAssign 2; Unlock 2;
   WaitReacquire 1; Assign 1].

Definition demo_mutex : Mutex := match run glog_check_err demo_actions init with Some (Ok m) => m | _ => init end.

Lemma mutex_exclusive_witness :
  at_ demo_mutex 1 = Inside /\
  exists m, Ok demo_mutex = Ok m /\
  (forall t u, at_ m t = Inside -> at_ m u = Inside -> t = u) /\
  (forall t, 0 < t -> IsLockedByThisThread t m = true <-> at_ m t = Inside).
Proof.
  split; [reflexivity|]. apply (mutex_exclusive glog_check_err (fun v => eq_refl) demo_actions); [|vm_compute; repeat split|reflexivity].
  repeat constructor.
Defined.

Lemma scope_holds_witness : exists m1 m2,
  run glog_check_err (MutexLock 5).1 init = Some (Ok m1) /\ AssertLocked 5 m1 = Ok tt /\
    (forall u, u <> 5 -> AssertLocked u m1 = Err CheckFailed) /\
    run glog_check_err (MutexLock 5).2 m1 = Some (Ok m2) /\ owner m2 = None /\ (forall u, at_ m2 u = at_ init u) /\
    (forall u, 0 < u -> AssertLocked u m2 = Err CheckFailed).
Proof. apply (scope_holds glog_check_err (fun v => eq_refl) 5 init ltac:(lia) mutex_inv_init eq_refl eq_refl). Defined.

Lemma nested_lock_unsafe_witness :
  exists m, run glog_check_err [Lock 1; Assign 1; Lock 1; Assign 1; UnAssign 1; Unlock 1; Lock 2; Assign 2] init = Some (Ok m) /\
    at_ m 1 = Inside /\ at_ m 2 = Inside.
Proof. apply (nested_lock_unsafe glog_check_err (fun v => eq_refl) 1 2). lia. Defined.
End Mutex.

(** ** CountDownLatch *)
Module Latch.

(** [waiting] are the threads in condition_.Wait(), [woken] those it has to
    return to, [returned] those whose Wait() is over. *)
(* @src claire/common/threading/CountDownLatch.h:49-52 CountDownLatch *)
Record CountDownLatch := MkLatch {
  count_ : Z;
  waiting : list Z;
  woken : list Z;
  returned : list Z;
}.

(* @src claire/common/threading/CountDownLatch.h:18-22 CountDownLatch::CountDownLatch *)
Definition init (c : Z) : CountDownLatch := MkLatch c [] [] [].

(** while (count_ > 0) condition_.Wait(); by a thread that has the lock. *)
Definition test (t : Z) (l : CountDownLatch) : CountDownLatch :=
  if 0 <? count_ l
  then MkLatch (count_ l) (t :: waiting l) (woken l) (returned l)
  else MkLatch (count_ l) (waiting l) (woken l) (t :: returned l).

(* @src claire/common/threading/CountDownLatch.h:24-31 CountDownLatch::Wait *)
Definition Wait (t : Z) (l : CountDownLatch) : CountDownLatch := test t l.

(** A woken thread gets the lock back. *)
Definition Resume (t : Z) (l : CountDownLatch) : CountDownLatch :=
  test t (MkLatch (count_ l) (waiting l) (remove_elem t (woken l)) (returned l)).

(** pthread_cond_wait may return without a signal. *)
Definition Spurious (t : Z) (l : CountDownLatch) : CountDownLatch :=
  MkLatch (count_ l) (remove_elem t (waiting l)) (t :: woken l) (returned l).

(* @src claire/common/threading/CountDownLatch.h:33-41 CountDownLatch::CountDown *)
Definition CountDown (l : CountDownLatch) : CountDownLatch :=
  let c := int32 (count_ l - 1) in
  if c =? 0 then MkLatch c [] (waiting l ++ woken l) (returned l)
  else MkLatch c (waiting l) (woken l) (returned l).

(* @src claire/common/threading/CountDownLatch.h:43-47 CountDownLatch::count *)
Definition count (l : CountDownLatch) : Z := count_ l.

Inductive step : CountDownLatch -> CountDownLatch -> Prop :=
  | step_wait t l : step l (Wait t l)
  | step_resume t l : t ∈ woken l -> step l (Resume t l)
  | step_spurious t l : t ∈ waiting l -> step l (Spurious t l)
  | step_down l : step l (CountDown l).

Lemma count_down_last l : fits_s 32 (count_ l) -> int32 (count_ l - 1) <= 0 ->
  int32 (count_ l - 1) <> 0 -> count_ l <= 0.
Proof.
  unfold fits_s. intros Hf Hle Hne. destruct (decide (count_ l <= 0)); [done|].
  rewrite wrap_s_id in * by (unfold fits_s; lia). lia.
Qed.

(** A latch releases its waiters: in every reachable state no thread is left
    asleep once the count is not positive, and a Wait() that has returned saw
    such a count. *)
Theorem latch_releases c l :
  fits_s 32 c -> rtc step (init c) l ->
  (count_ l <= 0 -> waiting l = []) /\
  forall t l', step l l' -> t ∈ returned l' -> t ∉ returned l -> count_ l' <= 0.
Proof.
  intros Hc Hr. split.
  - assert (fits_s 32 (count_ l) /\ (count_ l <= 0 -> waiting l = [])) as [_ ?]; [|done].
    assert (H0 : fits_s 32 (count_ (init c)) /\ (count_ (init c) <= 0 -> waiting (init c) = [])) by done.
    revert H0. induction Hr as [l|l1 l2 l3 H12 _ IH]; [done|]. intros [Hf Hw]. apply IH.
    inversion H12 as [t l|t l|t l|l]; subst; unfold Wait, Resume, Spurious, CountDown, test; cbn.
    + destruct (0 <? count_ l1) eqn:E; zify_bool; cbn; split; auto; lia.
    + destruct (0 <? count_ l1) eqn:E; zify_bool; cbn; split; auto; lia.
    + split; [done|]. intros Hle. by rewrite Hw.
    + pose proof (wrap_s_fits 32 (count_ l1 - 1) ltac:(lia)) as Hfit.
      destruct (_ =? 0) eqn:E; zify_bool; cbn; split; auto.
      intros Hle. apply Hw. by apply count_down_last.
  - intros t l' Hs Hin Hnot. inversion Hs; subst; unfold Wait, Resume, Spurious, CountDown, test in *; cbn in *.
    + destruct (0 <? count_ l) eqn:E; zify_bool; cbn in *; [done|lia].
    + destruct (0 <? count_ l) eqn:E; zify_bool; cbn in *; [done|lia].
    + done.
    + by destruct (_ =? 0).
Qed.

Lemma latch_releases_witness :
  let l := CountDown (Wait 5 (init 1)) in
  woken l = [5] /\ (count_ l <= 0 -> waiting l = []) /\
  forall t l', step l l' -> t ∈ returned l' -> t ∉ returned l -> count_ l' <= 0.
Proof.
  intros l. split; [reflexivity|]. apply (latch_releases 1 l); [unfold fits_s; lia|].
  eapply rtc_l; [apply (step_wait 5)|]. apply rtc_once, step_down.
Defined.
End Latch.

(** ** BlockingQueue *)
Module BlockingQueue.
Section BlockingQueue.
Context {T : Type}.

(** [put] and [taken] are the history: what was put, and what was taken by
    which thread. *)
(* @src claire/common/base/BlockingQueue.h:54-57 BlockingQueue *)
Record BlockingQueue := MkQueue {
  queue_ : list T;
  waiting : list Z;
  woken : list Z;
  put : list T;
  taken : list (Z * T);
}.

(* @src claire/common/base/BlockingQueue.h:21-25 BlockingQueue::BlockingQueue *)
Definition init : BlockingQueue := MkQueue [] [] [] [] [].

(** queue_.push_back and not_empty_.Notify(), which wakes the waiter [t] the
    system chooses, if there is one. *)
(* @src claire/common/base/BlockingQueue.h:27-33 BlockingQueue::Put *)
Definition Put (x : T) (t : Z) (q : BlockingQueue) : option BlockingQueue :=
  match waiting q with
  | [] => Some (MkQueue (queue_ q ++ [x]) [] (woken q) (put q ++ [x]) (taken q))
  | _ =>
      if bool_decide (t ∈ waiting q)
      then Some (MkQueue (queue_ q ++ [x]) (remove_elem t (waiting q)) (t :: woken q)
                         (put q ++ [x]) (taken q))
      else None
  end.

(** The rest of Take by a thread that has just got the lock. *)
(* @src claire/common/base/BlockingQueue.h:35-46 BlockingQueue::Take *)
Definition Take (t : Z) (q : BlockingQueue) : BlockingQueue :=
  match queue_ q with
  | [] => MkQueue [] (t :: waiting q) (woken q) (put q) (taken q)
  | x :: rest => MkQueue rest (waiting q) (woken q) (put q) (taken q ++ [(t, x)])
  end.

(** A woken thread gets the lock back. *)
Definition Resume (t : Z) (q : BlockingQueue) : BlockingQueue :=
  Take t (MkQueue (queue_ q) (waiting q) (remove_elem t (woken q)) (put q) (taken q)).

Definition Spurious (t : Z) (q : BlockingQueue) : BlockingQueue :=
  MkQueue (queue_ q) (remove_elem t (waiting q)) (t :: woken q) (put q) (taken q).

(* @src claire/common/base/BlockingQueue.h:48-52 BlockingQueue::size *)
Definition size (q : BlockingQueue) : Z := Zlen (queue_ q).

Inductive step : BlockingQueue -> BlockingQueue -> Prop :=
  | step_put x t q q' : Put x t q = Some q' -> step q q'
  | step_take t q : t ∉ waiting q -> t ∉ woken q -> step q (Take t q)
  | step_resume t q : t ∈ woken q -> step q (Resume t q)
  | step_spurious t q : t ∈ waiting q -> step q (Spurious t q).

Record inv (q : BlockingQueue) : Prop := {
  i_fifo : put q = (snd <$> taken q) ++ queue_ q;
  i_nodup : NoDup (waiting q ++ woken q);
  i_wake : waiting q <> [] -> (length (queue_ q) <= length (woken q))%nat;
}.

Lemma queue_inv_init : inv init.
Proof. split; cbn; [done|constructor|done]. Qed.

Lemma queue_inv_Take t q : inv q -> t ∉ waiting q -> t ∉ woken q -> inv (Take t q).
Proof.
  intros I Hw Hk. unfold Take. destruct I as [F N W].
  destruct (queue_ q) as [|x rest] eqn:E; split; cbn in *; try done.
  - apply NoDup_cons. rewrite elem_of_app. tauto.
  - lia.
  - rewrite F, fmap_app, <- app_assoc. done.
  - intros Hne. specialize (W Hne). lia.
Qed.
Lemma queue_inv_step q q' : step q q' -> inv q -> inv q'.
Proof.
  intros Hs I. inversion Hs as [x t q0 q1 Hp|t q0 Hw Hk|t q0 Hk|t q0 Hw]; subst.
  - destruct I as [F N W]. unfold Put in Hp. destruct (waiting q) as [|w ws] eqn:E.
    + injection Hp as <-. split; cbn; [by rewrite F, app_assoc|done|done].
    + case_bool_decide as Hin; [|done]. injection Hp as <-. rewrite <- E in *. split; cbn.
      * by rewrite F, app_assoc.
      * by apply NoDup_move.
      * rewrite length_app. cbn. rewrite E in W. specialize (W ltac:(done)). lia.
  - by apply queue_inv_Take.
  - destruct I as [F N W]. apply NoDup_app in N as (Nw & Nd & Nk).
    pose proof (length_remove_elem t (woken q) Nk Hk) as Hlen.
    assert (Hnw : t ∉ waiting q) by (intros Hin; by apply (Nd t)).
    unfold Resume, Take. cbn. destruct (queue_ q) as [|x rest] eqn:E; split; cbn; try done.
    + apply NoDup_cons. split.
      * rewrite elem_of_app, elem_of_remove_elem. naive_solver.
      * apply NoDup_app. split; [done|]. split; [|by apply NoDup_filter].
        intros u Hu [_ Hu']%elem_of_remove_elem. by apply (Nd u).
    + lia.
    + rewrite F, fmap_app, <- app_assoc. done.
    + apply NoDup_app. split; [done|]. split; [|by apply NoDup_filter].
      intros u Hu [_ Hu']%elem_of_remove_elem. by apply (Nd u).
    + intros Hne. specialize (W Hne). cbn in W. lia.
  - destruct I as [F N W]. unfold Spurious. split; cbn; [done|by apply NoDup_move|].
    intros Hne. enough (waiting q <> []) by (specialize (W ltac:(done)); lia).
    intros Hn. by rewrite Hn in Hne.
Qed.

(** C23: a blocking queue delivers every element once, in the order they were
    put, and never leaves a taker asleep beside an element meant for it: whenever
    a thread sleeps in Take(), at least as many threads have been woken as there
    are elements in the queue. *)
Theorem queue_delivers q :
  rtc step init q ->
  put q = (snd <$> taken q) ++ queue_ q /\
  (waiting q <> [] -> (length (queue_ q) <= length (woken q))%nat).
Proof.
  intros Hr. assert (I : inv q).
  { assert (I0 := queue_inv_init). revert I0. induction Hr as [|q1 q2 q3 H12 _ IH]; [done|].
    intros I0. apply IH. by eapply queue_inv_step. }
  split; [apply (i_fifo _ I)|apply (i_wake _ I)].
Qed.
End BlockingQueue.
Arguments BlockingQueue : clear implicits.

Lemma queue_delivers_witness :
  exists q : BlockingQueue nat, rtc step init q /\ queue_ q = [8%nat] /\
    put q = (snd <$> taken q) ++ queue_ q /\
    (waiting q <> [] -> (length (queue_ q) <= length (woken q))%nat).
Proof.
  assert (R : rtc step init (MkQueue [8%nat] [] [] [7%nat; 8%nat] [(3, 7%nat)])).
  { eapply rtc_l; [apply (step_take 3); apply not_elem_of_nil|].
    eapply rtc_l; [apply (step_put 7%nat 3); reflexivity|].
    eapply rtc_l; [apply (step_put 8%nat 0); reflexivity|].
    apply rtc_once. apply (step_resume 3 (MkQueue [7%nat; 8%nat] [] [3] [7%nat; 8%nat] [])). by left. }
  eexists. split; [exact R|]. split; [reflexivity|]. apply (queue_delivers _ R).
Defined.
End BlockingQueue.

(** ** Thread *)
Module Thread.

(* @src claire/common/threading/Thread.h:37-42 Thread *)
Record Thread := MkThread {
  started_ : bool;
  joined_ : bool;
  detached : bool;
  tid_ : Z;
  name_ : bytes;
}.

(* @src claire/common/threading/Thread.cc:78-85 Thread::Thread *)
Definition new (name : bytes) : Thread := MkThread false false false 0 name.

(** [created] tells whether pthread_create succeeds. *)
(* @src claire/common/threading/Thread.cc:104-119 Thread::Start *)
Definition Start (created : bool) (th : Thread) : res Thread :=
  if started_ th then Ok th
  else if created then Ok (MkThread true (joined_ th) (detached th) (tid_ th) (name_ th))
  else Err CheckFailed.

(* @src claire/common/threading/Thread.cc:121-127 Thread::Join *)
Definition Join (th : Thread) : res Thread :=
  _ ← check (started_ th);
  _ ← check (negb (joined_ th));
  Ok (MkThread (started_ th) true (detached th) (tid_ th) (name_ th)).

(** The destructor detaches the thread that nobody joined. *)
(* @src claire/common/threading/Thread.cc:96-102 Thread::~Thread *)
Definition destroy (th : Thread) : Thread :=
  if started_ th && negb (joined_ th)
  then MkThread (started_ th) (joined_ th) true (tid_ th) (name_ th) else th.

End Thread.
