(* ===== verification/EventLoopThreadPool.v ===== *)
(** * events/EventLoopThread, EventLoopThreadPool and TimerId

    Threads that each run one event loop, the pool that hands its loops out
    round robin, timer identifiers, and the test of EventLoop that it is used in
    its own thread. *)

From S2P Require Import Prelude Bytes Registry Threading.

(** ** The thread of a loop *)
Module LoopOwner.

(** [tid_] is what ThisThread::tid() gave the constructor; [gettid] the result of
    the system call, if it is made. *)
(* @src claire/common/events/EventLoop.cc:273-276 EventLoop::IsInLoopThread *)
Definition IsInLoopThread (tid_ gettid : Z) (l : ThisThread.locals) : res (bool * ThisThread.locals) :=
  '(t, l) ← ThisThread.tid gettid l; Ok (tid_ =? t, l).

(* @src claire/common/events/EventLoop.cc:278-281 EventLoop::AssertInLoopThread *)
Definition AssertInLoopThread (tid_ gettid : Z) (l : ThisThread.locals) : res ThisThread.locals :=
  '(b, l) ← IsInLoopThread tid_ gettid l; _ ← check b; Ok l.

(** LOG(FATAL) with both ids. *)
(* @src claire/common/events/EventLoop.cc:230-235 EventLoop::AbortNotInLoopThread *)
Definition AbortNotInLoopThread : res unit := Err CheckFailed.

(** [loop] is the thread's tLoopInThisThread. *)
(* @src claire/common/events/EventLoop.cc:283-286 EventLoop::CurrentLoopInThisThread *)
Definition CurrentLoopInThisThread (loop : option ptr) : option ptr := loop.

Lemma assert_cached tid_ gettid l : 0 < ThisThread.t_cached_tid l ->
  AssertInLoopThread tid_ gettid l = if tid_ =? ThisThread.t_cached_tid l then Ok l else Err CheckFailed.
Proof.
  intros Hl. unfold AssertInLoopThread, IsInLoopThread, ThisThread.tid.
  rewrite (proj2 (Z.eqb_neq _ 0)) by lia. rstep. by destruct (_ =? _).
Qed.

(** A loop may be used in the thread that created it and in no other; in the child
    of a fork not even there, because the child's thread has another id, while
    tLoopInThisThread still points to the loop. *)
Theorem own_thread_only tid_ l l1 other lo child :
  ThisThread.tid tid_ l = Ok (tid_, l1) -> 0 < tid_ -> ThisThread.t_cached_tid lo = other -> 0 < other -> other <> tid_ ->
  0 < child < 10 ^ 5 -> child <> tid_ ->
  (forall g, AssertInLoopThread tid_ g l1 = Ok l1) /\ (forall g, AssertInLoopThread tid_ g lo = Err CheckFailed) /\
  exists l2, ThisThread.after_fork child l1 = Ok l2 /\ forall g, AssertInLoopThread tid_ g l2 = Err CheckFailed.
Proof.
  intros Ht Hpos <- Hlo Hne Hc Hct.
  assert (H1 : ThisThread.t_cached_tid l1 = tid_) by (apply bind_ok_inv in Ht as (l' & _ & [= H ->]); done).
  split; [intros g; by rewrite assert_cached, H1, Z.eqb_refl by lia|].
  split; [intros g; by rewrite assert_cached, (proj2 (Z.eqb_neq tid_ _)) by lia|].
  destruct (proj1 (ThisThread.tid_cached child (ThisThread.Locals 0 (ThisThread.t_tid_string l1) (str "main"))
    ltac:(lia) eq_refl) ltac:(lia)) as (l2 & E & _ & Hany).
  exists l2. unfold ThisThread.after_fork. rewrite E. rstep. split; [done|]. intros g.
  specialize (Hany g). apply bind_ok_inv in Hany as (l3 & H3 & [= Hcached ->]).
  rewrite assert_cached, Hcached, (proj2 (Z.eqb_neq tid_ child)) by lia. done.
Qed.

Lemma own_thread_only_witness :
  let l1 := ThisThread.Locals 4711 (str " 4711 ") (str "main") in
  let lo := ThisThread.Locals 4712 (str " 4712 ") (str "worker") in
  (forall g, AssertInLoopThread 4711 g l1 = Ok l1) /\ (forall g, AssertInLoopThread 4711 g lo = Err CheckFailed) /\
  exists l2, ThisThread.after_fork 4713 l1 = Ok l2 /\ forall g, AssertInLoopThread 4711 g l2 = Err CheckFailed.
Proof.
  apply (own_thread_only 4711 (ThisThread.set_thread_name (str "main") ThisThread.initial) _ 4712 _ 4713);
    try reflexivity; try lia; vm_compute; congruence.
Defined.
End LoopOwner.

(** ** TimerId *)
Module TimerId.

(* @src claire/common/events/TimerId.h:14-31 TimerId *)
Record TimerId := MkTimerId { id_ : Z }.

(* @src claire/common/events/TimerId.h:17-18 TimerId::TimerId *)
Definition new (id : Z) : TimerId := MkTimerId id.

(* @src claire/common/events/TimerId.h:20-20 TimerId::Reset *)
Definition Reset (t : TimerId) : TimerId := MkTimerId 0.

(* @src claire/common/events/TimerId.h:21-21 TimerId::Valid *)
Definition Valid (t : TimerId) : bool := 0 <? id_ t.

(* @src claire/common/events/TimerId.h:24-27 TimerId::swap *)
Definition swap (a b : TimerId) : TimerId * TimerId := (b, a).

(* @src claire/common/events/TimerId.h:33-36 operator< *)
Definition lt (lhs rhs : TimerId) : bool := id_ lhs <? id_ rhs.

(* @src claire/common/events/TimerId.h:38-41 operator== *)
Definition eqb (lhs rhs : TimerId) : bool := id_ lhs =? id_ rhs.
End TimerId.

(** ** EventLoopThread *)
Module LoopThread.

(** The loop object lives on the stack of ThreadMain. *)
Inductive loop_life := NotCreated | Alive | Gone.

(** Where the creating thread is: before StartLoop, waiting for the loop in
    StartLoop (in the condition, or woken and about to take the lock again),
    returned from it with a pointer, or destroying the object: in loop_->quit()
    between the store to quit_ and Wakeup(), then in Join(). *)
Inductive creator := Fresh | CheckLoop | InWait | Woken | Started (loop : bool) | Quitting | Joining | Destroyed.

(** Where the new thread is in ThreadMain. *)
Inductive main := NotStarted | Created | CalledBack | Published | Looping | Returned.

(** [loop_] is the member: whether it is set. [quit_requested] is the loop's
    quit_ flag. *)
(* @src claire/common/events/EventLoopThread.h:32-36 EventLoopThread *)
Record EventLoopThread := ELT {
  loop_ : bool;
  the_loop : loop_life;
  started_ : bool;
  creator_at : creator;
  main_at : main;
  quit_requested : bool;
  has_callback : bool;
  init_called : nat;
}.

(* @src claire/common/events/EventLoopThread.cc:14-20 EventLoopThread::EventLoopThread *)
Definition init (callback : bool) : EventLoopThread :=
  ELT false NotCreated false Fresh NotStarted false callback 0.

Inductive action := CallStartLoop | TestLoop | Spurious | CreateLoop | CallInit | Publish | EnterLoop
  | OutsideQuit | LoopReturns | CallDestructor | CallWakeup | Join.

(** A step may fail: the destructor of an object whose loop_ is NULL, or whose
    loop is gone, dereferences it. [None] is a step that is not enabled. *)
(* @src claire/common/events/EventLoopThread.cc:22-59 EventLoopThread::~EventLoopThread, StartLoop, ThreadMain *)
Definition step (a : action) (s : EventLoopThread) : option (res EventLoopThread) :=
  let upd l t st c m q n := Some (Ok (ELT l t st c m q (has_callback s) n)) in
  match a with
  | CallStartLoop =>   (* DCHECK(!thread_.started()); thread_.Start(); lock *)
      match creator_at s with
      | Fresh => upd (loop_ s) (the_loop s) true CheckLoop (main_at s) (quit_requested s) (init_called s)
      | Started _ => Some (Err CheckFailed)
      | _ => None
      end
  | TestLoop =>        (* while (!loop_) condition_.Wait(); *)
      match creator_at s with
      | CheckLoop | Woken =>
          upd (loop_ s) (the_loop s) (started_ s)
            (if loop_ s then Started true else InWait) (main_at s) (quit_requested s) (init_called s)
      | _ => None
      end
  | Spurious =>
      match creator_at s with
      | InWait => upd (loop_ s) (the_loop s) (started_ s) Woken (main_at s) (quit_requested s) (init_called s)
      | _ => None
      end
  | CreateLoop =>
      match main_at s, started_ s with
      | NotStarted, true =>
          upd (loop_ s) Alive true (creator_at s) Created (quit_requested s) (init_called s)
      | _, _ => None
      end
  | CallInit =>
      match main_at s with
      | Created =>
          upd (loop_ s) (the_loop s) (started_ s) (creator_at s) CalledBack (quit_requested s)
            (if has_callback s then S (init_called s) else init_called s)
      | _ => None
      end
  | Publish =>         (* loop_ = &loop; condition_.Notify(); *)
      match main_at s with
      | CalledBack =>
          upd true (the_loop s) (started_ s)
            (match creator_at s with InWait => Woken | c => c end) Published (quit_requested s) (init_called s)
      | _ => None
      end
  | EnterLoop =>
      match main_at s with
      | Published => upd (loop_ s) (the_loop s) (started_ s) (creator_at s) Looping (quit_requested s) (init_called s)
      | _ => None
      end
  | OutsideQuit =>     (* someone calls quit() on the loop StartLoop returned *)
      match creator_at s, the_loop s with
      | Started _, Alive =>
          upd (loop_ s) (the_loop s) (started_ s) (creator_at s) (main_at s) true (init_called s)
      | _, _ => None
      end
  | LoopReturns =>     (* only after quit(); the loop is destroyed with the frame *)
      match main_at s with
      | Looping =>
          if quit_requested s
          then upd (loop_ s) Gone (started_ s) (creator_at s) Returned (quit_requested s) (init_called s)
          else None
      | _ => None
      end
  | CallDestructor =>  (* loop_->quit(): quit_ = true; *)
      match creator_at s with
      | Fresh | Started _ =>
          if loop_ s then
            match the_loop s with
            | Alive => upd (loop_ s) (the_loop s) (started_ s) Quitting (main_at s) true (init_called s)
            | _ => Some (Err OutOfBounds)
            end
          else Some (Err NullDeref)
      | _ => None
      end
  | CallWakeup =>      (* loop_->quit(): Wakeup(), which reads wakeup_fd_ *)
      match creator_at s with
      | Quitting =>
          match the_loop s with
          | Alive => upd (loop_ s) (the_loop s) (started_ s) Joining (main_at s) (quit_requested s) (init_called s)
          | _ => Some (Err Dangling)
          end
      | _ => None
      end
  | Join =>            (* thread_.Join(): when the thread has returned *)
      match creator_at s, main_at s with
      | Joining, Returned =>
          upd (loop_ s) (the_loop s) (started_ s) Destroyed (main_at s) (quit_requested s) (init_called s)
      | _, _ => None
      end
  end.

Fixpoint run (acts : list action) (s : EventLoopThread) : option (res EventLoopThread) :=
  match acts with
  | [] => Some (Ok s)
  | a :: acts =>
      match step a s with
      | Some (Ok s) => run acts s
      | other => other
      end
  end.

Record inv (s : EventLoopThread) : Prop := {
  i_loop : loop_ s = match main_at s with Published | Looping | Returned => true | _ => false end;
  i_life : the_loop s = match main_at s with NotStarted => NotCreated | Returned => Gone | _ => Alive end;
  i_started : started_ s = match creator_at s with Fresh => false | _ => true end;
  i_quit : quit_requested s = match creator_at s with Quitting | Joining | Destroyed => true | _ => false end;
  i_wait : creator_at s = InWait -> loop_ s = false;
  i_ret : forall b, creator_at s = Started b -> b = true /\ loop_ s = true;
  i_joining : quit_requested s = true -> loop_ s = true;
  i_returned : main_at s = Returned -> quit_requested s = true;
  i_main : started_ s = false -> main_at s = NotStarted;
  i_called : init_called s = match main_at s with
    NotStarted | Created => 0%nat | _ => if has_callback s then 1%nat else 0%nat end;
}.

Lemma thread_inv_init b : inv (init b).
Proof. split; cbn; try done; intuition discriminate. Qed.

Lemma thread_inv_step a s s' : a <> OutsideQuit -> step a s = Some (Ok s') -> inv s -> inv s'.
Proof.
  intros Hout Hs I. destruct s as [l t st c m q hb n]. destruct I as [I1 I2 I3 I4 I5 I6 I7 I8 I9 I10].
  cbn in *. subst.
  destruct a; try done; cbn in Hs; destruct c; try discriminate; destruct m; cbn in *; try discriminate;
    try (specialize (I9 eq_refl); discriminate); injection Hs as <-; split; cbn in *; try done; auto;
    try (intros ? [= <-]; done); intuition (try discriminate); try (destruct hb; done).
  all: by match goal with H : Started _ = Started _ |- _ => destruct (I6 _ H) end.
Qed.

Lemma thread_run_inv acts : forall s s', OutsideQuit ∉ acts -> run acts s = Some (Ok s') -> inv s -> inv s'.
Proof.
  induction acts as [|a acts IH]; cbn; intros s s' Hout Hr I; [by simplify_eq|].
  apply not_elem_of_cons in Hout as [Ha Hout].
  destruct (step a s) as [[s1|]|] eqn:E; try done. eapply IH; [done..|]. by eapply thread_inv_step.
Qed.

(** C27: StartLoop returns a loop that exists: when it has returned, the pointer is
    set, the loop is alive until the EventLoopThread is destroyed, and the init
    callback, if any, has run once; the destructor's store to quit_ finds it there,
    as long as nobody else quits the loop. The wake-up that follows the store finds
    it only if the loop's thread has not seen quit_ and returned by then. The
    destructor of an object that was never started fails: it calls quit() through a
    NULL loop_. *)
Theorem StartLoop_returns_live b acts s :
  OutsideQuit ∉ acts -> run acts (init b) = Some (Ok s) ->
  (forall r, creator_at s = Started r ->
     loop_ s = true /\ the_loop s = Alive /\ init_called s = (if b then 1 else 0)%nat /\
     exists s', step CallDestructor s = Some (Ok s')) /\
  (creator_at s = Quitting -> match main_at s with
     | Returned => step CallWakeup s = Some (Err Dangling)
     | _ => exists s', step CallWakeup s = Some (Ok s')
     end) /\
  (creator_at s = Fresh -> step CallDestructor s = Some (Err NullDeref)) /\
  (creator_at s = InWait -> main_at s <> Looping).
Proof.
  intros Hout Hr. pose proof (thread_run_inv _ _ _ Hout Hr (thread_inv_init b)) as I.
  assert (Hb : forall acts s0 s1, run acts s0 = Some (Ok s1) -> has_callback s1 = has_callback s0).
  { clear. induction acts as [|a acts IH]; cbn; intros s0 s1 H; [by simplify_eq|].
    destruct (step a s0) as [[s2|]|] eqn:E; try done. rewrite (IH _ _ H).
    destruct a; cbn in E; repeat case_match; by simplify_eq. }
  specialize (Hb _ _ _ Hr). cbn in Hb. destruct I as [I1 I2 I3 I4 I5 I6 I7 I8 I9 I10].
  split; [|split; [|split]].
  - intros r Hc. destruct (I6 r Hc) as [_ Hl]. split; [done|].
    assert (Hm : main_at s = Published \/ main_at s = Looping).
    { destruct (main_at s) eqn:E; rewrite I1 in Hl; try done; auto. specialize (I8 eq_refl). rewrite I4, Hc in I8. done. }
    rewrite I2, I10, Hb. split; [by destruct Hm as [-> | ->]|]. split; [by destruct Hm as [-> | ->]|].
    cbn. rewrite Hc, Hl, I2. destruct Hm as [-> | ->]; eauto.
  - intros Hc. cbn. rewrite Hc, I2. rewrite Hc in I3, I4. destruct (main_at s) eqn:E; try (by eexists); try done.
    rewrite (I7 I4) in I1. done.
  - intros Hc. cbn. rewrite Hc. rewrite Hc in I3. rewrite (I9 I3) in I1. by rewrite I1.
  - intros Hc Hm. specialize (I5 Hc). rewrite I1, Hm in I5. done.
Qed.

Definition demo_actions : list action :=
  [CallStartLoop; TestLoop; CreateLoop; CallInit; Publish; TestLoop; EnterLoop].

Definition demo_state : EventLoopThread := ELT true Alive true (Started true) Looping false true 1.

Lemma StartLoop_returns_live_witness :
  run demo_actions (init true) = Some (Ok demo_state) /\
  (forall r, creator_at demo_state = Started r ->
     loop_ demo_state = true /\ the_loop demo_state = Alive /\ init_called demo_state = 1%nat /\
     exists s', step CallDestructor demo_state = Some (Ok s')) /\
  (creator_at demo_state = Quitting -> match main_at demo_state with
     | Returned => step CallWakeup demo_state = Some (Err Dangling)
     | _ => exists s', step CallWakeup demo_state = Some (Ok s')
     end) /\
  (creator_at demo_state = Fresh -> step CallDestructor demo_state = Some (Err NullDeref)) /\
  (creator_at demo_state = InWait -> main_at demo_state <> Looping).
Proof.
  split; [reflexivity|]. apply (StartLoop_returns_live true demo_actions demo_state); [|reflexivity].
  intros H. repeat (apply elem_of_cons in H as [H|H]; [discriminate|]). by apply elem_of_nil in H.
Defined.
(** The loop sees quit_ and returns before the destructor wakes it: the destructor
    uses the loop after its lifetime. *)
Example destructor_races :
  run (demo_actions ++ [CallDestructor; LoopReturns; CallWakeup]) (init true) = Some (Err Dangling).
Proof. reflexivity. Qed.
End LoopThread.

(** ** EventLoopThreadPool *)
Module LoopPool.

(* @src claire/common/events/EventLoopThreadPool.h:36-42 EventLoopThreadPool *)
Record EventLoopThreadPool := Pool {
  base_loop_ : ptr;
  started_ : bool;
  num_threads_ : Z;
  next_ : Z;
  loops_ : list ptr;
}.

(* @src claire/common/events/EventLoopThreadPool.cc:13-18 EventLoopThreadPool::EventLoopThreadPool *)
Definition init (base : ptr) : EventLoopThreadPool := Pool base false 0 0 [].

(* @src claire/common/events/EventLoopThreadPool.h:26-29 EventLoopThreadPool::set_num_threads *)
Definition set_num_threads (n : Z) (p : EventLoopThreadPool) : EventLoopThreadPool :=
  Pool (base_loop_ p) (started_ p) n (next_ p) (loops_ p).

(** The loop over the threads: [start i] is the pointer StartLoop returns for the
    i-th new EventLoopThread. *)
(* @src claire/common/events/EventLoopThreadPool.cc:32-37 EventLoopThreadPool::Start *)
Fixpoint start_threads (n : nat) (i : nat) (start : nat -> ptr) (loops : list ptr) : list ptr :=
  match n with
  | O => loops
  | S n => start_threads n (S i) start (loops ++ [start i])
  end.

(** The callback is called with the base loop when there are no threads; the
    second result tells whether it was. *)
(* @src claire/common/events/EventLoopThreadPool.cc:26-43 EventLoopThreadPool::Start *)
Definition Start (in_loop has_callback : bool) (start : nat -> ptr) (p : EventLoopThreadPool)
  : res (EventLoopThreadPool * option ptr) :=
  _ ← check (negb (started_ p));
  _ ← check in_loop;
  let loops := start_threads (Z.to_nat (num_threads_ p)) 0 start (loops_ p) in
  Ok (Pool (base_loop_ p) true (num_threads_ p) (next_ p) loops,
      if (num_threads_ p =? 0) && has_callback then Some (base_loop_ p) else None).

(* @src claire/common/events/EventLoopThreadPool.cc:45-61 EventLoopThreadPool::NextLoop *)
Definition NextLoop (in_loop : bool) (p : EventLoopThreadPool) : res (ptr * EventLoopThreadPool) :=
  _ ← check in_loop;
  match loops_ p with
  | [] => Ok (base_loop_ p, p)
  | _ =>
      loop ← vget (loops_ p) (next_ p);
      let next := next_ p + 1 in
      let next := if Zlen (loops_ p) <=? next then 0 else next in
      Ok (loop, Pool (base_loop_ p) (started_ p) (num_threads_ p) next (loops_ p))
  end.

(** [k] calls in a row. *)
Fixpoint next_loops (k : nat) (p : EventLoopThreadPool) : res (list ptr * EventLoopThreadPool) :=
  match k with
  | O => Ok ([], p)
  | S k => '(l, p) ← NextLoop true p; '(ls, p) ← next_loops k p; Ok (l :: ls, p)
  end.

Lemma start_threads_spec n : forall i start l,
  start_threads n i start l = l ++ (start <$> seq i n).
Proof.
  induction n as [|n IH]; intros i start l; cbn; [by rewrite app_nil_r|].
  rewrite IH, <- app_assoc. done.
Qed.

Lemma next_loops_spec k : forall p, loops_ p <> [] -> 0 <= next_ p < Zlen (loops_ p) ->
  exists ls p', next_loops k p = Ok (ls, p') /\ length ls = k /\
    forall i, (i < k)%nat ->
      ls !! i = loops_ p !! Z.to_nat ((next_ p + Z.of_nat i) mod Zlen (loops_ p)).
Proof.
  induction k as [|k IH]; intros p Hne Hn.
  - exists [], p. split; [done|]. split; [done|lia].
  - destruct (vget_in (loops_ p) (next_ p) Hn) as [x Hx].
    set (next := if Zlen (loops_ p) <=? next_ p + 1 then 0 else next_ p + 1).
    set (p1 := Pool (base_loop_ p) (started_ p) (num_threads_ p) next (loops_ p)).
    assert (Hnext : next = (next_ p + 1) mod Zlen (loops_ p)).
    { unfold next. destruct (_ <=? _) eqn:E; zify_bool.
      - replace (next_ p + 1) with (Zlen (loops_ p)) by lia. by rewrite Z.mod_same by lia.
      - by rewrite Z.mod_small by lia. }
    destruct (IH p1 Hne) as (ls & p' & Hr & Hl & Hi).
    { cbn. rewrite Hnext. apply Z.mod_pos_bound. lia. }
    exists (x :: ls), p'. split; [|split; [cbn; lia|]].
    + assert (HN : NextLoop true p = Ok (x, p1)).
      { unfold NextLoop. rstep. rewrite Hx. rstep. unfold p1, next. by destruct (loops_ p). }
      cbn [next_loops]. rewrite HN. rstep. by rewrite Hr.
    + intros [|i] Hlt; cbn [lookup list_lookup].
      * rewrite Z.add_0_r, Z.mod_small by done. apply vget_ok in Hx as [_ Hx]. by rewrite Hx.
      * change (ls !! i = loops_ p !! Z.to_nat ((next_ p + Z.of_nat (S i)) mod Zlen (loops_ p))).
        rewrite Hi by lia. cbn [loops_ next_ p1]. rewrite Hnext, Zplus_mod_idemp_l.
        do 3 f_equal. lia.
Qed.

Lemma next_loops_base k p : loops_ p = [] -> next_loops k p = Ok (replicate k (base_loop_ p), p).
Proof.
  intros Hl. induction k as [|k IH]; [done|]. cbn [next_loops]. unfold NextLoop. rewrite Hl. rstep.
  by rewrite IH.
Qed.

(** A started pool hands its loops out round robin and never out of bounds:
    the i-th of any number of consecutive NextLoop calls returns loop i modulo
    the number of threads, in creation order; a pool without threads always
    returns the base loop. *)
Theorem NextLoop_round_robin base n cb start k :
  0 <= n ->
  exists p r ls p',
    Start true cb start (set_num_threads n (init base)) = Ok (p, r) /\
    next_loops k p = Ok (ls, p') /\ length ls = k /\
    forall i, (i < k)%nat ->
      ls !! i = Some (if n =? 0 then base else start (Z.to_nat (Z.of_nat i mod n))).
Proof.
  intros Hn. unfold Start. rstep. cbn [num_threads_ loops_ set_num_threads init base_loop_ next_].
  rewrite start_threads_spec, app_nil_l.
  set (p := Pool base true n 0 (start <$> seq 0 (Z.to_nat n))).
  exists p, (if (n =? 0) && cb then Some base else None).
  destruct (decide (n = 0)) as [->|Hne].
  - exists (replicate k base), p. split; [reflexivity|]. split; [|split; [apply length_replicate|]].
    + by apply next_loops_base.
    + intros i Hi. cbn. by apply lookup_replicate_2.
  - assert (Hlen : Zlen (loops_ p) = n).
    { unfold Zlen. cbn. rewrite length_fmap, length_seq. lia. }
    destruct (next_loops_spec k p) as (ls & p' & Hr & Hl & Hi).
    + intros Hnil. rewrite Hnil, Zlen_nil in Hlen. lia.
    + rewrite Hlen. cbn [next_ p]. lia.
    + exists ls, p'. split; [reflexivity|]. split; [done|]. split; [done|]. intros i Hlt.
      rewrite Hi by done. rewrite Hlen. cbn [next_ loops_ p]. rewrite Z.add_0_l.
      rewrite (proj2 (Z.eqb_neq _ _)) by done.
      assert (0 < n) as Hpos by (clear -Hn Hne; lia).
      pose proof (Z.mod_pos_bound (Z.of_nat i) n Hpos) as Hb.
      rewrite list_lookup_fmap, lookup_seq_lt by (clear -Hb; cbn; lia). done.
Qed.

Lemma NextLoop_round_robin_witness :
  exists p r ls p',
    Start true false (fun i => 100 + i)%nat (set_num_threads 3 (init 7%nat)) = Ok (p, r) /\
    next_loops 5 p = Ok (ls, p') /\ length ls = 5%nat /\
    forall i, (i < 5)%nat ->
      ls !! i = Some (if 3 =? 0 then 7%nat else (100 + Z.to_nat (Z.of_nat i mod 3))%nat).
Proof. apply (NextLoop_round_robin 7%nat 3 false (fun i => 100 + i)%nat 5). lia. Defined.
End LoopPool.
