(* ===== verification/Monitor.v ===== *)
(** * threading/Condition, and monitors

    The condition variable of claire/common/threading/Condition.h, and the use
    every client makes of it with a Mutex: a MutexLock scope whose body tests the
    shared state, waits and tests again, or changes the state step by step and
    notifies. The clients are modelled elsewhere with one step per critical
    section; here that model is derived from the mutex's and the condition's own
    steps, for any such body, and for BlockingQueue and CountDownLatch. *)

From S2P Require Import Prelude Bytes Threading.
Open Scope Z_scope.

(** ** Condition *)
Module Condition.

(** The threads blocked in pthread_cond_wait. *)
(* @src claire/common/threading/Condition.h:57-59 Condition *)
Definition Condition : Type := list Z.

(* @src claire/common/threading/Condition.h:20-24 Condition::Condition *)
Definition init : Condition := [].

(** What Wait() does to the mutex; the thread is blocked between the second and the
    third action. *)
(* @src claire/common/threading/Condition.h:31-35 Condition::Wait *)
Definition Wait (t : Z) : list Mutex.action :=
  (Mutex.UnAssignGuard t).1 ++ [Mutex.WaitRelease t; Mutex.WaitReacquire t] ++ (Mutex.UnAssignGuard t).2.

(** The absolute time given to pthread_cond_timedwait, from the clock's. *)
(* @src claire/common/threading/Condition.h:40-42 Condition::WaitForSeconds *)
Definition deadline (now : Z * Z) (seconds : Z) : Z * Z := (int64 (now.1 + seconds), now.2).

Definition ETIMEDOUT : Z := 110.

(** The mutex actions are those of Wait; the result tells whether the time is up. *)
(* @src claire/common/threading/Condition.h:38-45 Condition::WaitForSeconds *)
Definition WaitForSeconds (t : Z) (timedwait : Z) : list Mutex.action * bool := (Wait t, ETIMEDOUT =? timedwait).

(** The threads left blocked and those woken; the system chooses [t] among the
    blocked ones. *)
(* @src claire/common/threading/Condition.h:47-50 Condition::Notify *)
Definition Notify (t : Z) (c : Condition) : option (Condition * list Z) :=
  match c with
  | [] => Some ([], [])
  | _ => if bool_decide (t ∈ c) then Some (remove_elem t c, [t]) else None
  end.

(* @src claire/common/threading/Condition.h:52-55 Condition::NotifyAll *)
Definition NotifyAll (c : Condition) : Condition * list Z := ([], c).

(** A thread that waits gives the mutex up and has it again when Wait returns: the
    actions never fail, wherever the other threads are. *)
Theorem wait_restores CHECK_ERR t m :
  Mutex.fails_on_minus_one CHECK_ERR -> 0 < t -> Mutex.inv m -> Mutex.at_ m t = Mutex.Inside ->
  exists m', Mutex.run CHECK_ERR (Wait t) m = Some (Ok m') /\ Mutex.IsLockedByThisThread t m' = true /\
    forall u, Mutex.at_ m' u = Mutex.at_ m u.
Proof.
  intros glog Ht I Hin. assert (Ho : Mutex.owner m = Some t) by (apply (Mutex.i_owner _ I); by rewrite Hin).
  eexists. split.
  - unfold Wait, Mutex.run, Mutex.step, Mutex.pthread_unlock. cbn. rewrite Hin. cbn. rewrite upd_eq, bool_decide_eq_true_2 by done.
    cbn. rewrite upd_eq. unfold Mutex.DCHECK_ERR. rewrite glog. cbn. rewrite upd_eq. reflexivity.
  - split; [cbn; by apply Z.eqb_eq|]. intros u. cbn. destruct (decide (u = t)) as [->|Hu]; [by rewrite upd_eq|by rewrite !upd_ne].
Qed.
End Condition.

(** ** Monitors *)
Section Monitor.
Context {S Op C Ext : Type} `{EqDecision C}.

Inductive signal := Silent | One (c : C) | All (c : C).

(** What the body of a critical section does once the mutex is held: wait, or run
    some updates of the shared state and notify. *)
Inductive decision :=
  | Block (c : C)
  | Go (body : list (S -> S)) (sig : signal).

(** [enter t op s] is the decision of operation [op] of thread [t]; [may t op s]
    whether the thread's program has come to the call; [ext t x s] what the thread
    does to the shared state without the mutex, when it can; [resume op] the
    operation as it goes on after Wait: [op] itself, when Wait is in a loop that
    tests again. *)
Variable enter : Z -> Op -> S -> decision.
Variable may : Z -> Op -> S -> Prop.
Variable ext : Z -> Ext -> S -> option S.
Variable resume : Op -> Op.
Variable CHECK_ERR : Z -> res unit.

Definition apply_all (body : list (S -> S)) (s : S) : S := foldl (fun s f => f s) s body.

(** Where a thread is in its operation. *)
Inductive pc :=
  | Idle
  | Want (op : Op)                                            (** in MutexLock's constructor *)
  | Body (op : Op) (before rest : list (S -> S)) (sig : signal)
  | Blocking (op : Op) (c : C)                                (** in Wait, with the mutex *)
  | Sleeping (op : Op) (c : C)
  | Woken (op : Op)                                           (** until it tests again *)
  | Leaving.                                                  (** in MutexLock's destructor *)

Definition op_of (p : pc) : option Op :=
  match p with
  | Want op | Body op _ _ _ | Blocking op _ | Sleeping op _ | Woken op => Some op
  | Idle | Leaving => None
  end.

Record conf := MkConf { mtx : Mutex.Mutex; shared : S; cond : C -> Condition.Condition; pcs : Z -> pc }.

(** The condition variables and the woken threads after a notification. *)
Definition emit (t : Z) (sig : signal) (cond : C -> Condition.Condition) : option ((C -> Condition.Condition) * list Z) :=
  match sig with
  | Silent => Some (cond, [])
  | One c => '(l, woken) ← Condition.Notify t (cond c); Some (upd cond c l, woken)
  | All c => let '(l, woken) := Condition.NotifyAll (cond c) in Some (upd cond c l, woken)
  end.

Definition wake_pc (woken : list Z) (p : Z -> pc) : Z -> pc := fun u =>
  match p u with
  | Sleeping op c => if bool_decide (u ∈ woken) then Woken (resume op) else p u
  | q => q
  end.

(** At the test: a new operation, or one back from Wait. *)
Definition testing (p : pc) (op : Op) : Prop := p = Want op \/ p = Woken op.

(** The steps of one thread; every step on the mutex is a step of [Mutex.step]. *)
Inductive cstep (t : Z) : conf -> conf -> Prop :=
  | c_ext x m s s' w p : p t = Idle -> ext t x s = Some s' -> cstep t (MkConf m s w p) (MkConf m s' w p)
  | c_call op m s w p : p t = Idle -> may t op s -> cstep t (MkConf m s w p) (MkConf m s w (upd p t (Want op)))
  | c_lock op m m' s w p : p t = Want op -> Mutex.at_ m t = Mutex.Outside ->
      Mutex.step CHECK_ERR (Mutex.Lock t) m = Some (Ok m') -> cstep t (MkConf m s w p) (MkConf m' s w p)
  | c_assign op m m' s w p : testing (p t) op ->
      Mutex.step CHECK_ERR (Mutex.Assign t) m = Some (Ok m') -> cstep t (MkConf m s w p) (MkConf m' s w p)
  | c_enter op body sig m s w p : testing (p t) op -> Mutex.at_ m t = Mutex.Inside -> enter t op s = Go body sig ->
      cstep t (MkConf m s w p) (MkConf m s w (upd p t (Body op [] body sig)))
  | c_update op before f rest sig m s w p : p t = Body op before (f :: rest) sig ->
      cstep t (MkConf m s w p) (MkConf m (f s) w (upd p t (Body op (before ++ [f]) rest sig)))
  | c_signal op before sig u w' woken m s w p : p t = Body op before [] sig -> emit u sig w = Some (w', woken) ->
      cstep t (MkConf m s w p) (MkConf m s w' (wake_pc woken (upd p t Leaving)))
  | c_unassign m m' s w p : p t = Leaving ->
      Mutex.step CHECK_ERR (Mutex.UnAssign t) m = Some (Ok m') -> cstep t (MkConf m s w p) (MkConf m' s w p)
  | c_unlock m m' s w p : p t = Leaving ->
      Mutex.step CHECK_ERR (Mutex.Unlock t) m = Some (Ok m') -> cstep t (MkConf m s w p) (MkConf m' s w (upd p t Idle))
  | c_block op c m m' s w p : testing (p t) op -> enter t op s = Block c ->
      Mutex.step CHECK_ERR (Mutex.WaitUnAssign t) m = Some (Ok m') ->
      cstep t (MkConf m s w p) (MkConf m' s w (upd p t (Blocking op c)))
  | c_sleep op c m m' s w p : p t = Blocking op c ->
      Mutex.step CHECK_ERR (Mutex.WaitRelease t) m = Some (Ok m') ->
      cstep t (MkConf m s w p) (MkConf m' s (upd w c (t :: w c)) (upd p t (Sleeping op c)))
  | c_spurious op c m s w p : p t = Sleeping op c ->
      cstep t (MkConf m s w p) (MkConf m s (upd w c (remove_elem t (w c))) (upd p t (Woken (resume op))))
  | c_reacquire op m m' s w p : p t = Woken op ->
      Mutex.step CHECK_ERR (Mutex.WaitReacquire t) m = Some (Ok m') -> cstep t (MkConf m s w p) (MkConf m' s w p).

(** Any thread takes a step; thread ids are positive. *)
Definition sched (c c' : conf) : Prop := exists t, 0 < t /\ cstep t c c'.

Definition cinit (s : S) : conf := MkConf Mutex.init s (fun _ => Condition.init) (fun _ => Idle).

(** ** The atomic monitor: one step per critical section *)

Inductive status := AIdle | ASleeping (op : Op) (c : C) | AWoken (op : Op).

Record atom := MkAtom { ashared : S; acond : C -> Condition.Condition; astat : Z -> status }.

Definition wake_stat (woken : list Z) (p : Z -> status) : Z -> status := fun u =>
  match p u with
  | ASleeping op c => if bool_decide (u ∈ woken) then AWoken (resume op) else p u
  | q => q
  end.

Definition ready (s : status) (op : Op) : Prop := s = AIdle \/ s = AWoken op.

Inductive astep : atom -> atom -> Prop :=
  | a_ext t x s s' w p : p t = AIdle -> ext t x s = Some s' -> astep (MkAtom s w p) (MkAtom s' w p)
  | a_run t op body sig u w' woken s w p : ready (p t) op -> may t op s -> enter t op s = Go body sig ->
      emit u sig w = Some (w', woken) ->
      astep (MkAtom s w p) (MkAtom (apply_all body s) w' (wake_stat woken (upd p t AIdle)))
  | a_block t op c s w p : ready (p t) op -> may t op s -> enter t op s = Block c ->
      astep (MkAtom s w p) (MkAtom s (upd w c (t :: w c)) (upd p t (ASleeping op c)))
  | a_spurious t op c s w p : p t = ASleeping op c ->
      astep (MkAtom s w p) (MkAtom s (upd w c (remove_elem t (w c))) (upd p t (AWoken (resume op)))).

Definition ainit (s : S) : atom := MkAtom s (fun _ => Condition.init) (fun _ => AIdle).

(** ** The refinement *)

(** Where a thread is, in the mutex, in its operation and in the atomic monitor,
    where it sleeps from its test on. *)
Definition thread_ok (l : Mutex.loc) (p : pc) (s : status) : Prop :=
  match p with
  | Idle => s = AIdle /\ l = Mutex.Outside
  | Want _ => s = AIdle /\ (l = Mutex.Outside \/ l = Mutex.Acquired \/ l = Mutex.Inside)
  | Woken op => s = AWoken op /\ (l = Mutex.Waiting \/ l = Mutex.Acquired \/ l = Mutex.Inside)
  | Body op _ _ _ => ready s op /\ l = Mutex.Inside
  | Blocking op c => s = ASleeping op c /\ l = Mutex.PreWait
  | Sleeping op c => s = ASleeping op c /\ l = Mutex.Waiting
  | Leaving => s = AIdle /\ (l = Mutex.Inside \/ l = Mutex.Unlocking)
  end.

(** The shared state is the atomic monitor's, but for the updates already made by
    the thread that owns the mutex. *)
Definition data_ok (o : option Z) (p : Z -> pc) (sh ash : S) : Prop :=
  match o with
  | None => sh = ash
  | Some t =>
      match p t with
      | Body op before rest sig => enter t op ash = Go (before ++ rest) sig /\ sh = apply_all before ash
      | _ => sh = ash
      end
  end.

(** The sleepers, with the one that is about to sleep. *)
Definition pending (o : option Z) (p : Z -> pc) (w : C -> Condition.Condition) : C -> Condition.Condition :=
  match o with
  | None => w
  | Some t => match p t with Blocking _ c => upd w c (t :: w c) | _ => w end
  end.

Record refines (c : conf) (a : atom) : Prop := {
  r_mutex : Mutex.inv (mtx c);
  r_cond : forall k, acond a k = pending (Mutex.owner (mtx c)) (pcs c) (cond c) k;
  r_threads : forall t, thread_ok (Mutex.at_ (mtx c) t) (pcs c t) (astat a t);
  r_may : forall t op, op_of (pcs c t) = Some op -> may t op (ashared a);
  r_data : data_ok (Mutex.owner (mtx c)) (pcs c) (shared c) (ashared a);
}.

Lemma refines_init s : refines (cinit s) (ainit s).
Proof. split; cbn; [apply Mutex.mutex_inv_init|done..]. Qed.

Lemma threads_upd (l l' : Z -> Mutex.loc) (p p' : Z -> pc) (s s' : Z -> status) t :
  (forall u, thread_ok (l u) (p u) (s u)) ->
  (forall u, u <> t -> l' u = l u /\ p' u = p u /\ s' u = s u) -> thread_ok (l' t) (p' t) (s' t) ->
  forall u, thread_ok (l' u) (p' u) (s' u).
Proof. intros H Hne Ht u. destruct (decide (u = t)) as [->|Hu]; [done|]. by destruct (Hne u Hu) as (-> & -> & ->). Qed.

Lemma threads_wake woken (l : Z -> Mutex.loc) (p : Z -> pc) (s : Z -> status) :
  (forall u op c, p u <> Blocking op c) ->
  (forall u, thread_ok (l u) (p u) (s u)) -> forall u, thread_ok (l u) (wake_pc woken p u) (wake_stat woken s u).
Proof.
  intros Hb H u. specialize (H u). specialize (Hb u). unfold wake_pc, wake_stat. destruct (p u) eqn:E; cbn in H.
  4: by destruct (Hb op c).
  4: { destruct H as [-> Hl]. case_bool_decide; cbn; tauto. }
  all: destruct (s u) eqn:F; cbn in *; unfold ready in *; naive_solver.
Qed.

Lemma data_upd o (p p' : Z -> pc) sh ash :
  (forall t, o = Some t -> p' t = p t) -> data_ok o p sh ash -> data_ok o p' sh ash.
Proof. intros H. unfold data_ok. destruct o as [t|]; [|done]. by rewrite H. Qed.

Lemma pending_upd o (p p' : Z -> pc) w : (forall t, o = Some t -> p' t = p t) -> pending o p' w = pending o p w.
Proof. intros H. unfold pending. destruct o as [t|]; [|done]. by rewrite H. Qed.

Lemma may_upd (p : Z -> pc) q t s : (forall u op, op_of (p u) = Some op -> may u op s) ->
  (forall op, op_of q = Some op -> may t op s) -> forall u op, op_of (upd p t q u) = Some op -> may u op s.
Proof. intros H Hq u op. destruct (decide (u = t)) as [->|Hu]; [rewrite upd_eq; apply Hq|rewrite upd_ne by done; apply H]. Qed.

Lemma may_wake woken (p : Z -> pc) s : (forall u op, may u op s -> may u (resume op) s) -> (forall u op, op_of (p u) = Some op -> may u op s) ->
  forall u op, op_of (wake_pc woken p u) = Some op -> may u op s.
Proof.
  intros Hr H u op. specialize (H u). unfold wake_pc. destruct (p u); try by apply H.
  case_bool_decide; [|by apply H]. intros [= <-]. by apply Hr, H.
Qed.

Lemma emit_ext u sig w w' woken v : emit u sig w = Some (w', woken) -> (forall k, v k = w k) ->
  exists v', emit u sig v = Some (v', woken) /\ forall k, v' k = w' k.
Proof.
  intros He Hv. destruct sig as [|c|c]; cbn in *.
  - injection He as <- <-. by exists v.
  - rewrite Hv. destruct (Condition.Notify u (w c)) as [[l ws]|]; [|done]. cbn in *. injection He as <- <-.
    eexists. split; [done|]. intros k. destruct (decide (k = c)) as [->|Hk]; [by rewrite !upd_eq|by rewrite !upd_ne].
  - injection He as <- <-. rewrite Hv. eexists. split; [done|]. intros k.
    destruct (decide (k = c)) as [->|Hk]; [by rewrite !upd_eq|by rewrite !upd_ne].
Qed.

Section Documented.
Hypothesis glog : Mutex.fails_on_minus_one CHECK_ERR.

(** What threads do without the mutex changes no decision to go on, commutes with
    the updates made under it, and nobody else's steps end a thread's readiness to
    make the call it is in. *)
Hypothesis ext_enter : forall t u op x s s' body sig, u <> t -> may t op s -> enter t op s = Go body sig ->
  ext u x s = Some s' -> enter t op s' = Go body sig.
Hypothesis ext_commutes : forall t u op x s before rest sig, u <> t -> may t op s ->
  enter t op s = Go (before ++ rest) sig -> ext u x (apply_all before s) = apply_all before <$> ext u x s.
Hypothesis ext_may : forall t u op x s s', u <> t -> may t op s -> ext u x s = Some s' -> may t op s'.
Hypothesis resume_may : forall t op s, may t op s -> may t (resume op) s.
Hypothesis body_may : forall t u op op' s before rest sig, u <> t -> may u op' s ->
  enter u op' s = Go (before ++ rest) sig -> may t op (apply_all before s) <-> may t op s.

Lemma at_owner m t : Mutex.inv m -> Mutex.owns (Mutex.at_ m t) = true -> Mutex.owner m = Some t.
Proof. intros I. apply (Mutex.i_owner _ I). Qed.

Lemma not_owner m t : Mutex.inv m -> Mutex.owns (Mutex.at_ m t) = false -> Mutex.owner m <> Some t.
Proof. intros I Hf Hu%(Mutex.i_owner _ I). congruence. Qed.

(** A step of the mutex by one thread, with its new place in its operation. *)
Lemma refines_mutex x m m' s w w' p q a : 0 < Mutex.tid_of x -> Mutex.not_nested x m ->
  Mutex.step CHECK_ERR x m = Some (Ok m') -> refines (MkConf m s w p) a ->
  let t := Mutex.tid_of x in let p' := upd p t q in
  thread_ok (Mutex.shape x).2 q (astat a t) ->
  (forall op, op_of q = Some op -> op_of (p t) = Some op) ->
  pending (Mutex.owner_of t (Mutex.shape x).2) p' w' = pending (Mutex.owner_of t (Mutex.shape x).1) p w ->
  (data_ok (Mutex.owner_of t (Mutex.shape x).1) p s (ashared a) ->
   data_ok (Mutex.owner_of t (Mutex.shape x).2) p' s (ashared a)) ->
  refines (MkConf m' s w' p') a.
Proof.
  intros Hx Hn Hs [I Hc Ht Hm Hd] t p' Hok Hop Hpend Hdata. cbn in *.
  destruct (Mutex.step_shape CHECK_ERR glog x m m' Hn Hs I) as (Hf & Ho & Hl & Ho'). split; cbn.
  - by eapply Mutex.mutex_inv_step.
  - intros k. rewrite Ho'. unfold t in Hpend. by rewrite Hpend, <- Ho.
  - apply (threads_upd (Mutex.at_ m) _ p _ (astat a) _ (Mutex.tid_of x)); [done| |by rewrite Hl; unfold p'; rewrite !upd_eq].
    intros u Hu. rewrite Hl. unfold p'. by rewrite !upd_ne.
  - apply may_upd; [done|]. intros op Hq. apply Hm. by apply Hop.
  - rewrite Ho'. apply Hdata. unfold t. by rewrite <- Ho.
Qed.

(** The common case, in which the thread stays where it is. *)
Lemma refines_mutex_same x m m' s w p a : 0 < Mutex.tid_of x -> Mutex.not_nested x m ->
  Mutex.step CHECK_ERR x m = Some (Ok m') -> refines (MkConf m s w p) a ->
  thread_ok (Mutex.shape x).2 (p (Mutex.tid_of x)) (astat a (Mutex.tid_of x)) ->
  match p (Mutex.tid_of x) with Body _ _ _ _ | Blocking _ _ => False | _ => True end ->
  refines (MkConf m' s w p) a.
Proof.
  intros Hx Hn Hs R Hok Hp. set (t := Mutex.tid_of x) in *.
  destruct R as [I Hc Ht Hm Hd]. cbn in *.
  destruct (Mutex.step_shape CHECK_ERR glog x m m' Hn Hs I) as (Hf & Ho & Hl & Ho'). fold t in Hf, Ho, Hl, Ho'.
  assert (Hview : forall l, pending (Mutex.owner_of t l) p w = w /\ (data_ok (Mutex.owner_of t l) p s (ashared a) <-> s = ashared a)).
  { intros l. unfold pending, data_ok, Mutex.owner_of. destruct (Mutex.owns l); [|done]. by destruct (p t). }
  split; cbn; try done.
  - by eapply Mutex.mutex_inv_step.
  - intros k. rewrite Hc, Ho, Ho'. by rewrite !(proj1 (Hview _)).
  - apply (threads_upd (Mutex.at_ m) _ p _ (astat a) _ t); [done| |by rewrite Hl, upd_eq].
    intros u Hu. by rewrite Hl, upd_ne.
  - rewrite Ho'. apply Hview. rewrite Ho in Hd. by apply Hview in Hd.
Qed.

(** A step of one thread outside the mutex's functions. *)
Lemma refines_local t m s s' w p q a : refines (MkConf m s w p) a ->
  thread_ok (Mutex.at_ m t) q (astat a t) ->
  (forall op, op_of q = Some op -> may t op (ashared a)) ->
  pending (Mutex.owner m) (upd p t q) w = pending (Mutex.owner m) p w ->
  (data_ok (Mutex.owner m) p s (ashared a) -> data_ok (Mutex.owner m) (upd p t q) s' (ashared a)) ->
  refines (MkConf m s' w (upd p t q)) a.
Proof.
  intros [I Hc Ht Hm Hd] Hok Hop Hpend Hdata. split; cbn in *; auto.
  - intros k. by rewrite Hpend.
  - apply (threads_upd (Mutex.at_ m) _ p _ (astat a) _ t); [done| |by rewrite upd_eq]. intros u Hu. by rewrite upd_ne.
  - by apply may_upd.
Qed.

(** A thread that is not the owner changes nothing of what the data is. *)
Lemma data_other m t (p : Z -> pc) q s ash : Mutex.inv m -> Mutex.owns (Mutex.at_ m t) = false ->
  data_ok (Mutex.owner m) p s ash -> data_ok (Mutex.owner m) (upd p t q) s ash.
Proof. intros I Hf. apply data_upd. intros u Hu. apply upd_ne. intros ->. by apply (not_owner m t I Hf). Qed.

Lemma pending_other m t (p : Z -> pc) q w : Mutex.inv m -> Mutex.owns (Mutex.at_ m t) = false ->
  pending (Mutex.owner m) (upd p t q) w = pending (Mutex.owner m) p w.
Proof. intros I Hf. apply pending_upd. intros u Hu. apply upd_ne. intros ->. by apply (not_owner m t I Hf). Qed.

Lemma testing_ready l p op s : testing p op -> thread_ok l p s -> ready s op.
Proof. intros [-> | ->] [-> _]; [by left|by right]. Qed.

Lemma testing_op p op : testing p op -> op_of p = Some op.
Proof. by intros [-> | ->]. Qed.

Lemma testing_view o t p op s ash w : testing (p t) op -> o = Some t -> data_ok o p s ash ->
  s = ash /\ pending o p w = w.
Proof. intros Ht ->. cbn. by destruct Ht as [-> | ->]. Qed.

(** A step outside the mutex. *)
Lemma refines_ext u x m s s' w p a : p u = Idle -> ext u x s = Some s' -> refines (MkConf m s w p) a ->
  exists a', astep a a' /\ refines (MkConf m s' w p) a'.
Proof.
  intros Hp He [I Hc Ht Hm Hd]. cbn in *. pose proof (Ht u) as Hok. rewrite Hp in Hok. destruct Hok as [Hst Hl].
  assert (exists ash', ext u x (ashared a) = Some ash' /\ data_ok (Mutex.owner m) p s' ash') as (ash' & Ha & Hd').
  { assert (Hno : Mutex.owner m <> Some u) by (apply not_owner; [done|by rewrite Hl]).
    unfold data_ok in *. destruct (Mutex.owner m) as [t|]; [|subst s; by eexists].
    assert (Hut : u <> t) by congruence. pose proof (Hm t) as Hmt. destruct (p t) eqn:E; try (subst s; by eexists).
    destruct Hd as [Hen ->]. specialize (Hmt _ eq_refl). rewrite (ext_commutes t u _ x _ _ _ _ Hut Hmt Hen) in He.
    destruct (ext u x (ashared a)) as [ash'|] eqn:Ea; [|done]. injection He as <-. exists ash'. split; [done|]. split; [|done].
    by eapply ext_enter. }
  destruct a as [ash ac st]. cbn in *. eexists. split; [by eapply a_ext|]. split; cbn; try done.
  intros t op Hop. eapply ext_may; [|by apply Hm|exact Ha]. intros ->. by rewrite Hp in Hop.
Qed.

(** The thread that makes a call: its program is there in the atomic state too. *)
Lemma refines_call t op m s w p a : p t = Idle -> may t op s -> refines (MkConf m s w p) a ->
  refines (MkConf m s w (upd p t (Want op))) a.
Proof.
  intros Hp Hmay R. pose proof (r_threads _ _ R t) as Hok. cbn in Hok. rewrite Hp in Hok. destruct Hok as [Ha Hl].
  pose proof (r_mutex _ _ R) as I. cbn in I.
  apply (refines_local _ _ s); [done|cbn; auto| |apply pending_other; [done|by rewrite Hl]|apply data_other; [done|by rewrite Hl]].
  intros o [= <-]. pose proof (r_data _ _ R) as Hd. pose proof (r_may _ _ R) as Hm. cbn in Hd, Hm. unfold data_ok in Hd.
  assert (Hno : Mutex.owner m <> Some t) by (apply not_owner; [done|by rewrite Hl]).
  destruct (Mutex.owner m) as [u|]; [|by subst]. specialize (Hm u).
  assert (Hut : u <> t) by congruence. destruct (p u) eqn:E; try by subst. destruct Hd as [Hen ->].
  by apply (body_may t u _ _ _ _ _ _ Hut (Hm _ eq_refl) Hen).
Qed.

(** The thread at the end of its body: the critical section as one step. *)
Lemma refines_commit t op before sig u w' woken m s w p a :
  p t = Body op before [] sig -> emit u sig w = Some (w', woken) -> refines (MkConf m s w p) a ->
  exists a', astep a a' /\ refines (MkConf m s w' (wake_pc woken (upd p t Leaving))) a'.
Proof.
  intros Hp He [I Hc Ht Hm Hd]. cbn in *. pose proof (Ht t) as Hok. rewrite Hp in Hok. destruct Hok as [Hr Hin].
  assert (Ho : Mutex.owner m = Some t) by (apply at_owner; [done|by rewrite Hin]).
  rewrite Ho in Hd, Hc. cbn in Hd, Hc. rewrite Hp in Hd, Hc. rewrite app_nil_r in Hd. destruct Hd as [Hen ->].
  assert (Hmay : may t op (ashared a)) by (apply Hm; by rewrite Hp).
  destruct a as [ash ac st]. cbn in *. destruct (emit_ext u sig w w' woken ac He Hc) as (ac' & He' & Hc').
  eexists. split; [by eapply a_run|]. split; cbn; [done| | | |].
  - intros k. rewrite Ho. cbn. unfold wake_pc. rewrite upd_eq. apply Hc'.
  - apply threads_wake.
    + intros v o c Hv. destruct (decide (v = t)) as [->|Hne]; [by rewrite upd_eq in Hv|]. rewrite upd_ne in Hv by done.
      pose proof (Ht v) as Hok. rewrite Hv in Hok. destruct Hok as [_ Hl].
      assert (Mutex.owner m = Some v) by (apply at_owner; [done|by rewrite Hl]). congruence.
    + apply (threads_upd (Mutex.at_ m) _ p _ st _ t); [done| |].
      * intros v Hv. by rewrite !upd_ne.
      * rewrite !upd_eq. cbn. auto.
  - apply may_wake; [by intros; apply resume_may|]. intros v o. destruct (decide (v = t)) as [->|Hne]; [by rewrite upd_eq|]. rewrite upd_ne by done.
    intros Hv. rewrite <- (app_nil_r before) in Hen. apply (body_may v t o op ash before [] sig); auto.
  - rewrite Ho. cbn. unfold wake_pc. by rewrite upd_eq.
Qed.

(** The test that makes the thread sleep; it is not yet in the condition's list. *)
Lemma refines_block t op c m m' s w p a : 0 < t -> testing (p t) op -> enter t op s = Block c ->
  Mutex.step CHECK_ERR (Mutex.WaitUnAssign t) m = Some (Ok m') -> refines (MkConf m s w p) a ->
  exists a', astep a a' /\ refines (MkConf m' s w (upd p t (Blocking op c))) a'.
Proof.
  intros Hpos Hp Hen Hs [I Hc Ht Hm Hd]. cbn in *.
  destruct (Mutex.step_shape CHECK_ERR glog (Mutex.WaitUnAssign t) m m' Logic.I Hs I) as (Hf & Ho & Hl & Ho').
  cbn in Hf, Ho, Hl, Ho'. destruct (testing_view _ _ _ _ _ _ w Hp Ho Hd) as [-> Hpe].
  assert (Hmay : may t op (ashared a)) by (apply Hm; by apply testing_op).
  pose proof (testing_ready _ _ _ _ Hp (Ht t)) as Hr. destruct a as [ash ac st]. cbn in *.
  eexists. split; [by eapply a_block|]. split; cbn.
  - by eapply (Mutex.mutex_inv_step CHECK_ERR glog (Mutex.WaitUnAssign t) m).
  - intros k. rewrite Ho'. cbn. rewrite upd_eq. rewrite Hpe in Hc.
    destruct (decide (k = c)) as [->|Hk]; [by rewrite !upd_eq, Hc|by rewrite !upd_ne].
  - apply (threads_upd (Mutex.at_ m) _ p _ st _ t); [done| |by rewrite Hl, !upd_eq].
    intros v Hv. by rewrite Hl, !upd_ne.
  - apply may_upd; [done|]. by intros o [= <-].
  - rewrite Ho'. cbn. by rewrite upd_eq.
Qed.

Lemma refines_spurious t op c m s w p a : p t = Sleeping op c -> refines (MkConf m s w p) a ->
  exists a', astep a a' /\ refines (MkConf m s (upd w c (remove_elem t (w c))) (upd p t (Woken (resume op)))) a'.
Proof.
  intros Hp [I Hc Ht Hm Hd]. cbn in *. pose proof (Ht t) as Hok. rewrite Hp in Hok. destruct Hok as [Hst Hin].
  assert (Hno : Mutex.owner m <> Some t) by (apply not_owner; [done|by rewrite Hin]).
  destruct a as [ash ac st]. cbn in *. eexists. split; [by eapply a_spurious|]. split; cbn; [done| | | |].
  - intros k. rewrite pending_other by (rewrite ?Hin; done).
    unfold pending in *. destruct (Mutex.owner m) as [u|].
    2: { destruct (decide (k = c)) as [->|Hk]; [by rewrite !upd_eq, Hc|by rewrite !upd_ne]. }
    assert (Hut : u <> t) by congruence. destruct (p u) eqn:E.
    all: try (destruct (decide (k = c)) as [->|Hk]; [by rewrite !upd_eq, Hc|by rewrite !upd_ne]).
    destruct (decide (k = c)) as [->|Hk].
    + rewrite upd_eq, Hc. destruct (decide (c0 = c)) as [->|Hcc]; [|by rewrite !(upd_ne _ c0) by done; rewrite upd_eq].
      rewrite !upd_eq. unfold remove_elem. by rewrite filter_cons_True.
    + rewrite upd_ne, Hc by done. destruct (decide (k = c0)) as [->|Hk0]; [by rewrite !upd_eq, upd_ne|by rewrite !upd_ne].
  - apply (threads_upd (Mutex.at_ m) _ p _ st _ t); [done| |rewrite !upd_eq; cbn; auto].
    intros v Hv. by rewrite !upd_ne.
  - apply may_upd; [done|]. intros o [= <-]. apply resume_may, Hm. by rewrite Hp.
  - apply data_other; [done|by rewrite Hin|done].
Qed.

Lemma sched_refines c c' a : sched c c' -> refines c a -> exists a', rtc astep a a' /\ refines c' a'.
Proof.
  intros (t & Hpos & Hs) R. pose proof (r_mutex _ _ R) as I. pose proof (r_threads _ _ R t) as Hok.
  destruct Hs as [x m s s' w p Hp He|op m s w p Hp Hmay|op m m' s w p Hp Hout Hm|op m m' s w p Hp Hm
    |op body sig m s w p Hp Hin Hen|op before f rest sig m s w p Hp|op before sig u w' woken m s w p Hp He
    |m m' s w p Hp Hm|m m' s w p Hp Hm|op c m m' s w p Hp Hen Hm|op c m m' s w p Hp Hm|op c m s w p Hp
    |op m m' s w p Hp Hm]; cbn in I, Hok.
  - destruct (refines_ext t x m s s' w p a) as (a' & Ha & R'); try done. exists a'. split; [by apply rtc_once|done].
  - exists a. split; [done|]. by apply refines_call.
  - exists a. split; [done|]. rewrite Hp in Hok. apply (refines_mutex_same (Mutex.Lock t) m); try done; cbn; rewrite Hp; [cbn; naive_solver|done].
  - exists a. split; [done|]. apply (refines_mutex_same (Mutex.Assign t) m); try done; cbn;
      destruct Hp as [Hp|Hp]; rewrite Hp in *; cbn in *; naive_solver.
  - exists a. split; [done|]. assert (Ho : Mutex.owner m = Some t) by (apply at_owner; [done|by rewrite Hin]).
    destruct (testing_view _ _ _ _ _ _ w Hp Ho (r_data _ _ R)) as [Hsa Hpe]. cbn [pcs shared] in Hsa, Hpe.
    apply (refines_local _ _ s); [done|split; [by eapply testing_ready|done]| |by rewrite Hpe, Ho; cbn; rewrite upd_eq|].
    + intros o [= <-]. apply (r_may _ _ R). by apply testing_op.
    + intros _. rewrite Ho. cbn. by rewrite upd_eq, <- Hsa.
  - exists a. split; [done|]. rewrite Hp in Hok. assert (Ho : Mutex.owner m = Some t) by (apply at_owner; [done|by destruct Hok as [_ ->]]).
    apply (refines_local _ _ s); [done|done| |by rewrite Ho; cbn; rewrite Hp, upd_eq|].
    + intros o [= <-]. apply (r_may _ _ R). cbn. by rewrite Hp.
    + rewrite Ho. cbn. rewrite Hp, upd_eq. intros [Hen ->]. split; [by rewrite <- app_assoc|].
      unfold apply_all. by rewrite foldl_app.
  - destruct (refines_commit t op before sig u w' woken m s w p a) as (a' & Ha & R'); try done. exists a'. split; [by apply rtc_once|done].
  - exists a. split; [done|]. rewrite Hp in Hok. apply (refines_mutex_same (Mutex.UnAssign t) m); try done; cbn; rewrite Hp; cbn; naive_solver.
  - exists a. split; [done|]. rewrite Hp in Hok. apply (refines_mutex (Mutex.Unlock t) m _ _ w); try done; cbn; rewrite ?Hp; try done; naive_solver.
  - destruct (refines_block t op c m m' s w p a) as (a' & Ha & R'); try done. exists a'. split; [by apply rtc_once|done].
  - exists a. split; [done|]. rewrite Hp in Hok. apply (refines_mutex (Mutex.WaitRelease t) m _ _ w); try done; cbn; rewrite ?Hp; try done; naive_solver.
  - destruct (refines_spurious t op c m s w p a) as (a' & Ha & R'); try done. exists a'. split; [by apply rtc_once|done].
  - exists a. split; [done|]. rewrite Hp in Hok. apply (refines_mutex_same (Mutex.WaitReacquire t) m); try done; cbn; rewrite Hp; cbn; naive_solver.
Qed.

Lemma reaches_refines s c : rtc sched (cinit s) c -> exists a, rtc astep (ainit s) a /\ refines c a.
Proof.
  intros Hr. assert (R0 := refines_init s). revert R0. generalize (ainit s) as a0. induction Hr as [c|c1 c2 c3 H12 _ IH].
  - intros a0 R0. exists a0. by split.
  - intros a0 R0. destruct (sched_refines _ _ _ H12 R0) as (a1 & H01 & R1). destruct (IH _ R1) as (a2 & H2 & R2).
    exists a2. split; [by etrans|done].
Qed.

(** No thread between its test and the end of its updates or of its falling asleep. *)
Definition settled (c : conf) : Prop :=
  forall t, match pcs c t with Body _ _ _ _ | Blocking _ _ => False | _ => True end.

Lemma refines_settled c a : refines c a -> settled c -> shared c = ashared a /\ forall k, cond c k = acond a k.
Proof.
  intros R Hno. pose proof (r_data _ _ R) as Hd. pose proof (r_cond _ _ R) as Hc. unfold data_ok, pending in *.
  destruct (Mutex.owner (mtx c)) as [t|]; [|done]. specialize (Hno t). by destruct (pcs c t).
Qed.

(** C25: The threads' interleaved steps implement critical sections that are atomic:
    every state the threads reach, in any interleaving of their steps on the mutex,
    the condition variables and the shared state, is a state of the machine that
    executes each section in one step, but for the updates of the thread inside;
    and that thread is one whose IsLockedByThisThread() is true. What the threads
    do to the shared state without the mutex is in both, as long as it commutes
    with the updates under it. *)
Theorem monitor_refines s c :
  rtc sched (cinit s) c ->
  exists a, rtc astep (ainit s) a /\ refines c a /\
    (settled c -> shared c = ashared a /\ forall k, cond c k = acond a k) /\
    (forall t op before rest sig, 0 < t -> pcs c t = Body op before rest sig ->
       Mutex.IsLockedByThisThread t (mtx c) = true).
Proof.
  intros Hr. destruct (reaches_refines s c Hr) as (a & Ha & R).
  exists a. split; [done|]. split; [done|]. split; [by apply refines_settled|].
  intros t op before rest sig Ht Hp. pose proof (r_threads _ _ R t) as Hok. rewrite Hp in Hok. destruct Hok as [_ Hl].
  unfold Mutex.IsLockedByThisThread. apply Z.eqb_eq. by apply (Mutex.i_holder _ (r_mutex _ _ R)).
Qed.
End Documented.
End Monitor.

(** ** Monitors whose shared state is only used under the mutex *)
Section Plain.
Context {S Op C : Type} `{EqDecision C}.

Definition always : Z -> Op -> S -> Prop := fun _ _ _ => True.
Definition again (op : Op) : Op := op.
Definition no_ext : Z -> Empty_set -> S -> option S := fun _ x _ => match x with end.

Lemma plain_refines (enter : Z -> Op -> S -> @decision S C) CHECK_ERR (s : S) c : Mutex.fails_on_minus_one CHECK_ERR ->
  rtc (sched enter always no_ext again CHECK_ERR) (cinit s) c ->
  exists a, rtc (astep enter always no_ext again) (ainit s) a /\ refines enter always c a.
Proof.
  intros glog. apply (reaches_refines enter always no_ext again CHECK_ERR glog); unfold always; try done; by intros ? ? ? [].
Qed.
End Plain.

(** ** Monitors with one waiting operation *)
Section OneWaiting.
Context {Op C : Type}.

(** A monitor whose only waiting operation is [op], on the condition [c]: the
    threads' status from the lists of those asleep and of those woken. *)
Definition waits_of (op : Op) (c : C) (wait wok : list Z) (t : Z) : status :=
  if bool_decide (t ∈ wait) then ASleeping op c else if bool_decide (t ∈ wok) then AWoken op else AIdle.

Lemma waits_ready op o c wait wok t : ready (waits_of op c wait wok t) o ->
  (t ∉ wait /\ t ∉ wok) \/ (o = op /\ t ∉ wait /\ t ∈ wok).
Proof. unfold ready, waits_of. intros H. repeat case_bool_decide; naive_solver. Qed.

Lemma waits_asleep op o c c' wait wok t : waits_of op c wait wok t = ASleeping o c' -> t ∈ wait /\ o = op /\ c' = c.
Proof. unfold waits_of. repeat case_bool_decide; naive_solver. Qed.

(** One thread's status changes to what the new lists say of it, and those woken. *)
Lemma waits_upd op c woken wait wok wait' wok' p t x :
  (forall u, p u = waits_of op c wait wok u) ->
  (forall u, u <> t -> (u ∈ wait' <-> u ∈ wait /\ u ∉ woken) /\ (u ∈ wok' <-> u ∈ wok \/ u ∈ wait /\ u ∈ woken)) ->
  x = waits_of op c wait' wok' t -> t ∉ woken ->
  forall u, wake_stat again woken (upd p t x) u = waits_of op c wait' wok' u.
Proof.
  intros Hp Hl Hx Hn u. unfold wake_stat. destruct (decide (u = t)) as [->|Hu].
  - rewrite upd_eq, <- Hx. rewrite bool_decide_eq_false_2 by done. by destruct x.
  - rewrite upd_ne, Hp by done. destruct (Hl u Hu) as [H1 H2]. unfold waits_of. repeat case_bool_decide; naive_solver.
Qed.

Lemma waits_upd0 op c wait wok wait' wok' p t x :
  (forall u, p u = waits_of op c wait wok u) ->
  (forall u, u <> t -> (u ∈ wait' <-> u ∈ wait) /\ (u ∈ wok' <-> u ∈ wok)) ->
  x = waits_of op c wait' wok' t -> forall u, upd p t x u = waits_of op c wait' wok' u.
Proof.
  intros Hp Hl Hx u. rewrite <- (waits_upd op c [] wait wok wait' wok' p t x); [|done| |done|apply not_elem_of_nil].
  - unfold wake_stat. by destruct (upd p t x u).
  - intros v Hv. rewrite elem_of_nil. destruct (Hl v Hv). tauto.
Qed.

End OneWaiting.

(** ** The bodies of BlockingQueue *)
Module QueueSections.
Section QueueSections.
Context {T : Type}.

Inductive op := Put (x : T) | Take | Size.

(** queue_, with the history of what was put and taken. *)
Record data := Data { queue_ : list T; put : list T; taken : list (Z * T) }.

Definition push_back (x : T) (d : data) : data := Data (queue_ d ++ [x]) (put d ++ [x]) (taken d).
Definition front (t : Z) (d : data) : data :=
  match queue_ d with x :: _ => Data (queue_ d) (put d) (taken d ++ [(t, x)]) | [] => d end.
Definition pop_front (d : data) : data := Data (tail (queue_ d)) (put d) (taken d).

(** The bodies, statement by statement. *)
(* @src claire/common/base/BlockingQueue.h:27-52 BlockingQueue::Put, BlockingQueue::Take, BlockingQueue::size *)
Definition enter (t : Z) (o : op) (d : data) : decision :=
  match o with
  | Put x => Go [push_back x] (One tt)
  | Take => match queue_ d with [] => Block tt | _ => Go [front t; pop_front] Silent end
  | Size => Go [] Silent
  end.

Definition empty : data := Data [] [] [].

(** The queue of Threading that an atomic state is. *)
Record matches (a : atom) (q : Threading.BlockingQueue.BlockingQueue T) : Prop := {
  q_queue : Threading.BlockingQueue.queue_ q = queue_ (ashared a);
  q_put : Threading.BlockingQueue.put q = put (ashared a);
  q_taken : Threading.BlockingQueue.taken q = taken (ashared a);
  q_waiting : Threading.BlockingQueue.waiting q = acond a tt;
  q_inv : Threading.BlockingQueue.inv q;
  q_status : forall t, astat a t = waits_of Take tt (Threading.BlockingQueue.waiting q) (Threading.BlockingQueue.woken q) t;
}.

Import Threading.BlockingQueue (MkQueue, step, Resume, Spurious, inv, i_nodup, queue_inv_step).

Lemma matches_put a t x u w' woken q : matches a q -> ready (astat a t) (Put x) -> emit u (One tt) (acond a) = Some (w', woken) ->
  exists q', step q q' /\ matches (MkAtom (push_back x (ashared a)) w' (wake_stat again woken (upd (astat a) t AIdle))) q'.
Proof.
  intros [Hq Hput Htk Hw I Hst] Hr He. cbn in He. rewrite <- Hw in He.
  rewrite Hst in Hr. apply waits_ready in Hr as [[Hr1 Hr2]|[? ?]]; [|done].
  assert (exists q', Threading.BlockingQueue.Put x u q = Some q' /\ Threading.BlockingQueue.queue_ q' = queue_ (ashared a) ++ [x] /\
    Threading.BlockingQueue.put q' = put (ashared a) ++ [x] /\ Threading.BlockingQueue.taken q' = taken (ashared a) /\
    w' = upd (acond a) tt (Threading.BlockingQueue.waiting q') /\ t ∉ woken /\
    (forall v, (v ∈ Threading.BlockingQueue.waiting q' <-> v ∈ Threading.BlockingQueue.waiting q /\ v ∉ woken) /\
      (v ∈ Threading.BlockingQueue.woken q' <-> v ∈ Threading.BlockingQueue.woken q \/ v ∈ Threading.BlockingQueue.waiting q /\ v ∈ woken)))
    as (q' & Hput' & Hq' & Hp' & Htk' & Hw' & Hnt & Hv).
  { unfold Threading.BlockingQueue.Put, Condition.Notify in *. destruct (Threading.BlockingQueue.waiting q) as [|y l] eqn:E.
    - cbn in He. injection He as <- <-. eexists. split; [done|]. cbn. rewrite Hq, Hput, Htk. repeat split; try done; rewrite ?elem_of_nil; tauto.
    - case_bool_decide as Hu; [|done]. cbn in He. injection He as <- <-. rewrite bool_decide_eq_true_2 by done.
      eexists. split; [done|]. cbn -[remove_elem].
      rewrite Hq, Hput. repeat split; try done; rewrite ?elem_of_remove_elem, ?elem_of_cons, ?elem_of_nil in *; naive_solver. }
  exists q'. assert (Hs : step q q') by by eapply Threading.BlockingQueue.step_put. split; [done|].
  split; cbn; try done.
  - subst w'. by rewrite upd_eq.
  - by eapply queue_inv_step.
  - eapply waits_upd; [exact Hst|intros; apply Hv| |done].
    unfold waits_of. rewrite !bool_decide_eq_false_2; naive_solver.
Qed.

(** The thread that gets the lock in Take leaves the lists. *)
Lemma take_step a t q : matches a q -> ready (astat a t) Take ->
  exists wok, step q (Threading.BlockingQueue.Take t (MkQueue (Threading.BlockingQueue.queue_ q)
      (Threading.BlockingQueue.waiting q) wok (Threading.BlockingQueue.put q) (Threading.BlockingQueue.taken q))) /\
    t ∉ wok /\ t ∉ Threading.BlockingQueue.waiting q /\
    forall u, u <> t -> u ∈ wok <-> u ∈ Threading.BlockingQueue.woken q.
Proof.
  intros R Hr. rewrite (q_status _ _ R) in Hr. apply waits_ready in Hr as [[Hw Hk]|(_ & Hw & Hk)].
  - exists (Threading.BlockingQueue.woken q). split; [|done]. destruct q. by apply Threading.BlockingQueue.step_take.
  - exists (remove_elem t (Threading.BlockingQueue.woken q)). split; [by apply Threading.BlockingQueue.step_resume|].
    split; [by intros []%elem_of_remove_elem|]. split; [done|]. intros u Hu. rewrite elem_of_remove_elem. tauto.
Qed.

Lemma matches_take a t q : matches a q -> ready (astat a t) Take -> queue_ (ashared a) <> [] ->
  exists q', step q q' /\
    matches (MkAtom (pop_front (front t (ashared a))) (acond a) (wake_stat again [] (upd (astat a) t AIdle))) q'.
Proof.
  intros R Hr Hne. destruct (take_step a t q R Hr) as (wok & Hs & Hnk & Hnw & Hwok). eexists. split; [exact Hs|].
  pose proof (queue_inv_step _ _ Hs (q_inv _ _ R)) as I'. destruct R as [Hq Hput Htk Hw I Hst].
  unfold Threading.BlockingQueue.Take, front in *. cbn in *. destruct (queue_ (ashared a)) as [|x rest] eqn:E; [done|].
  rewrite Hq in *. rewrite Hput, Htk in I'. split; cbn in *; rewrite ?E, ?Hput, ?Htk; try done.
  intros u. eapply waits_upd; [exact Hst| | |apply not_elem_of_nil].
  - intros v Hv. rewrite elem_of_nil, (Hwok v Hv). tauto.
  - unfold waits_of. by rewrite !bool_decide_eq_false_2.
Qed.

Lemma matches_block a t q : matches a q -> ready (astat a t) Take -> queue_ (ashared a) = [] ->
  exists q', step q q' /\
    matches (MkAtom (ashared a) (upd (acond a) tt (t :: acond a tt)) (upd (astat a) t (ASleeping Take tt))) q'.
Proof.
  intros R Hr Hq0. destruct (take_step a t q R Hr) as (wok & Hs & Hnk & Hnw & Hwok). eexists. split; [exact Hs|].
  pose proof (queue_inv_step _ _ Hs (q_inv _ _ R)) as I'. destruct R as [Hq Hput Htk Hw I Hst].
  unfold Threading.BlockingQueue.Take in *. cbn in *. rewrite Hq, Hq0 in *. split; cbn in *; try done.
  - by rewrite upd_eq, Hw.
  - intros u. eapply waits_upd0; [exact Hst| |].
    + intros v Hv. rewrite elem_of_cons, (Hwok v Hv). naive_solver.
    + unfold waits_of. rewrite bool_decide_eq_true_2; [done|]. by left.
Qed.

Lemma matches_spurious a t o q : matches a q -> astat a t = ASleeping o tt ->
  exists q', step q q' /\
    matches (MkAtom (ashared a) (upd (acond a) tt (remove_elem t (acond a tt))) (upd (astat a) t (AWoken o))) q'.
Proof.
  intros R Hp. destruct R as [Hq Hput Htk Hw I Hst]. rewrite Hst in Hp. apply waits_asleep in Hp as (Hin & -> & _).
  assert (Hs : step q (Spurious t q)) by by apply Threading.BlockingQueue.step_spurious.
  exists (Spurious t q). split; [done|]. split; cbn -[remove_elem]; try done; [by rewrite upd_eq, Hw|by eapply queue_inv_step|].
  intros u. eapply waits_upd0; [exact Hst| |].
  - intros v Hv. rewrite elem_of_remove_elem, elem_of_cons. naive_solver.
  - unfold waits_of. rewrite bool_decide_eq_false_2, bool_decide_eq_true_2; [done|by left|by intros []%elem_of_remove_elem].
Qed.

Lemma matches_step a a' q : astep enter always no_ext again a a' -> matches a q -> exists q', rtc step q q' /\ matches a' q'.
Proof.
  intros Hs R. destruct Hs as [t []|t o body sig u w' woken s w p Hr _ Hen He|t o [] s w p Hr _ Hen|t o [] s w p Hp].
  - destruct o as [x| |]; cbn in Hen.
    + injection Hen as <- <-. destruct (matches_put _ _ _ _ _ _ _ R Hr He) as (q' & Hs & R'). exists q'. split; [by apply rtc_once|done].
    + destruct (queue_ s) eqn:E; [done|]. injection Hen as <- <-. cbn in He. injection He as <- <-.
      destruct (matches_take _ _ _ R Hr) as (q' & Hs & R'); [cbn; congruence|]. exists q'. split; [by apply rtc_once|done].
    + injection Hen as <- <-. cbn in He. injection He as <- <-. exists q. split; [done|]. destruct R as [Hq Hput Htk Hw I Hst].
      cbn in *. rewrite Hst in Hr. apply waits_ready in Hr as [[Hnw Hnk]|[? ?]]; [|done]. split; cbn; try done.
      intros v. eapply waits_upd; [exact Hst| | |apply not_elem_of_nil].
      * intros z Hz. rewrite elem_of_nil. tauto.
      * unfold waits_of. by rewrite !bool_decide_eq_false_2.
  - destruct o as [x| |]; cbn in Hen; try done. destruct (queue_ s) eqn:E; [|done].
    destruct (matches_block _ _ _ R Hr) as (q' & Hs & R'); [done|]. exists q'. split; [by apply rtc_once|done].
  - destruct (matches_spurious _ _ _ _ R Hp) as (q' & Hs & R'). exists q'. split; [by apply rtc_once|done].
Qed.

Lemma matches_init : matches (ainit empty) Threading.BlockingQueue.init.
Proof. split; try done. apply Threading.BlockingQueue.queue_inv_init. Qed.

(** The queue of Threading, with one step per critical section, is what the threads
    do with their MutexLocks, their waits and the statements in between: every state
    they reach when none is amid its statements has the elements, in the queue and
    in the history, of a state that model reaches. *)
Theorem queue_sections_refine CHECK_ERR (c : conf) :
  Mutex.fails_on_minus_one CHECK_ERR -> rtc (sched enter always no_ext again CHECK_ERR) (cinit empty) c ->
  exists q, rtc step Threading.BlockingQueue.init q /\
    (settled c -> Threading.BlockingQueue.waiting q = cond c tt /\
      shared c = Data (Threading.BlockingQueue.queue_ q) (Threading.BlockingQueue.put q) (Threading.BlockingQueue.taken q)).
Proof.
  intros glog Hr. destruct (plain_refines enter CHECK_ERR empty c glog Hr) as (a & Ha & R).
  assert (exists q, rtc step Threading.BlockingQueue.init q /\ matches a q) as (q & Hq & M).
  { clear c Hr R. assert (M0 := matches_init). revert M0. generalize (@Threading.BlockingQueue.init T) as q0.
    induction Ha as [a|a1 a2 a3 H12 _ IH]; intros q0 M0; [by exists q0|].
    destruct (matches_step _ _ _ H12 M0) as (q1 & H01 & M1). destruct (IH _ M1) as (q2 & H2 & M2).
    exists q2. split; [by etrans|done]. }
  exists q. split; [done|]. intros Hs. destruct (refines_settled _ _ _ _ R Hs) as [-> ->].
  split; [apply (q_waiting _ _ M)|]. rewrite (q_queue _ _ M), (q_put _ _ M), (q_taken _ _ M). by destruct (ashared a).
Qed.
End QueueSections.
Arguments op : clear implicits.
Arguments data : clear implicits.
End QueueSections.

(** ** The bodies of CountDownLatch *)
Module LatchSections.

Inductive op := Wait | CountDown | Count.

(** count_, with the threads whose Wait() is over. *)
Record data := Data { count_ : Z; returned : list Z }.

Definition decrement (d : data) : data := Data (int32 (count_ d - 1)) (returned d).
Definition return_ (t : Z) (d : data) : data := Data (count_ d) (t :: returned d).

(* @src claire/common/threading/CountDownLatch.h:24-47 CountDownLatch::Wait, CountDownLatch::CountDown, CountDownLatch::count *)
Definition enter (t : Z) (o : op) (d : data) : decision :=
  match o with
  | Wait => if 0 <? count_ d then Block tt else Go [return_ t] Silent
  | CountDown => Go [decrement] (if int32 (count_ d - 1) =? 0 then All tt else Silent)
  | Count => Go [] Silent
  end.

Import Threading.Latch (MkLatch, step).

(** The latch of Threading that an atomic state is. *)
Record matches (a : atom) (l : Threading.Latch.CountDownLatch) : Prop := {
  l_data : ashared a = Data (Threading.Latch.count_ l) (Threading.Latch.returned l);
  l_waiting : Threading.Latch.waiting l = acond a tt;
  l_disjoint : forall t, t ∈ Threading.Latch.waiting l -> t ∈ Threading.Latch.woken l -> False;
  l_status : forall t, astat a t = waits_of Wait tt (Threading.Latch.waiting l) (Threading.Latch.woken l) t;
}.

(** A thread with nothing to wait for stays awake. *)
Lemma waits_idle (wait wok : list Z) (p : Z -> @status op unit) t o :
  (forall u, p u = waits_of Wait tt wait wok u) -> ready (p t) o -> o <> Wait ->
  forall u, wake_stat again [] (upd p t AIdle) u = waits_of Wait tt wait wok u.
Proof.
  intros Hst Hr Ho. rewrite Hst in Hr. apply waits_ready in Hr as [[Hw Hk]|[? ?]]; [|done].
  eapply waits_upd; [exact Hst| | |apply not_elem_of_nil].
  - intros u Hu. rewrite elem_of_nil. tauto.
  - unfold waits_of. by rewrite !bool_decide_eq_false_2.
Qed.

(** The thread that gets the lock in Wait leaves the lists. *)
Lemma wait_step a t l : matches a l -> ready (astat a t) Wait ->
  exists wok, step l (Threading.Latch.test t (MkLatch (Threading.Latch.count_ l) (Threading.Latch.waiting l) wok (Threading.Latch.returned l))) /\
    t ∉ wok /\ t ∉ Threading.Latch.waiting l /\ forall u, u <> t -> u ∈ wok <-> u ∈ Threading.Latch.woken l.
Proof.
  intros M Hr. rewrite (l_status _ _ M) in Hr. apply waits_ready in Hr as [[Hw Hk]|(_ & Hw & Hk)].
  - exists (Threading.Latch.woken l). split; [|done]. destruct l. apply Threading.Latch.step_wait.
  - exists (remove_elem t (Threading.Latch.woken l)). split; [by apply Threading.Latch.step_resume|].
    split; [by intros []%elem_of_remove_elem|]. split; [done|]. intros u Hu. rewrite elem_of_remove_elem. tauto.
Qed.

Lemma matches_return a t l : matches a l -> ready (astat a t) Wait -> count_ (ashared a) <= 0 ->
  exists l', step l l' /\ matches (MkAtom (return_ t (ashared a)) (acond a) (wake_stat again [] (upd (astat a) t AIdle))) l'.
Proof.
  intros M Hr Hc. destruct (wait_step a t l M Hr) as (wok & Hs & Hnk & Hnw & Hwok). eexists. split; [exact Hs|].
  destruct M as [Hd Hw Hdis Hst]. unfold Threading.Latch.test. cbn. rewrite Hd in *. cbn in Hc.
  rewrite (proj2 (Z.ltb_ge _ _)) by done. split; cbn; try done.
  - intros u Hu Hk. destruct (decide (u = t)) as [->|Hne]; [done|]. apply (Hdis u); [done|by apply Hwok].
  - eapply waits_upd; [exact Hst| | |apply not_elem_of_nil].
    + intros u Hu. rewrite elem_of_nil, (Hwok u Hu). tauto.
    + unfold waits_of. by rewrite !bool_decide_eq_false_2.
Qed.

Lemma matches_wait a t l : matches a l -> ready (astat a t) Wait -> 0 < count_ (ashared a) ->
  exists l', step l l' /\ matches (MkAtom (ashared a) (upd (acond a) tt (t :: acond a tt)) (upd (astat a) t (ASleeping Wait tt))) l'.
Proof.
  intros M Hr Hc. destruct (wait_step a t l M Hr) as (wok & Hs & Hnk & Hnw & Hwok). eexists. split; [exact Hs|].
  destruct M as [Hd Hw Hdis Hst]. unfold Threading.Latch.test. cbn. rewrite Hd in *. cbn in Hc.
  rewrite (proj2 (Z.ltb_lt _ _)) by done. split; cbn; try done.
  - by rewrite upd_eq, Hw.
  - intros u Hu Hk. destruct (decide (u = t)) as [->|Hne]; [done|]. apply (Hdis u); [set_solver|by apply Hwok].
  - eapply waits_upd0; [exact Hst| |].
    + intros u Hu. rewrite elem_of_cons, (Hwok u Hu). naive_solver.
    + unfold waits_of. rewrite bool_decide_eq_true_2; [done|]. by left.
Qed.

Lemma matches_count_down a t u w' woken l : matches a l -> ready (astat a t) CountDown ->
  emit u (if int32 (count_ (ashared a) - 1) =? 0 then All tt else Silent) (acond a) = Some (w', woken) ->
  matches (MkAtom (decrement (ashared a)) w' (wake_stat again woken (upd (astat a) t AIdle))) (Threading.Latch.CountDown l).
Proof.
  intros [Hd Hw Hdis Hst] Hr He. unfold Threading.Latch.CountDown, decrement. rewrite Hd in *. cbn in *.
  destruct (_ =? 0); cbn in He; injection He as <- <-.
  - rewrite Hst in Hr. apply waits_ready in Hr as [[Hnw Hnk]|[? ?]]; [|done]. rewrite <- Hw.
    split; cbn; try done; [by intros ? ?%elem_of_nil|]. eapply waits_upd; [exact Hst| | |done].
    + intros v Hv. rewrite elem_of_nil, elem_of_app. tauto.
    + unfold waits_of. rewrite !bool_decide_eq_false_2; [done|rewrite elem_of_app; tauto|apply not_elem_of_nil].
  - split; cbn; try done. by eapply waits_idle.
Qed.

Lemma matches_spurious_wait a t o l : matches a l -> astat a t = ASleeping o tt ->
  step l (Threading.Latch.Spurious t l) /\
  matches (MkAtom (ashared a) (upd (acond a) tt (remove_elem t (acond a tt))) (upd (astat a) t (AWoken o)))
    (Threading.Latch.Spurious t l).
Proof.
  intros [Hd Hw Hdis Hst] Hp. rewrite Hst in Hp. apply waits_asleep in Hp as (Hin & -> & _).
  split; [by apply Threading.Latch.step_spurious|]. split; cbn -[remove_elem]; try done; [by rewrite upd_eq, Hw| |].
  - intros u [Hu Hin']%elem_of_remove_elem Hk. apply elem_of_cons in Hk as [->|Hk]; [done|]. by apply (Hdis u).
  - eapply waits_upd0; [exact Hst| |].
    + intros v Hv. rewrite elem_of_remove_elem, elem_of_cons. naive_solver.
    + unfold waits_of. rewrite bool_decide_eq_false_2, bool_decide_eq_true_2; [done|by left|by intros []%elem_of_remove_elem].
Qed.

Lemma latch_matches_step a a' l : astep enter always no_ext again a a' -> matches a l -> exists l', rtc step l l' /\ matches a' l'.
Proof.
  intros Hs M. destruct Hs as [t []|t o body sig u w' woken s w p Hr _ Hen He|t o [] s w p Hr _ Hen|t o [] s w p Hp].
  - destruct o; cbn in Hen.
    + destruct (0 <? count_ s) eqn:E; zify_bool; [done|]. injection Hen as <- <-. cbn in He. injection He as <- <-.
      destruct (matches_return _ _ _ M Hr) as (l' & Hs & M'); [done|]. exists l'. split; [by apply rtc_once|done].
    + injection Hen as <- <-. exists (Threading.Latch.CountDown l). split; [apply rtc_once, Threading.Latch.step_down|].
      exact (matches_count_down _ _ _ _ _ _ M Hr He).
    + injection Hen as <- <-. cbn in He. injection He as <- <-. exists l. split; [done|]. destruct M as [Hd Hw Hdis Hst].
      split; cbn in *; try done. by eapply waits_idle.
  - destruct o; cbn in Hen; try done. destruct (0 <? count_ s) eqn:E; zify_bool; [|done].
    destruct (matches_wait _ _ _ M Hr) as (l' & Hs & M'); [done|]. exists l'. split; [by apply rtc_once|done].
  - destruct (matches_spurious_wait _ _ _ _ M Hp) as (Hs & M'). eexists. split; [by apply rtc_once|exact M'].
Qed.

(** The latch of Threading is what the threads do in the same sense. *)
Theorem latch_sections_refine CHECK_ERR n (c : conf) :
  Mutex.fails_on_minus_one CHECK_ERR -> rtc (sched enter always no_ext again CHECK_ERR) (cinit (Data n [])) c ->
  exists l, rtc step (Threading.Latch.init n) l /\
    (settled c -> Threading.Latch.waiting l = cond c tt /\
      shared c = Data (Threading.Latch.count_ l) (Threading.Latch.returned l)).
Proof.
  intros glog Hr. destruct (plain_refines enter CHECK_ERR _ c glog Hr) as (a & Ha & R).
  assert (exists l, rtc step (Threading.Latch.init n) l /\ matches a l) as (l & Hl & M).
  { clear c Hr R. assert (M0 : matches (ainit (Data n [])) (Threading.Latch.init n)) by (split; try done; by intros ? ?%elem_of_nil).
    revert M0. generalize (Threading.Latch.init n) as l0.
    induction Ha as [a|a1 a2 a3 H12 _ IH]; intros l0 M0; [by exists l0|].
    destruct (latch_matches_step _ _ _ H12 M0) as (l1 & H01 & M1). destruct (IH _ M1) as (l2 & H2 & M2).
    exists l2. split; [by etrans|done]. }
  exists l. split; [done|]. intros Hs. destruct (refines_settled _ _ _ _ R Hs) as [-> ->].
  split; [apply (l_waiting _ _ M)|apply (l_data _ _ M)].
Qed.
End LatchSections.

(** Thread [t] makes the next step of a concrete run. *)
Local Tactic Notation "next" constr(t) uconstr(step) :=
  eapply rtc_l; [exists t; split; [lia|eapply step; try reflexivity; try (left; reflexivity); try (right; reflexivity); try reflexivity]|].

Local Tactic Notation "call" constr(t) uconstr(o) := eapply rtc_l; [exists t; split; [lia|eapply c_call with (op := o); [reflexivity|exact Logic.I]]|].

(** Thread 2 takes and sleeps, thread 1 puts and wakes it, thread 2 takes. *)
Lemma queue_sections_refine_witness : exists c : @conf (QueueSections.data nat) (QueueSections.op nat) unit,
  rtc (sched QueueSections.enter always no_ext again Mutex.glog_check_err) (cinit QueueSections.empty) c /\
  shared c = QueueSections.Data [] [7%nat] [(2, 7%nat)] /\
  exists q, rtc Threading.BlockingQueue.step Threading.BlockingQueue.init q /\
    (settled c -> Threading.BlockingQueue.waiting q = cond c tt /\
      shared c = QueueSections.Data (Threading.BlockingQueue.queue_ q)
        (Threading.BlockingQueue.put q) (Threading.BlockingQueue.taken q)).
Proof.
  assert (H : exists c : @conf (QueueSections.data nat) (QueueSections.op nat) unit,
    rtc (sched QueueSections.enter always no_ext again Mutex.glog_check_err) (cinit QueueSections.empty) c /\
    shared c = QueueSections.Data [] [7%nat] [(2, 7%nat)]).
  { eexists. split.
    - call 2 (@QueueSections.Take nat). next 2 c_lock. next 2 c_assign. next 2 c_block. next 2 c_sleep.
      call 1 (QueueSections.Put 7%nat). next 1 c_lock. next 1 c_assign. next 1 c_enter. next 1 c_update.
      eapply rtc_l; [exists 1; split; [lia|eapply c_signal with (u := 2); reflexivity]|].
      next 1 c_unassign. next 1 c_unlock.
      next 2 c_reacquire. next 2 c_assign. next 2 c_enter. next 2 c_update. next 2 c_update.
      eapply rtc_l; [exists 2; split; [lia|eapply c_signal with (u := 2); reflexivity]|].
      next 2 c_unassign. next 2 c_unlock. apply rtc_refl.
    - reflexivity. }
  destruct H as (c & Hr & Hs). exists c. split; [exact Hr|]. split; [exact Hs|].
  apply (QueueSections.queue_sections_refine Mutex.glog_check_err c (fun v => eq_refl) Hr).
Defined.

(** Thread 2 waits, thread 1 counts down, thread 2 returns. *)
Lemma latch_sections_refine_witness : exists c : @conf LatchSections.data LatchSections.op unit,
  rtc (sched LatchSections.enter always no_ext again Mutex.glog_check_err) (cinit (LatchSections.Data 1 [])) c /\
  shared c = LatchSections.Data 0 [2] /\
  exists l, rtc Threading.Latch.step (Threading.Latch.init 1) l /\
    (settled c -> Threading.Latch.waiting l = cond c tt /\ shared c = LatchSections.Data (Threading.Latch.count_ l) (Threading.Latch.returned l)).
Proof.
  assert (H : exists c : @conf LatchSections.data LatchSections.op unit,
    rtc (sched LatchSections.enter always no_ext again Mutex.glog_check_err) (cinit (LatchSections.Data 1 [])) c /\
    shared c = LatchSections.Data 0 [2]).
  { eexists. split.
    - call 2 LatchSections.Wait. next 2 c_lock. next 2 c_assign. next 2 c_block. next 2 c_sleep.
      call 1 LatchSections.CountDown. next 1 c_lock. next 1 c_assign. next 1 c_enter. next 1 c_update.
      eapply rtc_l; [exists 1; split; [lia|eapply c_signal with (u := 2); reflexivity]|].
      next 1 c_unassign. next 1 c_unlock.
      next 2 c_reacquire. next 2 c_assign. next 2 c_enter. next 2 c_update.
      eapply rtc_l; [exists 2; split; [lia|eapply c_signal with (u := 2); reflexivity]|].
      next 2 c_unassign. next 2 c_unlock. apply rtc_refl.
    - reflexivity. }
  destruct H as (c & Hr & Hs). exists c. split; [exact Hr|]. split; [exact Hs|].
  apply (LatchSections.latch_sections_refine Mutex.glog_check_err 1 c (fun v => eq_refl) Hr).
Defined.

(** A state with thread 1 amid its Put, the element pushed and the waiter not yet
    notified. *)
Lemma monitor_refines_witness : exists c : @conf (QueueSections.data nat) (QueueSections.op nat) unit,
  shared c = QueueSections.Data [7%nat] [7%nat] [] /\
  exists a, rtc (astep QueueSections.enter always no_ext again) (ainit QueueSections.empty) a /\
    refines QueueSections.enter always c a /\
    (settled c -> shared c = ashared a /\ forall k, cond c k = acond a k) /\
    (forall t op before rest sig, 0 < t -> pcs c t = Body op before rest sig ->
       Mutex.IsLockedByThisThread t (mtx c) = true).
Proof.
  assert (H : exists c : @conf (QueueSections.data nat) (QueueSections.op nat) unit,
    rtc (sched QueueSections.enter always no_ext again Mutex.glog_check_err) (cinit QueueSections.empty) c /\
    shared c = QueueSections.Data [7%nat] [7%nat] []).
  { eexists. split.
    - call 1 (QueueSections.Put 7%nat). next 1 c_lock. next 1 c_assign. next 1 c_enter. next 1 c_update. apply rtc_refl.
    - reflexivity. }
  destruct H as (c & Hr & Hs). exists c. split; [exact Hs|].
  apply (monitor_refines QueueSections.enter always no_ext again Mutex.glog_check_err (fun v => eq_refl)); try done; by intros ? ? ? [].
Defined.
