(* ===== verification/ThreadPool.v ===== *)
(** * threading/ThreadPool

    claire/common/threading/ThreadPool.{h,cc}: producers, workers and the two
    condition variables of a bounded task queue, and Stop. One step is one
    critical section, one test of running_, or the start or end of a task. *)

From S2P Require Import Prelude Bytes Trace Threading.

Module ThreadPool.
Section ThreadPool.
Context {Task : Type}.

(* @src claire/common/threading/ThreadPool.h:40-40 ThreadPool::Entry *)
Definition Entry : Type := TraceContext * Task.

(** Where a worker is in RunInThread: at while (running_), about to take the
    lock in Take, in not_empty_.Wait() (asleep or woken), running a task, or out
    of the loop. *)
Inductive worker := AtTest | AtTake | InWait | InTask (e : Entry) | Exited.

(** Stop() has not been called, has reset running_, or has notified. *)
Inductive stopping := NotStopped | FlagReset | Notified.

(** [asleep] and [woken] are the workers in not_empty_.Wait(); [full_asleep] and
    [full_woken] the producers in not_full_.Wait(), with their tasks. [accepted]
    and [taken] are the history of the queue. *)
(* @src claire/common/threading/ThreadPool.h:46-54 ThreadPool *)
Record ThreadPool := Pool {
  queue_ : list Entry;
  max_queue_size_ : Z;
  running_ : bool;
  stop : stopping;
  at_ : Z -> worker;
  asleep : list Z;
  woken : list Z;
  full_asleep : list (Z * Entry);
  full_woken : list (Z * Entry);
  accepted : list Entry;
  taken : list (Z * Entry);
}.

(** A started pool; set_max_queue_size converts its int to size_t. *)
(* @src claire/common/threading/ThreadPool.cc:31-48 ThreadPool::Start *)
Definition Start (max_size : Z) : ThreadPool :=
  Pool [] (uint64 max_size) true NotStopped (fun _ => AtTest) [] [] [] [] [] [].

(* @src claire/common/threading/ThreadPool.cc:128-132 ThreadPool::IsFull *)
Definition IsFull (p : ThreadPool) : bool :=
  (0 <? max_queue_size_ p) && (max_queue_size_ p <=? Zlen (queue_ p)).

(** not_empty_.Notify() and not_full_.Notify(): the system wakes the sleeper it
    chooses, if there is one. *)
Definition notify_empty (w : Z) (p : ThreadPool) : option ThreadPool :=
  match asleep p with
  | [] => Some p
  | _ =>
      if bool_decide (w ∈ asleep p)
      then Some (Pool (queue_ p) (max_queue_size_ p) (running_ p) (stop p) (at_ p)
                   (remove_elem w (asleep p)) (w :: woken p) (full_asleep p) (full_woken p)
                   (accepted p) (taken p))
      else None
  end.

(** The [i]-th sleeping producer is woken. *)
Definition notify_full (i : nat) (p : ThreadPool) : option ThreadPool :=
  match full_asleep p with
  | [] => Some p
  | _ =>
      match full_asleep p !! i with
      | Some x => Some (Pool (queue_ p) (max_queue_size_ p) (running_ p) (stop p) (at_ p) (asleep p)
                          (woken p) (delete i (full_asleep p)) (x :: full_woken p) (accepted p) (taken p))
      | None => None
      end
  end.

(** The critical section of Run by a producer that has the lock. *)
(* @src claire/common/threading/ThreadPool.cc:69-86 ThreadPool::Run *)
Definition Run (producer : Z) (e : Entry) (w : Z) (p : ThreadPool) : option ThreadPool :=
  if IsFull p
  then Some (Pool (queue_ p) (max_queue_size_ p) (running_ p) (stop p) (at_ p) (asleep p) (woken p)
               ((producer, e) :: full_asleep p) (full_woken p) (accepted p) (taken p))
  else notify_empty w (Pool (queue_ p ++ [e]) (max_queue_size_ p) (running_ p) (stop p) (at_ p)
               (asleep p) (woken p) (full_asleep p) (full_woken p) (accepted p ++ [e]) (taken p)).

(** Take by a worker that has the lock; an empty Entry sends it back to the
    test of running_. *)
(* @src claire/common/threading/ThreadPool.cc:107-126 ThreadPool::Take *)
Definition Take (w : Z) (i : nat) (p : ThreadPool) : option ThreadPool :=
  match queue_ p with
  | [] =>
      if running_ p
      then Some (Pool [] (max_queue_size_ p) (running_ p) (stop p) (upd (at_ p) w InWait)
                   (w :: asleep p) (woken p) (full_asleep p) (full_woken p) (accepted p) (taken p))
      else Some (Pool [] (max_queue_size_ p) (running_ p) (stop p) (upd (at_ p) w AtTest)
                   (asleep p) (woken p) (full_asleep p) (full_woken p) (accepted p) (taken p))
  | e :: rest =>
      let p := Pool rest (max_queue_size_ p) (running_ p) (stop p) (upd (at_ p) w (InTask e))
                 (asleep p) (woken p) (full_asleep p) (full_woken p) (accepted p) (taken p ++ [(w, e)]) in
      if 0 <? max_queue_size_ p then notify_full i p else Some p
  end.

Definition set_at (w : Z) (l : worker) (p : ThreadPool) : ThreadPool :=
  Pool (queue_ p) (max_queue_size_ p) (running_ p) (stop p) (upd (at_ p) w l) (asleep p) (woken p)
    (full_asleep p) (full_woken p) (accepted p) (taken p).

Inductive action :=
  | Produce (producer : Z) (e : Entry) (w : Z)   (** Run() gets the lock *)
  | ProduceAgain (i : nat) (w : Z)               (** a woken producer gets the lock *)
  | TestRunning (w : Z)                          (** while (running_) *)
  | CallTake (w : Z) (i : nat)                   (** Take() gets the lock *)
  | TakeAgain (w : Z) (i : nat)                  (** a woken worker gets the lock *)
  | TaskDone (w : Z)
  | ResetRunning                                 (** Stop(): running_ = false *)
  | NotifyAll                                    (** Stop(): not_empty_.NotifyAll() *)
  | SpuriousWorker (w : Z)
  | SpuriousProducer (i : nat).

(* @src claire/common/threading/ThreadPool.cc:134-147 ThreadPool::RunInThread *)
Definition step (a : action) (p : ThreadPool) : option ThreadPool :=
  match a with
  | Produce q e w => Run q e w p
  | ProduceAgain i w =>
      match full_woken p !! i with
      | Some (q, e) =>
          Run q e w (Pool (queue_ p) (max_queue_size_ p) (running_ p) (stop p) (at_ p) (asleep p)
            (woken p) (full_asleep p) (delete i (full_woken p)) (accepted p) (taken p))
      | None => None
      end
  | TestRunning w =>
      match at_ p w with
      | AtTest => Some (set_at w (if running_ p then AtTake else Exited) p)
      | _ => None
      end
  | CallTake w i => match at_ p w with AtTake => Take w i p | _ => None end
  | TakeAgain w i =>
      if bool_decide (w ∈ woken p)
      then Take w i (Pool (queue_ p) (max_queue_size_ p) (running_ p) (stop p) (at_ p) (asleep p)
             (remove_elem w (woken p)) (full_asleep p) (full_woken p) (accepted p) (taken p))
      else None
  | TaskDone w => match at_ p w with InTask _ => Some (set_at w AtTest p) | _ => None end
  | ResetRunning =>
      if running_ p
      then Some (Pool (queue_ p) (max_queue_size_ p) false FlagReset (at_ p) (asleep p) (woken p)
                   (full_asleep p) (full_woken p) (accepted p) (taken p))
      else None
  | NotifyAll =>
      match stop p with
      | FlagReset => Some (Pool (queue_ p) (max_queue_size_ p) (running_ p) Notified (at_ p) []
                       (asleep p ++ woken p) (full_asleep p) (full_woken p) (accepted p) (taken p))
      | _ => None
      end
  | SpuriousWorker w =>
      if bool_decide (w ∈ asleep p)
      then Some (Pool (queue_ p) (max_queue_size_ p) (running_ p) (stop p) (at_ p)
                   (remove_elem w (asleep p)) (w :: woken p) (full_asleep p) (full_woken p)
                   (accepted p) (taken p))
      else None
  | SpuriousProducer i =>
      match full_asleep p !! i with
      | Some x => Some (Pool (queue_ p) (max_queue_size_ p) (running_ p) (stop p) (at_ p) (asleep p)
                          (woken p) (delete i (full_asleep p)) (x :: full_woken p) (accepted p) (taken p))
      | None => None
      end
  end.

Fixpoint run (acts : list action) (p : ThreadPool) : option ThreadPool :=
  match acts with
  | [] => Some p
  | a :: acts => p ← step a p; run acts p
  end.

(** ** The invariant *)
Record inv (p : ThreadPool) : Prop := {
  i_fifo : accepted p = (snd <$> taken p) ++ queue_ p;
  i_bound : 0 < max_queue_size_ p -> Zlen (queue_ p) <= max_queue_size_ p;
  i_nodup : NoDup (asleep p ++ woken p);
  i_wait : forall w, at_ p w = InWait <-> w ∈ asleep p ++ woken p;
  i_wake : asleep p <> [] -> running_ p = true -> (length (queue_ p) <= length (woken p))%nat;
  i_full : full_asleep p <> [] ->
    0 < max_queue_size_ p <= Zlen (queue_ p) + Zlen (full_woken p);
  i_stop : match stop p with
    | NotStopped => running_ p = true
    | FlagReset => running_ p = false
    | Notified => running_ p = false /\ asleep p = []
    end;
}.

Lemma inv_Start n : inv (Start n).
Proof.
  split; cbn; try done.
  - intros H. change (Zlen (@nil Entry)) with 0. lia.
  - constructor.
  - intros w. split; [done|]. by intros ?%elem_of_nil.
Qed.

Lemma inv_notify_empty w p p' :
  notify_empty w p = Some p' ->
  accepted p = (snd <$> taken p) ++ queue_ p ->
  (0 < max_queue_size_ p -> Zlen (queue_ p) <= max_queue_size_ p) ->
  NoDup (asleep p ++ woken p) -> (forall w, at_ p w = InWait <-> w ∈ asleep p ++ woken p) ->
  (asleep p <> [] -> running_ p = true -> (length (queue_ p) <= S (length (woken p)))%nat) ->
  (full_asleep p <> [] -> 0 < max_queue_size_ p <= Zlen (queue_ p) + Zlen (full_woken p)) ->
  match stop p with
    | NotStopped => running_ p = true
    | FlagReset => running_ p = false
    | Notified => running_ p = false /\ asleep p = []
    end -> inv p'.
Proof.
  intros Hn F B N A W U S. unfold notify_empty in Hn. destruct (asleep p) as [|a l] eqn:E.
  - injection Hn as <-. split; rewrite ?E; auto; try done.
  - case_bool_decide as Hin; [|done]. injection Hn as <-. rewrite <- E in *. split; cbn; auto.
    + by apply NoDup_move.
    + intros u. rewrite A, !elem_of_app, elem_of_remove_elem, elem_of_cons.
      destruct (decide (u = w)); naive_solver.
    + intros Hne Hr. rewrite E in W. specialize (W ltac:(done) Hr). lia.
    + destruct (stop p); try done. destruct S as [_ S]. congruence.
Qed.

Lemma pool_inv_Run q e w p p' : Run q e w p = Some p' -> inv p -> inv p'.
Proof.
  intros Hr [F B N A W U S]. unfold Run in Hr.
  assert (HF : IsFull p = true <-> 0 < max_queue_size_ p <= Zlen (queue_ p))
    by (unfold IsFull; rewrite andb_true_iff, Z.ltb_lt, Z.leb_le; tauto).
  destruct (IsFull p).
  - injection Hr as <-. split; cbn; auto. intros _.
    pose proof (Zlen_nonneg (full_woken p)). pose proof (proj1 HF eq_refl). lia.
  - apply (inv_notify_empty _ _ _ Hr); cbn; auto.
    + by rewrite F, app_assoc.
    + intros Hm. rewrite Zlen_app. change (Zlen [e]) with 1.
      assert (~ (0 < max_queue_size_ p <= Zlen (queue_ p))) by (intros H; by apply HF in H). lia.
    + intros Hne Hrun. specialize (W Hne Hrun). rewrite length_app. cbn. lia.
    + intros Hne. specialize (U Hne). rewrite Zlen_app. change (Zlen [e]) with 1. lia.
Qed.

Lemma pool_inv_Take w i p p' :
  Take w i p = Some p' ->
  accepted p = (snd <$> taken p) ++ queue_ p ->
  (0 < max_queue_size_ p -> Zlen (queue_ p) <= max_queue_size_ p) ->
  NoDup (asleep p ++ woken p) -> w ∉ asleep p ++ woken p ->
  (forall u, u <> w -> at_ p u = InWait <-> u ∈ asleep p ++ woken p) ->
  (asleep p <> [] -> running_ p = true -> (length (queue_ p) <= S (length (woken p)))%nat) ->
  (full_asleep p <> [] -> 0 < max_queue_size_ p <= Zlen (queue_ p) + Zlen (full_woken p)) ->
  match stop p with
    | NotStopped => running_ p = true
    | FlagReset => running_ p = false
    | Notified => running_ p = false /\ asleep p = []
    end -> inv p'.
Proof.
  intros Hn F B N Hw A W U S.
  assert (Hat : forall l, l <> InWait -> forall u, upd (at_ p) w l u = InWait <-> u ∈ asleep p ++ woken p).
  { intros l Hl u. destruct (decide (u = w)) as [->|Hne]; [rewrite upd_eq; naive_solver|].
    rewrite upd_ne by done. by apply A. }
  unfold Take in Hn. destruct (queue_ p) as [|e rest] eqn:Eq.
  - destruct (running_ p) eqn:Er; injection Hn as <-.
    + split; cbn; auto.
      * by constructor.
      * intros u. destruct (decide (u = w)) as [->|Hne]; [rewrite upd_eq; split; [by left|done]|].
        rewrite upd_ne, A by done. rewrite elem_of_cons. naive_solver.
      * intros _ _. lia.
      * destruct (stop p); try done. by destruct S.
    + split; cbn; auto; done.
  - assert (B' : 0 < max_queue_size_ p -> Zlen rest <= max_queue_size_ p)
      by (intros Hm; specialize (B Hm); rewrite Zlen_cons in B; lia).
    assert (F' : accepted p = (snd <$> taken p ++ [(w, e)]) ++ rest)
      by (rewrite fmap_app, <- app_assoc; exact F).
    assert (W' : asleep p <> [] -> running_ p = true -> (length rest <= length (woken p))%nat)
      by (intros Hne Hr; specialize (W Hne Hr); cbn in W; lia).
    cbn [max_queue_size_] in Hn. destruct (0 <? max_queue_size_ p) eqn:Em; zify_bool.
    + unfold notify_full in Hn. cbn [full_asleep queue_] in Hn. destruct (full_asleep p) as [|x l] eqn:Ef.
      * injection Hn as <-. split; cbn; rewrite ?Ef; auto; done.
      * destruct ((x :: l) !! i) as [y|]; [|done]. injection Hn as <-. split; cbn; auto.
        intros _. specialize (U ltac:(done)). rewrite Zlen_cons in U. rewrite Zlen_cons. lia.
    + injection Hn as <-. split; cbn; auto.
      intros Hne. specialize (U Hne). lia.
Qed.

(** The woken producer takes back the place that is free for it. *)
Lemma pool_inv_again i w p p' : step (ProduceAgain i w) p = Some p' -> inv p -> inv p'.
Proof.
  cbn [step]. intros Hs [F B N A W U St]. destruct (full_woken p !! i) as [[q e]|] eqn:Ei; [|done].
  set (p0 := Pool _ _ _ _ _ _ _ _ _ _ _) in Hs.
  assert (Hd : S (length (delete i (full_woken p))) = length (full_woken p)).
  { rewrite length_delete by (by eexists). apply lookup_lt_Some in Ei. lia. }
  assert (HF : IsFull p0 = true <-> 0 < max_queue_size_ p <= Zlen (queue_ p))
    by (unfold IsFull, p0; cbn; rewrite andb_true_iff, Z.ltb_lt, Z.leb_le; tauto).
  unfold Run in Hs. destruct (IsFull p0).
  - injection Hs as <-. split; cbn; auto. intros _.
    pose proof (Zlen_nonneg (delete i (full_woken p))). pose proof (proj1 HF eq_refl). lia.
  - apply (inv_notify_empty _ _ _ Hs); cbn; auto.
    + by rewrite F, app_assoc.
    + intros Hm. rewrite Zlen_app. change (Zlen [e]) with 1.
      assert (~ (0 < max_queue_size_ p <= Zlen (queue_ p))) by (intros H; by apply HF in H). lia.
    + intros Hne Hrun. specialize (W Hne Hrun). rewrite length_app. cbn. lia.
    + intros Hne. specialize (U Hne). rewrite Zlen_app. change (Zlen [e]) with 1. unfold Zlen in *. lia.
Qed.

Lemma pool_inv_set_at w l p : l <> InWait -> at_ p w <> InWait -> inv p -> inv (set_at w l p).
Proof.
  intros Hl Hw [F B N A W U St]. split; cbn; auto. intros u. destruct (decide (u = w)) as [->|Hne].
  - rewrite upd_eq, <- A. done.
  - by rewrite upd_ne.
Qed.

Lemma pool_inv_take_again w i p p' : step (TakeAgain w i) p = Some p' -> inv p -> inv p'.
Proof.
  cbn [step]. case_bool_decide as Hin; [|done]. intros Hs [F B N A W U St].
  pose proof N as (Na & Nd & Nw)%NoDup_app. eapply pool_inv_Take; [exact Hs|..]; cbn; auto.
  - apply NoDup_app. split; [done|]. split; [|by apply NoDup_filter].
    intros u Hu [_ Hu']%elem_of_remove_elem. by apply (Nd u).
  - rewrite elem_of_app, elem_of_remove_elem. intros [Ha|[]]; [|done]. by apply (Nd w).
  - intros u Hne. rewrite A, !elem_of_app, elem_of_remove_elem. naive_solver.
  - intros Hne Hr. specialize (W Hne Hr). by rewrite length_remove_elem.
Qed.

Lemma pool_inv_spurious w p p' : step (SpuriousWorker w) p = Some p' -> inv p -> inv p'.
Proof.
  cbn [step]. case_bool_decide as Hin; [|done]. intros [= <-] [F B N A W U St].
  assert (Hne : asleep p <> []) by (intros Hn; by rewrite Hn in Hin; apply elem_of_nil in Hin). split; cbn; auto.
  - by apply NoDup_move.
  - intros u. rewrite A, !elem_of_app, elem_of_remove_elem, elem_of_cons. destruct (decide (u = w)); naive_solver.
  - destruct (stop p); try done. by destruct St.
Qed.

Lemma pool_inv_step a p p' : step a p = Some p' -> inv p -> inv p'.
Proof.
  intros Hs I. destruct a as [q e w|i w|w|w i|w i|w| | |w|i].
  - by eapply pool_inv_Run.
  - by eapply pool_inv_again.
  - cbn in Hs. destruct (at_ p w) eqn:E; try done. injection Hs as <-.
    apply pool_inv_set_at; [by destruct (running_ p)|congruence|done].
  - cbn in Hs. destruct (at_ p w) eqn:E; try done. destruct I as [F B N A W U St]. eapply pool_inv_Take; eauto. by rewrite <- A, E.
  - by eapply pool_inv_take_again.
  - cbn in Hs. destruct (at_ p w) eqn:E; try done. injection Hs as <-. apply pool_inv_set_at; [done|congruence|done].
  - cbn in Hs. destruct (running_ p); [|done]. injection Hs as <-. destruct I. by split.
  - cbn in Hs. destruct (stop p) eqn:E; try done. injection Hs as <-. destruct I as [F B N A W U St].
    rewrite E in St. by split.
  - by eapply pool_inv_spurious.
  - cbn in Hs. destruct (full_asleep p !! i) as [x|] eqn:Ei; [|done]. injection Hs as <-.
    destruct I as [F B N A W U St]. split; cbn; auto. intros _.
    enough (full_asleep p <> []) as Hne by (specialize (U Hne); rewrite Zlen_cons; lia).
    intros Hn. by rewrite Hn in Ei.
Qed.

Lemma pool_run_inv acts : forall p p', run acts p = Some p' -> inv p -> inv p'.
Proof.
  induction acts as [|a acts IH]; cbn; intros p p' Hr I; [by injection Hr as <-|].
  destruct (step a p) as [p1|] eqn:Hs; [|done]. cbn in Hr. eapply IH; [done|]. by eapply pool_inv_step.
Qed.

(** C18: a running pool hands every accepted task to exactly one worker, in the
    order of acceptance; a bounded queue never exceeds its bound; and no thread
    sleeps beside work meant for it: a worker sleeps only if enough workers have
    been woken for all queued tasks, and a producer sleeps only if every free
    place in the queue is reserved for a producer already woken. *)
Theorem pool_delivers n acts p :
  run acts (Start n) = Some p ->
  accepted p = (snd <$> taken p) ++ queue_ p /\
  (0 < max_queue_size_ p -> Zlen (queue_ p) <= max_queue_size_ p) /\
  (asleep p <> [] -> running_ p = true -> (length (queue_ p) <= length (woken p))%nat) /\
  (full_asleep p <> [] -> 0 < max_queue_size_ p <= Zlen (queue_ p) + Zlen (full_woken p)).
Proof. intros Hr. destruct (pool_run_inv _ _ _ Hr (inv_Start n)). auto. Qed.

(** The actions of one worker, with all its tasks returning. *)
Definition worker_action (w : Z) (a : action) : bool :=
  match a with
  | TestRunning v | CallTake v _ | TakeAgain v _ | TaskDone v => v =? w
  | _ => false
  end.

(** Take succeeds whatever the state. *)
Lemma Take_total w p : exists i p', Take w i p = Some p' /\
  running_ p' = running_ p /\ (running_ p = false -> at_ p' w <> InWait /\ at_ p' w <> AtTake).
Proof.
  unfold Take. destruct (queue_ p) as [|e rest].
  - exists 0%nat. destruct (running_ p) eqn:E; eexists; (split; [done|]); cbn; rewrite upd_eq; auto.
  - exists 0%nat. cbn [max_queue_size_]. destruct (0 <? max_queue_size_ p).
    + unfold notify_full. cbn [full_asleep]. destruct (full_asleep p); eexists;
        (split; [reflexivity|]); cbn; rewrite upd_eq; auto.
    + eexists. split; [reflexivity|]. cbn. rewrite upd_eq. auto.
Qed.

(** From the end of Take on, a worker of a stopped pool leaves. *)
Lemma exit_after_take w p : running_ p = false -> at_ p w <> InWait -> at_ p w <> AtTake ->
  exists acts p', run acts p = Some p' /\ forallb (worker_action w) acts = true /\ at_ p' w = Exited.
Proof.
  intros Hr H1 H2.
  assert (Ht : forall q, running_ q = false -> at_ q w = AtTest ->
    run [TestRunning w] q = Some (set_at w Exited q)) by (intros q Hq Ha; cbn; rewrite Ha, Hq; done).
  destruct (at_ p w) eqn:E; try done.
  - exists [TestRunning w], (set_at w Exited p). rewrite Ht by done. cbn. by rewrite Z.eqb_refl, upd_eq.
  - exists [TaskDone w; TestRunning w], (set_at w Exited (set_at w AtTest p)).
    cbn. rewrite E. cbn. rewrite upd_eq. cbn. by rewrite Hr, Z.eqb_refl, upd_eq.
  - by exists [], p.
Qed.

(** C22: Stop() terminates: once it has notified the workers, none of them sleeps
    any more, and each one that is still there reaches the end of RunInThread by
    its own steps alone when its task returns, so that every Join returns. *)
Theorem stopped_workers_exit n acts p w :
  run acts (Start n) = Some p -> stop p = Notified ->
  asleep p = [] /\
  exists acts' p', run acts' p = Some p' /\ forallb (worker_action w) acts' = true /\ at_ p' w = Exited.
Proof.
  intros Hrun Hstop. pose proof (pool_run_inv _ _ _ Hrun (inv_Start n)) as I.
  pose proof (i_stop _ I) as S. rewrite Hstop in S. destruct S as [Hr Hs]. split; [done|].
  destruct (at_ p w) eqn:E; try (apply exit_after_take; [done|congruence..]).
  - destruct (Take_total w p) as (i & p1 & Ht & Hr1 & Hat). rewrite Hr in Hr1.
    destruct (Hat Hr) as [A1 A2]. destruct (exit_after_take w p1 Hr1 A1 A2) as (a2 & p2 & R2 & F2 & X2).
    exists (CallTake w i :: a2), p2. cbn. rewrite E, Ht. cbn. by rewrite Z.eqb_refl.
  - apply (i_wait _ I) in E. rewrite Hs in E. cbn in E.
    set (p0 := Pool (queue_ p) (max_queue_size_ p) (running_ p) (stop p) (at_ p) (asleep p)
             (remove_elem w (woken p)) (full_asleep p) (full_woken p) (accepted p) (taken p)).
    destruct (Take_total w p0) as (i & p1 & Ht & Hr1 & Hat). cbn in Hr1, Hat. rewrite Hr in Hr1.
    destruct (Hat Hr) as [A1 A2]. destruct (exit_after_take w p1 Hr1 A1 A2) as (a2 & p2 & R2 & F2 & X2).
    exists (TakeAgain w i :: a2), p2. cbn. rewrite bool_decide_eq_true_2 by done.
    fold p0. rewrite Ht. cbn. by rewrite Z.eqb_refl.
Qed.

End ThreadPool.
Arguments ThreadPool : clear implicits.
Arguments action : clear implicits.

Definition demo_actions : list (action nat) :=
  [TestRunning 1; CallTake 1 0; Produce 9 ((0, 0), 5%nat) 1; Produce 9 ((0, 0), 6%nat) 1;
   TakeAgain 1 0; ResetRunning; NotifyAll].

Definition demo_pool : ThreadPool nat :=
  match run demo_actions (Start 1) with Some p => p | None => Start 1 end.

(** A worker was woken for the first task; the second producer waits. *)
Definition demo_full_actions : list (action nat) :=
  [TestRunning 1; CallTake 1 0; Produce 9 ((0, 0), 5%nat) 1; Produce 9 ((0, 0), 6%nat) 1].

Definition demo_full : ThreadPool nat :=
  match run demo_full_actions (Start 1) with Some p => p | None => Start 1 end.

Lemma pool_delivers_witness :
  length (full_asleep demo_full) = 1%nat /\
  accepted demo_full = (snd <$> taken demo_full) ++ queue_ demo_full /\
  (0 < max_queue_size_ demo_full -> Zlen (queue_ demo_full) <= max_queue_size_ demo_full) /\
  (asleep demo_full <> [] -> running_ demo_full = true ->
     (length (queue_ demo_full) <= length (woken demo_full))%nat) /\
  (full_asleep demo_full <> [] ->
     0 < max_queue_size_ demo_full <= Zlen (queue_ demo_full) + Zlen (full_woken demo_full)).
Proof.
  split; [vm_compute; reflexivity|].
  apply (pool_delivers 1 demo_full_actions demo_full). vm_compute. reflexivity.
Defined.

Lemma stopped_workers_exit_witness :
  asleep demo_pool = [] /\
  exists acts' p', run acts' demo_pool = Some p' /\ forallb (worker_action 1) acts' = true /\ at_ p' 1 = Exited.
Proof.
  apply (stopped_workers_exit 1 demo_actions demo_pool 1).
  - vm_compute. reflexivity.
  - vm_compute. reflexivity.
Defined.
End ThreadPool.

(** ** The pool and its threads

    Start, Stop and the destructor by the thread that owns the pool. *)
Module Owner.

Record Pool := mkPool { name_ : bytes; threads_ : list Thread.Thread; running_ : bool }.

(* @src claire/common/threading/ThreadPool.cc:14-21 ThreadPool::ThreadPool *)
Definition new (name : bytes) : Pool := mkPool name [] false.

Section Owner.
(** Whether pthread_create succeeds the n-th time. *)
Variable created : nat -> bool.

(** The i-th round appends a thread and starts the i-th of all threads. *)
(* @src claire/common/threading/ThreadPool.cc:40-47 ThreadPool::Start *)
Fixpoint start_loop (rounds i : nat) (name : bytes) (threads : list Thread.Thread) : res (list Thread.Thread) :=
  match rounds with
  | O => Ok threads
  | S rounds =>
      let threads := threads ++ [Thread.new (name ++ dec (Z.of_nat i))] in
      th ← vget threads (Z.of_nat i);
      th ← Thread.Start (created i) th;
      threads ← vset threads (Z.of_nat i) th;
      start_loop rounds (S i) name threads
  end.

(* @src claire/common/threading/ThreadPool.cc:31-48 ThreadPool::Start *)
Definition Start (num_threads : Z) (p : Pool) : res Pool :=
  if running_ p then Ok p
  else threads ← start_loop (Z.to_nat num_threads) 0 (name_ p) (threads_ p); Ok (mkPool (name_ p) threads true).
End Owner.

(* @src claire/common/threading/ThreadPool.cc:50-67 ThreadPool::Stop *)
Definition Stop (p : Pool) : res Pool :=
  if running_ p then threads ← mapM Thread.Join (threads_ p); Ok (mkPool (name_ p) threads false) else Ok p.

(* @src claire/common/threading/ThreadPool.cc:23-29 ThreadPool::~ThreadPool *)
Definition destroy (p : Pool) : res Pool := if running_ p then Stop p else Ok p.

(** Run calls the task itself when the pool has no threads. *)
(* @src claire/common/threading/ThreadPool.cc:69-75 ThreadPool::Run *)
Definition runs_inline (p : Pool) : bool := match threads_ p with [] => true | _ => false end.

Definition started (name : bytes) (i : nat) : Thread.Thread := Thread.MkThread true false false 0 (name ++ dec (Z.of_nat i)).

Lemma start_loop_new created name : (forall i, created i = true) -> forall rounds i threads, length threads = i ->
  start_loop created rounds i name threads = Ok (threads ++ (started name <$> seq i rounds)).
Proof.
  intros Hc. induction rounds as [|rounds IH]; intros i threads Hl; cbn [start_loop]; [by rewrite app_nil_r|].
  rewrite (vget_lookup _ _ (Thread.new (name ++ dec (Z.of_nat i)))) by
    (rewrite ?Nat2Z.id; first [lia|rewrite lookup_app_r by lia; by rewrite Hl, Nat.sub_diag]).
  rstep. rewrite Hc. cbn [Thread.Start Thread.new Thread.started_]. rstep.
  rewrite vset_ok by (rewrite Zlen_app; unfold Zlen; cbn; lia). rstep. rewrite Nat2Z.id, insert_app_r_alt by lia.
  rewrite Hl, Nat.sub_diag. cbn [list_insert]. rewrite IH by (rewrite length_app; cbn; lia). by rewrite <- app_assoc.
Qed.

(** The threads a second Start starts are the old ones, for which it does nothing. *)
Lemma start_loop_old created name : forall rounds i threads, (i + rounds <= length threads)%nat ->
  (forall k th, threads !! k = Some th -> (k < i + rounds)%nat -> Thread.started_ th = true) ->
  start_loop created rounds i name threads = Ok (threads ++ ((fun k => Thread.new (name ++ dec (Z.of_nat k))) <$> seq i rounds)).
Proof.
  induction rounds as [|rounds IH]; intros i threads Hl Hs; cbn [start_loop]; [by rewrite app_nil_r|].
  destruct (lookup_lt_is_Some_2 threads i) as [th Hth]; [lia|].
  rewrite (vget_lookup _ _ th) by (rewrite ?Nat2Z.id; first [lia|by apply lookup_app_l_Some]). rstep.
  unfold Thread.Start. rewrite (Hs i th Hth) by lia. rstep. rewrite vset_ok by (rewrite Zlen_app; unfold Zlen; cbn; lia). rstep.
  rewrite Nat2Z.id, list_insert_id by (by apply lookup_app_l_Some). rewrite IH.
  - by rewrite <- app_assoc.
  - rewrite length_app. cbn. lia.
  - intros k th' Hk Hlt. rewrite lookup_app_l in Hk by lia. apply (Hs k); [done|lia].
Qed.

(** A new pool starts the threads it is asked for, named by their numbers, and Stop
    joins each of them; but a pool that is started again starts none of its new
    threads, so that nobody runs its tasks, and the next Stop joins the old threads
    a second time and aborts. *)
Theorem pool_restart created name n : (forall i, created i = true) -> 0 < n -> exists p1 p2 p3,
  Start created n (new name) = Ok p1 /\ threads_ p1 = started name <$> seq 0 (Z.to_nat n) /\
  Stop p1 = Ok p2 /\ Forall (fun th => Thread.joined_ th = true) (threads_ p2) /\ running_ p2 = false /\
  Start created n p2 = Ok p3 /\ running_ p3 = true /\
  threads_ p3 = threads_ p2 ++ ((fun k => Thread.new (name ++ dec (Z.of_nat k))) <$> seq 0 (Z.to_nat n)) /\
  Stop p3 = Err CheckFailed.
Proof.
  intros Hc Hn. set (l := started name <$> seq 0 (Z.to_nat n)).
  set (j := fun i => Thread.MkThread true true false 0 (name ++ dec (Z.of_nat i))).
  assert (Hj : mapM Thread.Join l = Ok (j <$> seq 0 (Z.to_nat n))).
  { unfold l. induction (seq 0 (Z.to_nat n)) as [|i ks IH]; [done|]. rewrite fmap_cons. cbn [mapM]. rstep. rewrite IH. done. }
  set (p2 := mkPool name (j <$> seq 0 (Z.to_nat n)) false).
  exists (mkPool name l true), p2, (mkPool name (threads_ p2 ++ ((fun k => Thread.new (name ++ dec (Z.of_nat k))) <$> seq 0 (Z.to_nat n))) true).
  assert (H1 : Start created n (new name) = Ok (mkPool name l true)).
  { unfold Start, new. cbn [running_ name_ threads_]. rewrite start_loop_new by done. done. }
  split; [exact H1|]. split; [done|]. split; [unfold Stop; cbn [running_ threads_ name_]; by rewrite Hj|].
  split; [apply Forall_fmap, Forall_forall; done|]. split; [done|]. split.
  - unfold Start. cbn [running_ name_ threads_ p2]. rewrite start_loop_old; [done|by rewrite length_fmap, length_seq|].
    intros k th Hk _. apply list_lookup_fmap_Some in Hk as (i & -> & _). done.
  - split; [done|]. split; [done|]. unfold Stop. cbn [running_ threads_ p2]. destruct (Z.to_nat n) as [|k] eqn:E; [lia|]. done.
Qed.

Lemma pool_restart_witness : exists p1 p2 p3,
  Start (fun _ => true) 2 (new (str "w")) = Ok p1 /\ threads_ p1 = [started (str "w") 0; started (str "w") 1] /\
  Stop p1 = Ok p2 /\ Forall (fun th => Thread.joined_ th = true) (threads_ p2) /\ running_ p2 = false /\
  Start (fun _ => true) 2 p2 = Ok p3 /\ running_ p3 = true /\
  threads_ p3 = threads_ p2 ++ [Thread.new (str "w0"); Thread.new (str "w1")] /\ Stop p3 = Err CheckFailed.
Proof. exact (pool_restart (fun _ => true) (str "w") 2 (fun _ => eq_refl) eq_refl). Defined.
End Owner.
