(* ===== verification/PoolMonitor.v ===== *)
(** * The threads of a ThreadPool

    What the producers, the workers and the owner of the pool of
    claire/common/threading/ThreadPool.cc do, statement by statement: the bodies
    under mutex_, and the tests and the write of running_, which are made without
    it. The pool of ThreadPool.v, with one step per critical section, is shown to
    have every behaviour of these threads. *)

From S2P Require Import Prelude Bytes Trace Threading Monitor ThreadPool.
Import (notations) stdpp.base.
Open Scope Z_scope.

Section PoolMonitor.
Context {Task : Type}.
Notation Entry := (@ThreadPool.Entry Task).
Notation worker := (@ThreadPool.worker Task).
Notation stopping := ThreadPool.stopping.

(** The thread that starts and stops the pool. *)
Variable owner : Z.

(** The members, where each worker is, and the history of the queue. *)
Record data := Data {
  queue_ : list Entry;
  max_queue_size_ : Z;
  running_ : bool;
  stop : stopping;
  position_ : gmap Z worker;
  accepted : list Entry;
  taken : list (Z * Entry);
}.

Definition position (d : data) (t : Z) : worker := default ThreadPool.AtTest (position_ d !! t).

Definition go_to (t : Z) (l : worker) (d : data) : data :=
  Data (queue_ d) (max_queue_size_ d) (running_ d) (stop d) (<[t := l]> (position_ d)) (accepted d) (taken d).

Inductive condition := NotEmpty | NotFull.

#[global] Instance condition_eq_dec : EqDecision condition.
Proof. solve_decision. Defined.

Inductive op := Run (e : Entry) | Take | StopNotify.

(** *** The statements under the mutex *)

Definition push_back (e : Entry) (d : data) : data :=
  Data (queue_ d ++ [e]) (max_queue_size_ d) (running_ d) (stop d) (position_ d) (accepted d ++ [e]) (taken d).

(** entry = queue_.front(), the entry the worker runs next. *)
Definition front (t : Z) (d : data) : data :=
  match queue_ d with
  | e :: _ => Data (queue_ d) (max_queue_size_ d) (running_ d) (stop d) (<[t := ThreadPool.InTask e]> (position_ d))
                (accepted d) (taken d ++ [(t, e)])
  | [] => d
  end.

Definition pop_front (d : data) : data :=
  Data (tail (queue_ d)) (max_queue_size_ d) (running_ d) (stop d) (position_ d) (accepted d) (taken d).

Definition notified (d : data) : data :=
  Data (queue_ d) (max_queue_size_ d) (running_ d) ThreadPool.Notified (position_ d) (accepted d) (taken d).

(* @src claire/common/threading/ThreadPool.cc:128-132 ThreadPool::IsFull *)
Definition IsFull (d : data) : bool := (0 <? max_queue_size_ d) && (max_queue_size_ d <=? Zlen (queue_ d)).

(** Run(), Take(), and the block of Stop(). *)
(* @src claire/common/threading/ThreadPool.cc:75-126 ThreadPool::Run, ThreadPool::Take *)
Definition enter (t : Z) (o : op) (d : data) : decision :=
  match o with
  | Run e => if IsFull d then Block NotFull else Go [push_back e] (One NotEmpty)
  | Take =>
      match queue_ d with
      | [] => if running_ d then Block NotEmpty else Go [go_to t ThreadPool.AtTest] Silent
      | _ => Go [front t; pop_front] (if 0 <? max_queue_size_ d then One NotFull else Silent)
      end
  | StopNotify => Go [notified] (All NotEmpty)
  end.

(** Anybody calls Run; a worker calls Take once it has found running_ set, and the
    owner notifies once it has reset it. *)
Definition may (t : Z) (o : op) (d : data) : Prop :=
  match o with
  | Run _ => True
  | Take => position d t = ThreadPool.AtTake
  | StopNotify => t = owner /\ stop d = ThreadPool.FlagReset
  end.

(** *** Without the mutex *)
Inductive outside := TestRunning | TaskDone | ResetRunning.

(* @src claire/common/threading/ThreadPool.cc:138-147 ThreadPool::RunInThread *)
Definition ext (t : Z) (x : outside) (d : data) : option data :=
  match x with
  | TestRunning =>
      match position d t with
      | ThreadPool.AtTest => Some (go_to t (if running_ d then ThreadPool.AtTake else ThreadPool.Exited) d)
      | _ => None
      end
  | TaskDone => match position d t with ThreadPool.InTask _ => Some (go_to t ThreadPool.AtTest d) | _ => None end
  | ResetRunning =>
      if bool_decide (t = owner) && running_ d
      then Some (Data (queue_ d) (max_queue_size_ d) false ThreadPool.FlagReset (position_ d) (accepted d) (taken d))
      else None
  end.

Definition start (max_size : Z) : data := Data [] (uint64 max_size) true ThreadPool.NotStopped ∅ [] [].

(** ** The accesses without the mutex *)

Lemma position_ne t u l d : u <> t -> position (go_to t l d) u = position d u.
Proof. intros Hu. unfold position. cbn. by rewrite lookup_insert_ne. Qed.

(** The updates of thread [t] that leave what the others rely on. *)
Definition local_to (t : Z) (f : data -> data) : Prop := forall u d, u <> t ->
  position (f d) u = position d u /\ running_ (f d) = running_ d /\ (t <> owner -> stop (f d) = stop d) /\
  forall x, ext u x (f d) = f <$> ext u x d.

Lemma go_to_swap t u l k d : u <> t -> go_to u k (go_to t l d) = go_to t l (go_to u k d).
Proof. intros Hu. unfold go_to. cbn. by rewrite insert_insert_ne. Qed.

Lemma local_go_to t l : local_to t (go_to t l).
Proof.
  intros u d Hu. split; [by apply position_ne|]. do 2 (split; [done|]).
  intros [| |]; cbn [ext]; rewrite ?position_ne by done.
  - destruct (position d u); cbn; try done. by rewrite (go_to_swap t u).
  - destruct (position d u); cbn; try done. by rewrite (go_to_swap t u).
  - cbn. by destruct (_ && _).
Qed.

Lemma local_push_back t e : local_to t (push_back e).
Proof.
  intros u d Hu. do 3 (split; [done|]). intros [| |]; cbn [ext].
  1,2: change (position (push_back e d) u) with (position d u); destruct (position d u); reflexivity.
  cbn. by destruct (_ && _).
Qed.

Lemma local_pop_front t : local_to t pop_front.
Proof.
  intros u d Hu. do 3 (split; [done|]). intros [| |]; cbn [ext].
  1,2: change (position (pop_front d) u) with (position d u); destruct (position d u); reflexivity.
  cbn. by destruct (_ && _).
Qed.

Lemma local_front t : local_to t (front t).
Proof.
  intros u d Hu. destruct (queue_ d) as [|e rest] eqn:Eq.
  { assert (H : forall d', queue_ d' = [] -> front t d' = d') by (intros d' H; unfold front; by rewrite H).
    rewrite H by done. do 3 (split; [done|]). intros x. destruct (ext u x d) as [d'|] eqn:E; [|done]. cbn. rewrite H; [done|].
    destruct x; cbn in E; repeat case_match; simplify_eq; done. }
  assert (H : forall d', queue_ d' = e :: rest ->
    front t d' = (let d'' := go_to t (ThreadPool.InTask e) d' in
      Data (queue_ d'') (max_queue_size_ d'') (running_ d'') (stop d'') (position_ d'') (accepted d'') (taken d'' ++ [(t, e)])))
    by (intros d' H; unfold front; cbn; by rewrite H).
  rewrite H by done. split; [by apply (position_ne t u (ThreadPool.InTask e) d)|]. do 2 (split; [done|]).
  intros x. destruct (local_go_to t (ThreadPool.InTask e) u d Hu) as (Hp & _ & _ & Hx). specialize (Hx x).
  destruct x; cbn in Hx |- *.
  1,2: change (position (Data _ _ _ _ _ _ _) u) with (position (go_to t (ThreadPool.InTask e) d) u); rewrite Hp in *;
    destruct (position d u); try done; cbn; rewrite H by done; cbn; injection Hx as Hx; by rewrite <- Hx.
  destruct (_ && _); [|done]. cbn. by rewrite H.
Qed.

Lemma local_notified : local_to owner notified.
Proof.
  intros u d Hu. do 3 (split; [done|]). intros [| |]; cbn [ext].
  1,2: change (position (notified d) u) with (position d u); destruct (position d u); reflexivity.
  cbn. by rewrite bool_decide_eq_false_2.
Qed.

Lemma local_body t o d body sig : may t o d -> enter t o d = Go body sig -> Forall (local_to t) body.
Proof.
  unfold enter, may. intros Hm He. destruct o as [e| |].
  - destruct (IsFull d); [done|]. injection He as <- <-. apply Forall_singleton, local_push_back.
  - destruct (queue_ d); [destruct (running_ d); [done|]|]; injection He as <- <-.
    + apply Forall_singleton, local_go_to.
    + apply Forall_cons. split; [apply local_front|]. apply Forall_singleton, local_pop_front.
  - injection He as <- <-. destruct Hm as [-> _]. apply Forall_singleton, local_notified.
Qed.

Lemma local_all t u fs d : u <> t -> Forall (local_to t) fs ->
  position (apply_all fs d) u = position d u /\ (t <> owner -> stop (apply_all fs d) = stop d) /\
  forall x, ext u x (apply_all fs d) = apply_all fs <$> ext u x d.
Proof.
  intros Hu Hf. revert d. induction Hf as [|f fs Hf _ IH]; intros d.
  { do 2 (split; [done|]). intros x. cbn. by destruct (ext u x d). }
  destruct (Hf u d Hu) as (Hp & _ & Hs & Hx). destruct (IH (f d)) as (Hp' & Hs' & Hx').
  change (apply_all (f :: fs) d) with (apply_all fs (f d)). split; [congruence|].
  split; [intros Ho; rewrite Hs', Hs; done|]. intros x. rewrite Hx', Hx. by destruct (ext u x d).
Qed.

(** What a thread does without the mutex leaves alone. *)
Lemma ext_keeps u x d d' : ext u x d = Some d' ->
  queue_ d' = queue_ d /\ max_queue_size_ d' = max_queue_size_ d /\ (running_ d = false -> running_ d' = false) /\
  (u <> owner -> stop d' = stop d) /\ forall t, t <> u -> position d' t = position d t.
Proof.
  intros He. destruct x; cbn in He.
  1,2: destruct (position d u); try done; injection He as <-; cbn; split_and!; try done; intros t Ht; by apply position_ne.
  destruct (bool_decide_reflect (u = owner)) as [->|Hu]; [|done]. cbn in He. destruct (running_ d) eqn:Er; [|done].
  injection He as <-. by split_and!.
Qed.

Lemma ext_enter t u o x d d' body sig : u <> t -> may t o d -> enter t o d = Go body sig ->
  ext u x d = Some d' -> enter t o d' = Go body sig.
Proof.
  intros _ _ Hen He. destruct (ext_keeps _ _ _ _ He) as (Hq & Hm & Hr & _). unfold enter, IsFull in *.
  rewrite Hq, Hm. destruct o as [e| |]; try done. destruct (queue_ d); [|done]. destruct (running_ d); [done|]. by rewrite Hr.
Qed.

Lemma ext_commutes t u o x d before rest sig : u <> t -> may t o d -> enter t o d = Go (before ++ rest) sig ->
  ext u x (apply_all before d) = apply_all before <$> ext u x d.
Proof.
  intros Hu Hm He. pose proof (local_body _ _ _ _ _ Hm He) as [Hl _]%Forall_app. by apply (local_all t u before d Hu Hl).
Qed.

Lemma ext_may t u o x d d' : u <> t -> may t o d -> ext u x d = Some d' -> may t o d'.
Proof.
  intros Hu Hm He. destruct (ext_keeps _ _ _ _ He) as (_ & _ & _ & Hs & Hp). destruct o; cbn in *; [done|by rewrite Hp by done|].
  destruct Hm as [-> Hm]. split; [done|]. by rewrite Hs by done.
Qed.

Lemma body_may t u o o' d before rest sig : u <> t -> may u o' d -> enter u o' d = Go (before ++ rest) sig ->
  may t o (apply_all before d) <-> may t o d.
Proof.
  intros Hu Hm He. pose proof (local_body _ _ _ _ _ Hm He) as [Hl _]%Forall_app.
  destruct (local_all u t before d (not_eq_sym Hu) Hl) as (Hp & Hs & _). destruct o; cbn; [done|by rewrite Hp|].
  split; intros [-> H]; (split; [done|]); [rewrite <- Hs by done|rewrite Hs by done]; done.
Qed.

(** ** The lists of sleeping threads *)

Notation status := (@status op condition).
Notation wake_stat := (Monitor.wake_stat (again (Op := op))).

Definition sound_status (s : status) : Prop :=
  match s with
  | AIdle | ASleeping Take NotEmpty | ASleeping (Run _) NotFull | AWoken Take | AWoken (Run _) => True
  | _ => False
  end.

(** The pool's lists and the atomic monitor's conditions and threads. *)
Record lists (asleep woken : list Z) (full_asleep full_woken : list (Z * Entry))
  (ac : condition -> list Z) (st : Z -> status) : Prop := {
  l_asleep : asleep = ac NotEmpty;
  l_full : fst <$> full_asleep = ac NotFull;
  l_nodup : NoDup (fst <$> full_asleep ++ full_woken);
  l_in_asleep : forall t, t ∈ asleep <-> st t = ASleeping Take NotEmpty;
  l_in_woken : forall t, t ∈ woken <-> st t = AWoken Take;
  l_in_full : forall t e, (t, e) ∈ full_asleep <-> st t = ASleeping (Run e) NotFull;
  l_in_full_woken : forall t e, (t, e) ∈ full_woken <-> st t = AWoken (Run e);
  l_sound : forall t, sound_status (st t);
}.

Lemma lists_proper A W FA FW ac ac' st st' : lists A W FA FW ac st ->
  (forall k, ac' k = ac k) -> (forall t, st' t = st t) -> lists A W FA FW ac' st'.
Proof. intros [H1 H2 H3 H4 H5 H6 H7 H8] Ha Hs. split; intros *; rewrite ?Ha, ?Hs; auto. Qed.

Lemma lists_init : lists [] [] [] [] (fun _ => Condition.init) (fun _ => AIdle).
Proof. split; try done; try constructor; intros; try (by apply elem_of_nil in H); done. Qed.

(** The statuses of thread [u] before and after that of [t] changes. *)
Local Ltac by_thread u t Ht := destruct (decide (u = t)) as [->|]; rewrite ?upd_eq, ?upd_ne, ?Ht by done; naive_solver.

(** The thread that enters leaves the lists. *)
Lemma lists_take A W FA FW ac st t : lists A W FA FW ac st -> st t = AWoken Take ->
  lists A (remove_elem t W) FA FW ac (upd st t AIdle).
Proof.
  intros [H1 H2 H3 H4 H5 H6 H7 H8] Ht. split; try done; intros u; try intros e; try rewrite elem_of_remove_elem;
    destruct (decide (u = t)) as [->|Hu]; rewrite ?upd_eq, ?upd_ne by done; try done;
    rewrite ?H4, ?H5, ?H6, ?H7; rewrite ?Ht; naive_solver.
Qed.

(** A list of pairs whose first components are distinct, without its [i]-th pair. *)
Lemma keyed_delete (L : list (Z * Entry)) i t e : NoDup (fst <$> L) -> L !! i = Some (t, e) ->
  NoDup (fst <$> delete i L) /\ fst <$> delete i L = remove_elem t (fst <$> L) /\
  forall u x, (u, x) ∈ delete i L <-> (u, x) ∈ L /\ u <> t.
Proof.
  revert i. induction L as [|[v y] L IH]; intros [|i] Hn Hi; try done; cbn in Hn; apply NoDup_cons in Hn as [Hv Hn].
  - injection Hi as -> ->. split; [done|]. split.
    + change (fst <$> L = remove_elem t (t :: (fst <$> L))). unfold remove_elem. rewrite filter_cons_False by naive_solver. symmetry. apply filter_all.
      apply Forall_forall. intros u Hu ->. done.
    + intros u x. cbn. rewrite elem_of_cons. split; [intros Hu; split; [by right|]|naive_solver].
      intros ->. apply Hv. by apply (list_elem_of_fmap_2 fst L (t, x)).
  - destruct (IH i Hn Hi) as (Hn' & Hf & Hin). assert (Hne : v <> t).
    { intros ->. apply Hv. by apply (list_elem_of_fmap_2 fst L (t, e)), (list_elem_of_lookup_2 L i). }
    change (delete (Datatypes.S i) ((v, y) :: L)) with ((v, y) :: delete i L). rewrite !fmap_cons. cbn [fst]. rewrite Hf. split; [|split].
    + apply NoDup_cons. split; [|by rewrite <- Hf]. by intros [_ ?]%elem_of_remove_elem.
    + unfold remove_elem. by rewrite filter_cons_True.
    + intros u x. rewrite !elem_of_cons, Hin. naive_solver.
Qed.

Lemma lists_run A W FA FW ac st t e i : lists A W FA FW ac st -> FW !! i = Some (t, e) ->
  lists A W FA (delete i FW) ac (upd st t AIdle).
Proof.
  intros [H1 H2 H3 H4 H5 H6 H7 H8] Hi. assert (Ht : st t = AWoken (Run e)) by by apply H7, (list_elem_of_lookup_2 FW i).
  rewrite fmap_app in H3. apply NoDup_app in H3 as (Ha & Hd & Hw). destruct (keyed_delete FW i t e Hw Hi) as (Hn & Hf & Hin).
  split; try done.
  - rewrite fmap_app, Hf. apply NoDup_app. split; [done|]. split; [|by apply NoDup_filter].
    intros u Hu [_ Hu']%elem_of_remove_elem. by apply (Hd u).
  - intros u. rewrite H4. by_thread u t Ht.
  - intros u. rewrite H5. by_thread u t Ht.
  - intros u x. rewrite H6. by_thread u t Ht.
  - intros u x. rewrite Hin, H7. by_thread u t Ht.
  - intros u. destruct (decide (u = t)) as [->|Hu]; [by rewrite upd_eq|by rewrite upd_ne].
Qed.

(** The thread that goes to sleep. *)
Lemma lists_take_sleep A W FA FW ac st t : lists A W FA FW ac st -> st t = AIdle ->
  lists (t :: A) W FA FW (upd ac NotEmpty (t :: ac NotEmpty)) (upd st t (ASleeping Take NotEmpty)).
Proof.
  intros [H1 H2 H3 H4 H5 H6 H7 H8] Ht. split; rewrite ?upd_eq, ?upd_ne by done; try done; [by rewrite H1| | | | |];
    intros u; try intros x; try rewrite elem_of_cons; rewrite ?H4, ?H5, ?H6, ?H7;
    by_thread u t Ht.
Qed.

Lemma lists_run_sleep A W FA FW ac st t e : lists A W FA FW ac st -> st t = AIdle ->
  lists A W ((t, e) :: FA) FW (upd ac NotFull (t :: ac NotFull)) (upd st t (ASleeping (Run e) NotFull)).
Proof.
  intros [H1 H2 H3 H4 H5 H6 H7 H8] Ht. split; rewrite ?upd_eq, ?upd_ne by done; try done.
  - by rewrite fmap_cons, H2.
  - cbn. apply NoDup_cons. split; [|done]. intros ([u x] & -> & Hin)%list_elem_of_fmap. cbn in Ht.
    apply elem_of_app in Hin as [Hin|Hin]; [apply H6 in Hin|apply H7 in Hin]; congruence.
  - intros u. rewrite H4. by_thread u t Ht.
  - intros u. rewrite H5. by_thread u t Ht.
  - intros u x. rewrite elem_of_cons, H6. by_thread u t Ht.
  - intros u x. rewrite H7. by_thread u t Ht.
  - intros u. destruct (decide (u = t)) as [->|Hu]; [by rewrite upd_eq|by rewrite upd_ne].
Qed.

(** Waking one thread, or all that wait for an entry. *)
Lemma wake_one (st : Z -> status) u o c t : st u = ASleeping o c -> wake_stat [u] st t = upd st u (AWoken o) t.
Proof.
  intros Hu. unfold Monitor.wake_stat, again. destruct (decide (t = u)) as [->|Ht].
  - by rewrite Hu, upd_eq, bool_decide_eq_true_2 by by apply list_elem_of_singleton.
  - rewrite upd_ne by done. destruct (st t); try done. rewrite bool_decide_eq_false_2; [done|].
    by rewrite list_elem_of_singleton.
Qed.

Lemma lists_wake_worker A W FA FW ac st t : lists A W FA FW ac st -> t ∈ A ->
  lists (remove_elem t A) (t :: W) FA FW (upd ac NotEmpty (remove_elem t (ac NotEmpty))) (upd st t (AWoken Take)).
Proof.
  intros [H1 H2 H3 H4 H5 H6 H7 H8] Hin. pose proof (proj1 (H4 t) Hin) as Ht.
  split; rewrite ?upd_eq, ?upd_ne by done; try done; [by rewrite H1| | | | |];
    intros u; try intros x; rewrite ?elem_of_remove_elem, ?elem_of_cons, ?H4, ?H5, ?H6, ?H7; by_thread u t Ht.
Qed.

Lemma lists_wake_producer A W FA FW ac st t e i : lists A W FA FW ac st -> FA !! i = Some (t, e) ->
  lists A W (delete i FA) ((t, e) :: FW) (upd ac NotFull (remove_elem t (ac NotFull))) (upd st t (AWoken (Run e))).
Proof.
  intros [H1 H2 H3 H4 H5 H6 H7 H8] Hi.
  assert (Ht : st t = ASleeping (Run e) NotFull) by by apply H6, (list_elem_of_lookup_2 FA i).
  assert (Hn : NoDup (fst <$> FA)) by (rewrite fmap_app in H3; apply NoDup_app in H3; apply H3).
  destruct (keyed_delete FA i t e Hn Hi) as (_ & Hf & Hin). split; rewrite ?upd_eq, ?upd_ne by done; try done.
  - by rewrite Hf, H2.
  - rewrite <- Permutation_middle. change ((t, e) :: delete i FA ++ FW) with (((t, e) :: delete i FA) ++ FW).
    by rewrite <- (delete_Permutation FA i (t, e)).
  - intros u. rewrite H4. by_thread u t Ht.
  - intros u. rewrite H5. by_thread u t Ht.
  - intros u x. rewrite Hin, H6. by_thread u t Ht.
  - intros u x. rewrite elem_of_cons, H7. by_thread u t Ht.
  - intros u. by_thread u t Ht.
Qed.

Lemma lists_wake_all A W FA FW ac st : lists A W FA FW ac st ->
  lists [] (A ++ W) FA FW (upd ac NotEmpty []) (wake_stat A st).
Proof.
  intros [H1 H2 H3 H4 H5 H6 H7 H8].
  assert (Hs : forall t, wake_stat A st t = if bool_decide (t ∈ A) then AWoken Take else st t).
  { intros t. unfold Monitor.wake_stat, again. specialize (H4 t). case_bool_decide as Ht; [by rewrite (proj1 H4 Ht)|]. by destruct (st t). }
  split; rewrite ?upd_eq, ?upd_ne by done; try done; intros u; try intros x; rewrite Hs; pose proof (proj1 (H4 u)) as Hu.
  - rewrite elem_of_nil. case_bool_decide as Hb; [done|]. rewrite <- H4. done.
  - rewrite elem_of_app, H5. case_bool_decide as Hb; [by split; [|left]|]. tauto.
  - rewrite H6. case_bool_decide as Hb; [by rewrite Hu|done].
  - rewrite H7. case_bool_decide as Hb; [by rewrite Hu|done].
  - case_bool_decide; done.
Qed.

(** ** The pool *)

Notation Pool := (ThreadPool.ThreadPool Task).

(** Where the pool of ThreadPool has a worker. *)
Definition expected (st : status) (d : data) (t : Z) : worker :=
  match st with
  | ASleeping Take _ | AWoken Take => ThreadPool.InWait
  | _ => position d t
  end.

Record matches (a : @atom data op condition) (p : Pool) : Prop := {
  m_queue : ThreadPool.queue_ p = queue_ (ashared a);
  m_max : ThreadPool.max_queue_size_ p = max_queue_size_ (ashared a);
  m_running : ThreadPool.running_ p = running_ (ashared a);
  m_stop : ThreadPool.stop p = stop (ashared a);
  m_accepted : ThreadPool.accepted p = accepted (ashared a);
  m_taken : ThreadPool.taken p = taken (ashared a);
  m_at : forall t, ThreadPool.at_ p t = expected (astat a t) (ashared a) t;
  m_lists : lists (ThreadPool.asleep p) (ThreadPool.woken p) (ThreadPool.full_asleep p) (ThreadPool.full_woken p)
              (acond a) (astat a);
}.

Lemma matches_start n : matches (ainit (start n)) (ThreadPool.Start n).
Proof. split; try done. apply lists_init. Qed.

Lemma matches_ext a t x d p : astat a t = AIdle -> ext t x (ashared a) = Some d -> matches a p ->
  exists act p', ThreadPool.step act p = Some p' /\ matches (MkAtom d (acond a) (astat a)) p'.
Proof.
  intros Hst He [M1 M2 M3 M4 M5 M6 Hat Hl]. pose proof (Hat t) as Ht. rewrite Hst in Ht. cbn in Ht. destruct x; cbn in He.
  - destruct (position (ashared a) t) eqn:E; try done. injection He as <-.
    exists (ThreadPool.TestRunning t). cbn. rewrite Ht. eexists. split; [reflexivity|]. split; cbn; try done.
    intros u. destruct (decide (u = t)) as [->|Hu]; [|rewrite upd_ne, Hat by done; unfold expected; by rewrite position_ne].
    rewrite upd_eq, Hst, M3. cbn. unfold position. cbn. by rewrite lookup_insert_eq.
  - destruct (position (ashared a) t) eqn:E; try done. injection He as <-.
    exists (ThreadPool.TaskDone t). cbn. rewrite Ht. eexists. split; [reflexivity|]. split; cbn; try done.
    intros u. destruct (decide (u = t)) as [->|Hu]; [|rewrite upd_ne, Hat by done; unfold expected; by rewrite position_ne].
    rewrite upd_eq, Hst. cbn. unfold position. cbn. by rewrite lookup_insert_eq.
  - destruct (bool_decide _ && _) eqn:E; [|done]. apply andb_true_iff in E as [_ E]. injection He as <-.
    exists ThreadPool.ResetRunning. cbn. rewrite M3, E. eexists. by split.
Qed.

(** The pool but for its lists of threads. *)
Definition members (p : Pool) :=
  (ThreadPool.queue_ p, ThreadPool.max_queue_size_ p, ThreadPool.running_ p, ThreadPool.stop p,
   ThreadPool.at_ p, ThreadPool.accepted p, ThreadPool.taken p).

Definition lists_of (p : Pool) := lists (ThreadPool.asleep p) (ThreadPool.woken p) (ThreadPool.full_asleep p) (ThreadPool.full_woken p).

(** Notify on the one and the other condition. *)
Lemma emit_worker u ac w' ws p st : emit u (One NotEmpty) ac = Some (w', ws) -> lists_of p ac st ->
  exists p', ThreadPool.notify_empty u p = Some p' /\ members p' = members p /\ lists_of p' w' (wake_stat ws st).
Proof.
  intros He Hl. cbn in He. rewrite <- (l_asleep _ _ _ _ _ _ Hl) in He. unfold Condition.Notify in He.
  unfold ThreadPool.notify_empty. destruct (ThreadPool.asleep p) as [|v A] eqn:EA.
  - cbn in He. injection He as <- <-. exists p. do 2 (split; [done|]). apply (lists_proper _ _ _ _ _ _ _ _ Hl).
    + intros k. destruct (decide (k = NotEmpty)) as [->|Hk]; [|by rewrite upd_ne]. by rewrite upd_eq, <- (l_asleep _ _ _ _ _ _ Hl).
    + intros t. unfold Monitor.wake_stat, again. by destruct (st t).
  - case_bool_decide as Hin; [|done]. cbn -[remove_elem] in He. injection He as <- <-.
    rewrite bool_decide_eq_true_2 by done. eexists. split; [reflexivity|]. split; [done|].
    unfold lists_of in *. rewrite EA in Hl. cbn -[remove_elem].
    assert (Hu : st u = ASleeping Take NotEmpty) by (apply (l_in_asleep _ _ _ _ _ _ Hl); exact Hin).
    eapply lists_proper; [by apply (lists_wake_worker _ _ _ _ _ _ u Hl)| |by intros t; apply wake_one with (c := NotEmpty)].
    intros k. by rewrite (l_asleep _ _ _ _ _ _ Hl).
Qed.

Lemma emit_producer u ac w' ws p st : emit u (One NotFull) ac = Some (w', ws) -> lists_of p ac st ->
  exists i p', ThreadPool.notify_full i p = Some p' /\ members p' = members p /\ lists_of p' w' (wake_stat ws st).
Proof.
  intros He Hl. cbn in He. rewrite <- (l_full _ _ _ _ _ _ Hl) in He. unfold Condition.Notify in He.
  unfold ThreadPool.notify_full. destruct (ThreadPool.full_asleep p) as [|v A] eqn:EA.
  - cbn in He. injection He as <- <-. exists 0%nat, p. do 2 (split; [done|]). apply (lists_proper _ _ _ _ _ _ _ _ Hl).
    + intros k. destruct (decide (k = NotFull)) as [->|Hk]; [|by rewrite upd_ne]. rewrite upd_eq, <- (l_full _ _ _ _ _ _ Hl). by rewrite EA.
    + intros t. unfold Monitor.wake_stat, again. by destruct (st t).
  - cbn [fmap list_fmap] in He. case_bool_decide as Hin; [|done]. cbn -[remove_elem] in He. injection He as <- <-.
    unfold lists_of in *. rewrite EA in Hl. change (v.1 :: (fst <$> A)) with (fst <$> v :: A) in *.
    apply list_elem_of_fmap in Hin as ([u' e] & -> & Hin). cbn [fst] in *. apply list_elem_of_lookup_1 in Hin as [i Hi].
    exists i. rewrite Hi. eexists. split; [reflexivity|]. split; [done|]. cbn -[remove_elem delete fmap].
    assert (Hu : st u' = ASleeping (Run e) NotFull)
      by (apply (l_in_full _ _ _ _ _ _ Hl); by apply (list_elem_of_lookup_2 (v :: A) i)).
    eapply lists_proper; [by apply (lists_wake_producer _ _ _ _ _ _ u' e i Hl)| |by intros t; apply wake_one with (c := NotFull)].
    intros k. by rewrite (l_full _ _ _ _ _ _ Hl).
Qed.

Lemma expected_wake ws (st : Z -> status) d t : expected (wake_stat ws st t) d t = expected (st t) d t.
Proof. unfold Monitor.wake_stat, again. destruct (st t) as [|o c|o]; try done. by case_bool_decide; destruct o. Qed.

(** A producer, or a worker, gets the lock: it leaves the lists if it was woken. *)
Lemma run_entry a t e p : matches a p -> ready (astat a t) (Run e) ->
  exists p0, (forall w, exists act, ThreadPool.step act p = ThreadPool.Run t e w p0) /\ members p0 = members p /\
    lists_of p0 (acond a) (upd (astat a) t AIdle).
Proof.
  intros M [Ht|Ht].
  - exists p. split; [intros w; by exists (ThreadPool.Produce t e w)|]. split; [done|].
    apply (lists_proper _ _ _ _ _ _ _ _ (m_lists _ _ M)); [done|]. intros u.
    destruct (decide (u = t)) as [->|Hu]; [by rewrite upd_eq|by rewrite upd_ne].
  - assert (Hin : (t, e) ∈ ThreadPool.full_woken p) by (by apply (l_in_full_woken _ _ _ _ _ _ (m_lists _ _ M))).
    apply list_elem_of_lookup_1 in Hin as [i Hi]. eexists. split.
    + intros w. exists (ThreadPool.ProduceAgain i w). cbn. rewrite Hi. reflexivity.
    + split; [done|]. by apply (lists_run _ _ _ _ _ _ t e i (m_lists _ _ M)).
Qed.

Lemma take_entry a t p : matches a p -> ready (astat a t) Take -> may t Take (ashared a) ->
  exists p0, (forall i, exists act, ThreadPool.step act p = ThreadPool.Take t i p0) /\ members p0 = members p /\
    lists_of p0 (acond a) (upd (astat a) t AIdle).
Proof.
  intros M Hr Hm. pose proof (m_at _ _ M t) as Hat. destruct Hr as [Ht|Ht]; rewrite Ht in Hat; cbn in Hat, Hm.
  - exists p. split; [intros i; exists (ThreadPool.CallTake t i); cbn; by rewrite Hat, Hm|]. split; [done|].
    apply (lists_proper _ _ _ _ _ _ _ _ (m_lists _ _ M)); [done|]. intros u.
    destruct (decide (u = t)) as [->|Hu]; [by rewrite upd_eq|by rewrite upd_ne].
  - assert (Hin : t ∈ ThreadPool.woken p) by (by apply (l_in_woken _ _ _ _ _ _ (m_lists _ _ M))).
    eexists. split.
    + intros i. exists (ThreadPool.TakeAgain t i). cbn. rewrite bool_decide_eq_true_2 by done. reflexivity.
    + split; [done|]. by apply (lists_take _ _ _ _ _ _ t (m_lists _ _ M)).
Qed.

Lemma matches_run a t e u w' ws p : matches a p -> ready (astat a t) (Run e) -> IsFull (ashared a) = false ->
  emit u (One NotEmpty) (acond a) = Some (w', ws) ->
  exists act p', ThreadPool.step act p = Some p' /\
    matches (MkAtom (push_back e (ashared a)) w' (wake_stat ws (upd (astat a) t AIdle))) p'.
Proof.
  intros M Hr Hf He. destruct (run_entry a t e p M Hr) as (p0 & Hact & Hm & Hl). destruct (Hact u) as (act & Hs).
  destruct M as [M1 M2 M3 M4 M5 M6 Hat _]. destruct p0 as [q mx r s at0 A W FA FW acc tk]. unfold members in Hm. cbn in Hm.
  injection Hm as -> -> -> -> -> -> ->. cbn in Hl.
  unfold ThreadPool.Run, ThreadPool.IsFull in Hs. cbn in Hs. unfold IsFull in Hf. rewrite M1, M2, Hf in Hs.
  match type of Hs with _ = ThreadPool.notify_empty u ?pp => destruct (emit_worker u _ _ _ pp _ He Hl) as (p' & Hn & Hm' & Hl') end.
  exists act, p'. split; [congruence|]. unfold members in Hm'. cbn in Hm'. injection Hm' as E1 E2 E3 E4 E5 E6 E7.
  split; cbn; try congruence; [|exact Hl'].
  intros v. rewrite E5, Hat, expected_wake. destruct (decide (v = t)) as [->|Hv]; [|by rewrite upd_ne].
  rewrite upd_eq. by destruct Hr as [-> | ->].
Qed.

Lemma matches_run_sleep a t e p : matches a p -> ready (astat a t) (Run e) -> IsFull (ashared a) = true ->
  exists act p', ThreadPool.step act p = Some p' /\
    matches (MkAtom (ashared a) (upd (acond a) NotFull (t :: acond a NotFull)) (upd (astat a) t (ASleeping (Run e) NotFull))) p'.
Proof.
  intros M Hr Hf. destruct (run_entry a t e p M Hr) as (p0 & Hact & Hm & Hl). destruct (Hact 0) as (act & Hs).
  destruct M as [M1 M2 M3 M4 M5 M6 Hat _]. destruct p0 as [q mx r s at0 A W FA FW acc tk]. unfold members in Hm. cbn in Hm.
  injection Hm as -> -> -> -> -> -> ->. cbn in Hl.
  unfold ThreadPool.Run, ThreadPool.IsFull in Hs. cbn in Hs. unfold IsFull in Hf. rewrite M1, M2, Hf in Hs.
  exists act. eexists. split; [exact Hs|]. split; cbn; try done.
  - intros v. rewrite Hat. destruct (decide (v = t)) as [->|Hv]; [|by rewrite upd_ne].
    rewrite upd_eq. by destruct Hr as [-> | ->].
  - eapply lists_proper; [apply (lists_run_sleep _ _ _ _ _ _ t e Hl); by rewrite upd_eq|done|].
    intros v. destruct (decide (v = t)) as [->|Hv]; [by rewrite !upd_eq|by rewrite !upd_ne].
Qed.

(** Where the workers are after Take by thread [t]. *)
Lemma taken_at (st : Z -> status) ws t l d d' (at0 : Z -> worker) :
  (forall v, at0 v = expected (st v) d v) -> (forall v, v <> t -> position d' v = position d v) -> position d' t = l ->
  forall v, upd at0 t l v = expected (wake_stat ws (upd st t AIdle) v) d' v.
Proof.
  intros Hat Hp Hl v. rewrite expected_wake. destruct (decide (v = t)) as [->|Hv]; [by rewrite !upd_eq|].
  rewrite !upd_ne, Hat by done. unfold expected. by rewrite Hp.
Qed.

Lemma pool_matches_take a t e rest u w' ws p : matches a p -> ready (astat a t) Take -> may t Take (ashared a) ->
  queue_ (ashared a) = e :: rest ->
  emit u (if 0 <? max_queue_size_ (ashared a) then One NotFull else Silent) (acond a) = Some (w', ws) ->
  exists act p', ThreadPool.step act p = Some p' /\
    matches (MkAtom (pop_front (front t (ashared a))) w' (wake_stat ws (upd (astat a) t AIdle))) p'.
Proof.
  intros M Hr Hmay Hq He. destruct (take_entry a t p M Hr Hmay) as (p0 & Hact & Hm & Hl).
  destruct M as [M1 M2 M3 M4 M5 M6 Hat _]. destruct p0 as [q mx r s at0 A W FA FW acc tk]. unfold members in Hm. cbn in Hm.
  injection Hm as -> -> -> -> -> -> ->. cbn in Hl.
  set (p1 := ThreadPool.Pool rest (ThreadPool.max_queue_size_ p) (ThreadPool.running_ p) (ThreadPool.stop p)
    (upd (ThreadPool.at_ p) t (ThreadPool.InTask e)) A W FA FW (ThreadPool.accepted p) (ThreadPool.taken p ++ [(t, e)])).
  assert (exists i p', (if 0 <? ThreadPool.max_queue_size_ p then ThreadPool.notify_full i p1 else Some p1) = Some p' /\
    members p' = members p1 /\ lists_of p' w' (wake_stat ws (upd (astat a) t AIdle))) as (i & p' & Hn & Hm' & Hl').
  { rewrite <- M2 in He. destruct (0 <? ThreadPool.max_queue_size_ p); [exact (emit_producer u _ _ _ p1 _ He Hl)|].
    cbn in He. injection He as <- <-. exists 0%nat, p1. do 2 (split; [done|]). apply (lists_proper _ _ _ _ _ _ _ _ Hl); [done|].
    intros v. unfold Monitor.wake_stat, again. by destruct (upd (astat a) t AIdle v). }
  destruct (Hact i) as (act & Hs). unfold ThreadPool.Take in Hs. cbn in Hs. rewrite M1, Hq in Hs. fold p1 in Hs.
  exists act, p'. split; [by rewrite Hs|]. unfold members in Hm'. cbn in Hm'. injection Hm' as E1 E2 E3 E4 E5 E6 E7.
  unfold front. rewrite Hq. split; cbn; try congruence; [|exact Hl'].
  rewrite E5. apply (taken_at _ _ _ _ (ashared a)); [done| |unfold position; cbn; by rewrite lookup_insert_eq].
  intros v Hv. unfold position. cbn. by rewrite lookup_insert_ne.
Qed.

(** Take finds no entry: the worker sleeps, or goes back to test running_. *)
Lemma matches_take_empty a t p : matches a p -> ready (astat a t) Take -> may t Take (ashared a) ->
  queue_ (ashared a) = [] ->
  exists act p', ThreadPool.step act p = Some p' /\
    matches (if running_ (ashared a)
      then MkAtom (ashared a) (upd (acond a) NotEmpty (t :: acond a NotEmpty)) (upd (astat a) t (ASleeping Take NotEmpty))
      else MkAtom (go_to t ThreadPool.AtTest (ashared a)) (acond a) (wake_stat [] (upd (astat a) t AIdle))) p'.
Proof.
  intros M Hr Hmay Hq. destruct (take_entry a t p M Hr Hmay) as (p0 & Hact & Hm & Hl). destruct (Hact 0%nat) as (act & Hs).
  destruct M as [M1 M2 M3 M4 M5 M6 Hat _]. destruct p0 as [q mx r s at0 A W FA FW acc tk]. unfold members in Hm. cbn in Hm.
  injection Hm as -> -> -> -> -> -> ->. cbn in Hl. unfold ThreadPool.Take in Hs. cbn in Hs. rewrite M1, Hq, M3 in Hs.
  exists act. destruct (running_ (ashared a)) eqn:Er; eexists; (split; [exact Hs|]); split; cbn; try done.
  - intros v. destruct (decide (v = t)) as [->|Hv]; [by rewrite !upd_eq|by rewrite !upd_ne].
  - eapply lists_proper; [apply (lists_take_sleep _ _ _ _ _ _ t Hl); by rewrite upd_eq|done|].
    intros v. destruct (decide (v = t)) as [->|Hv]; [by rewrite !upd_eq|by rewrite !upd_ne].
  - apply (taken_at _ _ _ _ (ashared a)); [done| |unfold position; cbn; by rewrite lookup_insert_eq].
    intros v Hv. by apply position_ne.
  - apply (lists_proper _ _ _ _ _ _ _ _ Hl); [done|]. intros v. unfold Monitor.wake_stat, again. by destruct (upd (astat a) t AIdle v).
Qed.

Lemma matches_stop a t u w' ws p : matches a p -> ready (astat a t) StopNotify -> may t StopNotify (ashared a) ->
  emit u (All NotEmpty) (acond a) = Some (w', ws) ->
  exists act p', ThreadPool.step act p = Some p' /\
    matches (MkAtom (notified (ashared a)) w' (wake_stat ws (upd (astat a) t AIdle))) p'.
Proof.
  intros [M1 M2 M3 M4 M5 M6 Hat Hl] Hr [-> Hst] He. cbn in He. injection He as <- <-.
  assert (Ht : astat a owner = AIdle).
  { destruct Hr as [Ht|Ht]; [done|]. pose proof (l_sound _ _ _ _ _ _ Hl owner) as Hs. by rewrite Ht in Hs. }
  assert (Hu : forall v, upd (astat a) owner AIdle v = astat a v).
  { intros v. destruct (decide (v = owner)) as [->|Hv]; [by rewrite upd_eq|by rewrite upd_ne]. }
  exists ThreadPool.NotifyAll. cbn. rewrite M4, Hst. eexists. split; [reflexivity|]. split; cbn; try done.
  - intros v. rewrite Hat, expected_wake, Hu. done.
  - eapply lists_proper; [apply (lists_wake_all _ _ _ _ _ _ Hl)|done|].
    intros v. unfold Monitor.wake_stat, again. rewrite Hu. by rewrite (l_asleep _ _ _ _ _ _ Hl).
Qed.

Lemma pool_matches_spurious a t o c p : matches a p -> astat a t = ASleeping o c ->
  exists act p', ThreadPool.step act p = Some p' /\
    matches (MkAtom (ashared a) (upd (acond a) c (remove_elem t (acond a c))) (upd (astat a) t (AWoken o))) p'.
Proof.
  intros [M1 M2 M3 M4 M5 M6 Hat Hl] Hs. pose proof (l_sound _ _ _ _ _ _ Hl t) as Hok. rewrite Hs in Hok.
  assert (Hexp : forall v, ThreadPool.at_ p v = expected (upd (astat a) t (AWoken o) v) (ashared a) v).
  { intros v. rewrite Hat. destruct (decide (v = t)) as [->|Hv]; [|by rewrite upd_ne]. rewrite upd_eq, Hs. by destruct o. }
  destruct o as [e| |], c; try done.
  - assert (Hin : (t, e) ∈ ThreadPool.full_asleep p) by (by apply (l_in_full _ _ _ _ _ _ Hl)).
    apply list_elem_of_lookup_1 in Hin as [i Hi]. exists (ThreadPool.SpuriousProducer i). cbn. rewrite Hi.
    eexists. split; [reflexivity|]. split; cbn; try done. by apply (lists_wake_producer _ _ _ _ _ _ t e i Hl).
  - assert (Hin : t ∈ ThreadPool.asleep p) by (by apply (l_in_asleep _ _ _ _ _ _ Hl)).
    exists (ThreadPool.SpuriousWorker t). cbn -[remove_elem]. rewrite bool_decide_eq_true_2 by done.
    eexists. split; [reflexivity|]. split; cbn -[remove_elem]; try done. by apply (lists_wake_worker _ _ _ _ _ _ t Hl).
Qed.

(** Every step of the atomic monitor is a step of the pool. *)
Lemma pool_matches_step a a' p : astep enter may ext again a a' -> matches a p ->
  exists act p', ThreadPool.step act p = Some p' /\ matches a' p'.
Proof.
  intros Hs M. destruct Hs as [t x s s' w st Hst He|t o body sig u w' ws s w st Hr Hm Hen He
    |t o c s w st Hr Hm Hen|t o c s w st Hst].
  - exact (matches_ext (MkAtom s w st) t x s' p Hst He M).
  - destruct o as [e| |]; cbn in Hen.
    + destruct (IsFull s) eqn:Ef; [done|]. injection Hen as <- <-. exact (matches_run (MkAtom s w st) t e u w' ws p M Hr Ef He).
    + destruct (queue_ s) as [|e rest] eqn:Eq.
      * destruct (running_ s) eqn:Er; [done|]. injection Hen as <- <-. cbn in He. injection He as <- <-.
        pose proof (matches_take_empty (MkAtom s w st) t p M Hr Hm Eq) as H. cbn in H. by rewrite Er in H.
      * injection Hen as <- <-. exact (pool_matches_take (MkAtom s w st) t e rest u w' ws p M Hr Hm Eq He).
    + injection Hen as <- <-. exact (matches_stop (MkAtom s w st) t u w' ws p M Hr Hm He).
  - destruct o as [e| |]; cbn in Hen; [| |done].
    + destruct (IsFull s) eqn:Ef; [|done]. injection Hen as <-. exact (matches_run_sleep (MkAtom s w st) t e p M Hr Ef).
    + destruct (queue_ s) as [|e rest] eqn:Eq; [|done]. destruct (running_ s) eqn:Er; [|done]. injection Hen as <-.
      pose proof (matches_take_empty (MkAtom s w st) t p M Hr Hm Eq) as H. cbn in H. by rewrite Er in H.
  - exact (pool_matches_spurious (MkAtom s w st) t o c p M Hst).
Qed.

Lemma pool_matches_run a a' : rtc (astep enter may ext again) a a' -> forall p, matches a p ->
  exists acts p', ThreadPool.run acts p = Some p' /\ matches a' p'.
Proof.
  induction 1 as [a|a1 a2 a3 H12 _ IH]; intros p M; [by exists [], p|].
  destruct (pool_matches_step _ _ _ H12 M) as (act & p1 & Hs & M1). destruct (IH _ M1) as (acts & p2 & Hr & M2).
  exists (act :: acts), p2. split; [|done]. cbn. by rewrite Hs.
Qed.

(** C26: the threads of a pool, in any interleaving of their steps on the mutex, on
    the two condition variables and on the members, statement by statement, with
    running_ read and reset outside the mutex, reach only states of the pool of
    ThreadPool: when no thread is amid its statements, the queue, running_, the
    sleeping threads and the history of what was accepted and handed out are those
    of a state that pool reaches with one step per critical section. *)
Theorem pool_threads_refine CHECK_ERR n (c : conf) : Mutex.fails_on_minus_one CHECK_ERR ->
  rtc (sched enter may ext again CHECK_ERR) (cinit (start n)) c ->
  exists acts p, ThreadPool.run acts (ThreadPool.Start n) = Some p /\
    (settled c ->
      (ThreadPool.queue_ p, ThreadPool.running_ p, ThreadPool.accepted p, ThreadPool.taken p) =
        (queue_ (shared c), running_ (shared c), accepted (shared c), taken (shared c)) /\
      ThreadPool.asleep p = cond c NotEmpty /\ fst <$> ThreadPool.full_asleep p = cond c NotFull).
Proof.
  intros glog Hr.
  destruct (reaches_refines enter may ext again CHECK_ERR glog ext_enter ext_commutes ext_may (fun t o d H => H) body_may _ c Hr) as (a & Ha & R).
  destruct (pool_matches_run _ _ Ha _ (matches_start n)) as (acts & p & Hp & M). exists acts, p. split; [done|].
  intros Hs. destruct (refines_settled _ _ _ _ R Hs) as [-> Hc]. rewrite !Hc.
  destruct M as [-> _ -> _ -> -> _ Hl]. split; [done|]. split; apply Hl.
Qed.
End PoolMonitor.

(** ** Witness *)

(** Thread [t] makes the next step of a concrete run. *)
Local Tactic Notation "next" constr(t) uconstr(step) :=
  eapply rtc_l; [exists t; split; [lia|eapply step; try reflexivity; try (left; reflexivity); try (right; reflexivity); try reflexivity]|].

Local Tactic Notation "outside" constr(t) uconstr(y) :=
  eapply rtc_l; [exists t; split; [lia|eapply c_ext with (x := y); reflexivity]|].

Local Tactic Notation "call" constr(t) uconstr(o) tactic3(tac) :=
  eapply rtc_l; [exists t; split; [lia|eapply c_call with (op := o); [reflexivity|tac]]|].

Definition demo_entry : @ThreadPool.Entry nat := ((7, 1), 5%nat).

(** Worker 2 waits, the owner 1 posts a task and wakes it, resets running_ while the
    worker is amid its statements, and notifies. *)
Lemma pool_threads_refine_witness : exists c : @conf (@data nat) (@op nat) condition,
  rtc (sched (enter (Task := nat)) (may 1) (ext 1) again Mutex.glog_check_err) (cinit (start 0)) c /\
  (queue_ (shared c), running_ (shared c), taken (shared c)) = ([], false, [(2, demo_entry)]) /\
  exists acts p, ThreadPool.run acts (ThreadPool.Start 0) = Some p /\
    (settled c ->
      (ThreadPool.queue_ p, ThreadPool.running_ p, ThreadPool.accepted p, ThreadPool.taken p) =
        (queue_ (shared c), running_ (shared c), accepted (shared c), taken (shared c)) /\
      ThreadPool.asleep p = cond c NotEmpty /\ fst <$> ThreadPool.full_asleep p = cond c NotFull).
Proof.
  assert (H : exists c : @conf (@data nat) (@op nat) condition,
    rtc (sched (enter (Task := nat)) (may 1) (ext 1) again Mutex.glog_check_err) (cinit (start 0)) c /\
    (queue_ (shared c), running_ (shared c), taken (shared c)) = ([], false, [(2, demo_entry)])).
  { eexists. split.
    - outside 2 TestRunning. call 2 (@Take nat) (reflexivity). next 2 c_lock. next 2 c_assign. next 2 c_block. next 2 c_sleep.
      call 1 (Run demo_entry) (exact Logic.I). next 1 c_lock. next 1 c_assign. next 1 c_enter. next 1 c_update.
      eapply rtc_l; [exists 1; split; [lia|eapply c_signal with (u := 2); reflexivity]|].
      next 1 c_unassign. next 1 c_unlock.
      next 2 c_reacquire. next 2 c_assign. next 2 c_enter. next 2 c_update. outside 1 ResetRunning. next 2 c_update.
      eapply rtc_l; [exists 2; split; [lia|eapply c_signal with (u := 2); reflexivity]|].
      next 2 c_unassign. next 2 c_unlock.
      call 1 (@StopNotify nat) (split; reflexivity). next 1 c_lock. next 1 c_assign. next 1 c_enter. next 1 c_update.
      eapply rtc_l; [exists 1; split; [lia|eapply c_signal with (u := 2); reflexivity]|].
      next 1 c_unassign. next 1 c_unlock. apply rtc_refl.
    - reflexivity. }
  destruct H as (c & Hr & Hs). exists c. split; [exact Hr|]. split; [exact Hs|].
  apply (pool_threads_refine 1 Mutex.glog_check_err 0 c (fun v => eq_refl) Hr).
Defined.
