(* ===== verification/StringUtil.v ===== *)
(** * strings/StringUtil and strings/StringPrintf

    Integer and hexadecimal formatting into caller supplied buffers, the hex dump,
    and the printf family appending to a std::string. vsnprintf is the C
    library's and is a parameter. *)

From S2P Require Import Prelude Bytes.

(** ** Integers to text *)

(* @src claire/common/strings/StringUtil.cc:17-19 digits, zero *)
Definition digits : bytes := str "9876543210123456789".

(* @src claire/common/strings/StringUtil.cc:21-22 digitsHex *)
Definition digitsHex : bytes := str "0123456789ABCDEF".

(** zero[lsd], with zero = digits + 9. *)
Definition zero_at (lsd : Z) : res Z := vget digits (9 + lsd).

(** The do-while loop; [out] are the characters written so far. *)
(* @src claire/common/strings/StringUtil.cc:31-36 IntToBuffer *)
Fixpoint int_loop (fuel : nat) (i : Z) (out : bytes) : res bytes :=
  match fuel with
  | O => Err NoFuel
  | S fuel =>
      c ← zero_at (Z.rem i 10);
      let i := Z.quot i 10 in
      let out := out ++ [c] in
      if i =? 0 then Ok out else int_loop fuel i out
  end.

(** The text left in the buffer, before the NUL; its length is the result. *)
(* @src claire/common/strings/StringUtil.cc:25-47 IntToBuffer *)
Definition IntToBuffer (value : Z) : res bytes :=
  out ← int_loop (S (Z.to_nat (Z.log2 (Z.abs value)))) value [];
  let out := if value <? 0 then out ++ [45] else out in
  Ok (reverse out).

(* @src claire/common/strings/StringUtil.cc:54-59 HexToBuffer *)
Fixpoint hex_loop (fuel : nat) (i : Z) (out : bytes) : res bytes :=
  match fuel with
  | O => Err NoFuel
  | S fuel =>
      c ← vget digitsHex (i mod 16);
      let i := i / 16 in
      let out := out ++ [c] in
      if i =? 0 then Ok out else hex_loop fuel i out
  end.

(* @src claire/common/strings/StringUtil.cc:49-65 HexToBuffer *)
Definition HexToBuffer (value : Z) : res bytes :=
  out ← hex_loop (S (Z.to_nat (Z.log2 value))) value [];
  Ok (reverse out).

(** ** The hex dump *)

(** snprintf(buffer + off, size(buffer) - off, ...) of a formatted text: what
    fits is stored and terminated, nothing when there is no room at all. *)
Definition snprintf_at (buf : bytes) (off : Z) (text : bytes) : bytes :=
  let room := Zlen buf - off in
  if room <=? 0 then buf
  else
    let t := take (Z.to_nat (room - 1)) text in
    take (Z.to_nat off) buf ++ t ++ [0] ++ drop (Z.to_nat off + length t + 1) buf.

(** One piece of the dump: [None] leaves the loop. *)
(* @src claire/common/strings/StringUtil.cc:86-91 HexString *)
Definition dump_piece (text : bytes) (st : bytes * Z) : (bytes * Z) * bool :=
  let '(buf, cur) := st in
  let buf' := snprintf_at buf cur text in
  let ret := Zlen text in
  if int32 (Zlen buf - cur) <? ret then ((buf', cur), false) else ((buf', cur + ret), true).

(** "\n0x%04x:", " " and "%02x". *)
Definition offset_text (i : Z) : bytes := [10] ++ str "0x" ++ pad 48 4 (hex (uint32 i)) ++ str ":".
Definition byte_text (b : Z) : bytes := pad 48 2 (hex b).

(* @src claire/common/strings/StringUtil.cc:81-110 HexString *)
Fixpoint dump_loop (i : Z) (data : bytes) (st : bytes * Z) : bytes * Z :=
  match data with
  | [] => st
  | b :: data =>
      let '(st, go) := if i mod 16 =? 0 then dump_piece (offset_text i) st else (st, true) in
      if negb go then st
      else
        let '(st, go) := if i mod 2 =? 0 then dump_piece (str " ") st else (st, true) in
        if negb go then st
        else
          let '(st, go) := dump_piece (byte_text b) st in
          if negb go then st else dump_loop (i + 1) data st
  end.

(** The buffer and the returned length. *)
(* @src claire/common/strings/StringUtil.cc:77-113 HexString *)
Definition HexString (buffer data : bytes) : bytes * Z := dump_loop 0 data (buffer, 0).

(** ** StringPrintf *)
Section Printf.

(** One call of vsnprintf with a given buffer size: its result, errno, and the
    characters it stored. The calls are numbered. *)
Variable vsnprintf : nat -> Z -> Z * Z * bytes.
Variable EOVERFLOW : Z.

Definition STACK_BUF : Z := 1024.
Definition MAX_MEM : Z := 32 * 1024 * 1024.

(* @src claire/common/strings/StringPrintf.cc:47-88 StringAppendVT *)
Fixpoint append_loop (fuel : nat) (call : nat) (result errno mem_length : Z) (dst : bytes) : res bytes :=
  match fuel with
  | O => Err NoFuel
  | S fuel =>
      if (result <? 0) && negb (errno =? 0) && negb (errno =? EOVERFLOW) then Ok dst
      else
        let mem_length := int32 (if result <? 0 then mem_length * 2 else result + 1) in
        if MAX_MEM <? mem_length then Ok dst
        else if mem_length <? 0 then Err LengthError   (* std::vector of a huge size *)
        else
          let '(result, errno, chars) := vsnprintf call mem_length in
          if (0 <=? result) && (result <? mem_length)
          then Ok (dst ++ take (Z.to_nat result) chars)
          else append_loop fuel (S call) result errno mem_length dst
  end.

(* @src claire/common/strings/StringPrintf.cc:22-89 StringAppendVT *)
Definition StringAppendV (fuel : nat) (dst : bytes) : res bytes :=
  let '(result, errno, chars) := vsnprintf 0 STACK_BUF in
  if (0 <=? result) && (result <? STACK_BUF) then Ok (dst ++ take (Z.to_nat result) chars)
  else append_loop fuel 1 result errno STACK_BUF dst.

(* @src claire/common/strings/StringPrintf.cc:93-108 StringPrintf, StringPrintV *)
Definition StringPrintf (fuel : nat) : res bytes := StringAppendV fuel [].

(* @src claire/common/strings/StringPrintf.cc:110-118 SStringPrintf *)
Definition SStringPrintf (fuel : nat) (dst : bytes) : res bytes := StringAppendV fuel [].

(* @src claire/common/strings/StringPrintf.cc:120-126 StringAppendF *)
Definition StringAppendF (fuel : nat) (dst : bytes) : res bytes := StringAppendV fuel dst.

(** Every pass of the loop asks for a larger buffer, up to the limit. *)
Lemma append_loop_total call result errno mem dst :
  -1 <= result <= INT_MAX - 1 -> 0 < mem <= MAX_MEM -> (0 <= result -> mem <= result) ->
  (forall n size, -1 <= (vsnprintf n size).1.1 <= INT_MAX - 1) ->
  exists fuel0, forall fuel, (fuel0 <= fuel)%nat ->
    exists r, append_loop fuel call result errno mem dst = Ok r.
Proof.
  intros Hr Hm Hrm Hv. remember (Z.to_nat (MAX_MEM - mem)) as n eqn:En.
  revert mem call result errno Hr Hm Hrm En.
  induction n as [n IH] using lt_wf_ind; intros mem call result errno Hr Hm Hrm ->.
  set (mem' := int32 (if result <? 0 then mem * 2 else result + 1)).
  assert (Hmem : mem' = if result <? 0 then mem * 2 else result + 1).
  { unfold mem'. apply wrap_s_id; [lia|]. unfold fits_s, INT_MAX, MAX_MEM in *.
    destruct (result <? 0) eqn:E; zify_bool; lia. }
  assert (Hlt : mem < mem') by (rewrite Hmem; destruct (result <? 0) eqn:E; zify_bool; lia).
  destruct (MAX_MEM <? mem') eqn:Emax; zify_bool.
  - exists 1%nat. intros [|fuel] Hf; [lia|]. cbn [append_loop]. fold mem'.
    destruct (_ && _ && _); [by eexists|]. rewrite (proj2 (Z.ltb_lt _ _)) by done. by eexists.
  - destruct (vsnprintf call mem') as [[res err] chars] eqn:Ev.
    pose proof (Hv call mem') as Hv'. rewrite Ev in Hv'. cbn in Hv'.
    destruct ((0 <=? res) && (res <? mem')) eqn:Efit.
    + exists 1%nat. intros [|fuel] Hf; [lia|]. cbn [append_loop]. fold mem'.
      destruct (_ && _ && _); [by eexists|]. rewrite (proj2 (Z.ltb_ge MAX_MEM _)) by done.
      rewrite (proj2 (Z.ltb_ge mem' 0)) by lia. rewrite Ev, Efit. by eexists.
    + destruct (IH (Z.to_nat (MAX_MEM - mem'))) with (mem := mem') (call := S call) (result := res)
        (errno := err) as [f Hf]; [lia|done|lia| |done|].
      { intros Hres. apply andb_false_iff in Efit as [H|H]; zify_bool; lia. }
      exists (S f). intros [|fuel] Hfuel; [lia|]. cbn [append_loop]. fold mem'.
      destruct (_ && _ && _); [by eexists|]. rewrite (proj2 (Z.ltb_ge MAX_MEM _)) by done.
      rewrite (proj2 (Z.ltb_ge mem' 0)) by lia. rewrite Ev, Efit. apply Hf. lia.
Qed.

(** The printf loop terminates and never fails: whatever vsnprintf answers, as
    long as it does not report a length of INT_MAX, a finite number of passes
    suffices. With a vsnprintf that behaves as C99 says (it returns the length of
    the formatted text and stores the text when it fits), the text is appended
    to the destination if it is shorter than 32 MiB, and the destination is left
    alone otherwise; two passes are enough. *)
Theorem StringAppendV_appends dst :
  (forall n size, -1 <= (vsnprintf n size).1.1 <= INT_MAX - 1) ->
  (exists fuel0, forall fuel, (fuel0 <= fuel)%nat -> exists r, StringAppendV fuel dst = Ok r) /\
  forall text, (forall n size, (vsnprintf n size).1.1 = Zlen text /\
                  (Zlen text < size -> (vsnprintf n size).2 = text)) ->
    StringAppendV 2 dst = Ok (if Zlen text <? MAX_MEM then dst ++ text else dst).
Proof.
  intros Hv. split.
  - unfold StringAppendV. destruct (vsnprintf 0 STACK_BUF) as [[r e] c] eqn:E0.
    pose proof (Hv 0%nat STACK_BUF) as H0. rewrite E0 in H0. cbn in H0.
    destruct ((0 <=? r) && (r <? STACK_BUF)) eqn:Ef.
    + exists 0%nat. intros. by eexists.
    + apply append_loop_total; [done|unfold STACK_BUF, MAX_MEM; lia| |done].
      intros Hres. apply andb_false_iff in Ef as [H|H]; zify_bool; lia.
  - intros text Ht. pose proof (Zlen_nonneg text) as Hn.
    assert (Htake : take (Z.to_nat (Zlen text)) text = text)
      by (apply take_ge; unfold Zlen; lia).
    unfold StringAppendV. destruct (vsnprintf 0 STACK_BUF) as [[r e] c] eqn:E0.
    destruct (Ht 0%nat STACK_BUF) as [Hr Hc]. rewrite E0 in Hr, Hc. cbn in Hr, Hc. subst r.
    rewrite (proj2 (Z.leb_le _ _)) by done. cbn [andb].
    destruct (Zlen text <? STACK_BUF) eqn:Es; zify_bool.
    + rewrite Hc, Htake by done. rewrite (proj2 (Z.ltb_lt _ _)); [done|].
      unfold STACK_BUF, MAX_MEM in *. lia.
    + cbn [append_loop]. rewrite (proj2 (Z.ltb_ge (Zlen text) 0)) by done. cbn [andb].
      pose proof (Hv 0%nat STACK_BUF) as H0. rewrite E0 in H0. cbn in H0.
      rewrite wrap_s_id by (unfold fits_s, INT_MAX in *; lia).
      destruct (Zlen text <? MAX_MEM) eqn:Em; zify_bool.
      * rewrite (proj2 (Z.ltb_ge MAX_MEM _)) by lia. rewrite (proj2 (Z.ltb_ge _ 0)) by lia.
        destruct (vsnprintf 1 (Zlen text + 1)) as [[r1 e1] c1] eqn:E1.
        destruct (Ht 1%nat (Zlen text + 1)) as [Hr1 Hc1]. rewrite E1 in Hr1, Hc1. cbn in Hr1, Hc1. subst r1.
        rewrite (proj2 (Z.leb_le _ _)) by done. rewrite (proj2 (Z.ltb_lt _ _)) by lia. cbn [andb].
        by rewrite Hc1, Htake by lia.
      * by rewrite (proj2 (Z.ltb_lt MAX_MEM _)) by lia.
Qed.
End Printf.

(** ** Correctness of the conversions *)

Lemma zero_at_digit r : -9 <= r <= 9 -> zero_at r = Ok (digit_char (Z.abs r)).
Proof.
  intros Hr. assert (r ∈ seqZ (-9) 19) as Hin by (apply elem_of_seqZ; lia).
  revert Hin. change (seqZ (-9) 19) with
    [-9; -8; -7; -6; -5; -4; -3; -2; -1; 0; 1; 2; 3; 4; 5; 6; 7; 8; 9].
  rewrite !elem_of_cons. intros H. repeat destruct H as [->|H]; try reflexivity. by apply elem_of_nil in H.
Qed.

Lemma digitsHex_char d : 0 <= d < 16 -> vget digitsHex d = Ok (HEX_char d).
Proof.
  intros Hr. assert (d ∈ seqZ 0 16) as Hin by (apply elem_of_seqZ; lia).
  revert Hin. change (seqZ 0 16) with [0; 1; 2; 3; 4; 5; 6; 7; 8; 9; 10; 11; 12; 13; 14; 15].
  rewrite !elem_of_cons. intros H. repeat destruct H as [->|H]; try reflexivity. by apply elem_of_nil in H.
Qed.

Lemma int_loop_spec fuel : forall i out, Z.abs i < 2 ^ Z.of_nat fuel -> (0 < fuel)%nat ->
  int_loop fuel i out = Ok (out ++ (digit_char <$> to_digits_fuel 10 fuel (Z.abs i))).
Proof.
  induction fuel as [|fuel IH]; intros i out Hi Hf; [lia|]. cbn [int_loop to_digits_fuel].
  assert (Habs : Z.abs (Z.rem i 10) = Z.abs i mod 10)
    by (rewrite <- Z.rem_abs, Z.rem_mod_nonneg by lia; done).
  assert (Hq : Z.abs (Z.quot i 10) = Z.abs i / 10)
    by (rewrite <- Z.quot_abs, Z.quot_div_nonneg by lia; done).
  pose proof (Z.mod_pos_bound (Z.abs i) 10 ltac:(lia)).
  rewrite zero_at_digit by lia. rstep. rewrite Habs.
  destruct (Z.quot i 10 =? 0) eqn:E; zify_bool.
  - rewrite E in Hq. rewrite <- Hq. cbn. done.
  - rewrite (proj2 (Z.eqb_neq _ _)) by lia.
    pose proof (div_fuel 10 ltac:(lia) (Z.abs i) fuel ltac:(lia)) as Hd.
    destruct fuel as [|fuel]; [change (2 ^ Z.of_nat 0) with 1 in Hd; lia|].
    rewrite IH by lia. rewrite Hq, <- app_assoc. done.
Qed.

Lemma hex_loop_spec fuel : forall i out, 0 <= i < 2 ^ Z.of_nat fuel -> (0 < fuel)%nat ->
  hex_loop fuel i out = Ok (out ++ (HEX_char <$> to_digits_fuel 16 fuel i)).
Proof.
  induction fuel as [|fuel IH]; intros i out Hi Hf; [lia|]. cbn [hex_loop to_digits_fuel].
  rewrite digitsHex_char by (apply Z.mod_pos_bound; lia). rstep.
  destruct (i / 16 =? 0) eqn:E; zify_bool; [by cbn|].
  pose proof (div_fuel 16 ltac:(lia) i fuel Hi) as Hd.
  destruct fuel as [|fuel]; [change (2 ^ Z.of_nat 0) with 1 in Hd; lia|].
  rewrite IH by lia. by rewrite <- app_assoc.
Qed.

Lemma IntToBuffer_sdec v :
  IntToBuffer v = Ok (sdec v) /\
  (- 2 ^ 63 <= v < 2 ^ 64 -> (0 < length (sdec v) <= 20)%nat).
Proof.
  split.
  - unfold IntToBuffer. rewrite int_loop_spec; [|apply fuel_enough; lia|lia]. rstep.
    cbn [app]. fold (to_digits 10 (Z.abs v)). unfold sdec, dec.
    destruct (v <? 0) eqn:E; zify_bool.
    + rewrite reverse_snoc, fmap_reverse, Z.abs_neq by lia. done.
    + by rewrite fmap_reverse, Z.abs_eq by lia.
  - intros Hv. unfold sdec. destruct (v <? 0) eqn:E; zify_bool.
    + pose proof (dec_length (- v) 19 ltac:(change (10 ^ Z.of_nat 19) with (10 ^ 19); lia) ltac:(lia)).
      cbn [length]. lia.
    + pose proof (dec_length v 20 ltac:(change (10 ^ Z.of_nat 20) with (10 ^ 20); lia) ltac:(lia)). lia.
Qed.

(** IntToBuffer writes the decimal numeral of every integer of every width,
    the most negative ones included: it never reads outside its digit table,
    always terminates, and for a 64-bit type needs at most 20 characters. *)
Theorem IntToBuffer_decimal v :
  IntToBuffer v = Ok (sdec v) /\
  (- 2 ^ 63 <= v < 2 ^ 64 -> (0 < length (sdec v) <= 20)%nat).
Proof. apply IntToBuffer_sdec. Qed.

(** HexToBuffer writes the upper case hexadecimal numeral of every pointer
    value, in at most 16 characters. *)
Theorem HexToBuffer_hexadecimal v :
  0 <= v < 2 ^ 64 -> HexToBuffer v = Ok (HEX v) /\ (0 < length (HEX v) <= 16)%nat.
Proof.
  intros Hv. split.
  - unfold HexToBuffer. rewrite hex_loop_spec; [|split; [lia|apply fuel_enough; lia]|lia]. rstep.
    cbn [app]. fold (to_digits 16 v). unfold HEX. by rewrite fmap_reverse.
  - unfold HEX. rewrite length_fmap, length_reverse.
    apply (to_digits_length 16); [lia|change (16 ^ Z.of_nat 16) with (2 ^ 64); lia|lia].
Qed.

(** ** Correctness of the dump *)

(** What the dump of [data] starting at offset [i] should be. *)
Fixpoint dump (i : Z) (data : bytes) : bytes :=
  match data with
  | [] => []
  | b :: data =>
      (if i mod 16 =? 0 then offset_text i else []) ++ (if i mod 2 =? 0 then str " " else []) ++
      byte_text b ++ dump (i + 1) data
  end.

Lemma length_snprintf_at buf off text :
  0 <= off <= Zlen buf -> length (snprintf_at buf off text) = length buf.
Proof.
  intros Ho. unfold snprintf_at. destruct (_ <=? 0) eqn:E; zify_bool; [done|].
  unfold Zlen in *. repeat rewrite length_app. rewrite length_drop, !length_take. cbn [length]. lia.
Qed.

(** The buffer holds [text] and its NUL at the start. *)
Definition holds (buf text : bytes) : Prop := take (length text + 1) buf = text ++ [0].

Lemma snprintf_at_fits buf text more :
  Zlen text + Zlen more < Zlen buf -> (text = [] \/ holds buf text) ->
  holds (snprintf_at buf (Zlen text) more) (text ++ more).
Proof.
  intros Hlen Ht. unfold snprintf_at, holds. unfold Zlen in *.
  rewrite (proj2 (Z.leb_gt _ _)) by lia. rewrite (take_ge more) by lia. rewrite Nat2Z.id.
  assert (Htake : take (length text) buf = text).
  { destruct Ht as [->|Ht]; [done|]. unfold holds in Ht.
    replace (length text) with (Nat.min (length text) (length text + 1)) at 1 by lia.
    by rewrite <- take_take, Ht, take_app_length. }
  rewrite Htake, !app_assoc. rewrite take_app_le by (rewrite !length_app; cbn; lia).
  apply take_ge. rewrite !length_app. cbn. lia.
Qed.

Lemma dump_piece_fits text more buf :
  Zlen text + Zlen more < Zlen buf -> Zlen buf < 2 ^ 31 -> (text = [] \/ holds buf text) ->
  dump_piece more (buf, Zlen text) = ((snprintf_at buf (Zlen text) more, Zlen (text ++ more)), true).
Proof.
  intros Hlen Hb Ht. unfold dump_piece.
  pose proof (Zlen_nonneg text). pose proof (Zlen_nonneg more).
  rewrite wrap_s_id by (unfold fits_s; lia). rewrite (proj2 (Z.ltb_ge _ _)) by lia.
  by rewrite Zlen_app.
Qed.

(** A piece that is written whole, or skipped. *)
Lemma dump_piece_when (c : bool) text more buf :
  Zlen text + Zlen (if c then more else []) < Zlen buf -> Zlen buf < 2 ^ 31 ->
  (text = [] \/ holds buf text) ->
  exists buf', (if c then dump_piece more (buf, Zlen text) else ((buf, Zlen text), true)) =
      ((buf', Zlen (text ++ (if c then more else []))), true) /\
    length buf' = length buf /\
    (text ++ (if c then more else []) = [] \/ holds buf' (text ++ (if c then more else []))).
Proof.
  intros Hlen Hb Ht. pose proof (Zlen_nonneg text).
  pose proof (Zlen_nonneg (if c then more else [])). destruct c.
  - exists (snprintf_at buf (Zlen text) more). rewrite dump_piece_fits by done. split; [done|].
    split; [apply length_snprintf_at; lia|]. right. by apply snprintf_at_fits.
  - exists buf. rewrite app_nil_r. done.
Qed.

Lemma dump_loop_fits data : forall i text buf,
  Zlen text + Zlen (dump i data) < Zlen buf -> Zlen buf < 2 ^ 31 -> (text = [] \/ holds buf text) ->
  exists buf', dump_loop i data (buf, Zlen text) = (buf', Zlen (text ++ dump i data)) /\
    length buf' = length buf /\ (text ++ dump i data = [] \/ holds buf' (text ++ dump i data)).
Proof.
  induction data as [|b data IH]; intros i text buf Hlen Hb Ht; cbn [dump_loop dump] in *.
  - exists buf. by rewrite app_nil_r.
  - rewrite !Zlen_app in Hlen.
    pose proof (Zlen_nonneg (if i mod 16 =? 0 then offset_text i else [])).
    pose proof (Zlen_nonneg (if i mod 2 =? 0 then str " " else [])).
    pose proof (Zlen_nonneg (byte_text b)). pose proof (Zlen_nonneg (dump (i + 1) data)).
    assert (HZ : forall b' : bytes, length b' = length buf -> Zlen b' = Zlen buf) by (unfold Zlen; intros; lia).
    destruct (dump_piece_when (i mod 16 =? 0) text (offset_text i) buf) as (b1 & -> & L1 & T1); [lia|done|done|].
    cbn [negb]. set (t1 := text ++ _) in *.
    assert (Zlen t1 = Zlen text + Zlen (if i mod 16 =? 0 then offset_text i else []))
      by (unfold t1; apply Zlen_app).
    destruct (dump_piece_when (i mod 2 =? 0) t1 (str " ") b1) as (b2 & -> & L2 & T2);
      [rewrite (HZ b1) by lia; lia|rewrite HZ by lia; lia|done|].
    cbn [negb]. set (t2 := t1 ++ _) in *.
    assert (Zlen t2 = Zlen t1 + Zlen (if i mod 2 =? 0 then str " " else [])) by (unfold t2; apply Zlen_app).
    destruct (dump_piece_when true t2 (byte_text b) b2) as (b3 & E3 & L3 & T3);
      [rewrite (HZ b2) by lia; lia|rewrite HZ by lia; lia|done|].
    cbv iota in E3. rewrite E3. cbn [negb]. cbv iota in T3.
    destruct (IH (i + 1) (t2 ++ byte_text b) b3) as (b4 & E4 & L4 & T4);
      [rewrite Zlen_app, (HZ b3) by lia; lia|rewrite HZ by lia; lia|done|].
    exists b4. rewrite E4. unfold t2, t1 in *. rewrite <- !app_assoc in *. split; [done|]. split; [lia|done].
Qed.

(** The position never leaves the buffer. *)
Lemma dump_piece_bounded text buf cur :
  0 <= cur <= Zlen buf -> Zlen buf < 2 ^ 31 ->
  let '((buf', cur'), _) := dump_piece text (buf, cur) in
  0 <= cur' <= Zlen buf' /\ length buf' = length buf.
Proof.
  intros Hc Hb. unfold dump_piece. pose proof (Zlen_nonneg text).
  assert (Hl : length (snprintf_at buf cur text) = length buf) by (by apply length_snprintf_at).
  rewrite wrap_s_id by (unfold fits_s; lia). unfold Zlen in *.
  destruct (_ <? _) eqn:E; zify_bool; rewrite Hl; (split; [lia|done]).
Qed.

Lemma dump_piece_when_bounded (c : bool) text buf cur :
  0 <= cur <= Zlen buf -> Zlen buf < 2 ^ 31 ->
  exists buf' cur' go, (if c then dump_piece text (buf, cur) else ((buf, cur), true)) = ((buf', cur'), go) /\
    0 <= cur' <= Zlen buf' /\ length buf' = length buf.
Proof.
  intros Hc Hb. destruct c; [|by exists buf, cur, true].
  pose proof (dump_piece_bounded text buf cur Hc Hb) as H.
  destruct (dump_piece text (buf, cur)) as [[b c] g]. by exists b, c, g.
Qed.

Lemma dump_loop_bounded data : forall i buf cur,
  0 <= cur <= Zlen buf -> Zlen buf < 2 ^ 31 ->
  exists buf' cur', dump_loop i data (buf, cur) = (buf', cur') /\
    0 <= cur' <= Zlen buf' /\ length buf' = length buf.
Proof.
  induction data as [|b data IH]; intros i buf cur Hc Hb; cbn [dump_loop]; [by exists buf, cur|].
  destruct (dump_piece_when_bounded (i mod 16 =? 0) (offset_text i) buf cur Hc Hb)
    as (b1 & c1 & g1 & -> & H1 & L1). destruct g1; cbn [negb]; [|by exists b1, c1].
  destruct (dump_piece_when_bounded (i mod 2 =? 0) (str " ") b1 c1 H1 ltac:(unfold Zlen in *; lia))
    as (b2 & c2 & g2 & -> & H2 & L2). destruct g2; cbn [negb]; [|exists b2, c2; by rewrite L2].
  destruct (dump_piece_when_bounded true (byte_text b) b2 c2 H2 ltac:(unfold Zlen in *; lia))
    as (b3 & c3 & g3 & E3 & H3 & L3). cbv iota in E3. rewrite E3.
  destruct g3; cbn [negb]; [|exists b3, c3; split; [done|split; [done|congruence]]].
  destruct (IH (i + 1) b3 c3 H3 ltac:(unfold Zlen in *; lia)) as (b4 & c4 & -> & H4 & L4).
  exists b4, c4. split; [done|]. split; [done|congruence].
Qed.

Lemma HexString_bounded buffer data :
  Zlen buffer < 2 ^ 31 ->
  exists buf len, HexString buffer data = (buf, len) /\ 0 <= len <= Zlen buffer /\ length buf = length buffer.
Proof.
  intros Hb. pose proof (Zlen_nonneg buffer).
  destruct (dump_loop_bounded data 0 buffer 0 ltac:(lia) Hb) as (buf & len & E & Hl & Hlen).
  exists buf, len. split; [done|]. split; [unfold Zlen in *; lia|done].
Qed.

(** The hex dump stays inside the buffer and reports a length of at most its
    size; when the buffer is larger than the dump, the buffer holds the whole
    dump followed by a NUL, and the length is the dump's. *)
Theorem HexString_dump buffer data :
  Zlen buffer < 2 ^ 31 ->
  let '(buf, len) := HexString buffer data in
  length buf = length buffer /\ 0 <= len <= Zlen buffer /\
  (Zlen (dump 0 data) < Zlen buffer ->
     len = Zlen (dump 0 data) /\ (data <> [] -> holds buf (dump 0 data))).
Proof.
  intros Hb. unfold HexString. pose proof (Zlen_nonneg buffer).
  destruct (dump_loop_bounded data 0 buffer 0 ltac:(lia) Hb) as (buf & len & E & Hl & Hlen).
  rewrite E. split; [done|]. split; [unfold Zlen in *; lia|]. intros Hd.
  destruct (dump_loop_fits data 0 [] buffer) as (b2 & E2 & _ & T2);
    [change (Zlen (@nil Z)) with 0; lia|done|by left|].
  change (Zlen (@nil Z)) with 0 in E2. rewrite E in E2. injection E2 as -> ->. cbn [app] in *. split; [done|].
  intros Hne. destruct T2 as [T2|T2]; [|done]. destruct data as [|b data]; [done|].
  cbn in T2. done.
Qed.

(** A dump that ends exactly at the end of the buffer counts its last character,
    although only a NUL was stored there. *)
Example HexString_off_by_one :
  HexString (replicate 11 0) [171] = (str (String (Ascii.ascii_of_nat 10) "0x0000: a") ++ [0], 11).
Proof. vm_compute. reflexivity. Qed.

Lemma StringAppendV_appends_witness :
  let v := fun (n : nat) size => (1500, 0, replicate 1500 65) in
  (exists fuel0, forall fuel, (fuel0 <= fuel)%nat -> exists r, StringAppendV v 75 fuel (str "x") = Ok r) /\
  forall text, (forall n size, (v n size).1.1 = Zlen text /\ (Zlen text < size -> (v n size).2 = text)) ->
    StringAppendV v 75 2 (str "x") = Ok (if Zlen text <? MAX_MEM then str "x" ++ text else str "x").
Proof. intros v. apply (StringAppendV_appends v 75 (str "x")). intros n size. cbn. unfold INT_MAX. lia. Defined.

Lemma HexToBuffer_hexadecimal_witness :
  HEX 48879 = str "BEEF" /\ HexToBuffer 48879 = Ok (HEX 48879) /\ (0 < length (HEX 48879) <= 16)%nat.
Proof. split; [reflexivity|]. apply (HexToBuffer_hexadecimal 48879). lia. Defined.

Lemma IntToBuffer_decimal_witness :
  sdec (- 2 ^ 63) = str "-9223372036854775808" /\
  IntToBuffer (- 2 ^ 63) = Ok (sdec (- 2 ^ 63)) /\
  (- 2 ^ 63 <= - 2 ^ 63 < 2 ^ 64 -> (0 < length (sdec (- 2 ^ 63)) <= 20)%nat).
Proof. split; [vm_compute; reflexivity|]. apply (IntToBuffer_decimal (- 2 ^ 63)). Defined.

Lemma HexString_dump_witness :
  let '(buf, len) := HexString (replicate 64 0) (str "Hi!") in
  length buf = 64%nat /\ 0 <= len <= 64 /\
  (Zlen (dump 0 (str "Hi!")) < 64 ->
     len = Zlen (dump 0 (str "Hi!")) /\ (str "Hi!" <> [] -> holds buf (dump 0 (str "Hi!")))).
Proof. apply (HexString_dump (replicate 64 0) (str "Hi!")). vm_compute. reflexivity. Defined.
