(* ===== verification/Base.v ===== *)
(** * system/ThisProcess, threading/Singleton and base

    claire/common/system/ThisProcess.cc, threading/Singleton.h,
    base/WeakCallback.h, base/StackTrace.cc, base/Exception.{h,cc} and the casts
    of base/Types.h: small parts other components are built on. The answers of the
    C library and the kernel are arguments. *)

From S2P Require Import Prelude Registry Bytes StringUtil.
Open Scope Z_scope.

(** ** ThisProcess *)
Module ThisProcess.

(** The string a char array holds; reading on without a NUL leaves the array. *)
Definition array_string (arr : bytes) : res bytes :=
  if bool_decide (0 ∈ arr) then Ok (c_string arr) else Err OutOfBounds.

(** A char array of [size] bytes initialised with a literal. *)
Definition char_array (size : nat) (text : bytes) : bytes := text ++ replicate (size - length text) 0.

(** snprintf with "%d" into an array. *)
Definition snprintf_d (size : nat) (v : Z) (arr : bytes) : bytes :=
  let out := stored size (sdec v) ++ [0] in out ++ drop (length out) arr.

(* @src claire/common/system/ThisProcess.cc:14-17 pid *)
Definition pid (getpid : Z) : Z := getpid.

(** [garbage] is what the array held. *)
(* @src claire/common/system/ThisProcess.cc:19-24 pid_string *)
Definition pid_string (getpid : Z) (garbage : bytes) : res bytes := array_string (snprintf_d 32 getpid garbage).

(** [result] is the name getpwuid_r found, if any. *)
(* @src claire/common/system/ThisProcess.cc:26-39 User *)
Definition User (result : option bytes) : bytes :=
  match result with Some pw_name => c_string pw_name | None => str "unknownuser" end.

(** [gethostname] is what the call makes of the array. *)
(* @src claire/common/system/ThisProcess.cc:41-47 Host *)
Definition Host (gethostname : bytes -> bytes) : res bytes :=
  let host := <[63%nat := 0]> (char_array 64 (str "unknownhost")) in
  array_string (gethostname host).

(** gethostname(2) for a host called [name]: the bytes of the name and its NUL
    that fit are stored. *)
Definition stores_name (name : bytes) (gethostname : bytes -> bytes) : Prop :=
  forall arr, gethostname arr = take (length arr) (name ++ [0]) ++ drop (length name + 1) arr.

Lemma array_string_ok s rest : Forall (fun c => c <> 0) s -> array_string (s ++ 0 :: rest) = Ok s.
Proof.
  intros Hs. unfold array_string. rewrite bool_decide_eq_true_2 by (apply elem_of_app; right; by left).
  f_equal. induction Hs as [|c s Hc _ IH]; [done|]. cbn. by rewrite (proj2 (Z.eqb_neq _ _)), IH.
Qed.

Lemma sdec_nonzero v : Forall (fun c => c <> 0) (sdec v).
Proof.
  assert (Hd : forall n, 0 <= n -> Forall (fun c => c <> 0) (dec n)).
  { intros n Hn. eapply Forall_impl; [by apply dec_chars|]. intros c Hc. cbv beta in Hc. lia. }
  unfold sdec. destruct (v <? 0) eqn:E; zify_bool; [constructor; [done|]|]; apply Hd; lia.
Qed.

(** The process id's text is its decimal numeral. *)
Theorem pid_string_decimal p garbage : - 2 ^ 31 <= p < 2 ^ 31 -> pid_string p garbage = Ok (sdec p).
Proof.
  intros Hp. unfold pid_string, snprintf_d. destruct (IntToBuffer_sdec p) as [_ Hl]. specialize (Hl ltac:(lia)).
  unfold stored. rewrite take_ge by lia. rewrite <- app_assoc. apply array_string_ok, sdec_nonzero.
Qed.

(** A host name of up to 63 characters is returned; a longer one (Linux allows 64)
    fills the array, whose last byte was cleared before the call and not after it,
    and reading the name leaves the array. *)
Theorem Host_name name gethostname : stores_name name gethostname -> Forall (fun c => c <> 0) name ->
  Host gethostname = if (length name <? 64)%nat then Ok name else Err OutOfBounds.
Proof.
  intros Hg Hn. unfold Host. rewrite Hg. set (arr := <[63%nat := 0]> _).
  assert (length arr = 64%nat) as -> by reflexivity. destruct (length name <? 64)%nat eqn:E.
  - apply Nat.ltb_lt in E. rewrite take_ge by (rewrite length_app; cbn; lia).
    rewrite <- app_assoc. by apply array_string_ok.
  - apply Nat.ltb_ge in E. rewrite drop_ge, app_nil_r, take_app_le by (cbn; lia).
    unfold array_string. rewrite bool_decide_eq_false_2; [done|].
    intros H. apply (Forall_take _ 64%nat) in Hn. rewrite Forall_forall in Hn. by apply (Hn 0).
Qed.

Definition demo_gethostname (name arr : bytes) : bytes := take (length arr) (name ++ [0]) ++ drop (length name + 1) arr.

Lemma Host_name_witness :
  Host (demo_gethostname (str "node1")) = Ok (str "node1") /\ Host (demo_gethostname (replicate 64 97)) = Err OutOfBounds.
Proof.
  split.
  - apply (Host_name (str "node1") (demo_gethostname (str "node1"))); [done|repeat constructor; done].
  - apply (Host_name (replicate 64 97) (demo_gethostname (replicate 64 97))); [done|by apply Forall_replicate].
Defined.
End ThisProcess.

(** ** Singleton *)
Module Singleton.
Section Singleton.
Context {T : Type}.

(** [once] tells whether Init has run for ponce_; [at_exit] counts the Destroy
    handlers registered. *)
(* @src claire/common/threading/Singleton.h:42-43 Singleton *)
Record Singleton := MkSingleton { once : bool; value_ : option ptr; at_exit : nat }.

(* @src claire/common/threading/Singleton.h:46-50 Singleton::ponce_, Singleton::value_ *)
Definition init : Singleton := MkSingleton false None 0.

(** [fresh] is the object the default constructor makes. *)
(* @src claire/common/threading/Singleton.h:29-34 Singleton::Init *)
Definition Init (fresh : T) (s : store T) (g : Singleton) : store T * Singleton :=
  let '(p, s) := new fresh s in (s, MkSingleton (once g) (Some p) (S (at_exit g))).

(** pthread_once runs its routine the first time, and every caller returns after
    it has run. *)
(* @src claire/common/threading/Singleton.h:19-23 Singleton::instance *)
Definition instance (fresh : T) (s : store T) (g : Singleton) : option ptr * store T * Singleton :=
  let '(s, g) := if once g then (s, g)
                 else let '(s, g) := Init fresh s g in (s, MkSingleton true (value_ g) (at_exit g)) in
  (value_ g, s, g).

(* @src claire/common/threading/Singleton.h:36-39 Singleton::Destroy *)
Definition Destroy (s : store T) (g : Singleton) : store T := del (value_ g) s.

(** exit() runs the registered handlers. *)
Fixpoint run_handlers (n : nat) (s : store T) (g : Singleton) : store T :=
  match n with O => s | S n => run_handlers n (Destroy s g) g end.

(** The calls of any number of threads, one after another. *)
Fixpoint instances (calls : list T) (s : store T) (g : Singleton) : list (option ptr) * store T * Singleton :=
  match calls with
  | [] => ([], s, g)
  | x :: calls =>
      let '(p, s, g) := instance x s g in
      let '(ps, s, g) := instances calls s g in (p :: ps, s, g)
  end.

Lemma instances_once calls : forall s g, once g = true ->
  instances calls s g = (replicate (length calls) (value_ g), s, g).
Proof.
  induction calls as [|x calls IH]; intros s g Hg; cbn [instances length replicate]; [done|].
  unfold instance. rewrite Hg. by rewrite IH.
Qed.

(** However many calls are made, one object is constructed, all calls return it,
    and one handler is registered; after the exit handlers have run, a further
    call still returns its address although the object is gone. *)
Theorem instance_unique x calls s : (forall p, (next_addr s <= p)%nat -> objs s !! p = None) ->
  exists s' g p, instances (x :: calls) s init = (replicate (S (length calls)) (Some p), s', g) /\
    objs s' = <[p := x]> (objs s) /\ at_exit g = 1%nat /\
    let s'' := run_handlers (at_exit g) s' g in
    objs s'' = objs s /\ forall y, (instance y s'' g).1.1 = Some p /\ load s'' p = Err NullDeref.
Proof.
  intros Hf. cbn [instances instance init once Init]. unfold instance, init, Init, new. cbn [once value_ at_exit].
  rewrite instances_once by done. eexists _, _, _. split; [reflexivity|]. cbn [objs at_exit run_handlers Destroy].
  split; [done|]. split; [done|]. unfold Destroy. cbn [value_ del objs].
  rewrite delete_insert_id by (by apply Hf). split; [done|]. intros y. cbn. split; [done|].
  unfold load. cbn [objs]. by rewrite Hf.
Qed.
End Singleton.

Lemma instance_unique_witness :
  exists s' g p, instances [str "a"; str "b"; str "c"] store_empty init = (replicate 3 (Some p), s', g) /\
    objs s' = <[p := str "a"]> ∅ /\ at_exit g = 1%nat /\
    let s'' := run_handlers (at_exit g) s' g in
    objs s'' = ∅ /\ forall y, (instance y s'' g).1.1 = Some p /\ load s'' p = Err NullDeref.
Proof. apply (instance_unique (str "a") [str "b"; str "c"] store_empty). intros p _. apply lookup_empty. Defined.
End Singleton.

(** ** Weak callbacks *)
Module WeakCallback.
Section WeakCallback.
Context {Args : Type}.

(** The shared_ptrs of each live object; an object dies with the last of them.
    [died] are the objects destroyed, in order. *)
Record world := MkWorld { owners : gmap ptr nat; died : list ptr }.

(** weak_ptr::lock(). *)
Definition lock (p : ptr) (w : world) : option world :=
  match owners w !! p with
  | Some n => Some (MkWorld (<[p := S n]> (owners w)) (died w))
  | None => None
  end.

(** The end of a shared_ptr. *)
Definition release (p : ptr) (w : world) : world :=
  match owners w !! p with
  | Some (S (S n)) => MkWorld (<[p := S n]> (owners w)) (died w)
  | Some _ => MkWorld (delete p (owners w)) (died w ++ [p])
  | None => w
  end.

(** [function_] is what calling it does to the world. *)
(* @src claire/common/base/WeakCallback.h:33-35 WeakCallback *)
Record WeakCallback := MkWeakCallback { function_ : ptr -> Args -> world -> world; object_ : ptr }.

(** From a method, const or not, and a shared_ptr, of which a weak_ptr is kept. *)
(* @src claire/common/base/WeakCallback.h:38-50 MakeWeakCallback *)
Definition MakeWeakCallback (function : ptr -> Args -> world -> world) (object : ptr) : WeakCallback :=
  MkWeakCallback function object.

(* @src claire/common/base/WeakCallback.h:24-31 WeakCallback::operator() *)
Definition invoke (cb : WeakCallback) (args : Args) (w : world) : world :=
  match lock (object_ cb) w with
  | Some w => release (object_ cb) (function_ cb (object_ cb) args w)
  | None => w
  end.

(** The function gives up at most the owners there are besides the callback's own
    lock. *)
Definition respects_lock (cb : WeakCallback) : Prop :=
  forall args w n, owners w !! object_ cb = Some (S (S n)) ->
    exists m, owners (function_ cb (object_ cb) args w) !! object_ cb = Some (S m).

(** A callback whose object is gone does nothing; otherwise the function runs with
    the object alive to its end, even when it gives up every other owner, in which
    case the object dies as the callback returns. *)
Theorem invoke_keeps_alive cb args w : respects_lock cb ->
  (owners w !! object_ cb = None -> invoke cb args w = w) /\
  forall n, owners w !! object_ cb = Some (S n) ->
    let w1 := MkWorld (<[object_ cb := S (S n)]> (owners w)) (died w) in
    let w2 := function_ cb (object_ cb) args w1 in
    exists m, owners w2 !! object_ cb = Some (S m) /\
      owners (invoke cb args w) !! object_ cb = (if m is O then None else Some m) /\
      died (invoke cb args w) = died w2 ++ (if m is O then [object_ cb] else []).
Proof.
  intros Hr. unfold invoke, lock. split; [by intros ->|]. intros n E. cbv zeta. rewrite E.
  set (w1 := MkWorld _ (died w)). destruct (Hr args w1 n) as (m & Hm); [apply lookup_insert_eq|].
  exists m. split; [done|]. unfold release. rewrite Hm. destruct m as [|m]; cbn [owners died].
  - split; [apply lookup_delete_eq|done].
  - split; [apply lookup_insert_eq|by rewrite app_nil_r].
Qed.
End WeakCallback.

(** A callback that gives up an owner its object has outside. *)
Definition demo_callback : WeakCallback := MakeWeakCallback (fun p (_ : unit) => release p) 1%nat.

Lemma demo_respects : respects_lock demo_callback.
Proof.
  intros args w n Hn. exists n. cbn [demo_callback MakeWeakCallback function_ object_] in *. unfold release. rewrite Hn. apply lookup_insert_eq.
Qed.

Lemma invoke_keeps_alive_witness :
  died (invoke demo_callback () (MkWorld {[1%nat := 1%nat]} [])) = [1%nat] /\
  exists m, owners (release 1%nat (MkWorld {[1%nat := 2%nat]} [])) !! 1%nat = Some (S m).
Proof.
  split; [reflexivity|].
  destruct (proj2 (invoke_keeps_alive demo_callback () (MkWorld {[1%nat := 1%nat]} []) demo_respects) 0%nat)
    as (m & Hm & _); [reflexivity|]. exists m. exact Hm.
Defined.
End WeakCallback.

(** ** Stack traces and exceptions *)
Module StackTrace.
Section StackTrace.
(** abi::__cxa_demangle: the text, or a failure. *)
Variable cxa_demangle : bytes -> option bytes.

(* @src claire/common/base/StackTrace.cc:20-36 demangle *)
Definition demangle (name : bytes) : bytes :=
  match cxa_demangle name with Some demangled => c_string demangled | None => name end.

(** [strings] are backtrace_symbols' answers for backtrace's frames, at most 200. *)
Fixpoint trace_loop (rounds : nat) (strings : list bytes) (i : Z) (stack : bytes) : res bytes :=
  match rounds with
  | O => Ok stack
  | S rounds =>
      name ← vget strings i;
      trace_loop rounds strings (i + 1) (stack ++ demangle name ++ [13; 10])
  end.

(* @src claire/common/base/StackTrace.cc:48-66 GetStackTrace *)
Definition GetStackTrace (escape_depth : Z) (strings : option (list bytes)) : res bytes :=
  match strings with
  | Some strings => trace_loop (Z.to_nat (Zlen strings - escape_depth)) strings escape_depth []
  | None => Ok []
  end.

Lemma trace_loop_lines strings n : forall i stack, 0 <= i -> i + Z.of_nat n = Zlen strings ->
  trace_loop n strings i stack =
    Ok (stack ++ concat ((fun s => demangle s ++ [13; 10]) <$> drop (Z.to_nat i) strings)).
Proof.
  induction n as [|n IH]; intros i stack Hi Hn; cbn [trace_loop].
  - rewrite drop_ge by (unfold Zlen in Hn; lia). cbn. by rewrite app_nil_r.
  - destruct (vget_in strings i) as [s Hs]; [lia|]. rewrite Hs. rstep. rewrite IH by lia.
    apply vget_ok in Hs as [_ Hs]. rewrite (drop_S _ _ _ Hs). cbn [fmap list_fmap concat].
    replace (Z.to_nat (i + 1)) with (S (Z.to_nat i)) by lia. by rewrite <- app_assoc.
Qed.

(** The trace is the demangled frames from the given depth on, a line each; a depth
    beyond the last frame gives an empty one. *)
Theorem GetStackTrace_lines strings depth : 0 <= depth ->
  GetStackTrace depth (Some strings) =
    Ok (concat ((fun s => demangle s ++ [13; 10]) <$> drop (Z.to_nat depth) strings)).
Proof.
  intros Hd. unfold GetStackTrace. destruct (Z.le_gt_cases depth (Zlen strings)) as [Hle|Hgt].
  - by rewrite trace_loop_lines by lia.
  - rewrite Z2Nat.nonpos by lia. rewrite drop_ge by (unfold Zlen in Hgt; lia). done.
Qed.

(* @src claire/common/base/Exception.h:31-33 Exception *)
Record Exception := MkException { what_ : bytes; stack_trace_ : bytes }.

(** From a C string or a std::string; the frames of GetStackTrace and of the
    constructor are left out. *)
(* @src claire/common/base/Exception.cc:10-18 Exception::Exception *)
Definition Exception_new (what : bytes) (strings : option (list bytes)) : res Exception :=
  trace ← GetStackTrace 2 strings; Ok (MkException what trace).

(* @src claire/common/base/Exception.h:21-24 Exception::what *)
Definition what (e : Exception) : bytes := c_string (what_ e).
(* @src claire/common/base/Exception.h:26-29 Exception::stack_trace *)
Definition stack_trace (e : Exception) : bytes := c_string (stack_trace_ e).
End StackTrace.

Lemma GetStackTrace_lines_witness :
  GetStackTrace (fun _ => None) 2 (Some [str "here"; str "caller"; str "main"; str "start"]) =
    Ok (concat ((fun s => s ++ [13; 10]) <$> [str "main"; str "start"])).
Proof.
  apply (GetStackTrace_lines (fun _ => None) [str "here"; str "caller"; str "main"; str "start"] 2). lia.
Defined.
End StackTrace.

(** ** Casts *)
Module Casts.

(** The conversion is the one the compiler finds. *)
(* @src claire/common/base/Types.h:67-71 implicit_cast *)
Definition implicit_cast {To From} (convert : From -> To) (f : From) : To := convert f.

(** [dynamic_cast p] tells whether the object at [p] has the type asked for. *)
(* @src claire/common/base/Types.h:93-109 down_cast *)
Definition down_cast (dynamic_cast : ptr -> bool) (f : option ptr) : res (option ptr) :=
  _ ← check (match f with Some p => dynamic_cast p | None => true end); Ok f.

(* @src claire/common/base/Types.h:111-128 down_pointer_cast *)
Definition down_pointer_cast (dynamic_cast : ptr -> bool) (f : option ptr) : res (option ptr) :=
  _ ← check (match f with Some p => dynamic_cast p | None => true end); Ok f.
End Casts.

(** ** Branch hints *)
Module Likely.

(** The value of __builtin_expect is its first argument; the second is the value
    the compiler takes to be the usual one. *)
Record hinted := Expect { value : Z; expected : Z }.

(* @src claire/common/base/Likely.h:11-11 LIKELY *)
Definition LIKELY (x : Z) : hinted := Expect (if x =? 0 then 0 else 1) 0.
(* @src claire/common/base/Likely.h:12-12 UNLIKELY *)
Definition UNLIKELY (x : Z) : hinted := Expect x 0.

(** Neither macro changes the outcome of a test, and LIKELY gives the compiler the
    hint of UNLIKELY: that the condition is false. *)
Theorem hints_keep_tests x :
  (value (LIKELY x) <> 0 <-> x <> 0) /\ (value (UNLIKELY x) <> 0 <-> x <> 0) /\
  expected (LIKELY x) = expected (UNLIKELY x).
Proof. unfold LIKELY, UNLIKELY. cbn. destruct (x =? 0) eqn:E; zify_bool; lia. Qed.
End Likely.
