(* ===== verification/ThreadMain.v ===== *)
(** * What a new thread runs

    Thread::Priv of claire/common/threading/Thread.cc, the start routine of every
    thread, and ThreadPool::RunInThread, the entry of a worker: the names of the
    thread, the trace context around each task, and the handlers that turn what a
    task throws into a report on stderr and the end of the process. *)

From S2P Require Import Prelude Bytes Trace Threading Base.
Import StackTrace (Exception, MkException, what, stack_trace).

(** What is thrown: an Exception of the library, another std::exception with its
    what(), or anything else. *)
Inductive thrown :=
| Claire (e : Exception)
| Std (what : bytes)
| Other.

(** How a call ends; [Aborted] has called abort(), after which nothing runs. *)
Inductive ending := Returned | Thrown (e : thrown) | Aborted.

Section Main.
(** The memory of the program apart from what is modelled here, and its tasks. *)
Context {M Task : Type}.

Record world := World {
  locals : ThisThread.locals;
  context : Trace.ThisThread;
  stderr : bytes;
  memory : M;
}.

Definition set_locals (l : ThisThread.locals) (w : world) : world :=
  World l (context w) (stderr w) (memory w).
Definition set_context (c : Trace.ThisThread) (w : world) : world :=
  World (locals w) c (stderr w) (memory w).
Definition print (text : bytes) (w : world) : world :=
  World (locals w) (context w) (stderr w ++ text) (memory w).
Definition set_name (name : bytes) (w : world) : world :=
  set_locals (ThisThread.set_thread_name (c_string name) (locals w)) w.

(** *** Thread::Priv *)
Section Thread.
(** Calling entry_, and storing the thread's id through weak_tid_, which does
    nothing when the Thread is gone. *)
Variable entry_ : world -> world * ending.
Variable store_tid : Z -> M -> M.

(** fprintf's line, with %s. *)
Definition line (text arg : bytes) : bytes := text ++ c_string arg ++ [10].

(* @src claire/common/threading/Thread.cc:45-66 Thread::Priv::RunInThread *)
Definition thread_handlers (name : bytes) (r : world * ending) : world * ending :=
  let '(w, e) := r in
  match e with
  | Thrown (Claire e) =>
      let w := set_name (str "crashed") w in
      let w := print (line (str "exception caught in Thread ") name) w in
      let w := print (line (str "reason: ") (what e)) w in
      let w := print (line (str "stack trace: ") (stack_trace e)) w in
      (w, Aborted)
  | Thrown (Std reason) =>
      let w := set_name (str "crashed") w in
      let w := print (line (str "exception caught in Thread ") name) w in
      let w := print (line (str "reason: ") reason) w in
      (w, Aborted)
  | Thrown Other =>
      let w := set_name (str "crashed") w in
      let w := print (line (str "unknown exception caught in Thread ") name) w in
      (w, Thrown Other)
  | Returned => (w, Returned)
  | Aborted => (w, Aborted)
  end.

(** [alive] is whether the Thread still exists when the new thread gets here, and
    [gettid] the result of the system call. *)
(* @src claire/common/threading/Thread.cc:31-67 Thread::Priv::RunInThread *)
Definition Thread_RunInThread (alive : bool) (gettid : Z) (name : bytes) (w : world) : res (world * ending) :=
  w ← (if alive then
         '(tid, l) ← ThisThread.tid gettid (locals w);
         Ok (World l (context w) (stderr w) (store_tid tid (memory w)))
       else Ok w);
  let w := set_name name w in
  Ok (thread_handlers name
    (let '(w, e) := entry_ w in
     match e with Returned => (set_name (str "finished") w, Returned) | _ => (w, e) end)).

(** The boolean is whether the Priv was deleted; an exception that leaves the start
    routine of a thread ends the process. *)
(* @src claire/common/threading/Thread.cc:69-75 Thread::Priv::StartThread *)
Definition StartThread (alive : bool) (gettid : Z) (name : bytes) (w : world) : res (world * ending * bool) :=
  '(w, e) ← Thread_RunInThread alive gettid name w;
  Ok (w, e, match e with Returned => true | _ => false end).
End Thread.

(** *** ThreadPool::RunInThread *)
Section Worker.
(** A task called in a thread. *)
Variable call : Task -> world -> world * ending.

(** The entries that Take returns, the empty one among them, until running_ is
    false. *)
(* @src claire/common/threading/ThreadPool.cc:138-147 ThreadPool::RunInThread *)
Fixpoint run_entries (entries : list (TraceContext * option Task)) (w : world) : world * ending :=
  match entries with
  | [] => (w, Returned)
  | (_, None) :: entries => run_entries entries w
  | (c, Some task) :: entries =>
      let w := set_context (SetTraceContext c (context w)) w in
      let '(w, e) := call task w in
      match e with
      | Returned => run_entries entries (set_context (ResetTraceContext (context w)) w)
      | _ => (w, e)
      end
  end.

(* @src claire/common/threading/ThreadPool.cc:134-167 ThreadPool::RunInThread *)
Definition Pool_RunInThread (name : bytes) (entries : list (TraceContext * option Task)) (w : world)
  : world * ending :=
  let '(w, e) := run_entries entries w in
  match e with
  | Thrown (Claire e) =>
      let w := print (line (str "exception caught in ThreadPool ") name) w in
      let w := print (line (str "reason: ") (what e)) w in
      let w := print (line (str "stack trace: ") (stack_trace e)) w in
      (w, Aborted)
  | Thrown (Std reason) =>
      let w := print (line (str "exception caught in ThreadPool ") name) w in
      let w := print (line (str "reason: ") reason) w in
      (w, Aborted)
  | Thrown Other =>
      let w := print (line (str "unknown exception caught in ThreadPool ") name) w in
      (w, Thrown Other)
  | Returned => (w, Returned)
  | Aborted => (w, Aborted)
  end.

(** ** Proofs *)

Definition returning (o : option Task) : Prop :=
  match o with Some task => forall w, (call task w).2 = Returned | None => True end.

(** The tasks called in order, each within its trace context. *)
Definition serve (entries : list (TraceContext * option Task)) (w : world) : world :=
  foldl (fun w '(c, o) =>
    match o with
    | None => w
    | Some task =>
        let w := (call task (set_context (SetTraceContext c (context w)) w)).1 in
        set_context (ResetTraceContext (context w)) w
    end) w entries.

Lemma run_entries_app l k : Forall (fun e => returning e.2) l -> forall w,
  run_entries (l ++ k) w = run_entries k (serve l w).
Proof.
  induction 1 as [|[c [task|]] l Hr _ IH]; intros w; cbn; [done| |by rewrite IH].
  specialize (Hr (set_context (SetTraceContext c (context w)) w)). unfold SetTraceContext in Hr. cbn in Hr.
  destruct (call task _) as [w2 e]. cbn in Hr. subst e. by rewrite IH.
Qed.

(** The world in which the entry of a new thread starts. *)
Definition started (store_tid : Z -> M -> M) (alive : bool) (gettid : Z) (name : bytes) (l : ThisThread.locals)
  (w : world) : world :=
  set_name name (if alive then World l (context w) (stderr w) (store_tid gettid (memory w)) else w).

Lemma StartThread_started store_tid alive gettid name l entry w :
  ThisThread.tid gettid (locals w) = Ok (gettid, l) ->
  StartThread entry store_tid alive gettid name w =
    (let '(w, e) := thread_handlers name
      (let '(w, e) := entry (started store_tid alive gettid name l w) in
       match e with Returned => (set_name (str "finished") w, Returned) | _ => (w, e) end) in
     Ok (w, e, match e with Returned => true | _ => false end)).
Proof.
  intros Ht. unfold StartThread, Thread_RunInThread, started. destruct alive; rewrite ?Ht; rstep; by destruct (thread_handlers _ _).
Qed.

(** What the handlers of the pool and of the thread print. *)
Definition reports (pool name : bytes) (x : thrown) : bytes :=
  match x with
  | Claire e => line (str "exception caught in ThreadPool ") pool ++ line (str "reason: ") (what e) ++
      line (str "stack trace: ") (stack_trace e)
  | Std reason => line (str "exception caught in ThreadPool ") pool ++ line (str "reason: ") reason
  | Other => line (str "unknown exception caught in ThreadPool ") pool ++
      line (str "unknown exception caught in Thread ") name
  end.

(** C21: A worker runs the tasks it takes in their order, each within the trace context
    it was posted with, and when the pool has stopped it ends as finished and frees
    its start record. A task that throws ends the process: the tasks after it do not
    run, the report names the pool, and only what is not a std::exception gets as
    far as the handler of the thread, which reports once more. *)
Theorem worker_thread store_tid alive gettid name pool l w loc : 
  ThisThread.tid gettid (locals w) = Ok (gettid, loc) -> Forall (fun e => returning e.2) l ->
  let w1 := started store_tid alive gettid name loc w in
  StartThread (Pool_RunInThread pool l) store_tid alive gettid name w =
    Ok (set_name (str "finished") (serve l w1), Returned, true) /\
  forall c task rest w2 x,
    call task (set_context (SetTraceContext c (context (serve l w1))) (serve l w1)) = (w2, Thrown x) ->
    exists w3 e, StartThread (Pool_RunInThread pool (l ++ (c, Some task) :: rest)) store_tid alive gettid name w =
        Ok (w3, e, false) /\
      e = match x with Other => Thrown Other | _ => Aborted end /\
      memory w3 = memory w2 /\ stderr w3 = stderr w2 ++ reports pool name x /\
      ThisThread.t_thread_name (locals w3) =
        match x with Other => str "crashed" | _ => ThisThread.t_thread_name (locals w2) end.
Proof.
  intros Ht Hl w1. split.
  - rewrite (StartThread_started _ _ _ _ loc) by done. fold w1. unfold Pool_RunInThread.
    rewrite <- (app_nil_r l), run_entries_app, app_nil_r by done. done.
  - intros c task rest w2 x Hc. rewrite (StartThread_started _ _ _ _ loc) by done. fold w1.
    unfold Pool_RunInThread. rewrite run_entries_app by done. cbn [run_entries]. rewrite Hc.
    destruct x; cbn [thread_handlers]; eexists _, _; (split; [reflexivity|]);
      cbn [print set_name set_locals locals stderr memory reports]; rewrite <- ?app_assoc; done.
Qed.
End Worker.
End Main.

(** ** Witnesses *)

(** A task writes its number; the odd ones throw. *)
Definition demo_call (task : Z) (w : @world (list (Z * Z))) : @world (list (Z * Z)) * ending :=
  (World (locals w) (context w) (stderr w) (memory w ++ [(task, tTraceId (context w))]),
   if Z.even task then Returned else Thrown (Std (str "odd"))).

Definition demo_world : @world (list (Z * Z)) := World ThisThread.initial (MkThisThread 0 0) [] [].

Definition demo_entries : list (TraceContext * option Z) := [((7, 1), Some 2); ((0, 0), None); ((8, 1), Some 4)].

Example demo_worker :
  StartThread (Pool_RunInThread demo_call (str "pool") (demo_entries ++ [((9, 1), Some 5); ((1, 1), Some 6)]))
    (fun _ m => m) true 4711 (str "pool0") demo_world =
  Ok (World (ThisThread.Locals 4711 (str " 4711 ") (str "pool0")) (MkThisThread 9 1)
        (str "exception caught in ThreadPool pool" ++ [10] ++ str "reason: odd" ++ [10])
        [(2, 7); (4, 8); (5, 9)], Aborted, false).
Proof. vm_compute. reflexivity. Qed.

Lemma worker_thread_witness :
  let w1 := started (fun _ m => m) true 4711 (str "pool0")
    (ThisThread.Locals 4711 (str " 4711 ") (str "unknown")) demo_world in
  StartThread (Pool_RunInThread demo_call (str "pool") demo_entries) (fun _ m => m) true 4711 (str "pool0") demo_world =
    Ok (set_name (str "finished") (serve demo_call demo_entries w1), Returned, true) /\
  forall c task rest w2 x,
    demo_call task (set_context (SetTraceContext c (context (serve demo_call demo_entries w1)))
      (serve demo_call demo_entries w1)) = (w2, Thrown x) ->
    exists w3 e, StartThread (Pool_RunInThread demo_call (str "pool") (demo_entries ++ (c, Some task) :: rest))
        (fun _ m => m) true 4711 (str "pool0") demo_world = Ok (w3, e, false) /\
      e = match x with Other => Thrown Other | _ => Aborted end /\
      memory w3 = memory w2 /\ stderr w3 = stderr w2 ++ reports (str "pool") (str "pool0") x /\
      ThisThread.t_thread_name (locals w3) =
        match x with Other => str "crashed" | _ => ThisThread.t_thread_name (locals w2) end.
Proof.
  apply (worker_thread demo_call (fun _ m => m) true 4711 (str "pool0") (str "pool") demo_entries demo_world);
    [vm_compute; reflexivity|repeat constructor].
Defined.
