(* ===== verification/UriEscape.v ===== *)
(** * strings/UriEscape

    claire/common/strings/UriEscape.{h,cc}, and the two tables of it that
    generate_escape_tables.py writes into EscapeTables.cc. *)

From S2P Require Import Prelude Bytes.

(** The values are used as numbers. *)
(* @src claire/common/strings/UriEscape.h:30-36 EscapeMode *)
Inductive EscapeMode := ALL | QUERY | PATH.

#[export] Instance EscapeMode_eq_dec : EqDecision EscapeMode.
Proof. solve_decision. Defined.

Definition mode_value (m : EscapeMode) : Z := match m with ALL => 0 | QUERY => 1 | PATH => 2 end.

(** Python's range(a, b), which stops before b. *)
Definition in_range (a b i : Z) : bool := (a <=? i) && (i <? b).

(** range('0','9') + range('A','Z') + range('a','z') + "-_.~" *)
(* @src claire/common/strings/generate_escape_tables.py:80-84 passthrough *)
Definition passthrough (i : Z) : bool :=
  in_range 48 57 i || in_range 65 90 i || in_range 97 122 i ||
  bool_decide (i ∈ str "-_.~").

(* @src claire/common/strings/generate_escape_tables.py:85-96 kUriEscapeTable *)
Definition kUriEscapeTable (i : Z) : Z :=
  if passthrough i then 0 else if i =? 47 then 2 else if i =? 32 then 3 else 4.

(* @src claire/common/strings/generate_escape_tables.py:60-72 kHexTable *)
Definition kHexTable (i : Z) : Z :=
  if (48 <=? i) && (i <=? 57) then i - 48
  else if (97 <=? i) && (i <=? 102) then i - 97 + 10
  else if (65 <=? i) && (i <=? 70) then i - 65 + 10
  else 16.

(** kHexValues of UriEscape. *)
Definition kHexValues : bytes := str "0123456789ABCDEF".

(** ** The two loops

    The input is a list of bytes; [run] is what lies between the pointers [last]
    and [p], which is appended to the output in one go. *)

(* @src claire/common/strings/UriEscape.cc:52-78 UriEscape *)
Fixpoint escape_loop (input run output : bytes) (mode : EscapeMode) : res bytes :=
  match input with
  | [] => Ok (output ++ run)
  | v :: rest =>
      let discriminator := kUriEscapeTable v in
      if discriminator <=? mode_value mode then escape_loop rest (run ++ [v]) output mode
      else if bool_decide (mode = QUERY) && (discriminator =? 3)
      then escape_loop rest [] (output ++ run ++ str "+") mode
      else
        h1 ← vget kHexValues (Z.shiftr v 4);
        h2 ← vget kHexValues (Z.land v 15);
        escape_loop rest [] (output ++ run ++ str "%" ++ [h1; h2]) mode
  end.

(* @src claire/common/strings/UriEscape.cc:38-79 UriEscape *)
Definition UriEscape (input output : bytes) (mode : EscapeMode) : res bytes :=
  escape_loop input [] output mode.

(* @src claire/common/strings/UriEscape.cc:90-128 UriUnescape *)
Fixpoint unescape_loop (input run output : bytes) (mode : EscapeMode) : res bytes :=
  match input with
  | [] => Ok (output ++ run)
  | c :: rest =>
      if c =? 37 (* percent *) then
        match rest with
        | a :: b :: rest =>
            let h1 := kHexTable a in
            let h2 := kHexTable b in
            if (h1 =? 16) || (h2 =? 16) then Err InvalidArgument
            else unescape_loop rest [] (output ++ run ++ [Z.lor (Z.shiftl h1 4) h2]) mode
        | _ => Err InvalidArgument
        end
      else if (c =? 43) (* plus *) && bool_decide (mode = QUERY)
      then unescape_loop rest [] (output ++ run ++ str " ") mode
      else unescape_loop rest (run ++ [c]) output mode
  end.

(* @src claire/common/strings/UriEscape.cc:81-129 UriUnescape *)
Definition UriUnescape (input output : bytes) (mode : EscapeMode) : res bytes :=
  unescape_loop input [] output mode.

(** ** The reference: character by character *)

Definition enc (mode : EscapeMode) (v : Z) : bytes :=
  if kUriEscapeTable v <=? mode_value mode then [v]
  else if bool_decide (mode = QUERY) && (v =? 32) then str "+"
  else str "%" ++ [HEX_char (v / 16); HEX_char (v mod 16)].

Lemma kHexValues_char d : 0 <= d < 16 -> vget kHexValues d = Ok (HEX_char d).
Proof.
  intros Hr. assert (d ∈ seqZ 0 16) as Hin by (apply elem_of_seqZ; lia).
  revert Hin. change (seqZ 0 16) with [0; 1; 2; 3; 4; 5; 6; 7; 8; 9; 10; 11; 12; 13; 14; 15].
  rewrite !elem_of_cons. intros H. repeat destruct H as [->|H]; try reflexivity. by apply elem_of_nil in H.
Qed.

Lemma nibbles v : is_byte v -> Z.shiftr v 4 = v / 16 /\ Z.land v 15 = v mod 16 /\
  0 <= v / 16 < 16 /\ 0 <= v mod 16 < 16.
Proof.
  unfold is_byte. intros Hv. split; [by rewrite Z.shiftr_div_pow2 by lia|].
  split; [change 15 with (Z.ones 4); by rewrite Z.land_ones by lia|].
  split; [|apply Z.mod_pos_bound; lia].
  split; [apply Z.div_pos; lia|apply Z.div_lt_upper_bound; lia].
Qed.

Lemma discriminator_space v : kUriEscapeTable v =? 3 = (v =? 32).
Proof.
  unfold kUriEscapeTable. destruct (v =? 32) eqn:E; zify_bool; [by subst|].
  destruct (passthrough v); [done|]. by destruct (v =? 47).
Qed.

Lemma escape_loop_enc mode input : forall run output, Forall is_byte input ->
  escape_loop input run output mode = Ok (output ++ run ++ concat (enc mode <$> input)).
Proof.
  induction input as [|v rest IH]; intros run output Hb; cbn [escape_loop fmap list_fmap concat].
  { by rewrite app_nil_r. }
  apply Forall_cons in Hb as [Hv Hb]. unfold enc at 1. rewrite discriminator_space.
  destruct (_ <=? _); [rewrite IH by done; by rewrite <- !app_assoc|].
  destruct (_ && _); [rewrite IH by done; by rewrite <- !app_assoc|].
  destruct (nibbles v Hv) as (-> & -> & H1 & H2).
  rewrite !kHexValues_char by done. rstep. rewrite IH by done. by rewrite <- !app_assoc.
Qed.

(** ** Round trip *)

Lemma kHexTable_HEX d : 0 <= d < 16 -> kHexTable (HEX_char d) = d.
Proof.
  intros Hr. assert (d ∈ seqZ 0 16) as Hin by (apply elem_of_seqZ; lia).
  revert Hin. change (seqZ 0 16) with [0; 1; 2; 3; 4; 5; 6; 7; 8; 9; 10; 11; 12; 13; 14; 15].
  rewrite !elem_of_cons. intros H. repeat destruct H as [->|H]; try reflexivity. by apply elem_of_nil in H.
Qed.

Lemma join_nibbles v : is_byte v -> Z.lor (Z.shiftl (v / 16) 4) (v mod 16) = v.
Proof.
  intros Hv. destruct (nibbles v Hv) as (Hs & Hl & H1 & H2).
  rewrite <- Hs, <- Hl. change 15 with (Z.ones 4).
  apply Z.bits_inj'. intros n Hn. rewrite Z.lor_spec, Z.land_spec.
  destruct (decide (n < 4)).
  - rewrite Z.shiftl_spec_low, Z.ones_spec_low by lia. by rewrite andb_true_r.
  - rewrite Z.shiftl_spec, Z.shiftr_spec, Z.ones_spec_high by lia.
    rewrite andb_false_r, orb_false_r. f_equal. lia.
Qed.

(** A byte that is passed through is neither '%' nor, in QUERY mode, '+'. *)
Lemma passed_plain mode v : kUriEscapeTable v <= mode_value mode -> v <> 37 /\ v <> 43.
Proof.
  intros H. split; intros ->; revert H; destruct mode; vm_compute; congruence.
Qed.

Lemma unescape_enc mode v : forall rest run output, is_byte v ->
  exists run' output', unescape_loop (enc mode v ++ rest) run output mode =
      unescape_loop rest run' output' mode /\ output' ++ run' = output ++ run ++ [v].
Proof.
  intros rest run output Hv. unfold enc. destruct (_ <=? _) eqn:Ep; zify_bool.
  - destruct (passed_plain mode v Ep). exists (run ++ [v]), output. cbn [app unescape_loop].
    rewrite (proj2 (Z.eqb_neq v 37)), (proj2 (Z.eqb_neq v 43)) by done. done.
  - destruct (bool_decide (mode = QUERY)) eqn:Em; cbn [andb].
    + destruct (v =? 32) eqn:E; zify_bool; [subst v|].
      * exists [], (output ++ run ++ str " "). cbn [app unescape_loop str]. cbn. rewrite Em. cbn.
        split; [done|]. by rewrite app_nil_r.
      * exists [], (output ++ run ++ [v]). cbn. destruct (nibbles v Hv) as (_ & _ & H1 & H2).
        rewrite !kHexTable_HEX by done.
        rewrite (proj2 (Z.eqb_neq (v / 16) 16)), (proj2 (Z.eqb_neq (v mod 16) 16)) by lia. cbn [orb].
        rewrite join_nibbles by done. by rewrite app_nil_r.
    + exists [], (output ++ run ++ [v]). cbn. destruct (nibbles v Hv) as (_ & _ & H1 & H2).
      rewrite !kHexTable_HEX by done.
      rewrite (proj2 (Z.eqb_neq (v / 16) 16)), (proj2 (Z.eqb_neq (v mod 16) 16)) by lia. cbn [orb].
      rewrite join_nibbles by done. by rewrite app_nil_r.
Qed.

Lemma unescape_all mode input : forall run output, Forall is_byte input ->
  unescape_loop (concat (enc mode <$> input)) run output mode = Ok (output ++ run ++ input).
Proof.
  induction input as [|v rest IH]; intros run output Hb; cbn [fmap list_fmap concat].
  { cbn. by rewrite app_nil_r. }
  apply Forall_cons in Hb as [Hv Hb].
  destruct (unescape_enc mode v (concat (enc mode <$> rest)) run output Hv) as (run' & out' & -> & Hr).
  rewrite IH by done. rewrite app_assoc, Hr. by rewrite <- !app_assoc.
Qed.

(** C36: unescaping what UriEscape produced gives back the original, for every
    byte string and in every mode; both append to what the output already held. *)
Theorem unescape_escape input out1 out2 mode :
  Forall is_byte input ->
  exists text, UriEscape input out1 mode = Ok (out1 ++ text) /\
    UriUnescape text out2 mode = Ok (out2 ++ input).
Proof.
  intros Hb. exists (concat (enc mode <$> input)). unfold UriEscape, UriUnescape.
  rewrite escape_loop_enc, unescape_all by done. done.
Qed.

(** Exactly these bytes are left unchanged by UriEscape: the digits except 9,
    the letters except Z and z, the characters - _ . ~, and the slash in PATH
    mode; every other byte becomes a plus sign (a space in QUERY mode) or a
    percent sign and two upper case hexadecimal digits. The exclusive ranges of
    the table generator are what excludes 9, Z and z. *)
Theorem UriEscape_unchanged c mode :
  is_byte c ->
  (UriEscape [c] [] mode = Ok [c] <->
    (48 <= c <= 57 /\ c <> 57) \/ (65 <= c <= 90 /\ c <> 90) \/ (97 <= c <= 122 /\ c <> 122) \/
    c ∈ str "-_.~" \/ (mode = PATH /\ c = 47)) /\
  (UriEscape [c] [] mode = Ok [c] \/
   (mode = QUERY /\ c = 32 /\ UriEscape [c] [] mode = Ok (str "+")) \/
   UriEscape [c] [] mode = Ok (str "%" ++ [HEX_char (c / 16); HEX_char (c mod 16)])).
Proof.
  intros Hc. unfold UriEscape. rewrite escape_loop_enc by (by apply Forall_singleton).
  cbn [fmap list_fmap concat]. rewrite app_nil_r, !app_nil_l.
  assert (Hp : passthrough c = true <-> (48 <= c <= 57 /\ c <> 57) \/ (65 <= c <= 90 /\ c <> 90) \/
    (97 <= c <= 122 /\ c <> 122) \/ c ∈ str "-_.~").
  { unfold passthrough, in_range. rewrite !orb_true_iff, !andb_true_iff, !Z.leb_le, !Z.ltb_lt.
    rewrite bool_decide_eq_true. intuition lia. }
  assert (Ht : kUriEscapeTable c <= mode_value mode <-> passthrough c = true \/ (mode = PATH /\ c = 47)).
  { unfold kUriEscapeTable. destruct (passthrough c) eqn:E.
    - split; [by left|]. intros _. destruct mode; cbn; lia.
    - destruct (c =? 47) eqn:E1; zify_bool.
      + destruct mode; cbn; intuition (try lia; try discriminate).
      + destruct (c =? 32); destruct mode; cbn; intuition (try lia; try discriminate). }
  unfold enc. destruct (_ <=? _) eqn:El; zify_bool.
  - split; [|by left]. split; [|done]. intros _. tauto.
  - assert (Hne : forall l : bytes, length l <> 1%nat -> Ok l <> Ok [c]) by (intros l Hl [= ->]; done).
    destruct (bool_decide (mode = QUERY) && (c =? 32)) eqn:Eq.
    + apply andb_true_iff in Eq as [Hm%bool_decide_eq_true Hs%Z.eqb_eq]. subst.
      split; [|right; by left]. split; [discriminate|]. intros H.
      exfalso. apply Z.lt_nge in El. apply El, Ht. tauto.
    + split; [|by right; right]. split; [intros H; by apply Hne in H|].
      intros H. exfalso. apply Z.lt_nge in El. apply El, Ht. tauto.
Qed.

(** Unescaping bytes gives bytes. *)
Lemma kHexTable_range c : 0 <= kHexTable c <= 16.
Proof. unfold kHexTable. repeat case_match; zify_bool; lia. Qed.

Lemma nibbles_byte h l : 0 <= h < 16 -> 0 <= l < 16 -> is_byte (Z.lor (Z.shiftl h 4) l).
Proof.
  intros Hh Hl. assert (is_byte (16 * h + l)) as Hb by (unfold is_byte; lia). pose proof (join_nibbles _ Hb) as Hj.
  replace ((16 * h + l) / 16) with h in Hj by (apply Z.div_unique with l; lia).
  replace ((16 * h + l) mod 16) with l in Hj by (apply Z.mod_unique with h; lia). by rewrite Hj.
Qed.

Lemma unescape_bytes mode n : forall input run output text, (length input <= n)%nat -> Forall is_byte input ->
  Forall is_byte run -> Forall is_byte output -> unescape_loop input run output mode = Ok text -> Forall is_byte text.
Proof.
  induction n as [|n IH]; intros input run output text Hn Hi Hr Ho H.
  { destruct input; [|cbn in Hn; lia]. injection H as <-. by apply Forall_app. }
  destruct input as [|c rest]; [injection H as <-; by apply Forall_app|].
  apply Forall_cons in Hi as [Hc Hi]. cbn [unescape_loop length] in *. destruct (c =? 37).
  - destruct rest as [|a [|b rest]]; [done..|]. apply Forall_cons in Hi as [_ Hi]. apply Forall_cons in Hi as [_ Hi].
    destruct (_ || _) eqn:E; [done|]. zify_bool. cbn [length] in Hn. apply (IH rest) in H; [done|lia|done|constructor|].
    apply Forall_app. split; [done|]. apply Forall_app. split; [done|]. constructor; [|constructor].
    pose proof (kHexTable_range a). pose proof (kHexTable_range b). apply nibbles_byte; lia.
  - destruct (_ && _).
    + apply (IH rest) in H; [done|lia|done|constructor|]. rewrite !Forall_app. split_and!; [done|done|repeat constructor; done].
    + apply (IH rest) in H; [done|lia|done| |done]. apply Forall_app. split; [done|by constructor].
Qed.

(** ** Malformed input *)

(** Every percent sign is followed by two hexadecimal digits. *)
Definition is_hex (c : Z) : bool := negb (kHexTable c =? 16).

Fixpoint well_formed (input : bytes) : bool :=
  match input with
  | [] => true
  | c :: rest =>
      if c =? 37 then match rest with a :: b :: rest => is_hex a && is_hex b && well_formed rest | _ => false end
      else well_formed rest
  end.

Lemma unescape_loop_result mode n : forall input run output, (length input <= n)%nat ->
  if well_formed input then exists text, unescape_loop input run output mode = Ok (output ++ run ++ text) /\
    (length text <= length input)%nat
  else unescape_loop input run output mode = Err InvalidArgument.
Proof.
  induction n as [|n IH]; intros input run output Hlen.
  { destruct input; [|cbn in Hlen; lia]. exists []. cbn. by rewrite app_nil_r. }
  destruct input as [|c rest]; [exists []; cbn; by rewrite app_nil_r|]. cbn [well_formed unescape_loop].
  cbn in Hlen. destruct (c =? 37) eqn:Ec.
  - destruct rest as [|a [|b rest]]; [done..|]. unfold is_hex.
    destruct (kHexTable a =? 16) eqn:Ea; cbn [negb andb orb]; [done|].
    destruct (kHexTable b =? 16) eqn:Eb; cbn [negb andb orb]; [done|].
    cbn in Hlen. specialize (IH rest [] (output ++ run ++ [Z.lor (Z.shiftl (kHexTable a) 4) (kHexTable b)]) ltac:(lia)).
    destruct (well_formed rest); [|done]. destruct IH as (text & -> & Hl).
    exists (Z.lor (Z.shiftl (kHexTable a) 4) (kHexTable b) :: text). rewrite <- !app_assoc. cbn. split; [done|lia].
  - destruct ((c =? 43) && bool_decide (mode = QUERY)).
    + specialize (IH rest [] (output ++ run ++ str " ") ltac:(lia)).
      destruct (well_formed rest); [|done]. destruct IH as (text & -> & Hl).
      exists (str " " ++ text). rewrite <- !app_assoc. cbn. split; [done|lia].
    + specialize (IH rest (run ++ [c]) output ltac:(lia)).
      destruct (well_formed rest); [|done]. destruct IH as (text & -> & Hl).
      exists (c :: text). rewrite <- !app_assoc. cbn. split; [done|lia].
Qed.

(** UriUnescape throws invalid_argument exactly when some percent sign is not
    followed by two hexadecimal digits, and otherwise appends at most as many
    bytes as it read. *)
Theorem UriUnescape_errors input output mode :
  (UriUnescape input output mode = Err InvalidArgument <-> well_formed input = false) /\
  (well_formed input = true -> exists text, UriUnescape input output mode = Ok (output ++ text) /\
     (length text <= length input)%nat).
Proof.
  unfold UriUnescape. pose proof (unescape_loop_result mode _ input [] output (le_n _)) as H.
  destruct (well_formed input).
  - destruct H as (text & Ht & Hl). rewrite Ht. split; [done|]. intros _. by exists text.
  - by rewrite H.
Qed.

Lemma unescape_escape_witness :
  exists text, UriEscape (str "a b/9%") (str "q=") QUERY = Ok (str "q=" ++ text) /\
    UriUnescape text [] QUERY = Ok ([] ++ str "a b/9%").
Proof. apply (unescape_escape (str "a b/9%") (str "q=") [] QUERY). repeat constructor; lia. Defined.

Lemma UriEscape_unchanged_witness :
  UriEscape (str "9") [] ALL = Ok (str "%39") /\
  (UriEscape [57] [] ALL = Ok [57] <->
    (48 <= 57 <= 57 /\ 57 <> 57) \/ (65 <= 57 <= 90 /\ 57 <> 90) \/ (97 <= 57 <= 122 /\ 57 <> 122) \/
    57 ∈ str "-_.~" \/ (ALL = PATH /\ 57 = 47)) /\
  (UriEscape [57] [] ALL = Ok [57] \/
   (ALL = QUERY /\ 57 = 32 /\ UriEscape [57] [] ALL = Ok (str "+")) \/
   UriEscape [57] [] ALL = Ok (str "%" ++ [HEX_char (57 / 16); HEX_char (57 mod 16)])).
Proof. split; [reflexivity|]. apply (UriEscape_unchanged 57 ALL). unfold is_byte. lia. Defined.

Lemma UriUnescape_errors_witness :
  (UriUnescape (str "50%") [] ALL = Err InvalidArgument <-> well_formed (str "50%") = false) /\
  (well_formed (str "50%") = true -> exists text, UriUnescape (str "50%") [] ALL = Ok ([] ++ text) /\
     (length text <= length (str "50%"))%nat).
Proof. apply (UriUnescape_errors (str "50%") [] ALL). Defined.
