(* ===== verification/StringPiece.v ===== *)
(** * strings/StringPiece

    claire/common/strings/StringPiece.{h,cc}. A piece is a pointer into an object
    and a length; the pointer is modelled by the bytes from it to the end of the
    object, so that an access beyond the object is a fault. *)

From S2P Require Import Prelude Bytes.

(* @src claire/common/strings/StringPiece.h:226-229 StringPiece *)
Record StringPiece := Piece { ptr_ : bytes; length_ : Z }.

(* @src claire/common/strings/StringPiece.cc:107-107 StringPiece::npos *)
Definition npos : Z := SIZE_MAX.

Definition strlen (s : bytes) : Z := Zlen (c_string s).

(** From a char pointer ([None] is NULL), a std::string, and a range. *)
(* @src claire/common/strings/StringPiece.h:40-41 StringPiece::StringPiece *)
Definition of_cstr (s : option bytes) : StringPiece :=
  match s with None => Piece [] 0 | Some s => Piece s (strlen s) end.
(* @src claire/common/strings/StringPiece.h:43-44 StringPiece::StringPiece *)
Definition of_string (s : bytes) : StringPiece := Piece s (Zlen s).
(* @src claire/common/strings/StringPiece.h:46-47 StringPiece::StringPiece *)
Definition of_range (offset : bytes) (len : Z) : StringPiece := Piece offset len.

(* @src claire/common/strings/StringPiece.h:38-38 StringPiece::StringPiece *)
Definition StringPiece_new : StringPiece := Piece [] 0.
(** [right] is what is left of [left]'s object at the second pointer. *)
(* @src claire/common/strings/StringPiece.h:49-53 StringPiece::StringPiece *)
Definition of_pointers (left right : bytes) : res StringPiece :=
  let len := Zlen left - Zlen right in
  _ ← check (0 <=? len); Ok (Piece left (uint64 len)).

(* @src claire/common/strings/StringPiece.h:64-65 clear, set *)
Definition clear (p : StringPiece) : StringPiece := Piece [] 0.
Definition set (s : bytes) (len : Z) (p : StringPiece) : StringPiece := Piece s len.
(* @src claire/common/strings/StringPiece.h:66-77 StringPiece::set *)
Definition set_cstr (s : option bytes) (p : StringPiece) : StringPiece := of_cstr s.

(* @src claire/common/strings/StringPiece.h:60-62 size, length, empty *)
Definition size (p : StringPiece) : Z := length_ p.
Definition empty (p : StringPiece) : bool := length_ p =? 0.

(* @src claire/common/strings/StringPiece.h:85-85 operator[] *)
Definition at_index (p : StringPiece) (n : Z) : res Z := vget (ptr_ p) n.

(** The range [p, p + n) of an object. *)
Definition range (s : bytes) (n : Z) : res bytes :=
  if (0 <=? n) && (n <=? Zlen s) then Ok (take (Z.to_nat n) s) else Err OutOfBounds.

(** The sign of memcmp over two ranges of equal length. *)
Fixpoint memcmp_loop (a b : bytes) : Z :=
  match a, b with
  | x :: a, y :: b => if x <? y then -1 else if y <? x then 1 else memcmp_loop a b
  | _, _ => 0
  end.

Definition memcmp (a b : bytes) (n : Z) : res Z :=
  a ← range a n; b ← range b n; Ok (memcmp_loop a b).

(** [p + n]. *)
Definition plus (s : bytes) (n : Z) : bytes := drop (Z.to_nat n) s.

(* @src claire/common/strings/StringPiece.h:87-91 StringPiece::starts_with *)
Definition starts_with (p x : StringPiece) : res bool :=
  if length_ x <=? length_ p then r ← memcmp (ptr_ p) (ptr_ x) (length_ x); Ok (r =? 0)
  else Ok false.

(* @src claire/common/strings/StringPiece.h:93-97 StringPiece::end_with *)
Definition end_with (p x : StringPiece) : res bool :=
  if length_ x <=? length_ p
  then r ← memcmp (plus (ptr_ p) (length_ p - length_ x)) (ptr_ x) (length_ x); Ok (r =? 0)
  else Ok false.

(* @src claire/common/strings/StringPiece.h:99-104 StringPiece::remove_prefix *)
Definition remove_prefix (n : Z) (p : StringPiece) : res StringPiece :=
  _ ← check (n <=? length_ p);
  Ok (Piece (plus (ptr_ p) n) (length_ p - n)).

(* @src claire/common/strings/StringPiece.h:106-110 StringPiece::remove_suffix *)
Definition remove_suffix (n : Z) (p : StringPiece) : res StringPiece :=
  _ ← check (n <=? length_ p);
  Ok (Piece (ptr_ p) (length_ p - n)).

(* @src claire/common/strings/StringPiece.h:112-128 StringPiece::compare *)
Definition compare (p x : StringPiece) : res Z :=
  r ← memcmp (ptr_ p) (ptr_ x) (Z.min (length_ p) (length_ x));
  Ok (if r =? 0 then
        if length_ p <? length_ x then -1 else if length_ x <? length_ p then r + 1 else r
      else r).

(* @src claire/common/strings/StringPiece.h:130-133 StringPiece::ToString *)
Definition ToString (p : StringPiece) : res bytes := range (ptr_ p) (length_ p).

(* @src claire/common/strings/StringPiece.h:135-138 StringPiece::CopyToString *)
Definition CopyToString (p : StringPiece) (target : bytes) : res bytes := range (ptr_ p) (length_ p).

(* @src claire/common/strings/StringPiece.h:140-143 StringPiece::AppendToString *)
Definition AppendToString (p : StringPiece) (target : bytes) : res bytes :=
  s ← range (ptr_ p) (length_ p); Ok (target ++ s).

(** advance moves the pointer and leaves the length alone. *)
(* @src claire/common/strings/StringPiece.h:202-207 StringPiece::advance *)
Definition advance (offset : Z) (p : StringPiece) : res StringPiece :=
  _ ← check (offset <? length_ p);
  Ok (Piece (plus (ptr_ p) offset) (length_ p)).

(* @src claire/common/strings/StringPiece.h:209-224 assign, reset *)
Definition reset (start : bytes) (len : Z) (p : StringPiece) : StringPiece := Piece start len.

(* @src claire/common/strings/StringPiece.cc:38-43 StringPiece::_equal *)
Fixpoint equal_loop (n : nat) (p p2 : bytes) : res bool :=
  match n with
  | O => Ok true
  | S n =>
      x ← vget p 0; y ← vget p2 0;
      if x =? y then equal_loop n (plus p 1) (plus p2 1) else Ok false
  end.

(* @src claire/common/strings/StringPiece.cc:26-44 StringPiece::_equal *)
Definition equal (x y : StringPiece) : res bool :=
  let len := length_ x in
  if negb (len =? length_ y) then Ok false
  else
    differ ← (if 0 <? len
              then a ← vget (ptr_ x) (len - 1); b ← vget (ptr_ y) (len - 1); Ok (negb (a =? b))
              else Ok false);
    if differ : bool then Ok false else equal_loop (Z.to_nat len) (ptr_ x) (ptr_ y).

(* @src claire/common/strings/StringPiece.h:241-246 operator< *)
Definition lt (x y : StringPiece) : res bool :=
  r ← memcmp (ptr_ x) (ptr_ y) (Z.min (length_ x) (length_ y));
  Ok ((r <? 0) || ((r =? 0) && (length_ x <? length_ y))).

(* @src claire/common/strings/StringPiece.h:248-261 operator>, operator<=, operator>= *)
Definition gt (x y : StringPiece) : res bool := lt y x.
Definition le (x y : StringPiece) : res bool := b ← gt x y; Ok (negb b).
Definition ge (x y : StringPiece) : res bool := b ← lt x y; Ok (negb b).

(** What is copied to the buffer; its length is the result. *)
(* @src claire/common/strings/StringPiece.cc:46-51 StringPiece::copy *)
Definition copy (n pos : Z) (p : StringPiece) : res bytes :=
  range (plus (ptr_ p) pos) (Z.min (uint64 (length_ p - pos)) n).

(** std::search over [hay]: the offset of the first occurrence, or its length. *)
Fixpoint search (hay needle : bytes) : nat :=
  if bool_decide (needle `prefix_of` hay) then 0%nat
  else match hay with [] => 0%nat | _ :: hay => S (search hay needle) end.

(** std::find_end with a non-empty needle: the last occurrence. *)
Fixpoint find_last (hay needle : bytes) : option nat :=
  match hay with
  | [] => None
  | _ :: rest =>
      match find_last rest needle with
      | Some i => Some (S i)
      | None => if bool_decide (needle `prefix_of` hay) then Some 0%nat else None
      end
  end.

(* @src claire/common/strings/StringPiece.cc:53-64 StringPiece::find *)
Definition find (p s : StringPiece) (pos : Z) : res Z :=
  if length_ p <? pos then Ok npos
  else
    hay ← range (plus (ptr_ p) pos) (length_ p - pos);
    needle ← range (ptr_ s) (length_ s);
    let xpos := pos + Z.of_nat (search hay needle) in
    Ok (if uint64 (xpos + length_ s) <=? length_ p then xpos else npos).

Fixpoint find_char_loop (hay : bytes) (c : Z) (i : Z) : option Z :=
  match hay with
  | [] => None
  | x :: hay => if x =? c then Some i else find_char_loop hay c (i + 1)
  end.

(* @src claire/common/strings/StringPiece.cc:66-74 StringPiece::find *)
Definition find_char (p : StringPiece) (c : Z) (pos : Z) : res Z :=
  if (length_ p <=? 0) || (length_ p <=? pos) then Ok npos
  else
    hay ← range (plus (ptr_ p) pos) (length_ p - pos);
    Ok (match find_char_loop hay c pos with Some i => i | None => npos end).

(* @src claire/common/strings/StringPiece.cc:76-85 StringPiece::rfind *)
Definition rfind (p s : StringPiece) (pos : Z) : res Z :=
  if length_ p <? length_ s then Ok npos
  else if length_ s =? 0 then Ok (Z.min (length_ p) pos)
  else
    let last := Z.min (length_ p - length_ s) pos + length_ s in
    hay ← range (ptr_ p) last;
    needle ← range (ptr_ s) (length_ s);
    Ok (match find_last hay needle with Some i => Z.of_nat i | None => npos end).

(** The loop counts down from [i] - 1. *)
(* @src claire/common/strings/StringPiece.cc:90-96 StringPiece::rfind *)
Fixpoint rfind_char_loop (i : nat) (s : bytes) (c : Z) : res Z :=
  match i with
  | O => Ok npos
  | S i => x ← vget s (Z.of_nat i); if x =? c then Ok (Z.of_nat i) else rfind_char_loop i s c
  end.

(* @src claire/common/strings/StringPiece.cc:87-98 StringPiece::rfind *)
Definition rfind_char (p : StringPiece) (c : Z) (pos : Z) : res Z :=
  if length_ p <=? 0 then Ok npos
  else rfind_char_loop (Z.to_nat (int32 (Z.min pos (length_ p - 1)) + 1)) (ptr_ p) c.

(* @src claire/common/strings/StringPiece.cc:100-105 StringPiece::substr *)
Definition substr (p : StringPiece) (pos n : Z) : StringPiece :=
  let pos := if length_ p <? pos then length_ p else pos in
  let n := if length_ p - pos <? n then length_ p - pos else n in
  Piece (plus (ptr_ p) pos) n.

(** *** Iterators

    An iterator is the offset of its pointer from [ptr_]; a reverse iterator
    reads the character before its pointer (std::reverse_iterator). *)

(* @src claire/common/strings/StringPiece.h:162-165 begin, end, cbegin, cend *)
Definition begin_ (p : StringPiece) : Z := 0.
Definition end_ (p : StringPiece) : Z := length_ p.
(* @src claire/common/strings/StringPiece.h:167-185 rbegin, rend, crbegin, crend *)
Definition rbegin (p : StringPiece) : Z := length_ p.
Definition rend (p : StringPiece) : Z := 0.

(** What a loop from [it] to [last] reads; [fuel] bounds its passes. *)
Fixpoint iterate (fuel : nat) (p : StringPiece) (it last : Z) : res bytes :=
  if it =? last then Ok []
  else match fuel with
       | O => Err NoFuel
       | S fuel => c ← at_index p it; l ← iterate fuel p (it + 1) last; Ok (c :: l)
       end.

Fixpoint riterate (fuel : nat) (p : StringPiece) (it last : Z) : res bytes :=
  if it =? last then Ok []
  else match fuel with
       | O => Err NoFuel
       | S fuel => c ← at_index p (it - 1); l ← riterate fuel p (it - 1) last; Ok (c :: l)
       end.

(** ** Contents *)

(** The piece lies inside its object. *)
Definition wf (p : StringPiece) : Prop := 0 <= length_ p <= Zlen (ptr_ p) /\ length_ p < 2 ^ 63.

Definition content (p : StringPiece) : bytes := take (Z.to_nat (length_ p)) (ptr_ p).

Lemma length_content p : wf p -> Zlen (content p) = length_ p.
Proof. unfold wf, content, Zlen. intros. rewrite length_take. lia. Qed.

Lemma range_ok s n : 0 <= n <= Zlen s -> range s n = Ok (take (Z.to_nat n) s).
Proof. intros. unfold range. by rewrite (proj2 (Z.leb_le _ _)), (proj2 (Z.leb_le n _)) by lia. Qed.

Lemma Zlen_plus s n : 0 <= n <= Zlen s -> Zlen (plus s n) = Zlen s - n.
Proof. unfold Zlen, plus. intros. rewrite length_drop. lia. Qed.

Lemma ToString_content p : wf p -> ToString p = Ok (content p).
Proof. intros Hp. unfold ToString. apply range_ok. apply Hp. Qed.

(** The lexicographic order of byte strings. *)
Fixpoint lex (l k : bytes) : comparison :=
  match l, k with
  | [], [] => Eq
  | [], _ :: _ => Lt
  | _ :: _, [] => Gt
  | x :: l, y :: k => match x ?= y with Eq => lex l k | c => c end
  end.

Lemma lex_eq l : forall k, lex l k = Eq <-> l = k.
Proof.
  induction l as [|x l IH]; intros [|y k]; cbn; try done.
  destruct (Z.compare_spec x y); [|split; [done|intros [= -> ->]; lia]..].
  rewrite IH. naive_solver.
Qed.

Lemma lex_antisym l : forall k, lex k l = CompOpp (lex l k).
Proof.
  induction l as [|x l IH]; intros [|y k]; cbn; try done.
  rewrite Z.compare_antisym. destruct (x ?= y); cbn; [apply IH|done|done].
Qed.

Definition lex_sign (l k : bytes) : Z := match lex l k with Lt => -1 | Eq => 0 | Gt => 1 end.

Lemma memcmp_loop_lex l : forall k,
  let n := Nat.min (length l) (length k) in
  lex_sign l k = let r := memcmp_loop (take n l) (take n k) in
    if r =? 0 then if (length l <? length k)%nat then -1 else if (length k <? length l)%nat then 1 else 0
    else r.
Proof.
  unfold lex_sign. induction l as [|x l IH]; intros [|y k]; cbn; try done.
  destruct (x ?= y) eqn:E.
  - apply Z.compare_eq in E as ->. rewrite Z.ltb_irrefl. apply IH.
  - by rewrite (proj2 (Z.ltb_lt x y)).
  - apply Z.gt_lt in E. rewrite (proj2 (Z.ltb_ge x y)), (proj2 (Z.ltb_lt y x)) by lia. done.
Qed.

Lemma memcmp_min p x : wf p -> wf x ->
  exists r, memcmp (ptr_ p) (ptr_ x) (Z.min (length_ p) (length_ x)) = Ok r /\
    lex_sign (content p) (content x) =
      if r =? 0 then if length_ p <? length_ x then -1 else if length_ x <? length_ p then 1 else 0 else r.
Proof.
  intros Hp Hx. pose proof (length_content p Hp) as Lp. pose proof (length_content x Hx) as Lx.
  destruct Hp as [Hp Hp'], Hx as [Hx Hx']. unfold memcmp.
  rewrite !range_ok by lia. rstep. eexists. split; [reflexivity|].
  rewrite memcmp_loop_lex. cbv zeta. unfold Zlen in Lp, Lx.
  set (n := Nat.min (length (content p)) (length (content x))).
  assert (n = Z.to_nat (Z.min (length_ p) (length_ x))) as Hn by (unfold n; lia).
  assert (take n (content p) = take n (ptr_ p)) as -> by (unfold content; rewrite take_take; f_equal; lia).
  assert (take n (content x) = take n (ptr_ x)) as -> by (unfold content; rewrite take_take; f_equal; lia).
  rewrite Hn.
  assert (forall a b : nat, (a <? b)%nat = (Z.of_nat a <? Z.of_nat b)) as Hb.
  { intros a b. apply eq_true_iff_eq. rewrite Nat.ltb_lt, Z.ltb_lt. lia. }
  by rewrite !Hb, Lp, Lx.
Qed.

Lemma equal_loop_spec n : forall p k, (n <= length p)%nat -> (n <= length k)%nat ->
  equal_loop n p k = Ok (bool_decide (take n p = take n k)).
Proof.
  induction n as [|n IH]; intros [|x p] [|y k] Hp Hk; cbn in Hp, Hk; try lia; try done.
  cbn [equal_loop]. change (vget (x :: p) 0) with (Ok x). change (vget (y :: k) 0) with (Ok y). rstep.
  destruct (x =? y) eqn:E; zify_bool.
  - subst. change (plus (y :: p) 1) with p. change (plus (y :: k) 1) with k.
    rewrite IH by lia. cbn [take].
    f_equal. apply bool_decide_ext. split; [by intros ->|by intros [=]].
  - cbn [take]. rewrite bool_decide_eq_false_2; [done|]. by intros [=].
Qed.

Lemma equal_content x y : wf x -> wf y -> equal x y = Ok (bool_decide (content x = content y)).
Proof.
  intros Hx Hy. pose proof (length_content x Hx) as Lx. pose proof (length_content y Hy) as Ly.
  destruct Hx as [Hx Hx'], Hy as [Hy Hy']. unfold equal.
  destruct (length_ x =? length_ y) eqn:E; cbn [negb]; zify_bool.
  2:{ rewrite bool_decide_eq_false_2; [done|]. congruence. }
  destruct (0 <? length_ x) eqn:E0; zify_bool.
  - destruct (vget_in (ptr_ x) (length_ x - 1)) as [a Ha]; [lia|].
    destruct (vget_in (ptr_ y) (length_ x - 1)) as [b Hb]; [lia|].
    rewrite Ha, Hb. rstep. destruct (a =? b) eqn:Eab; cbn [negb]; zify_bool.
    + unfold Zlen in *. rewrite equal_loop_spec by lia. unfold content. by rewrite E.
    + rewrite bool_decide_eq_false_2; [done|]. intros Hc.
      apply vget_ok in Ha as [_ Ha]. apply vget_ok in Hb as [_ Hb].
      assert (content x !! Z.to_nat (length_ x - 1) = Some a) as H1
        by (unfold content; rewrite lookup_take_lt by lia; done).
      assert (content y !! Z.to_nat (length_ x - 1) = Some b) as H2
        by (unfold content; rewrite lookup_take_lt by lia; done).
      rewrite Hc in H1. congruence.
  - rstep. unfold Zlen in *. rewrite equal_loop_spec by lia. unfold content. by rewrite E.
Qed.

(** The comparison operators agree with one total order, the lexicographic
    order of the contents: compare returns its sign, operator== holds exactly for
    equal contents, and <, >, <=, >= are that order's; comparing pieces that lie
    inside their objects never reads outside them. *)
Theorem comparisons_lexicographic x y :
  wf x -> wf y ->
  compare x y = Ok (lex_sign (content x) (content y)) /\
  equal x y = Ok (bool_decide (content x = content y)) /\
  lt x y = Ok (lex_sign (content x) (content y) <? 0) /\
  gt x y = Ok (0 <? lex_sign (content x) (content y)) /\
  le x y = Ok (lex_sign (content x) (content y) <=? 0) /\
  ge x y = Ok (0 <=? lex_sign (content x) (content y)) /\
  (content x = content y <-> lex_sign (content x) (content y) = 0) /\
  lex_sign (content y) (content x) = - lex_sign (content x) (content y).
Proof.
  intros Hx Hy.
  assert (Hlt : forall x y, wf x -> wf y -> lt x y = Ok (lex_sign (content x) (content y) <? 0)).
  { clear. intros x y Hx Hy. destruct (memcmp_min x y Hx Hy) as (r & Hr & ->). unfold lt. rewrite Hr. rstep.
    f_equal. destruct (r =? 0) eqn:E; zify_bool; [subst|]; cbn; [|by rewrite orb_false_r].
    destruct (length_ x <? length_ y); [done|]. by destruct (length_ y <? length_ x). }
  assert (Hopp : lex_sign (content y) (content x) = - lex_sign (content x) (content y)).
  { unfold lex_sign. rewrite (lex_antisym (content x)). by destruct (lex (content x) (content y)). }
  split; [|split; [by apply equal_content|split; [by apply Hlt|split; [|split; [|split; [|split; [|done]]]]]]].
  - destruct (memcmp_min x y Hx Hy) as (r & Hr & ->). unfold compare. rewrite Hr. rstep. f_equal.
    destruct (r =? 0) eqn:E; zify_bool; [subst|]; done.
  - unfold gt. rewrite Hlt, Hopp by done. f_equal. apply eq_true_iff_eq. rewrite !Z.ltb_lt. lia.
  - unfold le, gt. rewrite Hlt, Hopp by done. rstep. f_equal. apply eq_true_iff_eq.
    rewrite negb_true_iff, Z.ltb_ge, Z.leb_le. lia.
  - unfold ge. rewrite Hlt by done. rstep. f_equal. apply eq_true_iff_eq.
    rewrite negb_true_iff, Z.ltb_ge, Z.leb_le. lia.
  - rewrite <- lex_eq. unfold lex_sign. by destruct (lex (content x) (content y)).
Qed.

Lemma skipn_firstn_comm' (l : bytes) (a n : nat) : drop a (take n l) = take (n - a) (drop a l).
Proof. apply skipn_firstn_comm. Qed.

Lemma memcmp_zero (a : bytes) : forall b, length a = length b -> memcmp_loop a b = 0 <-> a = b.
Proof.
  induction a as [|x a IH]; intros [|y b] Hl; cbn in *; try done.
  destruct (x <? y) eqn:E1; zify_bool; [split; [done|intros [=]; lia]|].
  destruct (y <? x) eqn:E2; zify_bool; [split; [done|intros [=]; lia]|].
  assert (x = y) as -> by lia. rewrite IH by lia. split; [by intros ->|by intros [=]].
Qed.

(** ** Searching *)

(** [needle] occurs in [hay] at offset [j]. *)
Definition occurs (hay needle : bytes) (j : Z) : Prop :=
  0 <= j <= Zlen hay /\ needle `prefix_of` plus hay j.

Lemma search_spec hay : forall needle,
  (needle `prefix_of` drop (search hay needle) hay \/
   (search hay needle = length hay /\ needle <> [])) /\
  forall j, (j < search hay needle)%nat -> ~ needle `prefix_of` drop j hay.
Proof.
  induction hay as [|c hay IH]; intros needle; cbn [search]; case_bool_decide as Hp.
  - split; [by left|]. intros j Hj. lia.
  - split; [right; split; [done|]|intros j Hj; lia]. intros ->. by apply Hp, prefix_nil.
  - split; [by left|]. intros j Hj. lia.
  - destruct (IH needle) as [H1 H2]. split.
    + destruct H1 as [H1|[H1 Hn]]; [by left|right]. cbn. by rewrite H1.
    + intros [|j] Hj; [done|]. apply H2. lia.
Qed.

Lemma search_le hay needle : (search hay needle <= length hay)%nat.
Proof.
  revert needle. induction hay as [|c hay IH]; intros needle; cbn [search]; case_bool_decide; cbn; try lia.
  specialize (IH needle). lia.
Qed.

Lemma find_last_spec hay : forall needle,
  match find_last hay needle with
  | Some i => needle `prefix_of` drop i hay /\ (i < length hay)%nat /\
      forall j, (i < j < length hay)%nat -> ~ needle `prefix_of` drop j hay
  | None => forall j, (j < length hay)%nat -> ~ needle `prefix_of` drop j hay
  end.
Proof.
  induction hay as [|c hay IH]; intros needle; cbn [find_last]; [cbn; lia|].
  specialize (IH needle). destruct (find_last hay needle) as [i|].
  - destruct IH as (H1 & H2 & H3). cbn. split; [done|]. split; [lia|].
    intros [|j] Hj; [lia|]. apply H3. lia.
  - case_bool_decide as Hp.
    + split; [done|]. cbn. split; [lia|]. intros [|j] Hj; [lia|]. apply IH. lia.
    + intros [|j] Hj; [done|]. cbn in *. apply IH. lia.
Qed.

Lemma plus_drop s j : 0 <= j -> plus s j = drop (Z.to_nat j) s.
Proof. done. Qed.

(** What lies in the range [ptr + pos, ptr + n). *)
Lemma range_content p a n : wf p -> 0 <= a -> a <= n <= length_ p ->
  range (plus (ptr_ p) a) (n - a) = Ok (drop (Z.to_nat a) (take (Z.to_nat n) (content p))).
Proof.
  intros [Hp Hp'] Ha Hn. rewrite range_ok by (rewrite Zlen_plus by lia; lia).
  unfold plus, content. rewrite take_take, skipn_firstn_comm'. do 2 f_equal. lia.
Qed.

Lemma occurs_length hay needle j : occurs hay needle j -> j + Zlen needle <= Zlen hay.
Proof.
  intros [Hj Hp]. apply prefix_length in Hp. unfold plus in Hp. rewrite length_drop in Hp.
  unfold Zlen in *. lia.
Qed.

(** Find returns the first offset at or after [pos] where the argument occurs,
    npos when there is none. *)
Theorem find_first p s pos :
  wf p -> wf s -> 0 <= pos <= SIZE_MAX ->
  exists r, find p s pos = Ok r /\
    ((r = npos /\ forall j, pos <= j -> ~ occurs (content p) (content s) j) \/
     (r <> npos /\ pos <= r /\ occurs (content p) (content s) r /\
      forall j, pos <= j < r -> ~ occurs (content p) (content s) j)).
Proof.
  intros Hp Hs Hpos. pose proof (length_content p Hp) as Lp. pose proof (length_content s Hs) as Ls.
  unfold find. destruct (length_ p <? pos) eqn:E; zify_bool.
  { exists npos. split; [done|]. left. split; [done|]. intros j Hj [Ho _]. lia. }
  rewrite (range_content p pos (length_ p)) by (done || lia). rstep.
  assert (Hns : range (ptr_ s) (length_ s) = Ok (content s)) by apply (ToString_content s Hs).
  rewrite Hns. rstep. unfold Zlen in Lp, Ls.
  rewrite take_ge by lia. set (hay := drop (Z.to_nat pos) (content p)).
  destruct (search_spec hay (content s)) as [Hf Hb]. pose proof (search_le hay (content s)) as Hle.
  assert (Hlen : Z.of_nat (length hay) = length_ p - pos) by (unfold hay; rewrite length_drop; lia).
  set (i := search hay (content s)) in *.
  assert (Hdrop : forall j, drop j hay = plus (content p) (pos + Z.of_nat j)).
  { intros j. unfold hay, plus. rewrite drop_drop. f_equal. lia. }
  assert (Hbefore : forall j, pos <= j < pos + Z.of_nat i -> ~ occurs (content p) (content s) j).
  { intros j Hj [_ Hpre]. apply (Hb (Z.to_nat (j - pos))); [lia|]. rewrite Hdrop.
    by replace (pos + Z.of_nat (Z.to_nat (j - pos))) with j by lia. }
  destruct Hp as [Hp Hp'], Hs as [Hs Hs'].
  rewrite wrap_u_id by (unfold fits_u; lia). eexists. split; [reflexivity|].
  destruct (pos + Z.of_nat i + length_ s <=? length_ p) eqn:Ef; zify_bool.
  - right. assert (Hpre : content s `prefix_of` drop i hay).
    { destruct Hf as [Hf|[Hf Hne]]; [done|]. exfalso. apply Hne, length_zero_iff_nil. lia. }
    split; [unfold npos, SIZE_MAX; lia|]. split; [lia|]. split; [|done].
    split; [unfold Zlen; lia|]. by rewrite <- Hdrop.
  - left. split; [done|]. intros j Hj Hocc. pose proof (occurs_length _ _ _ Hocc) as Hol.
    unfold Zlen in Hol. destruct (Z.lt_ge_cases j (pos + Z.of_nat i)) as [Hlt|Hge].
    + by apply (Hbefore j).
    + lia.
Qed.

(** Occurrences that start at or before [m], seen in the text cut off after the
    last of them. *)
Lemma occurs_cut hay needle m j : 0 <= j <= m -> m + Zlen needle <= Zlen hay ->
  occurs hay needle j <-> needle `prefix_of` drop (Z.to_nat j) (take (Z.to_nat (m + Zlen needle)) hay).
Proof.
  intros Hj Hm. unfold occurs, plus. rewrite skipn_firstn_comm'. unfold Zlen in *. split.
  - intros [_ [k Hk]]. exists (take (Z.to_nat (m + Z.of_nat (length needle)) - Z.to_nat j - length needle) k).
    rewrite Hk, firstn_app. f_equal. apply take_ge. lia.
  - intros Hpre. split; [lia|]. etransitivity; [exact Hpre|]. apply prefix_take.
Qed.

(** Rfind returns the last offset at or before [pos] where the argument
    occurs, npos when there is none. *)
Theorem rfind_last p s pos :
  wf p -> wf s -> 0 <= pos <= SIZE_MAX ->
  exists r, rfind p s pos = Ok r /\
    ((r = npos /\ forall j, j <= pos -> ~ occurs (content p) (content s) j) \/
     (r <> npos /\ r <= pos /\ occurs (content p) (content s) r /\
      forall j, r < j <= pos -> ~ occurs (content p) (content s) j)).
Proof.
  intros Hp Hs Hpos. pose proof (length_content p Hp) as Lp. pose proof (length_content s Hs) as Ls.
  unfold Zlen in Lp, Ls. unfold rfind. destruct (length_ p <? length_ s) eqn:E; zify_bool.
  { exists npos. split; [done|]. left. split; [done|]. intros j Hj Ho.
    pose proof (occurs_length _ _ _ Ho). destruct Ho as [Ho _]. unfold Zlen in *. lia. }
  assert (Hns : range (ptr_ s) (length_ s) = Ok (content s)) by apply (ToString_content s Hs).
  pose proof Hp as [Hp1 Hp2]. pose proof Hs as [Hs1 Hs2].
  destruct (length_ s =? 0) eqn:E0; zify_bool.
  { exists (Z.min (length_ p) pos). split; [done|]. right.
    assert (content s = []) as -> by (apply length_zero_iff_nil; lia).
    split; [unfold npos, SIZE_MAX; lia|]. split; [lia|]. split.
    - split; [unfold Zlen; lia|apply prefix_nil].
    - intros j Hj [Ho _]. unfold Zlen in *. lia. }
  set (m := Z.min (length_ p - length_ s) pos). unfold Z.min in m.
  assert (Hm : m = Z.min (length_ p - length_ s) pos) by reflexivity.
  pose proof (range_content p 0 (m + length_ s) Hp ltac:(lia) ltac:(lia)) as Hr.
  rewrite Z.sub_0_r in Hr. change (plus (ptr_ p) 0) with (ptr_ p) in Hr.
  change (Z.to_nat 0) with 0%nat in Hr. rewrite drop_0 in Hr. rewrite Hr, Hns. rstep.
  set (hay := take (Z.to_nat (m + length_ s)) (content p)).
  assert (Hlen : length hay = Z.to_nat (m + length_ s)) by (unfold hay; rewrite length_take; lia).
  pose proof (fun j H => occurs_cut (content p) (content s) m j H ltac:(unfold Zlen; lia)) as Hocc.
  replace (Zlen (content s)) with (length_ s) in Hocc by (unfold Zlen; lia). fold hay in Hocc.
  pose proof (find_last_spec hay (content s)) as Hf.
  assert (Hbig : forall j, m < j <= pos -> ~ occurs (content p) (content s) j).
  { intros j Hj Ho. pose proof (occurs_length _ _ _ Ho). unfold Zlen in *. lia. }
  destruct (find_last hay (content s)) as [i|].
  - destruct Hf as (H1 & H2 & H3). pose proof (prefix_length _ _ H1) as Hl.
    rewrite length_drop in Hl. assert (Z.of_nat i <= m) by lia.
    eexists. split; [reflexivity|]. right. split; [unfold npos, SIZE_MAX; lia|]. split; [lia|].
    split; [apply Hocc; [lia|]; by rewrite Nat2Z.id|].
    intros j Hj Ho. destruct (Z.le_gt_cases j m) as [Hjm|Hjm]; [|by apply (Hbig j); [lia|]].
    apply Hocc in Ho; [|lia]. apply (H3 (Z.to_nat j)); [lia|done].
  - eexists. split; [reflexivity|]. left. split; [done|]. intros j Hj Ho.
    assert (0 <= j) by (destruct Ho as [? _]; lia).
    destruct (Z.le_gt_cases j m) as [Hjm|Hjm]; [|by apply (Hbig j); [lia|]].
    apply Hocc in Ho; [|lia]. apply (Hf (Z.to_nat j)); [lia|done].
Qed.

(** ** The other operations *)

Lemma substr_content p pos n : wf p -> 0 <= pos -> 0 <= n ->
  wf (substr p pos n) /\ content (substr p pos n) = take (Z.to_nat n) (drop (Z.to_nat pos) (content p)).
Proof.
  intros Hp Hpos Hn. pose proof Hp as [Hp1 Hp2]. unfold substr.
  set (a := if length_ p <? pos then length_ p else pos).
  assert (Ha : a = Z.min pos (length_ p)) by (unfold a; destruct (_ <? _) eqn:E; zify_bool; lia).
  clearbody a. set (m := if length_ p - a <? n then length_ p - a else n).
  assert (Hm : m = Z.min n (length_ p - a)) by (unfold m; destruct (_ <? _) eqn:E; zify_bool; lia).
  clearbody m. unfold wf, content. cbn [ptr_ length_]. rewrite Zlen_plus by lia.
  split; [lia|]. unfold plus. rewrite skipn_firstn_comm', take_take.
  destruct (Z.le_gt_cases pos (length_ p)).
  - replace a with pos by lia. f_equal. lia.
  - replace m with 0 by lia. replace (Nat.min _ _) with 0%nat by lia. done.
Qed.

Lemma remove_content p n : wf p -> 0 <= n <= length_ p ->
  (exists q, remove_prefix n p = Ok q /\ wf q /\ content q = drop (Z.to_nat n) (content p)) /\
  (exists q, remove_suffix n p = Ok q /\ wf q /\ content q = take (Z.to_nat (length_ p - n)) (content p)).
Proof.
  intros [Hp1 Hp2] Hn. unfold remove_prefix, remove_suffix. rewrite (proj2 (Z.leb_le _ _)) by lia. rstep.
  unfold wf, content. split; (eexists; split; [reflexivity|]); cbn [ptr_ length_].
  - rewrite Zlen_plus by lia. split; [lia|]. unfold plus. rewrite skipn_firstn_comm'. f_equal. lia.
  - split; [lia|]. rewrite take_take. f_equal. lia.
Qed.

Lemma starts_with_content p x : wf p -> wf x ->
  starts_with p x = Ok (bool_decide (content x `prefix_of` content p)).
Proof.
  intros Hp Hx. pose proof (length_content p Hp) as Lp. pose proof (length_content x Hx) as Lx.
  unfold Zlen in Lp, Lx. destruct Hp as [Hp1 Hp2], Hx as [Hx1 Hx2].
  unfold starts_with. destruct (length_ x <=? length_ p) eqn:E; zify_bool.
  2: { rewrite bool_decide_eq_false_2; [done|]. intros Hpre%prefix_length. lia. }
  unfold memcmp. rewrite !range_ok by lia. rstep. f_equal.
  replace (take (Z.to_nat (length_ x)) (ptr_ p)) with (take (Z.to_nat (length_ x)) (content p))
    by (unfold content; rewrite take_take; f_equal; lia).
  fold (content x). apply eq_true_iff_eq. rewrite bool_decide_eq_true, Z.eqb_eq.
  rewrite memcmp_zero by (rewrite length_take; lia). split.
  - intros <-. apply prefix_take.
  - intros [k ->]. rewrite take_app_le by lia. apply take_ge. lia.
Qed.

Lemma end_with_content p x : wf p -> wf x ->
  end_with p x = Ok (bool_decide (content x `suffix_of` content p)).
Proof.
  intros Hp Hx. pose proof (length_content p Hp) as Lp. pose proof (length_content x Hx) as Lx.
  unfold Zlen in Lp, Lx. destruct Hp as [Hp1 Hp2], Hx as [Hx1 Hx2].
  unfold end_with. destruct (length_ x <=? length_ p) eqn:E; zify_bool.
  2: { rewrite bool_decide_eq_false_2; [done|]. intros Hsuf%suffix_length. lia. }
  unfold memcmp. rewrite !range_ok by (rewrite ?Zlen_plus by lia; lia). rstep. f_equal.
  set (k := (length (content p) - length (content x))%nat).
  assert (take (Z.to_nat (length_ x)) (plus (ptr_ p) (length_ p - length_ x)) = drop k (content p)) as ->.
  { unfold plus, content at 1. rewrite skipn_firstn_comm'. unfold k. f_equal; [lia|f_equal; lia]. }
  fold (content x). apply eq_true_iff_eq. rewrite bool_decide_eq_true, Z.eqb_eq.
  rewrite memcmp_zero by (rewrite length_drop; lia). split.
  - intros <-. exists (take k (content p)). by rewrite take_drop.
  - intros [l Hl]. unfold k. rewrite Hl, length_app.
    replace (length l + length (content x) - length (content x))%nat with (length l) by lia.
    by rewrite drop_app_length.
Qed.

(** Substr, remove_prefix, remove_suffix, starts_with and end_with do what
    they say on the contents and keep the piece inside its object; advance moves
    the pointer without shortening the piece, so the result claims [offset] bytes
    beyond the old end, and reading all of it leaves the object when the piece
    ended there. *)
Theorem piece_operations p x n :
  wf p -> wf x -> 0 <= n ->
  (forall pos, 0 <= pos -> let q := substr p pos n in
     wf q /\ content q = take (Z.to_nat n) (drop (Z.to_nat pos) (content p))) /\
  (n <= length_ p -> exists q, remove_prefix n p = Ok q /\ wf q /\ content q = drop (Z.to_nat n) (content p)) /\
  (n <= length_ p -> exists q, remove_suffix n p = Ok q /\ wf q /\
     content q = take (Z.to_nat (length_ p - n)) (content p)) /\
  starts_with p x = Ok (bool_decide (content x `prefix_of` content p)) /\
  end_with p x = Ok (bool_decide (content x `suffix_of` content p)) /\
  (0 < n < length_ p -> Zlen (ptr_ p) = length_ p ->
     exists q, advance n p = Ok q /\ ~ wf q /\ ToString q = Err OutOfBounds).
Proof.
  intros Hp Hx Hn. split; [intros pos Hpos; by apply substr_content|].
  split; [intros Hle; by apply (remove_content p n)|]. split; [intros Hle; by apply (remove_content p n)|].
  split; [by apply starts_with_content|]. split; [by apply end_with_content|].
  intros Hr Hend. unfold advance. rewrite (proj2 (Z.ltb_lt _ _)) by lia. rstep.
  eexists. split; [reflexivity|]. unfold wf, ToString, range. cbn [ptr_ length_].
  rewrite Zlen_plus by lia. split; [lia|]. rewrite (proj2 (Z.leb_gt (length_ p) _)) by lia.
  by rewrite andb_false_r.
Qed.

(** ** Characters and iterators *)

Lemma at_index_content p i : wf p -> 0 <= i < length_ p ->
  exists c, at_index p i = Ok c /\ content p !! Z.to_nat i = Some c.
Proof.
  intros [Hp _] Hi. destruct (vget_in (ptr_ p) i) as [c Hc]; [lia|].
  exists c. split; [exact Hc|]. apply vget_ok in Hc as [_ Hc]. unfold content. by rewrite lookup_take_lt by lia.
Qed.

Lemma iterate_content p n : forall i, wf p -> 0 <= i -> i + Z.of_nat n = length_ p ->
  iterate n p i (length_ p) = Ok (drop (Z.to_nat i) (content p)).
Proof.
  induction n as [|n IH]; intros i Hp Hi Hn; cbn [iterate].
  - rewrite (proj2 (Z.eqb_eq _ _)) by lia. rewrite drop_ge; [done|].
    pose proof (length_content p Hp). unfold Zlen in *. lia.
  - rewrite (proj2 (Z.eqb_neq _ _)) by lia. destruct (at_index_content p i Hp) as (c & E & Hc); [lia|].
    rewrite E. rstep. rewrite IH by (done || lia). rstep. rewrite (drop_S _ _ _ Hc). do 3 f_equal. lia.
Qed.

Lemma riterate_content p n : wf p -> Z.of_nat n <= length_ p ->
  riterate n p (Z.of_nat n) 0 = Ok (reverse (take n (content p))).
Proof.
  intros Hp. induction n as [|n IH]; intros Hn; [done|]. cbn [riterate].
  rewrite (proj2 (Z.eqb_neq _ _)) by lia. replace (Z.of_nat (S n) - 1) with (Z.of_nat n) by lia.
  destruct (at_index_content p (Z.of_nat n) Hp) as (c & E & Hc); [lia|]. rewrite Nat2Z.id in Hc.
  rewrite E. rstep. rewrite IH by lia. rstep. by rewrite (take_S_r _ _ _ Hc), reverse_app.
Qed.

(** The iterators go through the contents forwards and backwards. *)
Theorem iterators_traverse p : wf p ->
  iterate (Z.to_nat (length_ p)) p (begin_ p) (end_ p) = Ok (content p) /\
  riterate (Z.to_nat (length_ p)) p (rbegin p) (rend p) = Ok (reverse (content p)).
Proof.
  intros Hp. pose proof (length_content p Hp) as Hl. pose proof Hp as [Hp1 _]. split.
  - apply (iterate_content p _ 0 Hp); lia.
  - unfold rbegin, rend. pose proof (riterate_content p (Z.to_nat (length_ p)) Hp ltac:(lia)) as H.
    rewrite Z2Nat.id in H by lia. rewrite H, take_ge; [done|]. unfold Zlen in Hl. lia.
Qed.

Lemma find_char_loop_spec c l : forall i,
  match find_char_loop l c i with
  | Some r => exists k, r = i + Z.of_nat k /\ l !! k = Some c /\ forall j, (j < k)%nat -> l !! j <> Some c
  | None => forall j, l !! j <> Some c
  end.
Proof.
  induction l as [|x l IH]; intros i; cbn [find_char_loop]; [done|].
  destruct (x =? c) eqn:E; zify_bool.
  - exists 0%nat. subst. split; [lia|]. split; [done|]. lia.
  - specialize (IH (i + 1)). destruct (find_char_loop l c (i + 1)).
    + destruct IH as (k & -> & Hk & Hb). exists (S k). split; [lia|]. split; [done|].
      intros [|j] Hj; cbn; [congruence|]. apply Hb. lia.
    + intros [|j]; cbn; [congruence|]. apply IH.
Qed.

(** Find of a character returns its first offset at or after [pos], or npos. *)
Theorem find_char_first p c pos : wf p -> 0 <= pos ->
  exists r, find_char p c pos = Ok r /\
    ((r = npos /\ forall j, pos <= Z.of_nat j -> content p !! j <> Some c) \/
     (pos <= r < length_ p /\ content p !! Z.to_nat r = Some c /\
      forall j, pos <= Z.of_nat j < r -> content p !! j <> Some c)).
Proof.
  intros Hp Hpos. pose proof (length_content p Hp) as Hl. unfold Zlen in Hl. unfold find_char.
  destruct ((length_ p <=? 0) || (length_ p <=? pos)) eqn:E; zify_bool.
  { exists npos. split; [done|]. left. split; [done|]. intros j Hj Hc%lookup_lt_Some. lia. }
  rewrite (range_content p pos (length_ p)) by (done || lia). rstep. rewrite take_ge by lia.
  eexists. split; [reflexivity|]. pose proof (find_char_loop_spec c (drop (Z.to_nat pos) (content p)) pos) as Hs.
  destruct (find_char_loop _ c pos) as [r|].
  - destruct Hs as (k & -> & Hk & Hb). rewrite lookup_drop in Hk. pose proof (lookup_lt_Some _ _ _ Hk). right.
    split; [lia|]. replace (Z.to_nat (pos + Z.of_nat k)) with (Z.to_nat pos + k)%nat by lia. split; [done|].
    intros j Hj. specialize (Hb (j - Z.to_nat pos)%nat ltac:(lia)). rewrite lookup_drop in Hb.
    by replace (Z.to_nat pos + (j - Z.to_nat pos))%nat with j in Hb by lia.
  - left. split; [done|]. intros j Hj. specialize (Hs (j - Z.to_nat pos)%nat). rewrite lookup_drop in Hs.
    by replace (Z.to_nat pos + (j - Z.to_nat pos))%nat with j in Hs by lia.
Qed.

Lemma rfind_char_loop_spec p c n : wf p -> Z.of_nat n <= length_ p ->
  exists r, rfind_char_loop n (ptr_ p) c = Ok r /\
    ((r = npos /\ forall j, (j < n)%nat -> content p !! j <> Some c) \/
     (0 <= r < Z.of_nat n /\ content p !! Z.to_nat r = Some c /\
      forall j, r < Z.of_nat j < Z.of_nat n -> content p !! j <> Some c)).
Proof.
  intros Hp. induction n as [|n IH]; intros Hn; cbn [rfind_char_loop].
  { exists npos. split; [done|]. left. split; [done|]. lia. }
  destruct (at_index_content p (Z.of_nat n) Hp) as (x & E & Hx); [lia|]. unfold at_index in E. rewrite E. rstep.
  rewrite Nat2Z.id in Hx. destruct (x =? c) eqn:Ec; zify_bool.
  { exists (Z.of_nat n). split; [done|]. right. rewrite Nat2Z.id. subst. split; [lia|]. split; [done|]. lia. }
  assert (Hstep : forall j, Z.of_nat j < Z.of_nat (S n) -> ((j < n)%nat -> content p !! j <> Some c) ->
    content p !! j <> Some c).
  { intros j Hj H. destruct (decide (j = n)) as [->|]; [congruence|]. apply H. lia. }
  destruct IH as (r & -> & [[-> Hb]|(Hr & Hc & Hb)]); [lia| |].
  - exists npos. split; [done|]. left. split; [done|]. intros j Hj. apply Hstep; [lia|]. intros. by apply Hb.
  - exists r. split; [done|]. right. split; [lia|]. split; [done|]. intros j Hj. apply Hstep; [lia|]. intros. apply Hb. lia.
Qed.

(** Rfind of a character returns its last offset at or before [pos], or npos, as
    long as offsets fit an int; beyond, the offset the search starts from is
    negative and nothing is found. *)
Theorem rfind_char_last p c pos : wf p -> 0 <= pos ->
  (length_ p <= 2 ^ 31 -> exists r, rfind_char p c pos = Ok r /\
    ((r = npos /\ forall j, Z.of_nat j <= pos -> content p !! j <> Some c) \/
     (0 <= r <= pos /\ content p !! Z.to_nat r = Some c /\
      forall j, r < Z.of_nat j <= pos -> content p !! j <> Some c))) /\
  (2 ^ 31 <= pos -> 2 ^ 31 < length_ p <= 2 ^ 32 -> rfind_char p c pos = Ok npos).
Proof.
  intros Hp Hpos. pose proof (length_content p Hp) as Hl. unfold Zlen in Hl. unfold rfind_char. split.
  - intros Hlen. destruct (length_ p <=? 0) eqn:E; zify_bool.
    { exists npos. split; [done|]. left. split; [done|]. intros j _ Hc%lookup_lt_Some. lia. }
    rewrite wrap_s_id by (unfold fits_s; lia).
    destruct (rfind_char_loop_spec p c (Z.to_nat (Z.min pos (length_ p - 1) + 1)) Hp ltac:(lia))
      as (r & Hr & [[-> Hb]|(Hr' & Hc & Hb)]); exists r || exists npos; (split; [done|]).
    + left. split; [done|]. intros j Hj Hc. pose proof (lookup_lt_Some _ _ _ Hc). apply (Hb j); [lia|done].
    + right. split; [lia|]. split; [done|]. intros j Hj Hc'. pose proof (lookup_lt_Some _ _ _ Hc').
      apply (Hb j); [lia|done].
  - intros Hbig Hlen. rewrite (proj2 (Z.leb_gt _ _)) by lia.
    replace (Z.to_nat (int32 (Z.min pos (length_ p - 1)) + 1)) with 0%nat; [done|]. unfold wrap_s.
    set (m := Z.min pos (length_ p - 1)). assert (2 ^ 31 <= m < 2 ^ 32) by (unfold m; lia).
    change (2 ^ (32 - 1)) with (2 ^ 31). replace (m + 2 ^ 31) with (m - 2 ^ 31 + 1 * 2 ^ 32) by lia.
    rewrite Z.mod_add, Z.mod_small by lia. lia.
Qed.

Lemma wf_of_string s : Zlen s < 2 ^ 63 -> wf (of_string s) /\ content (of_string s) = s.
Proof.
  intros Hs. pose proof (Zlen_nonneg s). unfold wf, content, of_string. cbn [ptr_ length_].
  split; [lia|]. apply take_ge. unfold Zlen. lia.
Qed.

Definition demo_text : StringPiece := of_string (str "abcabc").
Definition demo_key : StringPiece := of_string (str "bc").

Lemma demo_wf : wf demo_text /\ wf demo_key.
Proof. split; apply wf_of_string; reflexivity. Qed.

Lemma comparisons_lexicographic_witness :
  compare demo_text demo_key = Ok (-1) /\
  compare demo_text demo_key = Ok (lex_sign (content demo_text) (content demo_key)).
Proof.
  split; [reflexivity|]. apply (comparisons_lexicographic demo_text demo_key); apply demo_wf.
Defined.

Lemma find_first_witness :
  find demo_text demo_key 2 = Ok 4 /\
  exists r, find demo_text demo_key 2 = Ok r /\
    ((r = npos /\ forall j, 2 <= j -> ~ occurs (content demo_text) (content demo_key) j) \/
     (r <> npos /\ 2 <= r /\ occurs (content demo_text) (content demo_key) r /\
      forall j, 2 <= j < r -> ~ occurs (content demo_text) (content demo_key) j)).
Proof.
  split; [reflexivity|]. apply (find_first demo_text demo_key 2); [apply demo_wf..|unfold SIZE_MAX; lia].
Defined.

Lemma rfind_last_witness :
  rfind demo_text demo_key npos = Ok 4 /\
  exists r, rfind demo_text demo_key npos = Ok r /\
    ((r = npos /\ forall j, j <= npos -> ~ occurs (content demo_text) (content demo_key) j) \/
     (r <> npos /\ r <= npos /\ occurs (content demo_text) (content demo_key) r /\
      forall j, r < j <= npos -> ~ occurs (content demo_text) (content demo_key) j)).
Proof.
  split; [reflexivity|]. apply (rfind_last demo_text demo_key npos); [apply demo_wf..|unfold npos, SIZE_MAX; lia].
Defined.

Lemma piece_operations_witness :
  end_with demo_text demo_key = Ok true /\
  exists q, advance 2 demo_text = Ok q /\ ~ wf q /\ ToString q = Err OutOfBounds.
Proof.
  split; [reflexivity|].
  apply (piece_operations demo_text demo_key 2); [apply demo_wf..|lia| |]; vm_compute; [split|]; reflexivity.
Defined.

Lemma iterators_traverse_witness :
  iterate 6 demo_text (begin_ demo_text) (end_ demo_text) = Ok (content demo_text) /\
  riterate 6 demo_text (rbegin demo_text) (rend demo_text) = Ok (reverse (content demo_text)).
Proof. apply (iterators_traverse demo_text), demo_wf. Defined.

Lemma rfind_char_last_witness :
  rfind_char demo_text 97 5 = Ok 3 /\
  exists r, rfind_char demo_text 97 5 = Ok r /\
    ((r = npos /\ forall j, Z.of_nat j <= 5 -> content demo_text !! j <> Some 97) \/
     (0 <= r <= 5 /\ content demo_text !! Z.to_nat r = Some 97 /\
      forall j, r < Z.of_nat j <= 5 -> content demo_text !! j <> Some 97)).
Proof.
  split; [reflexivity|]. apply (rfind_char_last demo_text 97 5); [apply demo_wf|lia|vm_compute; congruence].
Defined.
