(* ===== verification/FileUtil.v ===== *)
(** * files/FileUtil

    claire/common/files/FileUtil.{h,cc} over an operating system given by the class
    [Os]: the calls of stdio and of POSIX that the code makes, with the laws
    [OsLaws] for what it relies on. [Mem] is an implementation in memory. *)

From S2P Require Import Prelude Bytes StringPiece.
Open Scope Z_scope.

(* @src claire/common/files/FileUtil.h:27-31 Status *)
Inductive Status := kOk | kIOError.

Definition failed (s : Status) : bool := match s with kOk => false | kIOError => true end.

(** ** The operating system *)

(** The modes "r", "w+e" and "ae". *)
Inductive mode := mode_r | mode_w | mode_a.

(** What a FILE is open for: a regular file of that name that was empty and has
    accepted these bytes, the bytes of a regular file that are still to be read, or
    something else (a device, a directory). *)
Inductive stream := Writing (name accepted : bytes) | Reading (rest : bytes) | Other.

Class Os (W : Type) := {
  fopen : bytes -> mode -> W -> option Z * W;
  fread : Z -> Z -> W -> bytes * W;
  feof : Z -> W -> bool;
  fseek_cur : Z -> Z -> W -> bool * W;
  fwrite : Z -> bytes -> W -> Z * W;
  fflush : Z -> W -> bool * W;
  fclose : Z -> W -> bool * W;
  stream_of : W -> Z -> option stream;
  open_rdonly : bytes -> W -> Z * W;
  open_lock : bytes -> W -> Z * W;
  close : Z -> W -> W;
  pread : Z -> Z -> Z -> W -> option bytes * W;
  flock : Z -> bool -> W -> bool * W;
  access : bytes -> W -> bool;
  stat_size : bytes -> W -> option Z;
  lstat_link : bytes -> W -> option bool;
  readlink : bytes -> Z -> W -> option bytes;
  opendir : bytes -> W -> option Z * W;
  readdir : Z -> W -> option bytes * W;
  closedir : Z -> W -> W;
  unlink : bytes -> W -> bool * W;
  mkdir : bytes -> W -> bool * W;
  rmdir : bytes -> W -> bool * W;
  rename : bytes -> bytes -> W -> bool * W;
  symlink : bytes -> bytes -> W -> bool * W;
  contents : W -> bytes -> option bytes;
  link_target : W -> bytes -> option bytes;
  descriptors : W -> gset Z;
  entries_left : W -> Z -> list bytes;
  healthy : Z -> W -> Prop }.

(** The documented behaviour the theorems use. Opening may fail for any name.
    [contents] are those of a regular file. [healthy k] systems have room for [k]
    more bytes of data, and no device error, in which case what is written is
    accepted and kept. *)
Class OsLaws (W : Type) `{Os W} := {
  fopen_reads w name fp w' : fopen name mode_r w = (Some fp, w') ->
    stream_of w' fp = Some match contents w name with Some c => Reading c | None => Other end;
  fopen_truncates w name fp w' : fopen name mode_w w = (Some fp, w') ->
    stream_of w' fp = Some match contents w' name with Some _ => Writing name [] | None => Other end;
  fread_prefix w fp n rest d w' : stream_of w fp = Some (Reading rest) -> 0 <= n -> fread fp n w = (d, w') ->
    exists rest', rest = d ++ rest' /\ stream_of w' fp = Some (Reading rest') /\ Zlen d <= n /\
      (Zlen d < n -> feof fp w' = true -> rest' = []);
  fwrite_accepts w fp d name s n w' : stream_of w fp = Some (Writing name s) -> fwrite fp d w = (n, w') ->
    0 <= n <= Zlen d /\ stream_of w' fp = Some (Writing name (s ++ take (Z.to_nat n) d));
  fclose_closes w fp ok w' : fclose fp w = (ok, w') -> stream_of w' fp = None;
  healthy_fopen_r k w name fp w' : healthy k w -> fopen name mode_r w = (Some fp, w') -> healthy k w';
  healthy_fread k w fp n rest d w' : healthy k w -> stream_of w fp = Some (Reading rest) -> 0 <= n ->
    fread fp n w = (d, w') -> healthy k w' /\ (Zlen d < n -> feof fp w' = true);
  healthy_fwrite k w fp d name s n w' : healthy k w -> Zlen d <= k -> stream_of w fp = Some (Writing name s) ->
    fwrite fp d w = (n, w') -> healthy (k - Zlen d) w' /\ n = Zlen d;
  healthy_fclose k w fp name s ok w' : healthy k w -> 0 <= k -> stream_of w fp = Some (Writing name s) ->
    fclose fp w = (ok, w') -> healthy k w' /\ ok = true /\ contents w' name = Some s;
  open_lock_fresh w name fd w' : open_lock name w = (fd, w') ->
    if fd <? 0 then descriptors w' = descriptors w else fd ∉ descriptors w /\ descriptors w' = {[fd]} ∪ descriptors w;
  close_releases w fd : descriptors (close fd w) = descriptors w ∖ {[fd]};
  flock_descriptors w fd lock ok w' : flock fd lock w = (ok, w') -> descriptors w' = descriptors w;
  readlink_target w name size t : readlink name size w = Some t ->
    exists target, link_target w name = Some target /\ t = take (Z.to_nat size) target;
  readdir_next w d e w' : readdir d w = (e, w') ->
    match entries_left w d with
    | [] => e = None
    | x :: l => e = Some x /\ entries_left w' d = l
    end }.

(** ** Effects *)

(** A function of the code: it changes the system and returns, or faults. *)
Definition M (W A : Type) : Type := W -> res (A * W).

#[export] Instance M_ret W : MRet (M W) := fun A a w => Ok (a, w).
#[export] Instance M_bind W : MBind (M W) := fun A B f m w => match m w with Ok (a, w) => f a w | Err e => Err e end.

Section FileUtil.
Context {W : Type} `{Os W}.

Definition call {A} (f : W -> A * W) : M W A := fun w => Ok (f w).
Definition ask {A} (f : W -> A) : M W A := fun w => Ok (f w, w).
Definition lift {A} (m : res A) : M W A := fun w => a ← m; Ok (a, w).

(** A call with a FILE, which must be open. *)
Definition use {A} (fp : option Z) (f : Z -> W -> A * W) : M W A := fun w =>
  match fp with
  | None => Err NullDeref
  | Some p => match stream_of w p with None => Err Dangling | Some _ => Ok (f p w) end
  end.

Definition status (ok : bool) : Status := if ok then kOk else kIOError.

(** ** Files that are read *)

(* @src claire/common/files/FileUtil.h:67-69 SequentialFile *)
Record SequentialFile := mkSequentialFile { sf_filename_ : bytes; sf_fp_ : option Z }.
(* @src claire/common/files/FileUtil.h:100-102 RandomAccessFile *)
Record RandomAccessFile := mkRandomAccessFile { rf_filename_ : bytes; rf_fd_ : Z }.

(* @src claire/common/files/FileUtil.h:36-39 SequentialFile::SequentialFile *)
Definition SequentialFile_open (fname : bytes) : M W SequentialFile :=
  fp ← call (fopen (c_string fname) mode_r); mret (mkSequentialFile fname fp).

(* @src claire/common/files/FileUtil.h:46-46 SequentialFile::~SequentialFile *)
Definition SequentialFile_delete (f : SequentialFile) : M W unit := _ ← use (sf_fp_ f) fclose; mret tt.

(** The status, and the piece of the scratch buffer with what was read. *)
(* @src claire/common/files/FileUtil.cc:28-51 SequentialFile::Read *)
Definition SequentialFile_Read (f : SequentialFile) (n : Z) : M W (Status * StringPiece) :=
  d ← use (sf_fp_ f) (fun p => fread p n);
  let r := Zlen d in
  s ← (if r <? n
       then eof ← use (sf_fp_ f) (fun p w => (feof p w, w)); mret (if eof : bool then kOk else kIOError)
       else mret kOk);
  mret (s, Piece d r).

(* @src claire/common/files/FileUtil.cc:53-61 SequentialFile::Skip *)
Definition SequentialFile_Skip (f : SequentialFile) (n : Z) : M W Status :=
  ok ← use (sf_fp_ f) (fun p => fseek_cur p n); mret (status ok).

(* @src claire/common/files/FileUtil.h:77-80 RandomAccessFile::RandomAccessFile *)
Definition RandomAccessFile_open (fname : bytes) : M W RandomAccessFile :=
  fd ← call (open_rdonly (c_string fname)); mret (mkRandomAccessFile fname fd).

(* @src claire/common/files/FileUtil.h:87-87 RandomAccessFile::~RandomAccessFile *)
Definition RandomAccessFile_delete (f : RandomAccessFile) : M W unit := call (fun w => (tt, close (rf_fd_ f) w)).

(* @src claire/common/files/FileUtil.cc:63-78 RandomAccessFile::Read *)
Definition RandomAccessFile_Read (f : RandomAccessFile) (offset n : Z) : M W (Status * StringPiece) :=
  r ← call (pread (rf_fd_ f) n (int64 offset));
  match r with
  | None => mret (kIOError, Piece [] 0)
  | Some d => mret (kOk, Piece d (Zlen d))
  end.

(** ** Files that are written *)

(* @src claire/common/files/FileUtil.h:137-141 WritableFile *)
Record WritableFile := mkWritableFile { wf_filename_ : bytes; wf_fp_ : option Z; written_bytes_ : Z }.

(** setbuffer() needs an open FILE. *)
(* @src claire/common/files/FileUtil.h:119-125 WritableFile::WritableFile *)
Definition WritableFile_new (fname : bytes) (fp : option Z) : M W WritableFile :=
  _ ← use fp (fun p w => (tt, w)); mret (mkWritableFile fname fp 0).

(* @src claire/common/files/FileUtil.h:111-117 WritableFile::WritableFile *)
Definition WritableFile_open (fname : bytes) : M W WritableFile :=
  fp ← call (fopen (c_string fname) mode_w); WritableFile_new fname fp.

(* @src claire/common/files/FileUtil.h:148-150 AppendableFile::AppendableFile *)
Definition AppendableFile_open (fname : bytes) : M W WritableFile :=
  fp ← call (fopen (c_string fname) mode_a); WritableFile_new fname fp.

(* @src claire/common/files/FileUtil.h:127-127 WritableFile::~WritableFile *)
Definition WritableFile_delete (f : WritableFile) : M W unit := _ ← use (wf_fp_ f) fclose; mret tt.

Definition count_bytes (f : WritableFile) (n : Z) : WritableFile :=
  mkWritableFile (wf_filename_ f) (wf_fp_ f) (uint64 (written_bytes_ f + n)).

(* @src claire/common/files/FileUtil.cc:83-101 WritableFile::Append *)
Fixpoint append_loop (fuel : nat) (f : WritableFile) (data : StringPiece) (n : Z) : M W (Status * WritableFile) :=
  match fuel with
  | O => lift (Err NoFuel)
  | S fuel =>
      if n <? length_ data then
        d ← lift (range (plus (ptr_ data) n) (length_ data - n));
        x ← use (wf_fp_ f) (fun p => fwrite p d);
        if x =? 0 then mret (kIOError, count_bytes f n) else append_loop fuel f data (n + x)
      else mret (kOk, count_bytes f n)
  end.

(* @src claire/common/files/FileUtil.cc:80-102 WritableFile::Append *)
Definition WritableFile_Append (f : WritableFile) (data : StringPiece) : M W (Status * WritableFile) :=
  d ← lift (range (ptr_ data) (length_ data));
  n ← use (wf_fp_ f) (fun p => fwrite p d);
  append_loop (S (Z.to_nat (length_ data))) f data n.

(* @src claire/common/files/FileUtil.cc:104-112 WritableFile::Close *)
Definition WritableFile_Close (f : WritableFile) : M W Status := ok ← use (wf_fp_ f) fclose; mret (status ok).
(* @src claire/common/files/FileUtil.cc:114-122 WritableFile::Flush *)
Definition WritableFile_Flush (f : WritableFile) : M W Status := ok ← use (wf_fp_ f) fflush; mret (status ok).

(** ** Opening files

    The status and the value of [*result], [None] for NULL. *)

(* @src claire/common/files/FileUtil.cc:124-140 NewSequentialFile *)
Definition NewSequentialFile (fname : bytes) : M W (Status * option SequentialFile) :=
  fp ← call (fopen (c_string fname) mode_r);
  match fp with
  | None => mret (kIOError, None)
  | Some p => mret (kOk, Some (mkSequentialFile fname (Some p)))
  end.

(* @src claire/common/files/FileUtil.cc:142-158 NewRandomAccessFile *)
Definition NewRandomAccessFile (fname : bytes) : M W (Status * option RandomAccessFile) :=
  fd ← call (open_rdonly (c_string fname));
  if fd <? 0 then mret (kIOError, None) else mret (kOk, Some (mkRandomAccessFile fname fd)).

(* @src claire/common/files/FileUtil.cc:160-177 NewWritableFile *)
Definition NewWritableFile (fname : bytes) : M W (Status * option WritableFile) :=
  fp ← call (fopen (c_string fname) mode_w);
  match fp with
  | None => mret (kIOError, None)
  | Some p => f ← WritableFile_new fname (Some p); mret (kOk, Some f)
  end.

(* @src claire/common/files/FileUtil.cc:263-277 GetFileSize *)
Definition GetFileSize (fname : bytes) : M W (Status * Z) :=
  size ← ask (stat_size (c_string fname));
  match size with None => mret (kIOError, 0) | Some n => mret (kOk, uint64 n) end.

(* @src claire/common/files/FileUtil.cc:179-205 NewAppendableFile *)
Definition NewAppendableFile (fname : bytes) : M W (Status * option WritableFile) :=
  fp ← call (fopen (c_string fname) mode_a);
  match fp with
  | None => mret (kIOError, None)
  | Some p =>
      '(s, size) ← GetFileSize fname;
      if failed s
      then _ ← use (Some p) fclose; mret (s, None)
      else f ← WritableFile_new (c_string fname) (Some p); mret (s, Some f)
  end.

(** ** Names and directories *)

(* @src claire/common/files/FileUtil.cc:207-210 FileExists *)
Definition FileExists (fname : bytes) : M W bool := ask (access (c_string fname)).

(** The names up to the end of the directory. *)
(* @src claire/common/files/FileUtil.cc:223-227 GetChildren *)
Fixpoint read_entries (fuel : nat) (d : Z) (result : list bytes) : M W (list bytes) :=
  match fuel with
  | O => lift (Err NoFuel)
  | S fuel =>
      entry ← call (readdir d);
      match entry with None => mret result | Some name => read_entries fuel d (result ++ [name]) end
  end.

(* @src claire/common/files/FileUtil.cc:212-231 GetChildren *)
Definition GetChildren (fuel : nat) (dir : bytes) : M W (Status * list bytes) :=
  d ← call (opendir (c_string dir));
  match d with
  | None => mret (kIOError, [])
  | Some d => result ← read_entries fuel d []; _ ← call (fun w => (tt, closedir d w)); mret (kOk, result)
  end.

(* @src claire/common/files/FileUtil.cc:233-241 DeleteFile *)
Definition DeleteFile (fname : bytes) : M W Status := ok ← call (unlink (c_string fname)); mret (status ok).
(* @src claire/common/files/FileUtil.cc:243-251 CreateDir *)
Definition CreateDir (name : bytes) : M W Status := ok ← call (mkdir (c_string name)); mret (status ok).
(* @src claire/common/files/FileUtil.cc:253-261 DeleteDir *)
Definition DeleteDir (name : bytes) : M W Status := ok ← call (rmdir (c_string name)); mret (status ok).
(* @src claire/common/files/FileUtil.cc:279-287 RenameFile *)
Definition RenameFile (src target : bytes) : M W Status :=
  ok ← call (rename (c_string src) (c_string target)); mret (status ok).
(* @src claire/common/files/FileUtil.cc:410-418 SymLink *)
Definition SymLink (oldname newname : bytes) : M W Status :=
  ok ← call (symlink (c_string oldname) (c_string newname)); mret (status ok).

(* @src claire/common/files/FileUtil.cc:420-434 IsSymLink *)
Definition IsSymLink (fname : bytes) : M W bool :=
  r ← ask (lstat_link (c_string fname)); mret (default false r).

(* @src claire/common/files/FileUtil.cc:436-454 ReadLink *)
Definition ReadLink (fname : bytes) : M W (Status * bytes) :=
  r ← ask (readlink (c_string fname) 1024);
  match r with
  | None => mret (kIOError, [])
  | Some name => _ ← lift (check (Zlen name <? 1024)); mret (kOk, name)
  end.

(** ** Locks *)

(* @src claire/common/files/FileUtil.cc:298-315 LockOrUnlock *)
Definition LockOrUnlock (fd : Z) (lock : bool) : M W bool := call (flock fd lock).

(** A lock is its descriptor. *)
(* @src claire/common/files/FileUtil.cc:317-341 LockFile *)
Definition LockFile (fname : bytes) : M W (Status * option Z) :=
  fd ← call (open_lock (c_string fname));
  if fd <? 0 then mret (kIOError, None)
  else
    ok ← LockOrUnlock fd true;
    if ok : bool then mret (kOk, Some fd)
    else _ ← call (fun w => (tt, close fd w)); mret (kIOError, None).

(* @src claire/common/files/FileUtil.cc:343-355 UnlockFile *)
Definition UnlockFile (lock : Z) : M W Status :=
  ok ← LockOrUnlock lock false;
  _ ← call (fun w => (tt, close lock w));
  mret (status ok).

(** ** Whole files *)

(* @src claire/common/files/FileUtil.cc:357-376 WriteStringToFile *)
Definition WriteStringToFile (data : StringPiece) (fname : bytes) : M W Status :=
  '(s, file) ← NewWritableFile fname;
  match file with
  | None => mret s
  | Some file =>
      '(s, file) ← WritableFile_Append file data;
      s ← (if failed s then WritableFile_Close file else mret s);
      _ ← WritableFile_delete file;
      _ ← (if failed s then _ ← DeleteFile fname; mret tt else mret tt);
      mret s
  end.

(* @src claire/common/files/FileUtil.cc:389-404 ReadFileToString *)
Fixpoint read_loop (fuel : nat) (file : SequentialFile) (data : bytes) : M W bytes :=
  match fuel with
  | O => lift (Err NoFuel)
  | S fuel =>
      '(s, fragment) ← SequentialFile_Read file 8192;
      if failed s then mret data
      else if empty fragment then mret data
      else d ← lift (range (ptr_ fragment) (size fragment)); read_loop fuel file (data ++ d)
  end.

(* @src claire/common/files/FileUtil.cc:378-408 ReadFileToString *)
Definition ReadFileToString (fuel : nat) (fname : bytes) : M W (Status * bytes) :=
  '(s, file) ← NewSequentialFile fname;
  match file with
  | None => mret (s, [])
  | Some file => data ← read_loop fuel file []; _ ← SequentialFile_delete file; mret (kOk, data)
  end.
End FileUtil.

(** ** Reasoning about effects *)

(** [m] does not fault from [w], and [Q] holds of what it returns. *)
Definition wp {W A} (m : M W A) (Q : A -> W -> Prop) (w : W) : Prop :=
  match m w with Ok (a, w') => Q a w' | Err _ => False end.

Section Rules.
Context {W : Type} `{Os W}.

Lemma wp_ret {A} (a : A) (Q : A -> W -> Prop) w : Q a w -> wp (mret a) Q w.
Proof. done. Qed.

Lemma wp_bind {A B} (m : M W A) (f : A -> M W B) Q w : wp m (fun a => wp (f a) Q) w -> wp (m ≫= f) Q w.
Proof. unfold wp, mbind, M_bind. by destruct (m w) as [[a w']|]. Qed.

Lemma wp_mono {A} (m : M W A) (P Q : A -> W -> Prop) w : wp m P w -> (forall a w', P a w' -> Q a w') -> wp m Q w.
Proof. unfold wp. destruct (m w) as [[a w']|]; [|done]. auto. Qed.

Lemma wp_call {A} (f : W -> A * W) (Q : A -> W -> Prop) w : (forall a w', f w = (a, w') -> Q a w') -> wp (call f) Q w.
Proof. unfold wp, call. destruct (f w) as [a w']. auto. Qed.

Lemma wp_ask {A} (f : W -> A) (Q : A -> W -> Prop) w : Q (f w) w -> wp (ask f) Q w.
Proof. done. Qed.

Lemma wp_lift {A} (m : res A) a (Q : A -> W -> Prop) w : m = Ok a -> Q a w -> wp (lift m) Q w.
Proof. by intros -> ?. Qed.

Lemma wp_use {A} (f : Z -> W -> A * W) p s (Q : A -> W -> Prop) w : stream_of w p = Some s ->
  (forall a w', f p w = (a, w') -> Q a w') -> wp (use (Some p) f) Q w.
Proof. unfold wp, use. intros ->. destruct (f p w) as [a w']. auto. Qed.

Lemma wp_result {A} (m : M W A) (Q : A -> W -> Prop) w : wp m Q w <-> exists a w', m w = Ok (a, w') /\ Q a w'.
Proof. unfold wp. destruct (m w) as [[a w']|]; naive_solver. Qed.
End Rules.

Section Theorems.
Context {W : Type} `{OsLaws W}.

(** ** Writing *)

Lemma append_loop_accepts f p data name s : wf data -> wf_fp_ f = Some p -> forall fuel n w,
  0 <= n <= length_ data -> length_ data - n < Z.of_nat fuel ->
  stream_of w p = Some (Writing name (s ++ take (Z.to_nat n) (content data))) ->
  wp (append_loop fuel f data n) (fun r w' => exists k, 0 <= k <= length_ data /\
    stream_of w' p = Some (Writing name (s ++ take (Z.to_nat k) (content data))) /\
    snd r = count_bytes f k /\ (fst r = kOk <-> k = length_ data)) w.
Proof.
  intros [Hd Hd2] Hp. induction fuel as [|fuel IH]; intros n w Hn Hf Hs; [lia|]. cbn [append_loop].
  destruct (n <? length_ data) eqn:E; zify_bool.
  - apply wp_bind. eapply wp_lift; [apply range_ok; rewrite Zlen_plus; lia|]. apply wp_bind. rewrite Hp.
    eapply wp_use; [exact Hs|]. intros x w' Hx. destruct (fwrite_accepts _ _ _ _ _ _ _ Hs Hx) as [Hx1 Hs'].
    pose proof (Zlen_plus (ptr_ data) n ltac:(lia)) as Hpl.
    assert (Hlen : Zlen (take (Z.to_nat (length_ data - n)) (plus (ptr_ data) n)) = length_ data - n).
    { unfold Zlen in *. rewrite length_take. lia. }
    destruct (x =? 0) eqn:E0; zify_bool.
    + apply wp_ret. exists n. subst x. rewrite take_0, app_nil_r in Hs'. split; [done|]. split; [done|]. split; [done|].
      split; [discriminate|lia].
    + apply IH; [lia|lia|]. rewrite Hs', <- app_assoc. do 3 f_equal.
      assert (take (Z.to_nat (length_ data - n)) (plus (ptr_ data) n) = drop (Z.to_nat n) (content data)) as ->.
      { unfold plus, content. rewrite skipn_firstn_comm. f_equal. lia. }
      rewrite take_take_drop. f_equal. lia.
  - apply wp_ret. exists n. repeat split; try done; lia.
Qed.

Lemma Append_accepts f p data name s w : wf data -> wf_fp_ f = Some p -> stream_of w p = Some (Writing name s) ->
  wp (WritableFile_Append f data) (fun r w' => exists k, 0 <= k <= length_ data /\
    stream_of w' p = Some (Writing name (s ++ take (Z.to_nat k) (content data))) /\
    snd r = count_bytes f k /\ (fst r = kOk <-> k = length_ data)) w.
Proof.
  intros Hd Hp Hs. unfold WritableFile_Append. apply wp_bind. eapply wp_lift; [apply range_ok, Hd|]. apply wp_bind. rewrite Hp.
  eapply wp_use; [exact Hs|]. intros n w' Hn. destruct (fwrite_accepts _ _ _ _ _ _ _ Hs Hn) as [Hn1 Hs'].
  change (take (Z.to_nat (length_ data)) (ptr_ data)) with (content data) in *. rewrite length_content in Hn1 by done.
  apply (append_loop_accepts f p data name s); [done..|lia|done].
Qed.

(** Append ends, whatever the system accepts at a time: a prefix of the data has
    been accepted and counted, and the status is OK exactly if it is all of it. *)
Theorem Append_writes f p data name s w : wf data -> wf_fp_ f = Some p -> stream_of w p = Some (Writing name s) ->
  exists st f' w' k, WritableFile_Append f data w = Ok ((st, f'), w') /\ 0 <= k <= length_ data /\
    stream_of w' p = Some (Writing name (s ++ take (Z.to_nat k) (content data))) /\
    written_bytes_ f' = uint64 (written_bytes_ f + k) /\ (st = kOk <-> k = length_ data).
Proof.
  intros Hd Hp Hs. destruct (proj1 (wp_result _ _ _) (Append_accepts f p data name s w Hd Hp Hs)) as ([st f'] & w' & Hr & k & Hk & Hs' & Hf & Hst).
  cbn [fst snd] in *. subst f'. eauto 10.
Qed.

Lemma Append_healthy f p data name s w : wf data -> wf_fp_ f = Some p -> stream_of w p = Some (Writing name s) ->
  healthy (length_ data) w ->
  wp (WritableFile_Append f data) (fun r w' => fst r = kOk /\ wf_fp_ (snd r) = Some p /\ healthy 0 w' /\
    stream_of w' p = Some (Writing name (s ++ content data))) w.
Proof.
  intros Hd Hp Hs Hh. unfold WritableFile_Append. apply wp_bind. eapply wp_lift; [apply range_ok, Hd|]. apply wp_bind. rewrite Hp.
  eapply wp_use; [exact Hs|]. intros n w' Hn. destruct (fwrite_accepts _ _ _ _ _ _ _ Hs Hn) as [_ Hs'].
  change (take (Z.to_nat (length_ data)) (ptr_ data)) with (content data) in *.
  destruct (healthy_fwrite _ _ _ _ _ _ _ _ Hh ltac:(by rewrite length_content) Hs Hn) as [Hh' ->].
  rewrite length_content in * by done. rewrite Z.sub_diag in Hh'.
  cbn [append_loop]. rewrite Z.ltb_irrefl. apply wp_ret. split; [done|]. split; [exact Hp|]. split; [done|].
  rewrite Hs'. do 3 f_equal. apply take_ge. pose proof (length_content data Hd). unfold Zlen in *. lia.
Qed.

(** ** Reading *)

Lemma read_loop_reads fname p : forall fuel w rest data, (length rest < fuel)%nat -> stream_of w p = Some (Reading rest) ->
  wp (read_loop fuel (mkSequentialFile fname (Some p)) data) (fun r w' => exists pre post, rest = pre ++ post /\ r = data ++ pre /\
    (exists left, stream_of w' p = Some (Reading left)) /\ (healthy 0 w -> post = [])) w.
Proof.
  induction fuel as [|fuel IH]; intros w rest data Hf Hs; [lia|]. cbn [read_loop]. apply wp_bind. unfold SequentialFile_Read.
  cbn [sf_fp_]. apply wp_bind. eapply wp_use; [exact Hs|]. intros d w1 Hd.
  destruct (fread_prefix w p 8192 rest d w1 Hs ltac:(lia) Hd) as (rest' & -> & Hs1 & Hl & Heof).
  apply wp_bind. destruct (Zlen d <? 8192) eqn:E; zify_bool.
  - apply wp_bind. eapply wp_use; [exact Hs1|]. intros eof w2 [= <- <-]. apply wp_ret.
    destruct (feof p w1) eqn:Ee; apply wp_ret; cbn [failed].
    + specialize (Heof E eq_refl). subst rest'. unfold empty. cbn [length_]. destruct (Zlen d =? 0) eqn:E0; zify_bool.
      * apply wp_ret. exists [], []. destruct d; [|rewrite Zlen_cons in E0; pose proof (Zlen_nonneg d); lia].
        split; [reflexivity|]. split; [by rewrite app_nil_r|]. split; [eauto|done].
      * apply wp_bind. cbn [ptr_ size length_]. eapply wp_lift; [apply range_ok; pose proof (Zlen_nonneg d); unfold size; cbn; lia|].
        unfold size. cbn [length_]. rewrite take_ge by (unfold Zlen; lia).
        assert (Hnil : (length (@nil Z) < fuel)%nat).
        { rewrite app_nil_r in Hf. assert (length d <> 0%nat) by (unfold Zlen in E0; lia). cbn. lia. }
        eapply wp_mono; [apply (IH w1 [] (data ++ d) Hnil Hs1)|]. intros r w3 (pre & post & Hpp & -> & Hleft & _).
        symmetry in Hpp. apply app_nil in Hpp as [-> ->]. exists d, []. rewrite !app_nil_r. split; [done|]. split; [done|].
        split; [exact Hleft|done].
    + apply wp_ret. exists [], (d ++ rest'). rewrite app_nil_r. split; [done|]. split; [done|]. split; [eauto|].
      intros Hh. destruct (healthy_fread 0 w p 8192 _ d _ Hh Hs ltac:(lia) Hd) as [_ He]. rewrite He in Ee by done. done.
  - apply wp_ret, wp_ret. cbn [failed]. unfold empty, size. cbn [length_ ptr_]. rewrite (proj2 (Z.eqb_neq _ _)) by lia.
    apply wp_bind. eapply wp_lift; [apply range_ok; pose proof (Zlen_nonneg d); lia|]. rewrite take_ge by (unfold Zlen; lia).
    assert (Hlt : (length rest' < fuel)%nat) by (rewrite length_app in Hf; unfold Zlen in E; lia).
    eapply wp_mono; [apply (IH w1 rest' (data ++ d) Hlt Hs1)|]. intros r w3 (pre & post & -> & -> & Hleft & Hpost).
    exists (d ++ pre), post. rewrite !app_assoc. split; [done|]. split; [done|]. split; [done|].
    intros Hh. apply Hpost. by destruct (healthy_fread 0 w p 8192 _ d _ Hh Hs ltac:(lia) Hd).
Qed.

(** What opens for reading is a regular file, of less than [fuel] bytes. *)
Definition opens_file (fuel : nat) (fname : bytes) (w : W) : Prop := forall p w',
  fopen (c_string fname) mode_r w = (Some p, w') ->
  exists c, contents w (c_string fname) = Some c /\ (length c < fuel)%nat.

Lemma ReadFileToString_reads fuel fname w : opens_file fuel fname w ->
  wp (ReadFileToString fuel fname) (fun r w' =>
    match fopen (c_string fname) mode_r w with
    | (None, w1) => r = (kIOError, []) /\ w' = w1
    | (Some _, w1) => exists c post, contents w (c_string fname) = Some c /\ fst r = kOk /\ c = snd r ++ post /\
        (healthy 0 w1 -> post = [])
    end) w.
Proof.
  intros Hf. unfold ReadFileToString, NewSequentialFile. apply wp_bind, wp_bind, wp_call. intros fp w1 Hfp. rewrite Hfp.
  destruct fp as [p|]; [|by apply wp_ret, wp_ret]. apply wp_ret.
  destruct (Hf _ _ Hfp) as (c & Hc & Hlen). pose proof (fopen_reads _ _ _ _ Hfp) as Hs. rewrite Hc in Hs. apply wp_bind.
  eapply wp_mono; [apply (read_loop_reads fname p fuel w1 c [] Hlen Hs)|]. intros r w2 (pre & post & -> & -> & (left & Hl) & Hpost).
  apply wp_bind. unfold SequentialFile_delete. apply wp_bind. cbn [sf_fp_]. eapply wp_use; [exact Hl|]. intros ok w3 _.
  apply wp_ret, wp_ret. exists (pre ++ post), post. done.
Qed.

(** ** Whole files *)

(** Reading a regular file into a string gives a prefix of its contents, all of it
    when no read fails; the status is OK as soon as the file could be opened, so a
    caller cannot tell a failed read from the end of the file. *)
Theorem ReadFileToString_prefix fuel fname w : opens_file fuel fname w ->
  exists s d w', ReadFileToString fuel fname w = Ok ((s, d), w') /\
    match fopen (c_string fname) mode_r w with
    | (None, _) => s = kIOError /\ d = []
    | (Some _, w1) => s = kOk /\ exists c post, contents w (c_string fname) = Some c /\ c = d ++ post /\
        (healthy 0 w1 -> post = [])
    end.
Proof.
  intros Hf. destruct (proj1 (wp_result _ _ _) (ReadFileToString_reads fuel fname w Hf)) as ([s d] & w' & Hr & Hq).
  exists s, d, w'. split; [done|]. destruct (fopen _ _ _) as [[p|] w1]; [|by destruct Hq as [[= -> ->] _]].
  destruct Hq as (c & post & Hc & Hs & Hd & Hp). eauto 10.
Qed.

Lemma NewWritableFile_opens fname w p w' : fopen (c_string fname) mode_w w = (Some p, w') ->
  NewWritableFile fname w = Ok ((kOk, Some (mkWritableFile fname (Some p) 0)), w').
Proof.
  intros Hf. pose proof (fopen_truncates _ _ _ _ Hf) as Hs.
  unfold NewWritableFile, WritableFile_new, call, use, mbind, M_bind. rewrite Hf, Hs. done.
Qed.

Lemma WriteStringToFile_writes data fname w p w0 : wf data -> fopen (c_string fname) mode_w w = (Some p, w0) ->
  is_Some (contents w0 (c_string fname)) -> healthy (length_ data) w0 ->
  wp (WriteStringToFile data fname) (fun s w' => s = kOk /\ healthy 0 w' /\ contents w' (c_string fname) = Some (content data)) w.
Proof.
  intros Hd Hp [c Hc] Hh. pose proof (NewWritableFile_opens fname w p w0 Hp) as Hnew.
  pose proof (fopen_truncates _ _ _ _ Hp) as Hs1. rewrite Hc in Hs1.
  unfold WriteStringToFile. apply wp_bind. unfold wp at 1. rewrite Hnew. apply wp_bind.
  eapply wp_mono; [apply (Append_healthy (mkWritableFile fname (Some p) 0) p data _ _ w0 Hd eq_refl Hs1 Hh)|]. intros [s f] w2 (Hs & Hfp & Hh2 & Hs2).
  cbn [fst snd] in *. subst s. apply wp_bind, wp_ret, wp_bind. unfold WritableFile_delete. apply wp_bind. rewrite Hfp.
  eapply wp_use; [exact Hs2|]. intros ok w3 Hcl. destruct (healthy_fclose _ _ _ _ _ _ _ Hh2 ltac:(lia) Hs2 Hcl) as (Hh3 & _ & Hc3).
  apply wp_ret, wp_bind, wp_ret, wp_ret. done.
Qed.

(** C40: what WriteStringToFile writes is what ReadFileToString reads. If the file
    cannot be opened for writing the status is kIOError and nothing else happens. If
    it can, is a regular file, and the system has room for the data and no device
    error, the status is OK and the data are the contents of the file; reading it
    back then gives OK and exactly the data, or kIOError and nothing if it cannot be
    opened for reading. *)
Theorem write_read_roundtrip data fname w fuel : wf data -> (Z.to_nat (length_ data) < fuel)%nat ->
  match fopen (c_string fname) mode_w w with
  | (None, w0) => WriteStringToFile data fname w = Ok (kIOError, w0)
  | (Some _, w0) =>
      is_Some (contents w0 (c_string fname)) -> healthy (length_ data) w0 ->
      exists w1, WriteStringToFile data fname w = Ok (kOk, w1) /\ contents w1 (c_string fname) = Some (content data) /\
        match fopen (c_string fname) mode_r w1 with
        | (None, w2) => ReadFileToString fuel fname w1 = Ok ((kIOError, []), w2)
        | (Some _, _) => exists w2, ReadFileToString fuel fname w1 = Ok ((kOk, content data), w2)
        end
  end.
Proof.
  intros Hd Hfuel. destruct (fopen (c_string fname) mode_w w) as [[p|] w0] eqn:Hp.
  2: { unfold WriteStringToFile, NewWritableFile, mbind, M_bind, call. by rewrite Hp. }
  intros Hreg Hh. apply (WriteStringToFile_writes data fname w p w0 Hd Hp Hreg), wp_result in Hh as (s & w1 & Hw & -> & Hh1 & Hc).
  exists w1. split; [done|]. split; [done|].
  assert (Hf : opens_file fuel fname w1).
  { intros q w2 _. exists (content data). split; [done|]. pose proof (length_content data Hd). unfold Zlen in *. lia. }
  destruct (proj1 (wp_result _ _ _) (ReadFileToString_reads fuel fname w1 Hf)) as ([s d] & w2 & Hr & Hres).
  destruct (fopen (c_string fname) mode_r w1) as [[q|] w3] eqn:Hq; cbn [fst snd] in Hres.
  - destruct Hres as (c & post & Hc' & -> & -> & Hpost). rewrite Hc in Hc'. injection Hc' as Hc'.
    rewrite (Hpost (healthy_fopen_r _ _ _ _ _ Hh1 Hq)), app_nil_r in Hc'. subst d. by exists w2.
  - by destruct Hres as [[= -> ->] ->].
Qed.

(** When not all of the data could be written the file is closed by Close and once
    more by the destructor; the condition before Close is the wrong way round. *)
Theorem failed_write_closes_twice data fname w file w1 file' w2 :
  NewWritableFile fname w = Ok ((kOk, Some file), w1) ->
  WritableFile_Append file data w1 = Ok ((kIOError, file'), w2) -> wf_fp_ file' = wf_fp_ file -> is_Some (stream_of w2 (default 0 (wf_fp_ file))) ->
  WriteStringToFile data fname w = Err Dangling.
Proof.
  intros Hn Ha Hfp [st Hst]. assert (exists p, wf_fp_ file = Some p) as [p Hp].
  { destruct (fopen (c_string fname) mode_w w) as [[q|] w0] eqn:Ef.
    - rewrite (NewWritableFile_opens _ _ _ _ Ef) in Hn. injection Hn as <- _. by exists q.
    - unfold NewWritableFile, mbind, M_bind, call in Hn. rewrite Ef in Hn. discriminate Hn. }
  rewrite Hp in *. cbn [default from_option id] in Hst. unfold WriteStringToFile, mbind, M_bind. rewrite Hn, Ha. cbn [failed].
  unfold WritableFile_Close, WritableFile_delete, mbind, M_bind, use. rewrite Hfp, Hst.
  destruct (fclose p w2) as [ok w3] eqn:Ec. cbn. by rewrite (fclose_closes _ _ _ _ Ec).
Qed.

(** ** Locks, links and directories *)

(** A lock that is not got leaves no descriptor behind, and unlocking gives back
    the one of a lock that was. *)
Theorem locks_balance fname w :
  exists s lock w', LockFile fname w = Ok ((s, lock), w') /\
    match lock with
    | None => s = kIOError /\ descriptors w' = descriptors w
    | Some fd => s = kOk /\ fd ∉ descriptors w /\ descriptors w' = {[fd]} ∪ descriptors w /\
        exists s' w'', UnlockFile fd w' = Ok (s', w'') /\ descriptors w'' = descriptors w
    end.
Proof.
  unfold LockFile, LockOrUnlock, mbind, M_bind, call. destruct (open_lock (c_string fname) w) as [fd w1] eqn:Eo.
  pose proof (open_lock_fresh _ _ _ _ Eo) as Hf. destruct (fd <? 0); [by exists kIOError, None, w1|].
  destruct Hf as [Hfresh Hd1]. destruct (flock fd true w1) as [ok w2] eqn:Ef. pose proof (flock_descriptors _ _ _ _ _ Ef) as Hd2.
  assert (Hback : ({[fd]} ∪ descriptors w) ∖ {[fd]} = descriptors w) by set_solver. destruct ok.
  - exists kOk, (Some fd), w2. split; [done|]. split; [done|]. split; [done|]. split; [by rewrite Hd2|].
    unfold UnlockFile, LockOrUnlock, mbind, M_bind, call. destruct (flock fd false w2) as [ok w3] eqn:Eu.
    eexists _, _. split; [done|]. by rewrite close_releases, (flock_descriptors _ _ _ _ _ Eu), Hd2, Hd1.
  - exists kIOError, None, (close fd w2). split; [done|]. split; [done|]. by rewrite close_releases, Hd2, Hd1.
Qed.

(** A link is read in full if its target is shorter than the buffer and aborts
    otherwise. *)
Theorem ReadLink_length fname w target : link_target w (c_string fname) = Some target ->
  is_Some (readlink (c_string fname) 1024 w) ->
  ReadLink fname w = if Zlen target <? 1024 then Ok ((kOk, target), w) else Err CheckFailed.
Proof.
  intros Ht [t Hr]. destruct (readlink_target _ _ _ _ Hr) as (target' & Ht' & ->). rewrite Ht in Ht'. injection Ht' as <-.
  unfold ReadLink, ask, mbind, M_bind, lift. rewrite Hr. destruct (Zlen target <? 1024) eqn:E; zify_bool.
  - rewrite take_ge by (unfold Zlen in E; lia). rewrite (proj2 (Z.ltb_lt _ _)) by done. done.
  - assert (Zlen (take (Z.to_nat 1024) target) = 1024) as -> by (unfold Zlen in *; rewrite length_take; lia). done.
Qed.

Lemma read_entries_all d fuel : forall w pre, (length (entries_left w d) < fuel)%nat ->
  exists w', read_entries fuel d pre w = Ok (pre ++ entries_left w d, w').
Proof.
  induction fuel as [|fuel IH]; intros w pre Hf; [lia|]. cbn [read_entries]. unfold mbind, M_bind, call.
  destruct (readdir d w) as [e w'] eqn:Er. pose proof (readdir_next _ _ _ _ Er) as Hn.
  destruct (entries_left w d) as [|x l]; [subst e; rewrite app_nil_r; by exists w'|]. destruct Hn as [-> Hl].
  destruct (IH w' (pre ++ [x])) as (w2 & Hw2); [rewrite Hl; cbn in Hf; lia|]. exists w2. by rewrite Hw2, Hl, <- app_assoc.
Qed.

(** All the entries of a directory are listed, in the order of the system. *)
Theorem GetChildren_lists dir w d w1 fuel : opendir (c_string dir) w = (Some d, w1) -> (length (entries_left w1 d) < fuel)%nat ->
  exists w', GetChildren fuel dir w = Ok ((kOk, entries_left w1 d), w').
Proof.
  intros Ho Hf. unfold GetChildren, mbind, M_bind, call. rewrite Ho.
  destruct (read_entries_all d fuel w1 [] Hf) as (w2 & ->). by eexists.
Qed.
End Theorems.

(** ** A system in memory

    [room] is the number of bytes that can still be written, [None] for no limit.
    A directory cannot be opened; /dev/null is a device. *)
Module Mem.

Record mem := mkMem {
  files : gmap bytes bytes; links : gmap bytes bytes; streams : gmap Z stream; fds : gset Z;
  dirs : gmap bytes (list bytes); open_dirs : gmap Z (list bytes); room : option Z }.

Definition set_files (x : gmap bytes bytes) (w : mem) : mem :=
  mkMem x (links w) (streams w) (fds w) (dirs w) (open_dirs w) (room w).
Definition set_streams (x : gmap Z stream) (w : mem) : mem :=
  mkMem (files w) (links w) x (fds w) (dirs w) (open_dirs w) (room w).
Definition set_fds (x : gset Z) (w : mem) : mem :=
  mkMem (files w) (links w) (streams w) x (dirs w) (open_dirs w) (room w).
Definition set_open_dirs (x : gmap Z (list bytes)) (w : mem) : mem :=
  mkMem (files w) (links w) (streams w) (fds w) (dirs w) x (room w).
Definition set_room (x : option Z) (w : mem) : mem :=
  mkMem (files w) (links w) (streams w) (fds w) (dirs w) (open_dirs w) x.

Definition new_id (used : gset Z) : Z := fresh used.

Definition open_stream (s : stream) (w : mem) : option Z * mem :=
  let p := new_id (dom (streams w)) in (Some p, set_streams (<[p := s]> (streams w)) w).

Definition dev_null : bytes := str "/dev/null".

Definition m_contents (w : mem) (name : bytes) : option bytes :=
  if decide (name = dev_null) then None else files w !! name.

(** Nothing written to the device is kept. *)
Definition m_stream_of (w : mem) (p : Z) : option stream :=
  match streams w !! p with
  | Some (Writing name s) => if decide (name = dev_null) then Some Other else Some (Writing name s)
  | s => s
  end.

Definition m_fopen (name : bytes) (m : mode) (w : mem) : option Z * mem :=
  if decide (is_Some (dirs w !! name)) then (None, w)
  else if decide (name = dev_null) then open_stream Other w
  else match m, files w !! name with
  | mode_r, None => (None, w)
  | mode_r, Some c => open_stream (Reading c) w
  | mode_w, _ => open_stream (Writing name []) (set_files (<[name := []]> (files w)) w)
  | mode_a, c => open_stream (Writing name (default [] c)) (set_files (<[name := default [] c]> (files w)) w)
  end.

Definition m_fread (p n : Z) (w : mem) : bytes * mem :=
  match streams w !! p with
  | Some (Reading rest) => (take (Z.to_nat n) rest, set_streams (<[p := Reading (drop (Z.to_nat n) rest)]> (streams w)) w)
  | _ => ([], w)
  end.

Definition m_feof (p : Z) (w : mem) : bool :=
  match streams w !! p with Some (Reading []) | Some Other => true | _ => false end.

Definition m_fwrite (p : Z) (d : bytes) (w : mem) : Z * mem :=
  match streams w !! p with
  | Some (Writing name s) =>
      let n := match room w with None => Zlen d | Some k => Z.max 0 (Z.min k (Zlen d)) end in
      (n, set_room ((fun k => k - n) <$> room w) (set_streams (<[p := Writing name (s ++ take (Z.to_nat n) d)]> (streams w)) w))
  | Some Other => (Zlen d, w)
  | _ => (0, w)
  end.

Definition m_fclose (p : Z) (w : mem) : bool * mem :=
  (true, match streams w !! p with
         | Some (Writing name s) => set_files (<[name := s]> (files w)) (set_streams (delete p (streams w)) w)
         | _ => set_streams (delete p (streams w)) w
         end).

Definition m_readdir (d : Z) (w : mem) : option bytes * mem :=
  match open_dirs w !! d with
  | Some (x :: l) => (Some x, set_open_dirs (<[d := l]> (open_dirs w)) w)
  | _ => (None, w)
  end.

Definition m_open (name : bytes) (w : mem) : Z * mem :=
  let fd := Z.max 3 (new_id (fds w)) in
  if decide (fd ∈ fds w) then (-1, w) else (fd, set_fds ({[fd]} ∪ fds w) w).

#[export] Instance mem_os : Os mem := {
  fopen := m_fopen; fread := m_fread; feof := m_feof; fseek_cur p n w := (true, w);
  fwrite := m_fwrite; fflush p w := (true, w); fclose := m_fclose; stream_of := m_stream_of;
  open_rdonly name w := (if decide (is_Some (files w !! name)) then m_open name w else (-1, w));
  open_lock := m_open; close fd w := set_fds (fds w ∖ {[fd]}) w;
  pread fd n offset w := (None, w); flock fd lock w := (true, w);
  access name w := bool_decide (is_Some (files w !! name));
  stat_size name w := Zlen <$> files w !! name;
  lstat_link name w := Some (bool_decide (is_Some (links w !! name)));
  readlink name size w := take (Z.to_nat size) <$> links w !! name;
  opendir name w := match dirs w !! name with
                    | None => (None, w)
                    | Some l => let d := new_id (dom (open_dirs w)) in (Some d, set_open_dirs (<[d := l]> (open_dirs w)) w)
                    end;
  readdir := m_readdir; closedir d w := set_open_dirs (delete d (open_dirs w)) w;
  unlink name w := (bool_decide (is_Some (files w !! name)), set_files (delete name (files w)) w);
  mkdir name w := (false, w); rmdir name w := (false, w); rename a b w := (false, w); symlink a b w := (false, w);
  contents := m_contents; link_target w name := links w !! name; descriptors := fds;
  entries_left w d := default [] (open_dirs w !! d); healthy k w := match room w with None => True | Some r => k <= r end }.

Lemma m_stream_reading w p rest : m_stream_of w p = Some (Reading rest) -> streams w !! p = Some (Reading rest).
Proof. unfold m_stream_of. by destruct (streams w !! p) as [[name s| |]|]; [case_decide|..]. Qed.

Lemma m_stream_writing w p name s : m_stream_of w p = Some (Writing name s) ->
  streams w !! p = Some (Writing name s) /\ name <> dev_null.
Proof. unfold m_stream_of. destruct (streams w !! p) as [[n t| |]|]; [case_decide|..]; naive_solver. Qed.

Lemma m_stream_opened w p s : m_stream_of (set_streams (<[p := s]> (streams w)) w) p =
  match s with Writing name _ => if decide (name = dev_null) then Some Other else Some s | _ => Some s end.
Proof. unfold m_stream_of. cbn. rewrite lookup_insert_eq. by destruct s. Qed.

#[export] Instance mem_laws : OsLaws mem.
Proof.
  constructor; cbn.
  - intros w name fp w'. unfold m_fopen, m_contents, open_stream. case_decide; [done|]. case_decide.
    + intros [= <- <-]. by rewrite m_stream_opened.
    + destruct (files w !! name) as [c|]; [|done]. intros [= <- <-]. by rewrite m_stream_opened.
  - intros w name fp w'. unfold m_fopen, m_contents, open_stream. case_decide; [done|]. case_decide.
    + intros [= <- <-]. by rewrite m_stream_opened.
    + intros [= <- <-]. cbn [files set_streams set_files]. rewrite lookup_insert_eq.
      change (streams (set_files ?x w)) with (streams w). unfold m_stream_of. cbn. rewrite lookup_insert_eq. by case_decide.
  - intros w fp n rest d w' Hs%m_stream_reading Hn. unfold m_fread, m_feof. rewrite Hs. intros [= <- <-]. exists (drop (Z.to_nat n) rest).
    rewrite m_stream_opened. cbn. rewrite lookup_insert_eq, take_drop. split; [done|]. split; [done|]. split; [unfold Zlen; rewrite length_take; lia|].
    intros _. by destruct (drop _ _).
  - intros w fp d name s n w' [Hs Hn]%m_stream_writing. unfold m_fwrite. rewrite Hs. intros [= <- <-]. unfold m_stream_of. cbn.
    rewrite lookup_insert_eq, decide_False by done. pose proof (Zlen_nonneg d). split; [destruct (room w); lia|done].
  - intros w fp ok w'. unfold m_fclose, m_stream_of. intros [= _ <-]. destruct (streams w !! fp) as [[]|]; cbn; by rewrite lookup_delete_eq.
  - intros k w name fp w' Hh. unfold m_fopen, open_stream. case_decide; [done|]. case_decide; [by intros [= <- <-]|].
    destruct (files w !! name); [by intros [= <- <-]|done].
  - intros k w fp n rest d w' Hh Hs%m_stream_reading Hn. unfold m_fread, m_feof. rewrite Hs. intros [= <- <-]. cbn. split; [done|].
    rewrite lookup_insert_eq. unfold Zlen. rewrite length_take. intros Hl. by rewrite drop_ge by lia.
  - intros k w fp d name s n w' Hh Hk [Hs _]%m_stream_writing. unfold m_fwrite. rewrite Hs. intros [= <- <-]. cbn.
    pose proof (Zlen_nonneg d). destruct (room w); cbn; [split; lia|done].
  - intros k w fp name s ok w' Hh _ [Hs Hn]%m_stream_writing. unfold m_fclose, m_contents. rewrite Hs. intros [= <- <-]. cbn. split; [done|].
    split; [done|]. by rewrite decide_False, lookup_insert_eq by done.
  - intros w name fd w'. unfold m_open. destruct (decide _) as [|Hn]; intros [= <- <-]; [done|]. rewrite (proj2 (Z.ltb_ge _ _)) by lia.
    done.
  - done.
  - by intros w fd lock ok w' [= _ <-].
  - intros w name size t Ht. destruct (links w !! name) as [l|]; [|done]. injection Ht as <-. eauto.
  - intros w d e w'. unfold m_readdir. destruct (open_dirs w !! d) as [[|x l]|]; intros [= <- <-]; [done| |done]. cbn.
    by rewrite lookup_insert_eq.
Qed.

Definition empty_mem (k : option Z) : mem :=
  mkMem ∅ {[ str "here" := str "/there" ]} ∅ {[1; 2]} {[ str "/d" := [str "."; str ".."; str "x"] ]} ∅ k.

(** Room for ten bytes. *)
Lemma write_read_roundtrip_witness :
  (exists w1, WriteStringToFile (of_string (str "some text")) (str "f") (empty_mem (Some 10)) = Ok (kOk, w1) /\
     m_contents w1 (str "f") = Some (str "some text") /\
     exists w2, ReadFileToString 10 (str "f") w1 = Ok ((kOk, str "some text"), w2)) /\
  exists w0, WriteStringToFile (of_string (str "some text")) (str "/d") (empty_mem (Some 10)) = Ok (kIOError, w0).
Proof.
  assert (Hd : wf (of_string (str "some text"))) by (vm_compute; repeat split; discriminate).
  split.
  - destruct (write_read_roundtrip (of_string (str "some text")) (str "f") (empty_mem (Some 10)) 10 Hd ltac:(vm_compute; lia))
      as (w1 & Hw & Hc & Hr); [vm_compute; by eexists|vm_compute; discriminate|].
    exists w1. split; [exact Hw|]. split; [exact Hc|].
    assert (E : w1 = match WriteStringToFile (of_string (str "some text")) (str "f") (empty_mem (Some 10)) with
      Ok (_, w) => w | Err _ => w1 end) by (by rewrite Hw).
    vm_compute in E. subst w1. exact Hr.
  - eexists. exact (write_read_roundtrip (of_string (str "some text")) (str "/d") (empty_mem (Some 10)) 10 Hd ltac:(vm_compute; lia)).
Defined.

(** A device with room for four bytes. *)
Lemma Append_writes_witness : exists st f' w' k,
  WritableFile_Append (mkWritableFile (str "f") (Some 0) 0) (of_string (str "some text")) (snd (m_fopen (str "f") mode_w (empty_mem (Some 4)))) =
    Ok ((st, f'), w') /\ 0 <= k <= 9 /\ stream_of w' 0 = Some (Writing (str "f") (take (Z.to_nat k) (str "some text"))) /\
  written_bytes_ f' = uint64 (0 + k) /\ (st = kOk <-> k = 9).
Proof.
  apply (Append_writes (mkWritableFile (str "f") (Some 0) 0) 0 (of_string (str "some text")) (str "f") []).
  - vm_compute. repeat split; discriminate.
  - reflexivity.
  - vm_compute. reflexivity.
Defined.

Lemma failed_write_closes_twice_witness :
  WriteStringToFile (of_string (str "some text")) (str "f") (empty_mem (Some 4)) = Err Dangling.
Proof.
  eapply (failed_write_closes_twice (of_string (str "some text")) (str "f") (empty_mem (Some 4))
    (mkWritableFile (str "f") (Some 0) 0) _ (mkWritableFile (str "f") (Some 0) 4)).
  - vm_compute. reflexivity.
  - vm_compute. reflexivity.
  - reflexivity.
  - vm_compute. eexists. reflexivity.
Defined.

Definition one_file : mem := set_files {[ str "f" := str "abc" ]} (empty_mem None).

Lemma ReadFileToString_prefix_witness : exists w', ReadFileToString 4 (str "f") one_file = Ok ((kOk, str "abc"), w').
Proof.
  destruct (ReadFileToString_prefix 4 (str "f") one_file) as (s & d & w' & Hr & Hq).
  - intros p w1 _. exists (str "abc"). split; [vm_compute; reflexivity|cbn; lia].
  - destruct (fopen (c_string (str "f")) mode_r one_file) as [o w1] eqn:E. vm_compute in E. injection E as <- <-.
    destruct Hq as (-> & c & post & Hc & Hd & Hp). assert (contents one_file (c_string (str "f")) = Some (str "abc")) as E2 by
      (vm_compute; reflexivity). rewrite E2 in Hc. injection Hc as <-.
    rewrite (Hp Logic.I), app_nil_r in Hd. subst d. exists w'. exact Hr.
Defined.

Lemma locks_balance_witness : exists s lock w', LockFile (str "f") (empty_mem None) = Ok ((s, lock), w') /\
  match lock with
  | None => s = kIOError /\ fds w' = {[1; 2]}
  | Some fd => s = kOk /\ fd ∉ ({[1; 2]} : gset Z) /\ fds w' = {[fd]} ∪ {[1; 2]} /\
      exists s' w'', UnlockFile fd w' = Ok (s', w'') /\ fds w'' = {[1; 2]}
  end.
Proof. exact (locks_balance (str "f") (empty_mem None)). Defined.

Lemma ReadLink_length_witness : ReadLink (str "here") (empty_mem None) = Ok ((kOk, str "/there"), empty_mem None).
Proof.
  refine (ReadLink_length (str "here") (empty_mem None) (str "/there") _ _); [reflexivity|]. vm_compute. eexists. reflexivity.
Defined.

Lemma GetChildren_lists_witness : exists w', GetChildren 4 (str "/d") (empty_mem None) = Ok ((kOk, [str "."; str ".."; str "x"]), w').
Proof.
  refine (GetChildren_lists (str "/d") (empty_mem None) 0 (set_open_dirs {[ 0 := [str "."; str ".."; str "x"] ]} (empty_mem None)) 4 _ _).
  - vm_compute. reflexivity.
  - vm_compute. lia.
Defined.
End Mem.
