(* ===== verification/DwarfReader.v ===== *)
(** * symbolizer/Dwarf: reading, paths and sections

    The Read* functions, Dwarf::Path and Dwarf::Section of
    claire/common/symbolizer/Dwarf.{h,cc}. Every piece points into the mapped
    file, so the bytes from a pointer to the end of the mapping are its
    [ptr_]; the distance of two such pointers is the difference of what is left. *)

From S2P Require Import Prelude Bytes StringPiece.
Open Scope Z_scope.

(** ** Pointers into the file *)

(** [right - left]. *)
Definition dist (left right : bytes) : Z := Zlen left - Zlen right.

(** [s.end()] as a pointer that is going to be used. *)
Definition end_ (s : StringPiece) : res bytes :=
  if length_ s <=? Zlen (ptr_ s) then Ok (plus (ptr_ s) (length_ s)) else Err OutOfBounds.

(* @src claire/common/strings/StringPiece.h:49-53 StringPiece::StringPiece *)
Definition of_pointers (left right : bytes) : res StringPiece :=
  _ ← check (0 <=? dist left right);
  Ok (Piece left (dist left right)).

(** [s.assign(start, s.end())]. *)
(* @src claire/common/strings/StringPiece.h:209-213 StringPiece::assign *)
Definition assign_end (start : bytes) (s : StringPiece) : StringPiece :=
  Piece start (uint64 (length_ s - dist (ptr_ s) start)).

(** [s.assign(start, stop)]. *)
(* @src claire/common/strings/StringPiece.h:209-213 StringPiece::assign *)
Definition assign (start stop : bytes) : StringPiece := Piece start (uint64 (dist start stop)).

(** ** Reading *)

(** An integer of [n] bytes, little endian. *)
(* @src claire/common/symbolizer/Dwarf.cc:33-43 Read *)
Definition Read (n : Z) (s : StringPiece) : res (Z * StringPiece) :=
  _ ← check (n <=? size s);
  x ← range (ptr_ s) n;
  s ← advance n s;
  Ok (of_digits 256 x, s).

(** A group may be shifted by at most 63 places, so eleven passes end the loop:
    the eleventh group would be shifted by 70. *)
(* @src claire/common/symbolizer/Dwarf.cc:50-54 ReadULEB *)
Fixpoint ReadULEB_loop (fuel : nat) (s : StringPiece) (r shift : Z) : res (Z * Z * Z * StringPiece) :=
  match fuel with
  | O => Err NoFuel
  | S fuel =>
      '(val, s) ← Read 1 s;
      r ← (if shift <? 64 then Ok (Z.lor r (uint64 (Z.shiftl (Z.land val 127) shift))) else Err BadShift);
      let shift := uint8 (shift + 7) in
      if negb (Z.land val 128 =? 0) then ReadULEB_loop fuel s r shift else Ok (r, shift, val, s)
  end.

(* @src claire/common/symbolizer/Dwarf.cc:45-56 ReadULEB *)
Definition ReadULEB3 (s : StringPiece) : res (Z * Z * Z * StringPiece) := ReadULEB_loop 11 s 0 0.
(* @src claire/common/symbolizer/Dwarf.cc:58-63 ReadULEB *)
Definition ReadULEB (s : StringPiece) : res (Z * StringPiece) :=
  '(r, _, _, s) ← ReadULEB3 s; Ok (r, s).

(* @src claire/common/symbolizer/Dwarf.cc:65-78 ReadSLEB *)
Definition ReadSLEB (s : StringPiece) : res (Z * StringPiece) :=
  '(r, shift, val, s) ← ReadULEB3 s;
  let r := if (shift <? 64) && negb (Z.land val 64 =? 0)
           then Z.lor r (uint64 (- Z.shiftl 1 shift)) else r in
  Ok (int64 r, s).

(* @src claire/common/symbolizer/Dwarf.cc:80-84 ReadOffset *)
Definition ReadOffset (s : StringPiece) (is_64_bits : bool) : res (Z * StringPiece) :=
  if is_64_bits then Read 8 s else Read 4 s.

(* @src claire/common/symbolizer/Dwarf.cc:86-93 ReadBytes *)
Definition ReadBytes (s : StringPiece) (len : Z) : res (StringPiece * StringPiece) :=
  _ ← check (size s <=? len);
  let ret := Piece (ptr_ s) len in
  s ← advance len s;
  Ok (ret, s).

(** memchr stops at the first match. *)
Fixpoint memchr (p : bytes) (c n : Z) : res (option bytes) :=
  if n <=? 0 then Ok None
  else match p with
       | [] => Err OutOfBounds
       | x :: q => if x =? c then Ok (Some p) else memchr q c (n - 1)
       end.

(* @src claire/common/symbolizer/Dwarf.cc:95-103 ReadNullTerminated *)
Definition ReadNullTerminated (s : StringPiece) : res (StringPiece * StringPiece) :=
  p ← memchr (ptr_ s) 0 (size s);
  match p with
  | None => Err CheckFailed
  | Some p =>
      ret ← of_pointers (ptr_ s) p;
      Ok (ret, assign_end (plus p 1) s)
  end.

(* @src claire/common/symbolizer/Dwarf.cc:105-114 SkipPadding *)
Definition SkipPadding (s : StringPiece) (start : bytes) (alignment : Z) : res StringPiece :=
  let remainder := uint64 (dist start (ptr_ s)) mod alignment in
  if negb (remainder =? 0) then
    _ ← check (alignment - remainder <=? size s);
    advance (alignment - remainder) s
  else Ok s.

(** [p] up to the first character that is no slash, or [n] characters. *)
(* @src claire/common/symbolizer/Dwarf.cc:123-124 StripSlashes *)
Fixpoint strip_front (s : bytes) : bytes :=
  match s with c :: s' => if c =? 47 then strip_front s' else s | [] => [] end.

(** [n] is [q - p]: [q] moves back over slashes. *)
(* @src claire/common/symbolizer/Dwarf.cc:126-127 StripSlashes *)
Fixpoint strip_back (p : bytes) (n : nat) : res nat :=
  match n with
  | O => Ok O
  | S m => c ← vget p (Z.of_nat m); if c =? 47 then strip_back p m else Ok n
  end.

(** The piece is read to its end, or its last character is: a piece that leaves
    its object is a fault. *)
(* @src claire/common/symbolizer/Dwarf.cc:116-135 StripSlashes *)
Definition StripSlashes (s : StringPiece) (keep_initial_slash : bool) : res StringPiece :=
  if empty s then Ok s
  else
    b ← range (ptr_ s) (length_ s);
    let rest := strip_front b in
    let p := Zlen b - Zlen rest in
    n ← strip_back rest (length rest);
    let q := p + Z.of_nat n in
    let p := if keep_initial_slash && negb (p =? 0) then p - 1 else p in
    Ok (Piece (plus (ptr_ s) p) (q - p)).

(** ** Dwarf::Path *)

Module Path.

(* @src claire/common/symbolizer/Dwarf.h:104-108 Path *)
Record Path := mkPath { base_dir_ : StringPiece; sub_dir_ : StringPiece; file_ : StringPiece }.

(* @src claire/common/symbolizer/Dwarf.h:72-72 Path::Path *)
Definition Path_empty : Path := mkPath (Piece [] 0) (Piece [] 0) (Piece [] 0).

(** The first character is a slash. *)
Definition absolute (s : StringPiece) : res bool :=
  if empty s then Ok false else c ← at_index s 0; Ok (c =? 47).

(* @src claire/common/symbolizer/Dwarf.cc:150-184 Path::Path *)
Definition Path_new (base_dir__ sub_dir__ file__ : StringPiece) : res Path :=
  if empty file__ then Ok (mkPath (clear base_dir__) (clear sub_dir__) file__)
  else
    a ← absolute file__;
    let '(base_dir, sub_dir) :=
      if a : bool then (clear base_dir__, clear sub_dir__) else (base_dir__, sub_dir__) in
    a ← absolute sub_dir;
    let base_dir := if a : bool then clear base_dir else base_dir in
    let '(base_dir, sub_dir) := if empty base_dir then (sub_dir, base_dir) else (base_dir, sub_dir) in
    base_dir ← StripSlashes base_dir true;
    sub_dir ← StripSlashes sub_dir false;
    file ← StripSlashes file__ false;
    Ok (mkPath base_dir sub_dir file).

Definition flag (b : bool) : Z := if b then 1 else 0.

(* @src claire/common/symbolizer/Dwarf.cc:186-191 Path::size *)
Definition size (t : Path) : Z :=
  uint64 (StringPiece.size (base_dir_ t) + flag (negb (empty (sub_dir_ t))) + StringPiece.size (sub_dir_ t)
          + flag (negb (empty (file_ t))) + StringPiece.size (file_ t)).

(** What is left of the buffer, what was written and the total. *)
Record copying := mkCopying { buf_size : Z; out : bytes; total_size : Z }.

(* @src claire/common/symbolizer/Dwarf.cc:198-205 Append *)
Definition Append (s : StringPiece) (c : copying) : res copying :=
  c' ← (if 2 <=? buf_size c then
          let to_copy := Z.min (StringPiece.size s) (buf_size c - 1) in
          b ← range (ptr_ s) to_copy;
          Ok (mkCopying (buf_size c - to_copy) (out c ++ b) (total_size c))
        else Ok c);
  Ok (mkCopying (buf_size c') (out c') (uint64 (total_size c' + StringPiece.size s))).

Definition slash : StringPiece := of_cstr (Some (str "/" ++ [0])).

(** What is written to the buffer, and the result. *)
(* @src claire/common/symbolizer/Dwarf.cc:193-232 Path::ToBuffer *)
Definition ToBuffer (t : Path) (buf_size__ : Z) : res (bytes * Z) :=
  c ← (if negb (empty (base_dir_ t)) then Append (base_dir_ t) (mkCopying buf_size__ [] 0)
       else Ok (mkCopying buf_size__ [] 0));
  c ← (if negb (empty (sub_dir_ t)) then
         _ ← check (negb (empty (base_dir_ t)));
         c ← Append slash c; Append (sub_dir_ t) c
       else Ok c);
  c ← (if negb (empty (file_ t)) then c ← Append slash c; Append (file_ t) c else Ok c);
  let written := if negb (buf_size c =? 0) then out c ++ [0] else out c in
  _ ← check (total_size c =? size t);
  Ok (written, total_size c).

(* @src claire/common/symbolizer/Dwarf.cc:234-256 Path::ToString *)
Definition ToString_to (t : Path) (dest : bytes) : res bytes :=
  let initial_size := Zlen dest in
  dest ← (if negb (empty (base_dir_ t)) then AppendToString (base_dir_ t) dest else Ok dest);
  dest ← (if negb (empty (sub_dir_ t)) then
            _ ← check (negb (empty (base_dir_ t)));
            AppendToString (sub_dir_ t) (dest ++ [47])
          else Ok dest);
  dest ← (if negb (empty (file_ t)) then AppendToString (file_ t) (dest ++ [47]) else Ok dest);
  _ ← check (Zlen dest =? uint64 (initial_size + size t));
  Ok dest.

(* @src claire/common/symbolizer/Dwarf.h:94-100 Path::ToString *)
Definition ToString (t : Path) : res bytes := ToString_to t [].

End Path.

(** ** Dwarf::Section *)

Module Section_.

(* @src claire/common/symbolizer/Dwarf.h:151-155 Section *)
Record Section_ := mkSection { is_64_bits_ : bool; data_ : StringPiece }.

(* @src claire/common/symbolizer/Dwarf.cc:145-148 Section::Section *)
Definition Section_new (d : StringPiece) : Section_ := mkSection false d.

(** The chunk is [None] at the end of the section. *)
(* @src claire/common/symbolizer/Dwarf.cc:258-277 Section::Next *)
Definition Next (t : Section_) : res (option StringPiece * Section_) :=
  let chunk := data_ t in
  if empty chunk then Ok (None, t)
  else
    '(initial_length, chunk) ← Read 4 chunk;
    let is_64_bits := initial_length =? uint32 (-1) in
    '(length, chunk) ← (if is_64_bits then Read 8 chunk else Ok (initial_length, chunk));
    _ ← check (length <=? StringPiece.size chunk);
    let chunk := Piece (ptr_ chunk) length in
    stop ← end_ chunk;
    Ok (Some chunk, mkSection is_64_bits (assign_end stop (data_ t))).

End Section_.

(** ** Progress

    Every reader consumes at least a character, so what is left bounds the
    loops over it. *)
Definition left_ (s : StringPiece) : nat := length (ptr_ s).

(** The rest is shorter than [n]. *)
Definition shorter {A} (n : nat) (x : A * StringPiece) : Prop := (left_ (snd x) < n)%nat.

Lemma advance_ends k s : ends (fun s' => (left_ s' <= left_ s)%nat) (advance k s).
Proof.
  unfold advance. eapply ends_bind; [apply ends_check|]. intros _ _. unfold left_, plus. cbn. rewrite length_drop. lia.
Qed.

Lemma Read_ends k s : 0 < k -> ends (shorter (left_ s)) (Read k s).
Proof.
  intros Hk. unfold Read. eapply ends_bind; [apply ends_check|]. intros _ _. unfold range.
  destruct ((0 <=? k) && (k <=? Zlen (ptr_ s))) eqn:E; [|done]. rstep. zify_bool.
  unfold advance. destruct (k <? length_ s); [|done]. rstep. unfold ends, shorter, left_, plus. cbn.
  rewrite length_drop. unfold Zlen in *. lia.
Qed.

Lemma ReadULEB_loop_ends fuel : forall i s r n, (11 <= fuel + i)%nat -> (i <= 10)%nat -> (left_ s <= n)%nat ->
  ends (shorter n) (ReadULEB_loop fuel s r (7 * Z.of_nat i)).
Proof.
  induction fuel as [|fuel IH]; intros i s r n Hf Hi Hn; [lia|]. cbn [ReadULEB_loop].
  eapply ends_bind; [by apply Read_ends|]. intros [val s'] Hs. unfold shorter in Hs. cbn [snd] in Hs.
  destruct (7 * Z.of_nat i <? 64) eqn:E; [|done]. rstep. zify_bool.
  assert (uint8 (7 * Z.of_nat i + 7) = 7 * Z.of_nat (S i)) as ->.
  { rewrite wrap_u_id; [lia|]. unfold fits_u. change (2 ^ 8) with 256. lia. }
  destruct (negb (Z.land val 128 =? 0)); [apply IH; lia|]. unfold ends, shorter. cbn. lia.
Qed.

Lemma ReadULEB3_ends s : ends (shorter (left_ s)) (ReadULEB3 s).
Proof. apply (ReadULEB_loop_ends 11 0); lia. Qed.

Lemma ReadULEB_ends s : ends (shorter (left_ s)) (ReadULEB s).
Proof. unfold ReadULEB. eapply ends_bind; [apply ReadULEB3_ends|]. by intros [[[? ?] ?] ?]. Qed.

Lemma ReadSLEB_ends s : ends (shorter (left_ s)) (ReadSLEB s).
Proof. unfold ReadSLEB. eapply ends_bind; [apply ReadULEB3_ends|]. by intros [[[? ?] ?] ?]. Qed.

Lemma ReadOffset_ends s b : ends (shorter (left_ s)) (ReadOffset s b).
Proof. unfold ReadOffset. destruct b; by apply Read_ends. Qed.

Lemma memchr_ends p c : forall n,
  ends (fun q => match q with Some q => (length q <= length p)%nat /\ q <> [] | None => True end) (memchr p c n).
Proof.
  induction p as [|x p IH]; intros n; cbn [memchr]; (destruct (n <=? 0); [done|]); [done|].
  destruct (x =? c); [done|]. eapply ends_mono; [apply IH|]. intros [q|]; [|done]. cbn. intros [? ?]. split; [lia|done].
Qed.

Lemma ReadNullTerminated_ends s : ends (shorter (left_ s)) (ReadNullTerminated s).
Proof.
  unfold ReadNullTerminated. eapply ends_bind; [apply memchr_ends|]. intros [p|]; [|done]. intros [Hp Hne].
  unfold of_pointers. destruct (0 <=? dist (ptr_ s) p); [|done]. rstep. unfold ends, shorter, left_, assign_end, plus. cbn.
  rewrite length_drop. destruct p; [done|]. cbn [length] in *. lia.
Qed.

(** ** What the readers return *)

Lemma plus_app (b rest : bytes) n : n = Zlen b -> plus (b ++ rest) n = rest.
Proof. intros ->. unfold plus, Zlen. by rewrite Nat2Z.id, drop_app_length. Qed.

Lemma range_app (b rest : bytes) n : n = Zlen b -> range (b ++ rest) n = Ok b.
Proof.
  intros ->. rewrite range_ok by (rewrite Zlen_app; pose proof (Zlen_nonneg b); pose proof (Zlen_nonneg rest); lia).
  unfold Zlen. by rewrite Nat2Z.id, take_app_length.
Qed.

Lemma dist_app (b rest : bytes) : dist (b ++ rest) rest = Zlen b.
Proof. unfold dist. rewrite Zlen_app. lia. Qed.

Lemma advance_app b rest len : Zlen b < len -> advance (Zlen b) (Piece (b ++ rest) len) = Ok (Piece rest len).
Proof.
  intros. unfold advance. cbn [ptr_ length_]. rewrite (proj2 (Z.ltb_lt _ _)) by done. rstep.
  by rewrite plus_app.
Qed.

(** An integer is read from its bytes; the length stays. *)
Lemma Read_app n b rest len : n = Zlen b -> n < len ->
  Read n (Piece (b ++ rest) len) = Ok (of_digits 256 b, Piece rest len).
Proof.
  intros -> Hlen. unfold Read. cbn [size ptr_ length_].
  unfold size. cbn [length_]. rewrite (proj2 (Z.leb_le _ _)) by lia. rstep.
  rewrite range_app by done. rstep. by rewrite advance_app.
Qed.

(** One byte. *)
Lemma Read1 c rest len : 1 < len -> Read 1 (Piece (c :: rest) len) = Ok (c, Piece rest len).
Proof.
  intros. change (c :: rest) with ([c] ++ rest). rewrite Read_app by done. cbn [of_digits].
  by rewrite Z.mul_0_r, Z.add_0_r.
Qed.

(** [n] in [w] bytes, little endian. *)
Fixpoint le_bytes (w : nat) (n : Z) : bytes :=
  match w with O => [] | S w => n mod 256 :: le_bytes w (n / 256) end.

Lemma Zlen_le_bytes w : forall n, Zlen (le_bytes w n) = Z.of_nat w.
Proof. induction w as [|w IH]; intros n; [done|]. cbn [le_bytes]. rewrite Zlen_cons, IH. lia. Qed.

Lemma le_bytes_value w : forall n, 0 <= n < 2 ^ (8 * Z.of_nat w) -> of_digits 256 (le_bytes w n) = n.
Proof.
  induction w as [|w IH]; intros n Hn; [change (2 ^ (8 * Z.of_nat 0)) with 1 in Hn; cbn; lia|].
  cbn [le_bytes of_digits]. rewrite IH; [pose proof (Z.div_mod n 256); lia|].
  replace (8 * Z.of_nat (S w)) with (8 * Z.of_nat w + 8) in Hn by lia.
  rewrite Z.pow_add_r in Hn by lia. change (2 ^ 8) with 256 in Hn.
  split; [apply Z.div_pos; lia|apply Z.div_lt_upper_bound; lia].
Qed.

Lemma Read_le w n rest len : 0 <= n < 2 ^ (8 * Z.of_nat w) -> Z.of_nat w < len ->
  Read (Z.of_nat w) (Piece (le_bytes w n ++ rest) len) = Ok (n, Piece rest len).
Proof. intros. rewrite Read_app by (rewrite ?Zlen_le_bytes; lia). by rewrite le_bytes_value. Qed.

(** *** LEB128 *)

(** Groups of seven bits, all but the last marked with the top bit. *)
Fixpoint mark (g : list Z) : bytes :=
  match g with
  | [] => []
  | [d] => [d]
  | d :: g => d + 128 :: mark g
  end.

Definition is_group (d : Z) : Prop := 0 <= d < 128.

Lemma land_127 d : is_group d -> Z.land d 127 = d /\ Z.land d 128 = 0.
Proof.
  intros Hd. change 127 with (Z.ones 7). rewrite Z.land_ones by lia.
  split; [apply Z.mod_small, Hd|]. change 128 with (2 ^ 7).
  apply Z.bits_inj'. intros n Hn. rewrite Z.land_spec, Z.bits_0, Z.pow2_bits_eqb by lia.
  destruct (7 =? n) eqn:E; [|by rewrite andb_false_r]. zify_bool. subst. rewrite andb_true_r.
  apply Z.bits_above_log2; [apply Hd|]. destruct Hd. destruct (decide (d = 0)) as [->|]; [done|].
  apply Z.log2_lt_pow2; lia.
Qed.

Lemma land_marked d : is_group d -> Z.land (d + 128) 127 = d /\ Z.land (d + 128) 128 <> 0.
Proof.
  intros Hd. assert (d + 128 = Z.lor d 128) as ->.
  { by rewrite <- Z.lxor_lor, Z.add_nocarry_lxor by apply (land_127 d Hd). }
  destruct (land_127 d Hd) as [H1 H2].
  rewrite !Z.land_lor_distr_l, H1, H2. change (Z.land 128 127) with 0. change (Z.land 128 128) with 128.
  rewrite Z.lor_0_r, Z.lor_0_l. done.
Qed.

(** A group joins the accumulator without a carry. *)
Lemma lor_group r d s : 0 <= s < 64 -> 0 <= r < 2 ^ s -> 0 <= d ->
  Z.lor r (uint64 (Z.shiftl d s)) = uint64 (r + d * 2 ^ s).
Proof.
  intros Hs Hr Hd. rewrite Z.shiftl_mul_pow2 by lia.
  assert (uint64 (d * 2 ^ s) = (d mod 2 ^ (64 - s)) * 2 ^ s) as Hm.
  { unfold wrap_u. replace (2 ^ 64) with (2 ^ (64 - s) * 2 ^ s) by (rewrite <- Z.pow_add_r by lia; f_equal; lia).
    apply Z.mul_mod_distr_r; apply Z.pow_nonzero; lia. }
  rewrite Hm.
  pose proof (Z.mod_pos_bound d (2 ^ (64 - s)) ltac:(apply Z.pow_pos_nonneg; lia)) as Hb.
  assert (Z.land r ((d mod 2 ^ (64 - s)) * 2 ^ s) = 0) as Hl.
  { rewrite <- Z.shiftl_mul_pow2 by lia. apply Z.bits_inj'. intros n Hn.
    rewrite Z.land_spec, Z.bits_0, Z.shiftl_spec by lia.
    destruct (Z.lt_ge_cases n s) as [Hlt|Hge]; [by rewrite (Z.testbit_neg_r _ (n - s)), andb_false_r by lia|].
    destruct (decide (r = 0)) as [->|]; [by rewrite Z.bits_0|].
    rewrite Z.bits_above_log2; [done|lia|].
    apply Z.lt_le_trans with s; [|lia]. apply Z.log2_lt_pow2; lia. }
  rewrite <- Z.lxor_lor, <- Z.add_nocarry_lxor by done.
  rewrite <- (wrap_u_id 64 (r + d mod 2 ^ (64 - s) * 2 ^ s)).
  2:{ unfold fits_u. replace (2 ^ 64) with (2 ^ (64 - s) * 2 ^ s) by (rewrite <- Z.pow_add_r by lia; f_equal; lia). nia. }
  rewrite <- Hm. unfold wrap_u. by rewrite Zplus_mod_idemp_r.
Qed.

Lemma mark_cons d g : g <> [] -> mark (d :: g) = d + 128 :: mark g.
Proof. by destruct g. Qed.

(** The loop adds the groups up, modulo 2^64, for up to ten groups. *)
Lemma ReadULEB_loop_groups g : forall i r fuel rest len d0,
  g <> [] -> Forall is_group g -> Z.of_nat i + Zlen g <= 10 -> (length g <= fuel)%nat -> 1 < len ->
  0 <= r < 2 ^ (7 * Z.of_nat i) -> (i <= 9)%nat ->
  ReadULEB_loop fuel (Piece (mark g ++ rest) len) r (7 * Z.of_nat i) =
    Ok (uint64 (r + of_digits 128 g * 2 ^ (7 * Z.of_nat i)), 7 * (Z.of_nat i + Zlen g),
        List.last g d0, Piece rest len).
Proof.
  induction g as [|d g IH]; [done|]. intros i r fuel rest len d0 _ Hg Hi Hf Hlen Hr Hi9.
  inversion_clear Hg as [|? ? Hd Hg']. destruct fuel as [|fuel]; [cbn in Hf; lia|].
  rewrite Zlen_cons in *. pose proof (Zlen_nonneg g).
  assert (Hs : 7 * Z.of_nat i <? 64 = true) by (apply Z.ltb_lt; lia).
  assert (Hu : uint8 (7 * Z.of_nat i + 7) = 7 * Z.of_nat (S i)) by (rewrite wrap_u_id; unfold fits_u; change (2 ^ 8) with 256; lia).
  destruct g as [|d' g'].
  - cbn [mark ReadULEB_loop app]. rewrite Read1 by done. rstep.
    destruct (land_127 d Hd) as [-> ->]. rewrite Hs, lor_group by (unfold is_group in Hd; lia). rstep. rewrite Hu.
    cbn [Z.eqb negb List.last of_digits]. rewrite Z.mul_0_r, Z.add_0_r. unfold Zlen. cbn [length]. repeat f_equal; lia.
  - set (g := d' :: g') in *. rewrite mark_cons by done. cbn [app ReadULEB_loop]. rewrite Read1 by done. rstep.
    destruct (land_marked d Hd) as [-> Hne]. apply Z.eqb_neq in Hne. rewrite Hs, Hne. rstep.
    rewrite lor_group, Hu by (unfold is_group in Hd; lia).
    assert (Hz : 1 <= Zlen g) by (unfold g; rewrite Zlen_cons; pose proof (Zlen_nonneg g'); lia).
    assert (Hb : r + d * 2 ^ (7 * Z.of_nat i) < 2 ^ (7 * Z.of_nat (S i))).
    { replace (7 * Z.of_nat (S i)) with (7 * Z.of_nat i + 7) by lia. rewrite Z.pow_add_r by lia.
      unfold is_group in Hd. change (2 ^ 7) with 128. nia. }
    assert (uint64 (r + d * 2 ^ (7 * Z.of_nat i)) = r + d * 2 ^ (7 * Z.of_nat i)) as ->.
    { apply wrap_u_id. split; [unfold is_group in Hd; nia|].
      eapply Z.lt_le_trans; [exact Hb|]. apply Z.pow_le_mono_r; lia. }
    rewrite (IH (S i) _ fuel rest len d0);
      [|done|done|lia|cbn [length] in *; lia|done|unfold is_group in Hd; split; [nia|done]|lia].
    cbn [of_digits]. replace (7 * Z.of_nat (S i)) with (7 * Z.of_nat i + 7) by lia.
    rewrite Z.pow_add_r by lia. change (2 ^ 7) with 128. unfold g. cbn [List.last].
    match goal with |- Ok (uint64 ?a, ?n, _, _) = Ok (uint64 ?b, ?m, _, _) =>
      replace a with b by ring; by replace n with m by lia end.
Qed.

Lemma ReadULEB3_groups g rest len d0 :
  g <> [] -> Forall is_group g -> Zlen g <= 10 -> 1 < len ->
  ReadULEB3 (Piece (mark g ++ rest) len) =
    Ok (uint64 (of_digits 128 g), 7 * Zlen g, List.last g d0, Piece rest len).
Proof.
  intros Hne Hg Hl Hlen. unfold ReadULEB3.
  pose proof (ReadULEB_loop_groups g 0 0 11 rest len d0 Hne Hg) as H. change (7 * Z.of_nat 0) with 0 in H.
  rewrite Z.mul_1_r, !Z.add_0_l in H. apply H; unfold Zlen in *; lia.
Qed.

(** The encoders of the DWARF specification. *)
Definition uleb (n : Z) : bytes := mark (to_digits 128 n).

Fixpoint sleb_groups (fuel : nat) (z : Z) : list Z :=
  match fuel with
  | O => []
  | S fuel =>
      if (-64 <=? z) && (z <? 64) then [z mod 128] else z mod 128 :: sleb_groups fuel (z / 128)
  end.

(** Ten groups hold 70 bits. *)
Definition sleb (z : Z) : bytes := mark (sleb_groups 10 z).

Lemma ReadULEB_uleb n rest len : 0 <= n < 2 ^ 64 -> 1 < len ->
  ReadULEB (Piece (uleb n ++ rest) len) = Ok (n, Piece rest len).
Proof.
  intros Hn Hlen. unfold ReadULEB, uleb.
  pose proof (to_digits_length 128 ltac:(lia) 10 n) as Hl.
  rewrite (ReadULEB3_groups _ _ _ 0).
  - rstep. rewrite of_to_digits by lia. rewrite wrap_u_id by done. done.
  - rewrite to_digits_eq by lia. done.
  - apply to_digits_range; lia.
  - unfold Zlen. change (128 ^ Z.of_nat 10) with (2 ^ 70) in Hl. lia.
  - done.
Qed.

Lemma length_mark g : Zlen (mark g) = Zlen g.
Proof.
  induction g as [|d g IH]; [done|]. destruct g; [done|]. rewrite mark_cons, !Zlen_cons by done. by rewrite IH, Zlen_cons.
Qed.

Lemma length_uleb n : fits_u 64 n -> 1 <= Zlen (uleb n) <= 10.
Proof.
  intros Hn. unfold uleb. rewrite length_mark. unfold fits_u in Hn.
  pose proof (to_digits_length 128 ltac:(lia) 10 n) as Hl. change (128 ^ Z.of_nat 10) with (2 ^ 70) in Hl.
  unfold Zlen. lia.
Qed.

Lemma uleb_nonempty n : exists c l, uleb n = c :: l.
Proof. unfold uleb, to_digits. cbn [to_digits_fuel]. match goal with |- context [mark (_ :: ?l)] => destruct l end; cbn; eauto. Qed.

Lemma land_64 d : is_group d -> (Z.land d 64 =? 0) = (d <? 64).
Proof.
  intros Hd. assert (forall n : nat, (n < 128)%nat -> (Z.land (Z.of_nat n) 64 =? 0) = (Z.of_nat n <? 64)) as H.
  { intros n Hn. apply (Forall_lookup_1 (fun n => (Z.land (Z.of_nat n) 64 =? 0) = (Z.of_nat n <? 64)) (seq 0 128) n);
      [|by apply lookup_seq]. clear. by repeat constructor. }
  specialize (H (Z.to_nat d)). unfold is_group in Hd. rewrite Z2Nat.id in H by lia. apply H. lia.
Qed.

(** What the groups of a signed number are. *)
Lemma sleb_groups_spec fuel : forall z, (0 < fuel)%nat ->
  - 2 ^ (7 * Z.of_nat fuel - 1) <= z < 2 ^ (7 * Z.of_nat fuel - 1) ->
  let g := sleb_groups fuel z in
  g <> [] /\ Forall is_group g /\ 1 <= Zlen g <= Z.of_nat fuel /\
  of_digits 128 g = z mod 2 ^ (7 * Zlen g) /\
  - 2 ^ (7 * Zlen g - 1) <= z < 2 ^ (7 * Zlen g - 1) /\
  (Z.land (List.last g 0) 64 =? 0) = (0 <=? z).
Proof.
  induction fuel as [|fuel IH]; intros z Hf Hz; [lia|]. cbn [sleb_groups].
  pose proof (Z.mod_pos_bound z 128 ltac:(lia)) as Hm.
  destruct ((-64 <=? z) && (z <? 64)) eqn:E; zify_bool.
  - split; [done|]. split; [by constructor|]. unfold Zlen. cbn [length of_digits List.last].
    change (2 ^ (7 * Z.of_nat 1)) with 128. change (2 ^ (7 * Z.of_nat 1 - 1)) with 64.
    split; [lia|]. split; [lia|]. split; [lia|]. rewrite land_64 by done.
    apply eq_true_iff_eq. rewrite Z.ltb_lt, Z.leb_le. pose proof (Z.div_mod z 128). lia.
  - assert (Hf' : (0 < fuel)%nat).
    { destruct fuel; [|lia]. change (2 ^ (7 * Z.of_nat 1 - 1)) with 64 in Hz.
      apply andb_false_iff in E as [E|E]; zify_bool; lia. }
    assert (Hp : 2 ^ (7 * Z.of_nat (S fuel) - 1) = 128 * 2 ^ (7 * Z.of_nat fuel - 1)).
    { replace (7 * Z.of_nat (S fuel) - 1) with (7 + (7 * Z.of_nat fuel - 1)) by lia.
      rewrite Z.pow_add_r by lia. done. }
    pose proof (Z.div_mod z 128 ltac:(lia)) as Hdm.
    destruct (IH (z / 128) Hf' ltac:(lia)) as (Hne & Hg & Hl & Ho & Hb & Hs). set (g := sleb_groups fuel (z / 128)) in *.
    split; [done|]. split; [by constructor|]. rewrite Zlen_cons. split; [lia|].
    assert (Hp' : 2 ^ (7 * (1 + Zlen g)) = 128 * 2 ^ (7 * Zlen g)).
    { replace (7 * (1 + Zlen g)) with (7 + 7 * Zlen g) by lia. rewrite Z.pow_add_r by lia. done. }
    assert (Hp2 : 2 ^ (7 * (1 + Zlen g) - 1) = 128 * 2 ^ (7 * Zlen g - 1)).
    { replace (7 * (1 + Zlen g) - 1) with (7 + (7 * Zlen g - 1)) by lia. rewrite Z.pow_add_r by lia. done. }
    split; [|split; [lia|]].
    + cbn [of_digits]. rewrite Ho, Hp', Z.rem_mul_r by (try apply Z.pow_pos_nonneg; lia). done.
    + assert (List.last (z mod 128 :: g) 0 = List.last g 0) as -> by (by destruct g). rewrite Hs.
      apply eq_true_iff_eq. rewrite !Z.leb_le. lia.
Qed.

Lemma lor_sign z s : 0 < s < 64 -> - 2 ^ s <= z < 0 ->
  Z.lor (z mod 2 ^ s) (uint64 (- Z.shiftl 1 s)) = uint64 z.
Proof.
  intros Hs Hz. assert (Hp : 2 ^ 64 = 2 ^ (64 - s) * 2 ^ s) by (rewrite <- Z.pow_add_r by lia; f_equal; lia).
  assert (0 < 2 ^ s) by (apply Z.pow_pos_nonneg; lia). assert (0 < 2 ^ (64 - s)) by (apply Z.pow_pos_nonneg; lia).
  assert (uint64 (- Z.shiftl 1 s) = uint64 (Z.shiftl (2 ^ (64 - s) - 1) s)) as ->.
  { rewrite !Z.shiftl_mul_pow2 by lia. unfold wrap_u. rewrite Z.mul_sub_distr_r, <- Hp.
    rewrite <- (Z_mod_plus_full (- (1 * 2 ^ s)) 1). f_equal. lia. }
  rewrite lor_group by first [lia|apply Z.mod_pos_bound; lia].
  unfold wrap_u. rewrite Z.mul_sub_distr_r, <- Hp.
  assert (z mod 2 ^ s = z + 2 ^ s) as ->.
  { rewrite <- (Z_mod_plus_full z 1), Z.mul_1_l, Z.mod_small; lia. }
  rewrite <- (Z_mod_plus_full z 1). f_equal. lia.
Qed.

Lemma int64_uint64 z : fits_s 64 z -> int64 (uint64 z) = z.
Proof.
  intros Hz. rewrite <- (wrap_s_id 64 z) at 2 by done.
  apply wrap_s_eq; [done|]. unfold wrap_u. by rewrite Zmod_mod.
Qed.

Lemma ReadSLEB_sleb z rest len : fits_s 64 z -> 1 < len ->
  ReadSLEB (Piece (sleb z ++ rest) len) = Ok (z, Piece rest len).
Proof.
  intros Hz Hlen. unfold ReadSLEB, sleb. unfold fits_s in Hz.
  destruct (sleb_groups_spec 10 z) as (Hne & Hg & Hl & Ho & Hb & Hs); [lia| |].
  { change (7 * Z.of_nat 10 - 1) with (64 - 1 + 6). rewrite Z.pow_add_r by lia. change (2 ^ 6) with 64. lia. }
  set (g := sleb_groups 10 z) in *. rewrite (ReadULEB3_groups _ _ _ 0) by first [done|lia]. rstep.
  rewrite Hs, Ho. pose proof (wrap_u_fits 64 z ltac:(lia)) as Hu.
  destruct (7 * Zlen g <? 64) eqn:E; cbn [andb]; zify_bool.
  - assert (Hp : 2 ^ (7 * Zlen g) <= 2 ^ 63) by (apply Z.pow_le_mono_r; lia).
    assert (Hp2 : 2 ^ (7 * Zlen g - 1) <= 2 ^ (7 * Zlen g)) by (apply Z.pow_le_mono_r; lia).
    pose proof (Z.mod_pos_bound z (2 ^ (7 * Zlen g)) ltac:(apply Z.pow_pos_nonneg; lia)) as Hm.
    rewrite wrap_u_id by (unfold fits_u; lia).
    destruct (0 <=? z) eqn:E0; cbn [negb]; zify_bool.
    + rewrite Z.mod_small by lia. rewrite wrap_s_id; [done|lia|unfold fits_s; lia].
    + rewrite lor_sign by lia. by rewrite int64_uint64.
  - assert (uint64 (z mod 2 ^ (7 * Zlen g)) = uint64 z) as ->.
    { unfold wrap_u. assert (2 ^ (7 * Zlen g) = 2 ^ (7 * Zlen g - 64) * 2 ^ 64) as ->
        by (rewrite <- Z.pow_add_r by lia; f_equal; lia).
      rewrite Z.mul_comm, Z.rem_mul_r by (try apply Z.pow_pos_nonneg; lia).
      rewrite Z.mul_comm, Z_mod_plus_full, Zmod_mod. done. }
    by rewrite int64_uint64.
Qed.

(** *** Strings *)

Lemma memchr_app b : forall rest n, Forall (fun c => c <> 0) b -> Zlen b < n ->
  memchr (b ++ 0 :: rest) 0 n = Ok (Some (0 :: rest)).
Proof.
  induction b as [|c b IH]; intros rest n Hb Hn; cbn [app memchr].
  - change (Zlen (@nil Z)) with 0 in Hn. rewrite (proj2 (Z.leb_gt _ _)) by lia. done.
  - inversion_clear Hb. rewrite Zlen_cons in Hn. pose proof (Zlen_nonneg b).
    rewrite (proj2 (Z.leb_gt _ _)), (proj2 (Z.eqb_neq c 0)) by lia. apply IH; [done|lia].
Qed.

Lemma ReadNullTerminated_app b rest len : Forall (fun c => c <> 0) b -> Zlen b < len < 2 ^ 64 ->
  ReadNullTerminated (Piece (b ++ 0 :: rest) len) =
    Ok (Piece (b ++ 0 :: rest) (Zlen b), Piece rest (len - Zlen b - 1)).
Proof.
  intros Hb Hlen. unfold ReadNullTerminated, size. cbn [ptr_ length_].
  rewrite memchr_app by (done || lia). rstep. unfold of_pointers. rewrite dist_app.
  pose proof (Zlen_nonneg b). rewrite (proj2 (Z.leb_le 0 (Zlen b))) by done. rstep.
  unfold assign_end. cbn [ptr_ length_]. change (plus (0 :: rest) 1) with rest.
  assert (dist (b ++ 0 :: rest) rest = Zlen b + 1) as -> by (unfold dist; rewrite Zlen_app, Zlen_cons; lia).
  rewrite wrap_u_id by (unfold fits_u; lia). by rewrite Z.sub_add_distr.
Qed.

(** *** Sections *)

(** A chunk in the 32-bit format, and what is behind it. *)
Lemma Section_Next_32 b body rest len : Zlen body < 2 ^ 32 - 1 -> 4 < len -> 4 + Zlen body <= len < 2 ^ 64 ->
  Section_.Next (Section_.mkSection b (Piece (le_bytes 4 (Zlen body) ++ body ++ rest) len)) =
    Ok (Some (Piece (body ++ rest) (Zlen body)), Section_.mkSection false (Piece rest (len - 4 - Zlen body))).
Proof.
  intros Hn Hl0 Hl. pose proof (Zlen_nonneg body) as Hp. pose proof (Zlen_nonneg rest).
  unfold Section_.Next. cbn [Section_.data_]. unfold empty. cbn [length_].
  rewrite (proj2 (Z.eqb_neq len 0)), (Read_le 4) by lia. rstep.
  change (uint32 (-1)) with (2 ^ 32 - 1). rewrite (proj2 (Z.eqb_neq (Zlen body) _)) by lia. rstep.
  unfold size. cbn [length_ ptr_]. rewrite (proj2 (Z.leb_le _ _)) by lia. rstep. unfold end_. cbn [length_ ptr_].
  rewrite (proj2 (Z.leb_le _ _)) by (rewrite Zlen_app; lia). rstep. rewrite plus_app by done.
  unfold assign_end, dist. cbn [length_ ptr_]. rewrite !Zlen_app, Zlen_le_bytes, wrap_u_id by (unfold fits_u; lia).
  match goal with |- Ok (_, Section_.mkSection _ (Piece _ ?a)) = Ok (_, Section_.mkSection _ (Piece _ ?c)) =>
    by replace a with c by lia end.
Qed.

(** ** Paths *)

Definition strip_end (b : bytes) : bytes := reverse (strip_front (reverse b)).

Lemma strip_front_suffix b : exists k, b = replicate k 47 ++ strip_front b.
Proof.
  induction b as [|c b [k IH]]; [by exists O|]. cbn [strip_front].
  destruct (c =? 47) eqn:E; [|by exists O]. zify_bool. subst c. exists (S k). cbn. by rewrite <- IH.
Qed.

Lemma strip_front_head b c l : strip_front b = c :: l -> c <> 47.
Proof.
  induction b as [|x b IH]; [done|]. cbn [strip_front]. destruct (x =? 47) eqn:E; [done|]. zify_bool. naive_solver.
Qed.

Lemma strip_back_spec b : strip_back b (length b) = Ok (length (strip_end b)).
Proof.
  unfold strip_end. induction b as [|c b IH] using rev_ind; [done|].
  rewrite length_app, Nat.add_comm. cbn [length Nat.add strip_back]. rewrite reverse_app. cbn [reverse strip_front].
  unfold vget. rewrite bool_decide_eq_true_2, Nat2Z.id by lia. rewrite lookup_app_r by lia.
  rewrite Nat.sub_diag. cbn [lookup list_lookup]. rstep. cbn [app].
  assert (Hb : forall k, (k <= length b)%nat -> strip_back (b ++ [c]) k = strip_back b k).
  { induction k as [|k IHk]; intros Hk; [done|]. cbn [strip_back].
    unfold vget. rewrite !bool_decide_eq_true_2, Nat2Z.id, lookup_app_l, IHk by lia. done. }
  rewrite Hb, IH by lia.
  change (strip_front (reverse [c] ++ reverse b)) with
    (if c =? 47 then strip_front (reverse b) else c :: reverse b).
  destruct (c =? 47); [done|]. rewrite length_reverse. cbn [length]. by rewrite length_reverse.
Qed.

Lemma strip_end_prefix b : exists k, b = strip_end b ++ replicate k 47.
Proof.
  destruct (strip_front_suffix (reverse b)) as [k Hk]. exists k. unfold strip_end.
  rewrite <- (reverse_involutive b) at 1. rewrite Hk at 1. by rewrite reverse_app, reverse_replicate.
Qed.

(** Without the slashes at its ends, the first one kept where asked. *)
Definition strip (b : bytes) (keep : bool) : bytes :=
  (if keep && bool_decide (head b = Some 47) then [47] else []) ++ strip_end (strip_front b).

Lemma wf_split s : wf s -> ptr_ s = content s ++ drop (Z.to_nat (length_ s)) (ptr_ s).
Proof. intros _. unfold content. by rewrite take_drop. Qed.

Lemma content_Piece p b tl : p = b ++ tl -> content (Piece p (Zlen b)) = b.
Proof. intros ->. unfold content, Zlen. cbn. by rewrite Nat2Z.id, take_app_length. Qed.

Lemma head_replicate k r : head r <> Some 47 -> head (replicate k 47 ++ r) = Some 47 <-> (0 < k)%nat.
Proof. destruct k; cbn; [|naive_solver lia]. intros Hr. split; [done|lia]. Qed.

Lemma strip_front_not_slash b : head (strip_front b) <> Some 47.
Proof. destruct (strip_front b) eqn:E; [done|]. apply strip_front_head in E. cbn. naive_solver. Qed.

(** A string between its slashes. *)
Lemma strip_split b : exists k j,
  let r := strip_front b in
  b = replicate k 47 ++ strip_end r ++ replicate j 47 /\
  Zlen b = Z.of_nat k + Zlen r /\ Zlen r = Zlen (strip_end r) + Z.of_nat j /\
  bool_decide (head b = Some 47) = negb (Z.of_nat k =? 0).
Proof.
  destruct (strip_front_suffix b) as [k Hk]. pose proof (strip_front_not_slash b) as Hns.
  destruct (strip_end_prefix (strip_front b)) as [j Hj]. exists k, j. cbv zeta. set (r := strip_front b) in *.
  repeat split.
  - by rewrite Hk at 1; rewrite Hj at 1.
  - rewrite Hk at 1. rewrite Zlen_app. unfold Zlen. by rewrite length_replicate.
  - rewrite Hj at 1. rewrite Zlen_app. unfold Zlen. by rewrite length_replicate.
  - apply eq_true_iff_eq. rewrite bool_decide_eq_true, negb_true_iff, Z.eqb_neq. rewrite Hk at 1.
    rewrite head_replicate by done. lia.
Qed.

Lemma plus_slashes k (b : bool) r : (b = true -> (0 < k)%nat) ->
  plus (replicate k 47 ++ r) (if b then Z.of_nat k - 1 else Z.of_nat k) = (if b then [47] else []) ++ r.
Proof.
  intros Hb. unfold plus. destruct b.
  - destruct k as [|k]; [specialize (Hb eq_refl); lia|].
    replace (Z.to_nat (Z.of_nat (S k) - 1)) with (length (replicate k 47)) by (rewrite length_replicate; lia).
    rewrite replicate_S_end, <- !app_assoc. by rewrite drop_app_length.
  - rewrite Nat2Z.id. rewrite <- (length_replicate k 47) at 1. by rewrite drop_app_length.
Qed.

Lemma StripSlashes_spec s keep : wf s ->
  exists s', StripSlashes s keep = Ok s' /\ wf s' /\ content s' = strip (content s) keep.
Proof.
  intros Hs. pose proof Hs as [Hs1 Hs2]. unfold StripSlashes, empty, strip.
  destruct (length_ s =? 0) eqn:E0; zify_bool.
  { exists s. split; [done|]. split; [done|]. unfold content. rewrite E0. cbn. by destruct keep. }
  rewrite range_ok by lia. rstep. fold (content s). rewrite strip_back_spec. rstep.
  pose proof (length_content s Hs) as Hl. pose proof (wf_split s Hs) as Hptr.
  destruct (strip_split (content s)) as (k & j & Hb & Hl1 & Hl2 & Hh). cbv zeta in *.
  rewrite Hh. rewrite Hb in Hptr at 1. set (r := strip_front (content s)) in *.
  fold (Zlen (strip_end r)). pose proof (Zlen_nonneg (strip_end r)) as Hse.
  replace (Zlen (content s) - Zlen r) with (Z.of_nat k) by lia.
  set (b := keep && negb (Z.of_nat k =? 0)).
  assert (Hk : b = true -> (0 < k)%nat) by (unfold b; intros []%andb_true_iff; zify_bool; lia).
  rewrite Hptr, <- !app_assoc, plus_slashes by done. rewrite app_assoc.
  set (pre := if b then [47] else []).
  assert (Z.of_nat k + Zlen (strip_end r) - (if b then Z.of_nat k - 1 else Z.of_nat k) = Zlen (pre ++ strip_end r)) as ->.
  { rewrite Zlen_app. unfold pre. destruct b; unfold Zlen; cbn [length]; lia. }
  eexists. split; [reflexivity|]. split; [|by eapply content_Piece].
  assert (Zlen pre <= Z.of_nat k) by (unfold pre; destruct b; unfold Zlen; cbn [length]; [specialize (Hk eq_refl)|]; lia).
  unfold wf. cbn [ptr_ length_]. rewrite !Zlen_app in *.
  pose proof (Zlen_nonneg pre). pose proof (Zlen_nonneg (replicate j 47)).
  pose proof (Zlen_nonneg (drop (Z.to_nat (length_ s)) (ptr_ s))). lia.
Qed.

Module PathText.
Import Path.

(** A following part, after its slash. *)
Definition part (b : bytes) : bytes := match b with [] => [] | _ => 47 :: b end.

Definition text (t : Path) : bytes :=
  content (base_dir_ t) ++ part (content (sub_dir_ t)) ++ part (content (file_ t)).

Definition is_absolute (b : bytes) : bool := bool_decide (head b = Some 47).

(** The path of [file] in [sub] in [base]: an absolute part overrides what is
    before it. *)
Definition path_text (base sub file : bytes) : bytes :=
  match file with
  | [] => []
  | _ =>
      let dir :=
        if is_absolute file then []
        else if is_absolute sub || bool_decide (base = []) then strip sub true
        else strip base true ++ part (strip sub false) in
      dir ++ part (strip file false)
  end.

(** The parts lie inside the file, and there is no subdirectory without a base. *)
Definition path_wf (t : Path) : Prop :=
  wf (base_dir_ t) /\ wf (sub_dir_ t) /\ wf (file_ t) /\
  (content (base_dir_ t) = [] -> content (sub_dir_ t) = []) /\
  length_ (base_dir_ t) + length_ (sub_dir_ t) + length_ (file_ t) < 2 ^ 63.

Lemma empty_content s : wf s -> empty s = bool_decide (content s = []).
Proof.
  intros Hs. pose proof (length_content s Hs) as Hl. unfold empty.
  apply eq_true_iff_eq. rewrite Z.eqb_eq, bool_decide_eq_true. unfold Zlen in Hl.
  rewrite <- nil_length_inv_iff || split; [intros E; apply nil_length_inv; lia|].
  intros E. rewrite E in Hl. cbn in Hl. lia.
Qed.

Lemma absolute_content s : wf s -> absolute s = Ok (is_absolute (content s)).
Proof.
  intros Hs. unfold absolute, is_absolute. rewrite empty_content by done.
  pose proof (wf_split s Hs) as Hp. destruct (content s) as [|c l] eqn:E.
  - by rewrite bool_decide_eq_true_2.
  - rewrite bool_decide_eq_false_2 by done. unfold at_index. rewrite Hp. cbn [app].
    rewrite (vget_lookup _ 0 c) by done. rstep. f_equal. apply eq_true_iff_eq.
    rewrite Z.eqb_eq, bool_decide_eq_true. cbn. naive_solver.
Qed.

Lemma length_strip_end b : Zlen (strip_end b) <= Zlen b.
Proof.
  destruct (strip_end_prefix b) as [k Hk]. rewrite Hk at 2. rewrite Zlen_app.
  pose proof (Zlen_nonneg (replicate k 47)). lia.
Qed.

Lemma length_strip b keep : Zlen (strip b keep) <= Zlen b.
Proof.
  unfold strip. destruct (strip_split b) as (k & j & _ & H1 & H2 & H3). cbv zeta in *.
  rewrite H3, Zlen_app. destruct keep, (Z.of_nat k =? 0) eqn:E; cbn [andb negb]; zify_bool; unfold Zlen in *;
    cbn [length]; lia.
Qed.

Lemma strip_nonempty b : b <> [] -> strip b true <> [].
Proof.
  unfold strip. cbn [andb]. destruct b as [|c b]; [done|]. intros _. case_bool_decide as E; [done|]. cbn [app].
  cbn [strip_front]. destruct (c =? 47) eqn:Ec; zify_bool; [subst; done|].
  intros Hr. destruct (strip_end_prefix (c :: b)) as [k Hk]. rewrite Hr in Hk.
  destruct k; [done|]. by injection Hk as -> _.
Qed.

Lemma wf_null : wf (Piece [] 0).
Proof. unfold wf, Zlen. cbn [ptr_ length_ length]. lia. Qed.

(** The parts the constructor chooses, before it strips them. *)
Lemma Path_new_parts b s f : wf b -> wf s -> wf f -> length_ b + length_ s + length_ f < 2 ^ 63 ->
  (content b = [] -> content s = []) -> content f <> [] ->
  exists t, (base_dir ← StripSlashes b true; sub_dir ← StripSlashes s false; file ← StripSlashes f false;
             Ok (mkPath base_dir sub_dir file)) = Ok t /\ path_wf t /\
    text t = strip (content b) true ++ part (strip (content s) false) ++ part (strip (content f) false).
Proof.
  intros Hb Hs Hf Hl He Hne.
  destruct (StripSlashes_spec b true Hb) as (b' & -> & Hb' & Eb).
  destruct (StripSlashes_spec s false Hs) as (s' & -> & Hs' & Es).
  destruct (StripSlashes_spec f false Hf) as (f' & -> & Hf' & Ef). rstep.
  eexists. split; [reflexivity|]. unfold text, path_wf. cbn [base_dir_ sub_dir_ file_]. rewrite Eb, Es, Ef.
  split; [|done]. split_and!; [done..| |].
  - intros Hz. destruct (decide (content b = [])) as [Hd|Hd]; [|by apply strip_nonempty in Hd].
    by rewrite (He Hd).
  - rewrite <- !length_content in * by done. rewrite Eb, Es, Ef.
    pose proof (length_strip (content b) true). pose proof (length_strip (content s) false).
    pose proof (length_strip (content f) false). lia.
Qed.

(** The constructor builds a well-formed path with the text of its parts. *)
Lemma Path_new_text b s f : wf b -> wf s -> wf f -> length_ b + length_ s + length_ f < 2 ^ 63 ->
  exists t, Path_new b s f = Ok t /\ path_wf t /\ text t = path_text (content b) (content s) (content f).
Proof.
  intros Hb Hs Hf Hl. unfold Path_new, path_text. pose proof wf_null as Hn.
  pose proof Hb as [? _]. pose proof Hs as [? _]. pose proof Hf as [? _].
  rewrite empty_content by done. case_bool_decide as Ef.
  { eexists. split; [reflexivity|]. rewrite Ef. unfold path_wf, text. cbn [base_dir_ sub_dir_ file_].
    rewrite Ef. unfold clear. cbn [length_]. split; [|done]. split_and!; [done..|lia]. }
  destruct (content f) as [|c l] eqn:Ec; [done|]. rewrite <- Ec in *. clear Ef.
  rewrite absolute_content by done. rstep. destruct (is_absolute (content f)) eqn:Ea.
  { destruct (Path_new_parts (Piece [] 0) (Piece [] 0) f) as (t & Ht & Hw & He);
      [done..|cbn [length_]; lia|done|by rewrite Ec|].
    exists t. split; [exact Ht|]. split; [done|]. exact He. }
  rewrite absolute_content by done. rstep. destruct (is_absolute (content s)) eqn:Eas; cbn [orb].
  { destruct (Path_new_parts s (Piece [] 0) f) as (t & Ht & Hw & He);
      [done..|cbn [length_]; lia|done|by rewrite Ec|].
    exists t. split; [exact Ht|]. split; [done|]. exact He. }
  rewrite empty_content by done. case_bool_decide as Eb.
  - destruct (Path_new_parts s b f) as (t & Ht & Hw & He); [done..|lia|done|by rewrite Ec|].
    exists t. split; [exact Ht|]. split; [done|]. rewrite He, Eb. done.
  - destruct (Path_new_parts b s f) as (t & Ht & Hw & He); [done..|by rewrite Ec|].
    exists t. split; [exact Ht|]. split; [done|]. rewrite He. by rewrite app_assoc.
Qed.

(** [c] has copied the text [t] into a buffer of [n] bytes. *)
Definition copied (n : Z) (t : bytes) (c : copying) : Prop :=
  out c = take (Z.to_nat (n - 1)) t /\ buf_size c = n - Zlen (out c) /\ total_size c = Zlen t.

Lemma Append_copies n t s c : 0 <= n -> wf s -> copied n t c -> Zlen t + length_ s < 2 ^ 64 ->
  exists c', Append s c = Ok c' /\ copied n (t ++ content s) c'.
Proof.
  intros Hn Hs (Ho & Hb & Ht) Hl. pose proof (length_content s Hs) as HL. pose proof Hs as [Hs1 Hs2].
  unfold Append, StringPiece.size. pose proof (Zlen_nonneg t).
  assert (Hlt : Zlen (out c) = Z.min (Z.max 0 (n - 1)) (Zlen t)) by (rewrite Ho; unfold Zlen in *; rewrite length_take; lia).
  destruct (2 <=? buf_size c) eqn:E; zify_bool.
  - rewrite range_ok by lia. rstep. eexists. split; [reflexivity|].
    assert (Hfull : Zlen t <= n - 1) by lia.
    assert (out c ++ take (Z.to_nat (Z.min (length_ s) (buf_size c - 1))) (ptr_ s) =
            take (Z.to_nat (n - 1)) (t ++ content s)) as Hout.
    { rewrite take_app, Ho. f_equal. unfold content. rewrite take_take. f_equal. unfold Zlen in *. lia. }
    unfold copied. cbn [out buf_size total_size]. rewrite Hout. split; [done|]. rewrite Ht, Zlen_app, HL.
    split; [|apply wrap_u_id; unfold fits_u; lia].
    unfold Zlen. rewrite length_take, length_app. unfold Zlen in *. lia.
  - rstep. eexists. split; [reflexivity|]. unfold copied. cbn [out buf_size total_size].
    rewrite take_app_le, Ht, Zlen_app, HL by (unfold Zlen in *; lia).
    split_and!; [done|done|apply wrap_u_id; unfold fits_u; lia].
Qed.

Lemma text_length t : path_wf t -> Zlen (text t) = Path.size t.
Proof.
  intros (Hb & Hs & Hf & _ & Hl). unfold Path.size, text, StringPiece.size.
  rewrite !empty_content, <- !length_content in * by done. rewrite !Zlen_app.
  assert (Hp : forall l, Zlen (part l) = flag (negb (bool_decide (l = []))) + Zlen l).
  { intros [|c l]; [done|]. cbn [part]. rewrite Zlen_cons. done. }
  rewrite !Hp. pose proof (Zlen_nonneg (content (base_dir_ t))). pose proof (Zlen_nonneg (content (sub_dir_ t))).
  pose proof (Zlen_nonneg (content (file_ t))).
  assert (forall b, 0 <= flag b <= 1) as Hfl by (intros []; cbn; lia).
  pose proof (Hfl (negb (bool_decide (content (sub_dir_ t) = [])))).
  pose proof (Hfl (negb (bool_decide (content (file_ t) = [])))).
  rewrite wrap_u_id by (unfold fits_u; lia). lia.
Qed.

(** A part is appended with its slash, and an empty part not at all. *)
Lemma append_content s d : wf s ->
  (if negb (empty s) then AppendToString s d else Ok d) = Ok (d ++ content s).
Proof.
  intros Hs. rewrite empty_content by done. unfold AppendToString. rewrite range_ok by apply Hs.
  rstep. fold (content s). case_bool_decide as E; [|done]. cbn [negb]. by rewrite E, app_nil_r.
Qed.

Lemma append_part s d : wf s ->
  (if negb (empty s) then AppendToString s (d ++ [47]) else Ok d) = Ok (d ++ part (content s)).
Proof.
  intros Hs. pose proof (append_content s (d ++ [47]) Hs) as H. rewrite empty_content in * by done.
  case_bool_decide as E; cbn [negb] in *; [by rewrite E, app_nil_r|]. rewrite H.
  destruct (content s); [done|]. by rewrite <- app_assoc.
Qed.

(** The base directory is there where the subdirectory is. *)
Lemma sub_has_base t : path_wf t -> negb (empty (sub_dir_ t)) = true -> check (negb (empty (base_dir_ t))) = Ok tt.
Proof.
  intros (Hb & Hs & _ & He & _). rewrite !empty_content by done. case_bool_decide; [done|].
  case_bool_decide; [|done]. naive_solver.
Qed.

Lemma ToString_text t : path_wf t -> ToString t = Ok (text t).
Proof.
  intros Hw. pose proof (text_length t Hw) as Hl. pose proof Hw as (Hb & Hs & Hf & _).
  unfold ToString, ToString_to. change (Zlen (@nil Z)) with 0. rewrite Z.add_0_l, <- Hl.
  rewrite append_content by done. rstep. rewrite app_nil_l.
  assert (forall d, (if negb (empty (sub_dir_ t)) then check (negb (empty (base_dir_ t))) ≫= fun _ =>
      AppendToString (sub_dir_ t) (d ++ [47]) else Ok d) = Ok (d ++ part (content (sub_dir_ t)))) as Hsub.
  { intros d. rewrite <- append_part by done. destruct (negb (empty (sub_dir_ t))) eqn:E; [|done].
    by rewrite sub_has_base. }
  rewrite Hsub. rstep. rewrite append_part by done. rstep. rewrite <- app_assoc. fold (text t).
  rewrite wrap_u_id; [by rewrite Z.eqb_refl|]. rewrite Hl. apply wrap_u_fits. lia.
Qed.

Lemma Append_part n t s c : 0 <= n -> wf s -> copied n t c -> Zlen t + 1 + length_ s < 2 ^ 64 ->
  exists c', (if negb (empty s) then Append slash c ≫= Append s else Ok c) = Ok c' /\
    copied n (t ++ part (content s)) c'.
Proof.
  intros Hn Hs Hc Hl. pose proof (length_content s Hs) as HL. rewrite empty_content by done.
  case_bool_decide as E; cbn [negb]; [rewrite E, app_nil_r; eauto|].
  assert (wf slash) as Hsl by (vm_compute; repeat split; discriminate).
  destruct (Append_copies n t slash c) as (c1 & -> & H1); [done..| |].
  { change (length_ slash) with 1. pose proof (proj1 (proj1 Hs)). lia. }
  change (content slash) with [47] in H1. rstep.
  destruct (Append_copies n (t ++ [47]) s c1) as (c2 & -> & H2); [done..| |].
  { rewrite Zlen_app. change (Zlen [47]) with 1. lia. }
  exists c2. split; [done|]. rewrite <- app_assoc in H2. by destruct (content s).
Qed.

(** What snprintf does with a text: a prefix and a NUL. *)
Definition snprintf_text (n : Z) (t : bytes) : bytes :=
  if n =? 0 then [] else take (Z.to_nat (n - 1)) t ++ [0].

Lemma ToBuffer_text t n : path_wf t -> 0 <= n -> ToBuffer t n = Ok (snprintf_text n (text t), Zlen (text t)).
Proof.
  intros Hw Hn. pose proof (text_length t Hw) as Hl. pose proof Hw as (Hb & Hs & Hf & He & Hsum).
  pose proof (length_content _ Hb) as Lb. pose proof (length_content _ Hs) as Ls.
  pose proof Hb as [Hb1 _]. pose proof Hs as [Hs1 _]. pose proof Hf as [Hf1 _].
  unfold ToBuffer.
  assert (exists c, (if negb (empty (base_dir_ t)) then Append (base_dir_ t) (mkCopying n [] 0)
      else Ok (mkCopying n [] 0)) = Ok c /\ copied n (content (base_dir_ t)) c) as (c1 & -> & H1).
  { assert (copied n [] (mkCopying n [] 0)) as H0.
    { unfold copied. cbn [out buf_size total_size]. rewrite take_nil. change (Zlen (@nil Z)) with 0. split_and!; [done|lia|done]. }
    rewrite empty_content by done. case_bool_decide as E; cbn [negb]; [rewrite E; eauto|].
    apply (Append_copies n [] _ _ Hn Hb H0). change (Zlen (@nil Z)) with 0. lia. }
  rstep. destruct (Append_part n _ (sub_dir_ t) c1 Hn Hs H1) as (c2 & E2 & H2); [lia|].
  assert ((if negb (empty (sub_dir_ t)) then check (negb (empty (base_dir_ t))) ≫= fun _ =>
      Append slash c1 ≫= fun c => Append (sub_dir_ t) c else Ok c1) = Ok c2) as ->.
  { rewrite <- E2. destruct (negb (empty (sub_dir_ t))) eqn:E; [|done]. by rewrite sub_has_base. }
  rstep. destruct (Append_part n _ (file_ t) c2 Hn Hf H2) as (c3 & E3 & H3).
  { assert (forall l, Zlen (part l) <= 1 + Zlen l) as Hp by (intros [|? ?]; [done|]; cbn [part]; rewrite !Zlen_cons; lia).
    rewrite Zlen_app. specialize (Hp (content (sub_dir_ t))). lia. }
  change (fun c => Append (file_ t) c) with (Append (file_ t)). rewrite E3. rstep. rewrite <- app_assoc in H3. fold (text t) in H3.
  destruct H3 as (Ho & Hbs & Ht). rewrite Ht, Hl, Z.eqb_refl. rstep. unfold snprintf_text.
  assert ((buf_size c3 =? 0) = (n =? 0)) as ->.
  { apply eq_true_iff_eq. rewrite !Z.eqb_eq, Hbs, Ho. unfold Zlen. rewrite length_take. lia. }
  rewrite Ho. destruct (n =? 0) eqn:E; zify_bool; [|done]. subst. done.
Qed.

(** The path of a source file has the text of [file] in [sub] in [base], an
    absolute part overriding what is before it and superfluous slashes removed at
    the ends of the parts; toString returns it, and toBuffer behaves like snprintf:
    it copies a prefix that fits, terminates it and returns the full length. *)
Theorem Path_text b s f n :
  wf b -> wf s -> wf f -> length_ b + length_ s + length_ f < 2 ^ 63 -> 0 <= n ->
  exists t, Path_new b s f = Ok t /\
    let text := path_text (content b) (content s) (content f) in
    ToString t = Ok text /\ ToBuffer t n = Ok (snprintf_text n text, Zlen text).
Proof.
  intros Hb Hs Hf Hl Hn. destruct (Path_new_text b s f Hb Hs Hf Hl) as (t & Ht & Hw & He).
  exists t. cbv zeta. rewrite <- He. split; [done|]. split; [by apply ToString_text|by apply ToBuffer_text].
Qed.

Lemma Path_text_witness : exists t,
  Path_new (of_string (str "/src//")) (of_string (str "lib/")) (of_string (str "/a.cc")) = Ok t /\
  ToString t = Ok (str "/a.cc") /\ ToBuffer t 4 = Ok (str "/a." ++ [0], 5).
Proof.
  apply (Path_text (of_string (str "/src//")) (of_string (str "lib/")) (of_string (str "/a.cc")) 4);
    vm_compute; repeat split; discriminate.
Defined.

Example relative_path : (t ← Path_new (of_string (str "/src//")) (of_string (str "lib/")) (of_string (str "a.cc")); ToString t) =
  Ok (str "/src/lib/a.cc").
Proof. reflexivity. Qed.
End PathText.

(** C39: The LEB128 readers invert the encoders of the DWARF specification on every
    unsigned and every signed 64-bit number, and leave the piece at the rest of
    the input. *)
Theorem leb128_roundtrip n z rest len : fits_u 64 n -> fits_s 64 z -> 1 < len ->
  ReadULEB (Piece (uleb n ++ rest) len) = Ok (n, Piece rest len) /\
  ReadSLEB (Piece (sleb z ++ rest) len) = Ok (z, Piece rest len).
Proof. intros. split; [by apply ReadULEB_uleb|by apply ReadSLEB_sleb]. Qed.

Lemma leb128_roundtrip_witness :
  ReadULEB (Piece (uleb 624485 ++ [7]) 9) = Ok (624485, Piece [7] 9) /\
  ReadSLEB (Piece (sleb (-123456) ++ [7]) 9) = Ok (-123456, Piece [7] 9).
Proof. apply (leb128_roundtrip 624485 (-123456) [7] 9); vm_compute; [split; done|split; done|done]. Defined.

Example uleb_wikipedia : uleb 624485 = [229; 142; 38].
Proof. reflexivity. Qed.
Example sleb_wikipedia : sleb (-123456) = [192; 187; 120].
Proof. reflexivity. Qed.

(** Eleven groups are shifted out of the type. *)
Example long_leb_faults : ReadULEB (Piece (replicate 10 128 ++ [0]) 20) = Err BadShift.
Proof. reflexivity. Qed.
