(* ===== verification/LineNumberVM.v ===== *)
(** * symbolizer/Dwarf: the line number virtual machine

    Dwarf::LineNumberVM of claire/common/symbolizer/Dwarf.{h,cc}: the header of a
    line number program, its opcodes, and the search of an address in the rows
    the program commits. *)

From S2P Require Import Prelude Bytes StringPiece DwarfReader.
Open Scope Z_scope.

(** ** Registers and header *)

(* @src claire/common/symbolizer/Dwarf.h:241-252 LineNumberVM *)
Record Registers := mkRegisters {
  address_ : Z; file_ : Z; line_ : Z; column_ : Z; is_stmt_ : bool; basic_block_ : bool; end_sequence_ : bool;
  prologue_end_ : bool; epilogue_begin_ : bool; isa_ : Z; discriminator_ : Z }.

(* @src claire/common/symbolizer/Dwarf.h:226-239 LineNumberVM *)
Record Header := mkHeader {
  version_ : Z; min_length_ : Z; default_is_stmt_ : bool; line_base_ : Z; line_range_ : Z; opcode_base_ : Z;
  standard_opcode_lengths_ : bytes;
  include_directories_ : StringPiece; include_directory_count_ : Z;
  file_names_ : StringPiece; file_name_count_ : Z }.

(* @src claire/common/symbolizer/Dwarf.h:221-224 LineNumberVM *)
Record LineNumberVM := mkLineNumberVM {
  is_64_bits_ : bool; data_ : StringPiece; compilation_directory_ : StringPiece; header : Header; regs : Registers }.

(* @src claire/common/symbolizer/Dwarf.h:199-205 FileName *)
Record FileName := mkFileName { relative_name : StringPiece; directory_index : Z }.

(* @src claire/common/symbolizer/Dwarf.h:189-194 StepResult *)
Inductive StepResult := CONTINUE | COMMIT | END_.

(** Assignments to single registers. *)
Definition set_address (x : Z) (r : Registers) : Registers :=
  mkRegisters x (file_ r) (line_ r) (column_ r) (is_stmt_ r) (basic_block_ r) (end_sequence_ r) (prologue_end_ r)
    (epilogue_begin_ r) (isa_ r) (discriminator_ r).
Definition set_file (x : Z) (r : Registers) : Registers :=
  mkRegisters (address_ r) x (line_ r) (column_ r) (is_stmt_ r) (basic_block_ r) (end_sequence_ r) (prologue_end_ r)
    (epilogue_begin_ r) (isa_ r) (discriminator_ r).
Definition set_line (x : Z) (r : Registers) : Registers :=
  mkRegisters (address_ r) (file_ r) x (column_ r) (is_stmt_ r) (basic_block_ r) (end_sequence_ r) (prologue_end_ r)
    (epilogue_begin_ r) (isa_ r) (discriminator_ r).
Definition set_column (x : Z) (r : Registers) : Registers :=
  mkRegisters (address_ r) (file_ r) (line_ r) x (is_stmt_ r) (basic_block_ r) (end_sequence_ r) (prologue_end_ r)
    (epilogue_begin_ r) (isa_ r) (discriminator_ r).
Definition set_is_stmt (x : bool) (r : Registers) : Registers :=
  mkRegisters (address_ r) (file_ r) (line_ r) (column_ r) x (basic_block_ r) (end_sequence_ r) (prologue_end_ r)
    (epilogue_begin_ r) (isa_ r) (discriminator_ r).
Definition set_basic_block (x : bool) (r : Registers) : Registers :=
  mkRegisters (address_ r) (file_ r) (line_ r) (column_ r) (is_stmt_ r) x (end_sequence_ r) (prologue_end_ r)
    (epilogue_begin_ r) (isa_ r) (discriminator_ r).
Definition set_prologue_end (x : bool) (r : Registers) : Registers :=
  mkRegisters (address_ r) (file_ r) (line_ r) (column_ r) (is_stmt_ r) (basic_block_ r) (end_sequence_ r) x
    (epilogue_begin_ r) (isa_ r) (discriminator_ r).
Definition set_epilogue_begin (x : bool) (r : Registers) : Registers :=
  mkRegisters (address_ r) (file_ r) (line_ r) (column_ r) (is_stmt_ r) (basic_block_ r) (end_sequence_ r)
    (prologue_end_ r) x (isa_ r) (discriminator_ r).
Definition set_isa (x : Z) (r : Registers) : Registers :=
  mkRegisters (address_ r) (file_ r) (line_ r) (column_ r) (is_stmt_ r) (basic_block_ r) (end_sequence_ r)
    (prologue_end_ r) (epilogue_begin_ r) x (discriminator_ r).
Definition set_discriminator (x : Z) (r : Registers) : Registers :=
  mkRegisters (address_ r) (file_ r) (line_ r) (column_ r) (is_stmt_ r) (basic_block_ r) (end_sequence_ r)
    (prologue_end_ r) (epilogue_begin_ r) (isa_ r) x.

(** The opcodes of the DWARF standard, as in <dwarf.h>. *)
Definition DW_LNS_copy := 1.
Definition DW_LNS_advance_pc := 2.
Definition DW_LNS_advance_line := 3.
Definition DW_LNS_set_file := 4.
Definition DW_LNS_set_column := 5.
Definition DW_LNS_negate_stmt := 6.
Definition DW_LNS_set_basic_block := 7.
Definition DW_LNS_const_add_pc := 8.
Definition DW_LNS_fixed_advance_pc := 9.
Definition DW_LNS_set_prologue_end := 10.
Definition DW_LNS_set_epilogue_begin := 11.
Definition DW_LNS_set_isa := 12.
Definition DW_LNE_end_sequence := 1.
Definition DW_LNE_set_address := 2.
Definition DW_LNE_define_file := 3.
Definition DW_LNE_set_discriminator := 4.

(* @src claire/common/symbolizer/Dwarf.cc:559-572 LineNumberVM::Reset *)
Definition Reset (h : Header) : Registers :=
  mkRegisters 0 1 1 0 (default_is_stmt_ h) false false false false 0 0.

(** ** The tables of the header *)

(* @src claire/common/symbolizer/Dwarf.cc:679-692 LineNumberVM::ReadFileName *)
Definition ReadFileName (program : StringPiece) : res (option FileName * StringPiece) :=
  '(name, program) ← ReadNullTerminated program;
  if empty name then Ok (None, program)
  else
    '(index, program) ← ReadULEB program;
    '(_, program) ← ReadULEB program;
    '(_, program) ← ReadULEB program;
    Ok (Some (mkFileName name index), program).

(** Every pass reads a character. *)
(* @src claire/common/symbolizer/Dwarf.cc:602-605 LineNumberVM::Init *)
Fixpoint skip_directories (fuel : nat) (h : StringPiece) (count : Z) : res (Z * StringPiece) :=
  match fuel with
  | O => Err NoFuel
  | S fuel =>
      '(s, h) ← ReadNullTerminated h;
      if empty s then Ok (count, h) else skip_directories fuel h (uint64 (count + 1))
  end.

(* @src claire/common/symbolizer/Dwarf.cc:611-614 LineNumberVM::Init *)
Fixpoint skip_file_names (fuel : nat) (h : StringPiece) (count : Z) : res (Z * StringPiece) :=
  match fuel with
  | O => Err NoFuel
  | S fuel =>
      '(fn, h) ← ReadFileName h;
      match fn with None => Ok (count, h) | Some _ => skip_file_names fuel h (uint64 (count + 1)) end
  end.

Definition table_fuel (s : StringPiece) : nat := S (length (ptr_ s)).

(** The header and what remains of the data. *)
(* @src claire/common/symbolizer/Dwarf.cc:574-617 LineNumberVM::Init *)
Definition Init (is_64_bits : bool) (data : StringPiece) : res (Header * StringPiece) :=
  '(version, data) ← Read 2 data;
  _ ← check ((2 <=? version) && (version <=? 4));
  '(header_length, data) ← ReadOffset data is_64_bits;
  _ ← check (header_length <=? size data);
  let h := Piece (ptr_ data) header_length in
  stop ← end_ h;
  let data := assign_end stop data in
  '(min_length, h) ← Read 1 h;
  h ← (if version =? 4 then
         '(max_ops_per_instruction, h) ← Read 1 h;
         _ ← check (max_ops_per_instruction =? 1);
         Ok h
       else Ok h);
  '(default_is_stmt, h) ← Read 1 h;
  '(line_base, h) ← Read 1 h;
  '(line_range, h) ← Read 1 h;
  '(opcode_base, h) ← Read 1 h;
  _ ← check (negb (opcode_base =? 0));
  let standard_opcode_lengths := ptr_ h in
  h ← advance (opcode_base - 1) h;
  let tmp := ptr_ h in
  '(include_directory_count, h) ← skip_directories (table_fuel h) h 0;
  let include_directories := assign tmp (ptr_ h) in
  let tmp := ptr_ h in
  '(file_name_count, h) ← skip_file_names (table_fuel h) h 0;
  let file_names := assign tmp (ptr_ h) in
  Ok (mkHeader version min_length (negb (default_is_stmt =? 0)) (int8 line_base) line_range opcode_base
        standard_opcode_lengths include_directories include_directory_count file_names file_name_count, data).

(* @src claire/common/symbolizer/Dwarf.cc:548-557 LineNumberVM::LineNumberVM *)
Definition LineNumberVM_new (data compilation_directory : StringPiece) : res LineNumberVM :=
  '(chunk, section) ← Section_.Next (Section_.Section_new data);
  match chunk with
  | None => Err CheckFailed
  | Some chunk =>
      let is_64_bits := Section_.is_64_bits_ section in
      '(h, data) ← Init is_64_bits chunk;
      Ok (mkLineNumberVM is_64_bits data compilation_directory h (Reset h))
  end.

(** ** Executing opcodes *)

(* @src claire/common/symbolizer/Dwarf.cc:806-812 LineNumberVM::Step *)
Fixpoint skip_arguments (arg_count : nat) (program : StringPiece) : res StringPiece :=
  match arg_count with
  | O => Ok program
  | S arg_count => '(_, program) ← ReadULEB program; skip_arguments arg_count program
  end.

(** Integer division of the program. *)
Definition quot (a b : Z) : res Z := if b =? 0 then Err DivideByZero else Ok (a / b).

Definition after_row (r : Registers) : Registers :=
  set_discriminator 0 (set_epilogue_begin false (set_prologue_end false (set_basic_block false r))).

(** A row is committed by a special opcode. *)
(* @src claire/common/symbolizer/Dwarf.cc:740-754 LineNumberVM::Step *)
Definition Step_special (h : Header) (r : Registers) (opcode : Z) : res (StepResult * Registers) :=
  let adjusted_opcode := uint8 (opcode - opcode_base_ h) in
  op_advance ← quot adjusted_opcode (line_range_ h);
  let r := set_address (uint64 (address_ r + min_length_ h * uint8 op_advance)) r in
  let r := set_line (uint64 (line_ r + (line_base_ h + adjusted_opcode mod line_range_ h))) r in
  Ok (COMMIT, after_row r).

(* @src claire/common/symbolizer/Dwarf.cc:756-814 LineNumberVM::Step *)
Definition Step_standard (h : Header) (r : Registers) (opcode : Z) (program : StringPiece) :
    res (StepResult * Registers * StringPiece) :=
  let unrecognized :=
    arg_count ← vget (standard_opcode_lengths_ h) (opcode - 1);
    program ← skip_arguments (Z.to_nat arg_count) program;
    Ok (CONTINUE, r, program) in
  let continue r := Ok (CONTINUE, r, program) in
  if opcode =? DW_LNS_copy then Ok (COMMIT, after_row r, program)
  else if opcode =? DW_LNS_advance_pc then
    '(n, program) ← ReadULEB program;
    Ok (CONTINUE, set_address (uint64 (address_ r + uint64 (min_length_ h * n))) r, program)
  else if opcode =? DW_LNS_advance_line then
    '(n, program) ← ReadSLEB program;
    Ok (CONTINUE, set_line (uint64 (line_ r + n)) r, program)
  else if opcode =? DW_LNS_set_file then
    '(n, program) ← ReadULEB program; Ok (CONTINUE, set_file n r, program)
  else if opcode =? DW_LNS_set_column then
    '(n, program) ← ReadULEB program; Ok (CONTINUE, set_column n r, program)
  else if opcode =? DW_LNS_negate_stmt then continue (set_is_stmt (negb (is_stmt_ r)) r)
  else if opcode =? DW_LNS_set_basic_block then continue (set_basic_block true r)
  else if opcode =? DW_LNS_const_add_pc then
    n ← quot (255 - opcode_base_ h) (line_range_ h);
    continue (set_address (uint64 (address_ r + min_length_ h * n)) r)
  else if opcode =? DW_LNS_fixed_advance_pc then
    '(n, program) ← Read 2 program;
    Ok (CONTINUE, set_address (uint64 (address_ r + n)) r, program)
  else if opcode =? DW_LNS_set_prologue_end then
    if version_ h =? 2 then unrecognized else continue (set_prologue_end true r)
  else if opcode =? DW_LNS_set_epilogue_begin then
    if version_ h =? 2 then unrecognized else continue (set_epilogue_begin true r)
  else if opcode =? DW_LNS_set_isa then
    if version_ h =? 2 then unrecognized
    else '(n, program) ← ReadULEB program; Ok (CONTINUE, set_isa n r, program)
  else unrecognized.

(* @src claire/common/symbolizer/Dwarf.cc:816-842 LineNumberVM::Step *)
Definition Step_extended (r : Registers) (program : StringPiece) : res (StepResult * Registers * StringPiece) :=
  '(length, program) ← ReadULEB program;
  _ ← check (negb (length =? 0));
  '(extended_opcode, program) ← Read 1 program;
  let length := length - 1 in
  if extended_opcode =? DW_LNE_end_sequence then Ok (END_, r, program)
  else if extended_opcode =? DW_LNE_set_address then
    '(a, program) ← Read 8 program; Ok (CONTINUE, set_address a r, program)
  else if extended_opcode =? DW_LNE_set_discriminator then
    '(n, program) ← ReadULEB program; Ok (CONTINUE, set_discriminator n r, program)
  else
    program ← advance length program; Ok (CONTINUE, r, program).

(* @src claire/common/symbolizer/Dwarf.cc:737-843 LineNumberVM::Step *)
Definition Step (h : Header) (r : Registers) (program : StringPiece) : res (StepResult * Registers * StringPiece) :=
  '(opcode, program) ← Read 1 program;
  if opcode_base_ h <=? opcode then '(ret, r) ← Step_special h r opcode; Ok (ret, r, program)
  else if negb (opcode =? 0) then Step_standard h r opcode program
  else Step_extended r program.

(** Every step reads a character, so the characters left bound the loops. *)
Definition program_fuel (program : StringPiece) : nat := S (length (ptr_ program)).

Fixpoint Next_loop (fuel : nat) (h : Header) (r : Registers) (program : StringPiece) :
    res (bool * Registers * StringPiece) :=
  match fuel with
  | O => Err NoFuel
  | S fuel =>
      '(ret, r, program) ← Step h r program;
      match ret with
      | CONTINUE => Next_loop fuel h r program
      | COMMIT => Ok (true, r, program)
      | END_ => Ok (false, r, program)
      end
  end.

(* @src claire/common/symbolizer/Dwarf.cc:619-628 LineNumberVM::Next *)
Definition Next (h : Header) (r : Registers) (program : StringPiece) : res (bool * Registers * StringPiece) :=
  Next_loop (program_fuel program) h r program.

(** ** File names and directories *)

(* @src claire/common/symbolizer/Dwarf.cc:696-734 LineNumberVM::NextDefineFile *)
Fixpoint NextDefineFile_loop (fuel : nat) (h : Header) (program : StringPiece) : res (option FileName * StringPiece) :=
  match fuel with
  | O => Err NoFuel
  | S fuel =>
      if empty program then Ok (None, program)
      else
        '(opcode, program) ← Read 1 program;
        if opcode_base_ h <=? opcode then NextDefineFile_loop fuel h program
        else if negb (opcode =? 0) then
          arg_count ← vget (standard_opcode_lengths_ h) (opcode - 1);
          program ← skip_arguments (Z.to_nat arg_count) program;
          NextDefineFile_loop fuel h program
        else
          '(length, program) ← ReadULEB program;
          _ ← check (negb (length =? 0));
          '(_, program) ← Read 1 program;
          let length := length - 1 in
          if opcode =? DW_LNE_define_file then
            '(fn, program) ← ReadFileName program;
            match fn with None => Err CheckFailed | Some fn => Ok (Some fn, program) end
          else
            program ← advance length program;
            NextDefineFile_loop fuel h program
  end.

(* @src claire/common/symbolizer/Dwarf.cc:694-735 LineNumberVM::NextDefineFile *)
Definition NextDefineFile (h : Header) (program : StringPiece) : res (option FileName * StringPiece) :=
  NextDefineFile_loop (program_fuel program) h program.

(** The [n]th entry of the table from here on. *)
(* @src claire/common/symbolizer/Dwarf.cc:637-644 LineNumberVM::GetFileName *)
Fixpoint nth_file_name (n : nat) (file_names : StringPiece) : res FileName :=
  match n with
  | O => Err CheckFailed
  | S n =>
      '(fn, file_names) ← ReadFileName file_names;
      match fn with
      | None => Err CheckFailed
      | Some fn => match n with O => Ok fn | _ => nth_file_name n file_names end
      end
  end.

(* @src claire/common/symbolizer/Dwarf.cc:649-654 LineNumberVM::GetFileName *)
Fixpoint nth_define_file (n : nat) (h : Header) (program : StringPiece) : res FileName :=
  match n with
  | O => Err CheckFailed
  | S n =>
      '(fn, program) ← NextDefineFile h program;
      match fn with
      | None => Err CheckFailed
      | Some fn => match n with O => Ok fn | _ => nth_define_file n h program end
      end
  end.

(* @src claire/common/symbolizer/Dwarf.cc:630-655 LineNumberVM::GetFileName *)
Definition GetFileName (vm : LineNumberVM) (index : Z) : res FileName :=
  _ ← check (negb (index =? 0));
  if index <=? file_name_count_ (header vm) then nth_file_name (Z.to_nat index) (file_names_ (header vm))
  else nth_define_file (Z.to_nat (index - file_name_count_ (header vm))) (header vm) (data_ vm).

(* @src claire/common/symbolizer/Dwarf.cc:665-676 LineNumberVM::GetIncludeDirectory *)
Fixpoint nth_directory (n : nat) (include_directories dir : StringPiece) : res StringPiece :=
  match n with
  | O => Ok dir
  | S n =>
      '(dir, include_directories) ← ReadNullTerminated include_directories;
      if empty dir then Err CheckFailed else nth_directory n include_directories dir
  end.

(* @src claire/common/symbolizer/Dwarf.cc:657-677 LineNumberVM::GetIncludeDirectory *)
Definition GetIncludeDirectory (vm : LineNumberVM) (index : Z) : res StringPiece :=
  if index =? 0 then Ok (Piece [] 0)
  else
    _ ← check (index <=? include_directory_count_ (header vm));
    nth_directory (Z.to_nat index) (include_directories_ (header vm)) (Piece [] 0).

(** ** The search *)

(* @src claire/common/symbolizer/Dwarf.cc:856-861 State *)
Inductive State := START | LOW_SEQ | HIGH_SEQ.

(** The path and line of the row before the target. *)
(* @src claire/common/symbolizer/Dwarf.cc:882-894 LineNumberVM::FindAddress *)
Definition found (vm : LineNumberVM) (prev_file prev_line : Z) : res (option (Path.Path * Z)) :=
  if prev_file =? 0 then Ok None
  else
    fn ← GetFileName vm prev_file;
    dir ← GetIncludeDirectory vm (directory_index fn);
    file ← Path.Path_new (compilation_directory_ vm) dir (relative_name fn);
    Ok (Some (file, prev_line)).

(* @src claire/common/symbolizer/Dwarf.cc:867-905 LineNumberVM::FindAddress *)
Fixpoint FindAddress_loop (fuel : nat) (vm : LineNumberVM) (target : Z) (program : StringPiece) (r : Registers)
    (state : State) (prev_file prev_line : Z) : res (option (Path.Path * Z)) :=
  match fuel with
  | O => Err NoFuel
  | S fuel =>
      if empty program then Ok None
      else
        '(row, r, program) ← Next (header vm) r program;
        let seq_end := negb row in
        let state := match state with
                     | START => if negb seq_end then (if address_ r <=? target then LOW_SEQ else HIGH_SEQ) else START
                     | _ => state
                     end in
        let continue state prev_file prev_line :=
          if seq_end
          then FindAddress_loop fuel vm target program (Reset (header vm)) START prev_file prev_line
          else FindAddress_loop fuel vm target program r state prev_file prev_line in
        match state with
        | LOW_SEQ =>
            if target <? address_ r then found vm prev_file prev_line
            else continue state (file_ r) (line_ r)
        | _ => continue state prev_file prev_line
        end
  end.

(* @src claire/common/symbolizer/Dwarf.cc:845-908 LineNumberVM::FindAddress *)
Definition FindAddress (vm : LineNumberVM) (target : Z) : res (option (Path.Path * Z)) :=
  FindAddress_loop (program_fuel (data_ vm)) vm target (data_ vm) (Reset (header vm)) START 0 0.

(** ** The instructions of a line number program

    The opcodes as the DWARF standard describes them, with their encoding and
    their effect; the machine decodes and executes exactly these. *)
Inductive instr :=
  | Special (k : Z)                         (** opcode_base + k *)
  | Copy
  | AdvancePc (n : Z)
  | AdvanceLine (z : Z)
  | SetFile (n : Z)
  | SetColumn (n : Z)
  | NegateStmt
  | SetBasicBlock
  | ConstAddPc
  | FixedAdvancePc (n : Z)
  | SetPrologueEnd
  | SetEpilogueBegin
  | SetIsa (n : Z)
  | UnknownStandard (opcode : Z) (args : list Z)
  | SetAddress (a : Z)
  | SetDiscriminator (n : Z)
  | UnknownExtended (opcode : Z) (payload : bytes).

(** An extended opcode, behind a zero and its length. *)
Definition extended (opcode : Z) (payload : bytes) : bytes :=
  0 :: uleb (1 + Zlen payload) ++ opcode :: payload.

Definition encode (h : Header) (i : instr) : bytes :=
  match i with
  | Special k => [opcode_base_ h + k]
  | Copy => [DW_LNS_copy]
  | AdvancePc n => DW_LNS_advance_pc :: uleb n
  | AdvanceLine z => DW_LNS_advance_line :: sleb z
  | SetFile n => DW_LNS_set_file :: uleb n
  | SetColumn n => DW_LNS_set_column :: uleb n
  | NegateStmt => [DW_LNS_negate_stmt]
  | SetBasicBlock => [DW_LNS_set_basic_block]
  | ConstAddPc => [DW_LNS_const_add_pc]
  | FixedAdvancePc n => DW_LNS_fixed_advance_pc :: le_bytes 2 n
  | SetPrologueEnd => [DW_LNS_set_prologue_end]
  | SetEpilogueBegin => [DW_LNS_set_epilogue_begin]
  | SetIsa n => DW_LNS_set_isa :: uleb n
  | UnknownStandard opcode args => opcode :: concat (uleb <$> args)
  | SetAddress a => extended DW_LNE_set_address (le_bytes 8 a)
  | SetDiscriminator n => extended DW_LNE_set_discriminator (uleb n)
  | UnknownExtended opcode payload => extended opcode payload
  end.

Definition end_sequence : bytes := extended DW_LNE_end_sequence [].

(** What a special opcode adds to the address and to the line. *)
Definition special_address (h : Header) (k : Z) : Z := min_length_ h * (k / line_range_ h).
Definition special_line (h : Header) (k : Z) : Z := line_base_ h + k mod line_range_ h.

Definition exec (h : Header) (i : instr) (r : Registers) : StepResult * Registers :=
  match i with
  | Special k =>
      (COMMIT, after_row (set_line (uint64 (line_ r + special_line h k))
                           (set_address (uint64 (address_ r + special_address h k)) r)))
  | Copy => (COMMIT, after_row r)
  | AdvancePc n => (CONTINUE, set_address (uint64 (address_ r + min_length_ h * n)) r)
  | AdvanceLine z => (CONTINUE, set_line (uint64 (line_ r + z)) r)
  | SetFile n => (CONTINUE, set_file n r)
  | SetColumn n => (CONTINUE, set_column n r)
  | NegateStmt => (CONTINUE, set_is_stmt (negb (is_stmt_ r)) r)
  | SetBasicBlock => (CONTINUE, set_basic_block true r)
  | ConstAddPc => (CONTINUE, set_address (uint64 (address_ r + special_address h (255 - opcode_base_ h))) r)
  | FixedAdvancePc n => (CONTINUE, set_address (uint64 (address_ r + n)) r)
  | SetPrologueEnd => (CONTINUE, set_prologue_end true r)
  | SetEpilogueBegin => (CONTINUE, set_epilogue_begin true r)
  | SetIsa n => (CONTINUE, set_isa n r)
  | SetAddress a => (CONTINUE, set_address a r)
  | SetDiscriminator n => (CONTINUE, set_discriminator n r)
  | UnknownStandard _ _ | UnknownExtended _ _ => (CONTINUE, r)
  end.

(** The opcode is one of the program's: below opcode_base, and known to its
    version. *)
Definition standard (h : Header) (opcode : Z) : Prop := opcode < opcode_base_ h.

Definition known_standard (h : Header) (opcode : Z) : Prop :=
  1 <= opcode <= 9 \/ (10 <= opcode <= 12 /\ version_ h <> 2).

Definition valid (h : Header) (i : instr) : Prop :=
  match i with
  | Special k => 0 <= k <= 255 - opcode_base_ h
  | Copy => standard h 1
  | AdvancePc n => standard h 2 /\ fits_u 64 n
  | AdvanceLine z => standard h 3 /\ fits_s 64 z
  | SetFile n => standard h 4 /\ fits_u 64 n
  | SetColumn n => standard h 5 /\ fits_u 64 n
  | NegateStmt => standard h 6
  | SetBasicBlock => standard h 7
  | ConstAddPc => standard h 8
  | FixedAdvancePc n => standard h 9 /\ fits_u 16 n
  | SetPrologueEnd => standard h 10 /\ version_ h <> 2
  | SetEpilogueBegin => standard h 11 /\ version_ h <> 2
  | SetIsa n => standard h 12 /\ version_ h <> 2 /\ fits_u 64 n
  | UnknownStandard opcode args =>
      1 <= opcode < opcode_base_ h /\ ~ known_standard h opcode /\ Forall (fits_u 64) args /\
      standard_opcode_lengths_ h !! Z.to_nat (opcode - 1) = Some (Zlen args)
  | SetAddress a => fits_u 64 a
  | SetDiscriminator n => fits_u 64 n
  | UnknownExtended opcode payload =>
      opcode <> DW_LNE_end_sequence /\ opcode <> DW_LNE_set_address /\ opcode <> DW_LNE_set_discriminator /\
      1 + Zlen payload < 2 ^ 64
  end.

(** The header fields have their widths, and the line range is not zero. *)
Definition header_wf (h : Header) : Prop :=
  0 <= min_length_ h < 256 /\ 0 < line_range_ h < 256 /\ 0 < opcode_base_ h < 256.

Section Decode.
Context (h : Header) (Hh : header_wf h).

Lemma wrap_u_add_r w a b : 0 < w -> wrap_u w (a + wrap_u w b) = wrap_u w (a + b).
Proof. intros. unfold wrap_u. by rewrite Zplus_mod_idemp_r. Qed.

Lemma skip_arguments_ulebs args : forall rest len, Forall (fits_u 64) args -> 1 < len ->
  skip_arguments (length args) (Piece (concat (uleb <$> args) ++ rest) len) = Ok (Piece rest len).
Proof.
  induction args as [|n args IH]; intros rest len Ha Hl; [done|]. inversion_clear Ha.
  cbn [length skip_arguments fmap list_fmap concat]. rewrite <- app_assoc, ReadULEB_uleb by done. rstep. by apply IH.
Qed.

Lemma Step_special_exec r k : 0 <= k <= 255 - opcode_base_ h ->
  Step_special h r (opcode_base_ h + k) = Ok (exec h (Special k) r).
Proof.
  intros Hk. destruct Hh as (Hm & Hr & Ho). unfold Step_special, quot.
  assert (uint8 (opcode_base_ h + k - opcode_base_ h) = k) as ->.
  { rewrite Z.add_simpl_l. apply wrap_u_id. unfold fits_u. lia. }
  rewrite (proj2 (Z.eqb_neq _ 0)) by lia. rstep. rewrite (wrap_u_id 8 (k / line_range_ h)); [done|].
  unfold fits_u. split; [apply Z.div_pos; lia|]. apply Z.div_lt_upper_bound; lia.
Qed.

(** The first character selects the kind of opcode. *)
Lemma Step_below c rest len r : 1 < len -> 0 < c < opcode_base_ h ->
  Step h r (Piece (c :: rest) len) = Step_standard h r c (Piece rest len).
Proof.
  intros Hl Hc. unfold Step. rewrite Read1 by done. rstep.
  by rewrite (proj2 (Z.leb_gt _ _)), (proj2 (Z.eqb_neq c 0)) by lia.
Qed.

Lemma Step_extended_eq opcode payload rest len r : Zlen (extended opcode payload) < len -> 1 + Zlen payload < 2 ^ 64 ->
  Step h r (Piece (extended opcode payload ++ rest) len) =
  (if opcode =? DW_LNE_end_sequence then Ok (END_, r, Piece (payload ++ rest) len)
   else if opcode =? DW_LNE_set_address then
     '(a, program) ← Read 8 (Piece (payload ++ rest) len); Ok (CONTINUE, set_address a r, program)
   else if opcode =? DW_LNE_set_discriminator then
     '(n, program) ← ReadULEB (Piece (payload ++ rest) len); Ok (CONTINUE, set_discriminator n r, program)
   else program ← advance (Zlen payload) (Piece (payload ++ rest) len); Ok (CONTINUE, r, program)).
Proof.
  destruct Hh as (_ & _ & Ho). intros Hl Hp. unfold extended in *.
  rewrite Zlen_cons, Zlen_app, Zlen_cons in Hl. pose proof (Zlen_nonneg (uleb (1 + Zlen payload))).
  pose proof (Zlen_nonneg payload). unfold Step. cbn [app]. rewrite Read1 by lia. rstep.
  rewrite (proj2 (Z.leb_gt _ _)) by lia. cbn [Z.eqb negb]. unfold Step_extended.
  rewrite <- app_assoc, ReadULEB_uleb by lia. rstep.
  rewrite (proj2 (Z.eqb_neq (1 + Zlen payload) 0)) by lia. rstep. cbn [app]. rewrite Read1 by lia. rstep.
  by rewrite Z.add_simpl_l.
Qed.

(** Evaluate the choice between opcodes. *)
Ltac select_opcode := unfold Step_standard,
  DW_LNS_copy, DW_LNS_advance_pc, DW_LNS_advance_line, DW_LNS_set_file, DW_LNS_set_column, DW_LNS_negate_stmt,
  DW_LNS_set_basic_block, DW_LNS_const_add_pc, DW_LNS_fixed_advance_pc, DW_LNS_set_prologue_end,
  DW_LNS_set_epilogue_begin, DW_LNS_set_isa, DW_LNE_end_sequence, DW_LNE_set_address, DW_LNE_set_discriminator;
  cbn [Z.eqb Pos.eqb].

Lemma Step_unknown opcode args rest len r : 1 < len -> valid h (UnknownStandard opcode args) ->
  Step_standard h r opcode (Piece (concat (uleb <$> args) ++ rest) len) = Ok (CONTINUE, r, Piece rest len).
Proof.
  intros Hl (Ho & Hk & Ha & Hn). unfold Step_standard. 
  rewrite (vget_lookup (standard_opcode_lengths_ h) (opcode - 1) (Zlen args)) by (done || lia). rstep.
  assert (Z.to_nat (Zlen args) = length args) as -> by (unfold Zlen; lia).
  rewrite skip_arguments_ulebs by done. rstep. unfold known_standard in Hk.
  assert (forall c, 1 <= c <= 9 -> (opcode =? c) = false) as Hne by (intros c Hc; apply Z.eqb_neq; lia).
  unfold DW_LNS_copy, DW_LNS_advance_pc, DW_LNS_advance_line, DW_LNS_set_file, DW_LNS_set_column, DW_LNS_negate_stmt,
    DW_LNS_set_basic_block, DW_LNS_const_add_pc, DW_LNS_fixed_advance_pc.
  rewrite !Hne by lia. destruct (version_ h =? 2) eqn:Ev; zify_bool; [by repeat case_match|].
  assert (forall c, 10 <= c <= 12 -> (opcode =? c) = false) as Hne' by (intros c Hc; apply Z.eqb_neq; lia).
  unfold DW_LNS_set_prologue_end, DW_LNS_set_epilogue_begin, DW_LNS_set_isa. by rewrite !Hne' by lia.
Qed.

(** One step executes one instruction, and its bytes are consumed. *)
Lemma Step_encode i rest len r : valid h i -> Zlen (encode h i) < len ->
  Step h r (Piece (encode h i ++ rest) len) = let '(ret, r') := exec h i r in Ok (ret, r', Piece rest len).
Proof.
  intros Hv Hl. destruct Hh as (Hm & Hr & Ho). pose proof (Zlen_nonneg rest).
  assert (Hc : forall (c : Z) b, Zlen (c :: b) < len -> 1 < len) by (intros c b; rewrite Zlen_cons; pose proof (Zlen_nonneg b); lia).
  destruct i; cbn [encode app] in *; unfold valid, standard, known_standard in Hv.
  1:{ unfold Step. rewrite Read1 by eauto. rstep. rewrite (proj2 (Z.leb_le _ _)) by lia.
      by rewrite Step_special_exec. }
  1-12: rewrite Step_below by first [by eauto|split; [reflexivity|apply Hv]]; select_opcode.
  all: try done.
  - rewrite ReadULEB_uleb by first [by eauto|apply Hv]. rstep. by rewrite wrap_u_add_r.
  - rewrite ReadSLEB_sleb by first [by eauto|apply Hv]. done.
  - rewrite ReadULEB_uleb by first [by eauto|apply Hv]. done.
  - rewrite ReadULEB_uleb by first [by eauto|apply Hv]. done.
  - unfold quot. rewrite (proj2 (Z.eqb_neq _ 0)) by lia. done.
  - rewrite (Read_le 2 n) by first [apply Hv|rewrite Zlen_cons, Zlen_le_bytes in Hl; lia]. done.
  - by rewrite (proj2 (Z.eqb_neq _ 2)) by lia.
  - by rewrite (proj2 (Z.eqb_neq _ 2)) by lia.
  - rewrite (proj2 (Z.eqb_neq _ 2)) by lia. rewrite ReadULEB_uleb by first [by eauto|apply Hv]. done.
  - rewrite Step_below by first [by eauto|lia]. apply Step_unknown; [by eauto|done].
  - rewrite Step_extended_eq by first [done|rewrite Zlen_le_bytes; lia]. select_opcode.
    unfold extended in Hl. rewrite Zlen_cons, Zlen_app, Zlen_cons, Zlen_le_bytes in Hl.
    pose proof (Zlen_nonneg (uleb (1 + Z.of_nat 8))). rewrite (Read_le 8 a) by first [done|lia]. done.
  - pose proof (length_uleb n Hv). rewrite Step_extended_eq by first [done|lia]. select_opcode. rewrite ReadULEB_uleb by first [by eauto|done]. done.
  - destruct Hv as (H1 & H2 & H3 & H4). rewrite Step_extended_eq by done. unfold DW_LNE_end_sequence, DW_LNE_set_address, DW_LNE_set_discriminator in *.
    rewrite !(proj2 (Z.eqb_neq _ _)) by done. rewrite advance_app; [done|].
    unfold extended in Hl. rewrite Zlen_cons, Zlen_app, Zlen_cons in Hl.
    pose proof (Zlen_nonneg (uleb (1 + Zlen payload))). lia.
Qed.

(** *** Sequences of rows *)

Definition encode_sequence (code : list instr) : bytes := concat (encode h <$> code) ++ end_sequence.

(** The rows a sequence commits, and the registers at its end. *)
Fixpoint rows (r : Registers) (code : list instr) : list Registers :=
  match code with
  | [] => [r]
  | i :: code =>
      let '(ret, r') := exec h i r in
      match ret with COMMIT => r' :: rows r' code | _ => rows r' code end
  end.

Lemma encode_nonempty i : exists c b, encode h i = c :: b.
Proof. destruct i; cbn [encode]; unfold extended; eauto. Qed.

Lemma exec_not_end i r : fst (exec h i r) <> END_.
Proof. by destruct i. Qed.

Lemma encode_sequence_cons i code : encode_sequence (i :: code) = encode h i ++ encode_sequence code.
Proof. unfold encode_sequence. cbn [fmap list_fmap concat]. by rewrite <- app_assoc. Qed.

Lemma Step_end r rest len : Zlen end_sequence < len ->
  Step h r (Piece (end_sequence ++ rest) len) = Ok (END_, r, Piece rest len).
Proof. intros Hl. unfold end_sequence. by rewrite Step_extended_eq. Qed.

(** The machine runs to the next row, or to the end of the sequence. *)
Lemma Next_sequence code : forall r fuel rest len, Forall (valid h) code -> Zlen (encode_sequence code) < len ->
  (length code < fuel)%nat ->
  let result := Next_loop fuel h r (Piece (encode_sequence code ++ rest) len) in
  (exists r' post, rows r code = r' :: rows r' post /\ Forall (valid h) post /\
    result = Ok (true, r', Piece (encode_sequence post ++ rest) len) /\
    (length (encode_sequence post) < length (encode_sequence code))%nat) \/
  (exists r', rows r code = [r'] /\ result = Ok (false, r', Piece rest len)).
Proof.
  induction code as [|i code IH]; intros r fuel rest len Hv Hl Hf; cbv zeta; (destruct fuel as [|fuel]; [cbn in Hf; lia|]).
  - right. exists r. split; [done|]. cbn [Next_loop]. change (encode_sequence []) with end_sequence in *.
    rewrite Step_end by done. done.
  - inversion_clear Hv as [|? ? Hi Hv']. rewrite encode_sequence_cons, Zlen_app in Hl.
    pose proof (Zlen_nonneg (encode_sequence code)). pose proof (Zlen_nonneg (encode h i)).
    rewrite encode_sequence_cons, <- app_assoc. cbn [Next_loop rows]. rewrite Step_encode by (done || lia).
    pose proof (exec_not_end i r) as Hne. destruct (exec h i r) as [[| |] r'] eqn:E; [| |done]; rstep.
    + destruct (IH r' fuel rest len) as [(r2 & post & H1 & H2 & H3 & H4)|(r2 & H1 & H2)];
        [done|lia|cbn [length] in Hf; lia| |].
      * left. exists r2, post. rewrite length_app. split_and!; [done..|lia].
      * right. eauto.
    + left. exists r', code. split_and!; [done..|]. rewrite length_app.
      destruct (encode_nonempty i) as (c & b & ->). cbn [length]. lia.
Qed.

Lemma length_encode_sequence code : (length code < length (encode_sequence code))%nat.
Proof.
  induction code as [|i code IH]; [cbn; lia|]. rewrite encode_sequence_cons, length_app.
  destruct (encode_nonempty i) as (c & b & ->). cbn [length]. lia.
Qed.

(** ** Which row has an address

    [cross t p l]: the row before the first row past [t], [p] being the row
    before [l]. *)
Fixpoint cross (target : Z) (p : Registers) (l : list Registers) : option Registers :=
  match l with
  | [] => None
  | r :: l => if target <? address_ r then Some p else cross target r l
  end.

(** A sequence is a candidate if its first row is not past the target. *)
Definition lookup_rows (target : Z) (l : list Registers) : option Registers :=
  match l with
  | r :: (_ :: _) as l' => if address_ r <=? target then cross target r (tail l) else None
  | _ => None
  end.

Fixpoint lookup_program (target : Z) (program : list (list instr)) : option Registers :=
  match program with
  | [] => None
  | code :: program =>
      match lookup_rows target (rows (Reset h) code) with
      | Some r => Some r
      | None => lookup_program target program
      end
  end.

(** In a sequence whose addresses do not decrease up to there, the row whose
    address range contains the target is found. *)
Lemma cross_found target l : forall p i r r', (p :: l) !! i = Some r -> (p :: l) !! S i = Some r' ->
  (forall j q, (j <= i)%nat -> (p :: l) !! j = Some q -> address_ q <= target) ->
  target < address_ r' -> cross target p l = Some r.
Proof.
  induction l as [|q l IH]; intros p i r r' Hi Hi' Hle Hlt; [done|]. cbn [cross].
  destruct i as [|i].
  - injection Hi as ->. injection Hi' as ->. by rewrite (proj2 (Z.ltb_lt _ _)).
  - pose proof (Hle 1%nat q ltac:(lia) eq_refl). rewrite (proj2 (Z.ltb_ge _ _)) by done.
    apply (IH q i r r'); [done|done| |done]. intros j q' Hj Hq. apply (Hle (S j) q'); [lia|done].
Qed.

Lemma lookup_rows_found target l i r r' : l !! i = Some r -> l !! S i = Some r' ->
  (forall j q, (j <= i)%nat -> l !! j = Some q -> address_ q <= target) ->
  target < address_ r' -> lookup_rows target l = Some r.
Proof.
  intros Hi Hi' Hle Hlt. destruct l as [|p [|q l]]; [done|by destruct i|].
  unfold lookup_rows. cbn [tail]. pose proof (Hle 0%nat p ltac:(lia) eq_refl).
  rewrite (proj2 (Z.leb_le _ _)) by done. by eapply cross_found.
Qed.

(** ** The search over the encoded program *)
Section Search.
Context (vm : LineNumberVM) (target : Z) (Hvm : header vm = h).

(** What a search does: it ends with a row, or goes on behind the sequence with
    enough fuel for [k] more characters. *)
Definition goes (k : nat) (result : res (option (Path.Path * Z))) (rest : StringPiece) (q : option Registers) : Prop :=
  match q with
  | Some q => result = found vm (file_ q) (line_ q)
  | None => exists fuel pf pl, (k <= fuel)%nat /\
      result = FindAddress_loop fuel vm target rest (Reset h) START pf pl
  end.

(** The row found after the first row of a search, by its state. *)
Definition found_from (state : State) (pf pl : Z) (l : list Registers) : option Registers :=
  match state, l with
  | START, _ => lookup_rows target l
  | LOW_SEQ, r :: _ => cross target (set_file pf (set_line pl r)) l
  | _, _ => None
  end.

Lemma same_row r : set_file (file_ r) (set_line (line_ r) r) = r.
Proof. by destruct r. Qed.

(** Only the file and the line of the row before matter. *)
Lemma goes_cross k X rest p p' l : file_ p = file_ p' -> line_ p = line_ p' ->
  goes k X rest (cross target p l) -> goes k X rest (cross target p' l).
Proof.
  intros Hf Hl. destruct l as [|r l]; [done|]. cbn [cross]. destruct (target <? address_ r); [|done].
  cbn [goes]. by rewrite Hf, Hl.
Qed.

Lemma rows_cons r code : exists q l, rows r code = q :: l.
Proof.
  revert r. induction code as [|i code IH]; intros r; cbn [rows]; [eauto|].
  destruct (exec h i r) as [[| |] r']; eauto.
Qed.

Lemma search_sequence n : forall code r fuel k rest len state pf pl,
  (length (encode_sequence code) <= n)%nat -> Forall (valid h) code -> Zlen (encode_sequence code) < len ->
  (length (encode_sequence code) + k <= fuel)%nat ->
  goes k (FindAddress_loop fuel vm target (Piece (encode_sequence code ++ rest) len) r state pf pl) (Piece rest len)
    (found_from state pf pl (rows r code)).
Proof.
  induction n as [|n IH]; intros code r fuel k rest len state pf pl Hn Hv Hl Hf;
    pose proof (length_encode_sequence code) as Hlc; [lia|].
  destruct fuel as [|fuel]; [lia|].
  pose proof (Zlen_nonneg (encode_sequence code)).
  destruct (Next_sequence code r (program_fuel (Piece (encode_sequence code ++ rest) len)) rest len Hv Hl) as
    [(r' & post & Hr & Hv' & HN & Hd)|(r' & Hr & HN)]; cbv zeta in *.
  { unfold program_fuel. cbn [ptr_]. rewrite length_app. lia. }
  all: fold (Next h r (Piece (encode_sequence code ++ rest) len)) in HN; cbn [FindAddress_loop];
    rewrite Hvm, HN; unfold empty; cbn [length_]; rewrite (proj2 (Z.eqb_neq len 0)) by lia; rstep; rewrite Hr.
  - assert (IHpost : forall state pf pl, goes k (FindAddress_loop fuel vm target
        (Piece (encode_sequence post ++ rest) len) r' state pf pl) (Piece rest len)
        (found_from state pf pl (rows r' post))).
    { intros. apply IH; [lia|done|unfold Zlen in *; lia|lia]. }
    assert (IHlow : goes k (FindAddress_loop fuel vm target
        (Piece (encode_sequence post ++ rest) len) r' LOW_SEQ (file_ r') (line_ r')) (Piece rest len)
        (cross target r' (rows r' post))).
    { specialize (IHpost LOW_SEQ (file_ r') (line_ r')). destruct (rows_cons r' post) as (q & l & Hq).
      rewrite Hq in *. revert IHpost. by apply goes_cross. }
    destruct state; cbn [found_from].
    + unfold lookup_rows. destruct (rows_cons r' post) as (q & l & Hq). rewrite Hq in *. cbn [tail].
      destruct (address_ r' <=? target) eqn:E; zify_bool; [rewrite (proj2 (Z.ltb_ge _ _)) by done; exact IHlow|].
      specialize (IHpost HIGH_SEQ pf pl). exact IHpost.
    + cbn [cross]. destruct (target <? address_ r'); [done|]. exact IHlow.
    + specialize (IHpost HIGH_SEQ pf pl). exact IHpost.
  - destruct state; cbn [found_from lookup_rows].
    + exists fuel, pf, pl. split; [lia|done].
    + cbn [cross]. destruct (target <? address_ r'); [done|]. exists fuel, (file_ r'), (line_ r'). split; [lia|done].
    + exists fuel, pf, pl. split; [lia|done].
Qed.

Definition encode_program (program : list (list instr)) : bytes := concat (encode_sequence <$> program).

Lemma search_program program : forall fuel k rest len pf pl,
  Forall (Forall (valid h)) program -> Zlen (encode_program program) < len ->
  (length (encode_program program) + k <= fuel)%nat ->
  goes k (FindAddress_loop fuel vm target (Piece (encode_program program ++ rest) len) (Reset h) START pf pl)
    (Piece rest len) (lookup_program target program).
Proof.
  induction program as [|code program IH]; intros fuel k rest len pf pl Hv Hl Hf.
  { exists fuel, pf, pl. split; [cbn in Hf; lia|done]. }
  inversion_clear Hv as [|? ? Hc Hv']. unfold encode_program in *. cbn [fmap list_fmap concat] in *.
  fold (encode_program program) in *. rewrite Zlen_app in Hl. rewrite length_app in Hf.
  pose proof (Zlen_nonneg (encode_program program)). pose proof (Zlen_nonneg (encode_sequence code)).
  rewrite <- app_assoc. cbn [lookup_program].
  pose proof (search_sequence _ code (Reset h) fuel (length (encode_program program) + k)
    (encode_program program ++ rest) len START pf pl (le_n _) Hc ltac:(lia) ltac:(lia)) as HS.
  cbn [found_from] in HS. destruct (lookup_rows target (rows (Reset h) code)); [exact HS|].
  destruct HS as (fuel' & pf' & pl' & Hk & ->). apply IH; [done|lia|lia].
Qed.
End Search.
End Decode.

(** ** The tables *)

Definition is_name (b : bytes) : Prop := b <> [] /\ Forall (fun c => c <> 0) b.

Definition encode_directories (ds : list bytes) : bytes := concat ((fun d => d ++ [0]) <$> ds) ++ [0].

Record FileEntry := mkFileEntry { entry_name : bytes; entry_directory : Z; entry_time : Z; entry_size : Z }.

Definition entry_wf (e : FileEntry) : Prop :=
  is_name (entry_name e) /\ fits_u 64 (entry_directory e) /\ fits_u 64 (entry_time e) /\ fits_u 64 (entry_size e).

Definition encode_entry (e : FileEntry) : bytes :=
  entry_name e ++ 0 :: uleb (entry_directory e) ++ uleb (entry_time e) ++ uleb (entry_size e).

Definition encode_files (es : list FileEntry) : bytes := concat (encode_entry <$> es) ++ [0].

Lemma encode_directories_cons d ds : encode_directories (d :: ds) = d ++ 0 :: encode_directories ds.
Proof. unfold encode_directories. cbn [fmap list_fmap concat]. by rewrite <- !app_assoc. Qed.

Lemma encode_files_cons e es : encode_files (e :: es) = encode_entry e ++ encode_files es.
Proof. unfold encode_files. cbn [fmap list_fmap concat]. by rewrite <- app_assoc. Qed.

Lemma empty_name p b : is_name b -> empty (Piece p (Zlen b)) = false.
Proof. intros [Hb _]. apply Z.eqb_neq. unfold Zlen. cbn. destruct b; [done|]. cbn. lia. Qed.

Lemma length_table_pos ds : 1 <= Zlen (encode_directories ds).
Proof. unfold encode_directories. rewrite Zlen_app. change (Zlen [0]) with 1. pose proof (Zlen_nonneg (concat ((fun d => d ++ [0]) <$> ds))). lia. Qed.

Lemma length_files_pos es : 1 <= Zlen (encode_files es).
Proof. unfold encode_files. rewrite Zlen_app. change (Zlen [0]) with 1. pose proof (Zlen_nonneg (concat (encode_entry <$> es))). lia. Qed.

Lemma ReadNullTerminated_end rest len : 0 < len < 2 ^ 64 ->
  ReadNullTerminated (Piece (0 :: rest) len) = Ok (Piece (0 :: rest) 0, Piece rest (len - 1)).
Proof.
  intros Hl. pose proof (ReadNullTerminated_app [] rest len ltac:(constructor)) as H.
  change (Zlen (@nil Z)) with 0 in H. rewrite Z.sub_0_r in H. by apply H.
Qed.

Lemma skip_directories_spec ds : forall rest len fuel count, Forall is_name ds ->
  Zlen (encode_directories ds) <= len < 2 ^ 64 -> (length (encode_directories ds) < fuel)%nat ->
  0 <= count -> count + Zlen ds < 2 ^ 64 ->
  skip_directories fuel (Piece (encode_directories ds ++ rest) len) count =
    Ok (count + Zlen ds, Piece rest (len - Zlen (encode_directories ds))).
Proof.
  induction ds as [|d ds IH]; intros rest len fuel count Hd Hl Hf Hc Hc'; (destruct fuel as [|fuel]; [lia|]);
    cbn [skip_directories].
  - change (encode_directories []) with [0] in *. change (Zlen [0]) with 1 in *. cbn [app].
    rewrite ReadNullTerminated_end by lia. rstep. change (empty (Piece (0 :: rest) 0)) with true.
    change (Zlen (@nil bytes)) with 0. by rewrite Z.add_0_r.
  - inversion_clear Hd as [|? ? Hn Hd']. rewrite encode_directories_cons in *. rewrite Zlen_app, !Zlen_cons in *.
    rewrite length_app in Hf. cbn [length] in Hf. pose proof (length_table_pos ds). pose proof (Zlen_nonneg d).
    pose proof (Zlen_nonneg ds). rewrite <- app_assoc. cbn [app].
    rewrite ReadNullTerminated_app by first [apply Hn|lia]. rstep. rewrite empty_name by done.
    rewrite (wrap_u_id 64 (count + 1)) by (unfold fits_u; lia). rewrite IH by first [done|lia].
    do 2 f_equal; [lia|]. f_equal. lia.
Qed.

Lemma ReadFileName_entry e rest len : entry_wf e -> Zlen (encode_entry e) < len < 2 ^ 64 ->
  exists tail, ReadFileName (Piece (encode_entry e ++ rest) len) =
    Ok (Some (mkFileName (Piece (entry_name e ++ 0 :: tail) (Zlen (entry_name e))) (entry_directory e)),
        Piece rest (len - Zlen (entry_name e) - 1)).
Proof.
  intros (Hn & Hd & Ht & Hs) Hl. pose proof (length_uleb _ Hd). pose proof (length_uleb _ Ht).
  pose proof (length_uleb _ Hs). unfold encode_entry in *. rewrite Zlen_app, Zlen_cons, !Zlen_app in Hl.
  pose proof (Zlen_nonneg (entry_name e)). eexists. unfold ReadFileName.
  rewrite <- app_assoc. cbn [app]. rewrite ReadNullTerminated_app by first [apply Hn|lia]. rstep.
  rewrite empty_name by done. rewrite <- !app_assoc.
  rewrite ReadULEB_uleb by first [apply Hd|lia]. rstep. rewrite ReadULEB_uleb by first [apply Ht|lia]. rstep.
  rewrite ReadULEB_uleb by first [apply Hs|lia]. rstep. reflexivity.
Qed.

Lemma ReadFileName_end rest len : 0 < len < 2 ^ 64 ->
  ReadFileName (Piece (0 :: rest) len) = Ok (None, Piece rest (len - 1)).
Proof. intros. unfold ReadFileName. rewrite ReadNullTerminated_end by done. done. Qed.

Lemma skip_file_names_spec es : forall rest len fuel count, Forall entry_wf es ->
  Zlen (encode_files es) <= len < 2 ^ 64 -> (length (encode_files es) < fuel)%nat ->
  0 <= count -> count + Zlen es < 2 ^ 64 ->
  exists len', skip_file_names fuel (Piece (encode_files es ++ rest) len) count = Ok (count + Zlen es, Piece rest len').
Proof.
  induction es as [|e es IH]; intros rest len fuel count He Hl Hf Hc Hc'; (destruct fuel as [|fuel]; [lia|]);
    cbn [skip_file_names].
  - change (encode_files []) with [0] in *. change (Zlen [0]) with 1 in *. cbn [app].
    rewrite ReadFileName_end by lia. rstep. change (Zlen (@nil FileEntry)) with 0. rewrite Z.add_0_r. eauto.
  - inversion_clear He as [|? ? Hn He']. rewrite encode_files_cons in *. rewrite Zlen_app in Hl. rewrite length_app in Hf.
    pose proof (length_files_pos es). pose proof (Zlen_nonneg es). rewrite Zlen_cons in Hc'.
    assert (Zlen (entry_name e) + 1 <= Zlen (encode_entry e)).
    { unfold encode_entry. rewrite Zlen_app, Zlen_cons. pose proof (Zlen_nonneg (uleb (entry_directory e) ++ uleb (entry_time e) ++ uleb (entry_size e))). lia. }
    rewrite <- app_assoc. destruct (ReadFileName_entry e (encode_files es ++ rest) len Hn) as (tl & ->); [lia|]. rstep.
    assert (0 < length (encode_entry e))%nat by (pose proof (Zlen_nonneg (entry_name e)); unfold Zlen in *; lia).
    rewrite (wrap_u_id 64 (count + 1)) by (unfold fits_u; lia). rewrite Zlen_cons, Z.add_assoc.
    pose proof (Zlen_nonneg (entry_name e)). apply IH; [done|lia..].
Qed.

Lemma nth_file_name_spec n : forall es e rest len, es !! n = Some e -> Forall entry_wf es ->
  Zlen (encode_files es) <= len < 2 ^ 64 ->
  exists tail, nth_file_name (S n) (Piece (encode_files es ++ rest) len) =
    Ok (mkFileName (Piece (entry_name e ++ 0 :: tail) (Zlen (entry_name e))) (entry_directory e)).
Proof.
  induction n as [|n IH]; intros [|e' es] e rest len Hn He Hl; try done; inversion_clear He as [|? ? He1 He2];
    rewrite encode_files_cons, Zlen_app in Hl; pose proof (length_files_pos es); pose proof (Zlen_nonneg (entry_name e'));
    rewrite encode_files_cons, <- app_assoc;
    (destruct (ReadFileName_entry e' (encode_files es ++ rest) len He1) as (tl & E); [lia|]);
    cbn [nth_file_name]; rewrite E; rstep.
  - injection Hn as ->. eauto.
  - apply IH; [done..|]. unfold encode_entry in Hl. rewrite Zlen_app, Zlen_cons in Hl.
    pose proof (Zlen_nonneg (uleb (entry_directory e') ++ uleb (entry_time e') ++ uleb (entry_size e'))). lia.
Qed.

Lemma nth_directory_S n s dir :
  nth_directory (S n) s dir =
    '(dir, s) ← ReadNullTerminated s; if empty dir then Err CheckFailed else nth_directory n s dir.
Proof. done. Qed.

Lemma nth_directory_spec n : forall ds d rest len dir, ds !! n = Some d -> Forall is_name ds ->
  Zlen (encode_directories ds) <= len < 2 ^ 64 ->
  exists tail, nth_directory (S n) (Piece (encode_directories ds ++ rest) len) dir = Ok (Piece (d ++ 0 :: tail) (Zlen d)).
Proof.
  induction n as [|n IH]; intros [|d' ds] d rest len dir Hn Hd Hl; try done; inversion_clear Hd as [|? ? Hd1 Hd2];
    rewrite encode_directories_cons, Zlen_app, Zlen_cons in Hl; pose proof (length_table_pos ds); pose proof (Zlen_nonneg d');
    rewrite encode_directories_cons, <- app_assoc; cbn [app];
    rewrite nth_directory_S, ReadNullTerminated_app by first [apply Hd1|lia]; rstep; rewrite empty_name by done.
  - injection Hn as ->. cbn [nth_directory]. eauto.
  - apply IH; [done..|]. lia.
Qed.

(** ** A line number program with its header *)

Record Unit := mkUnit {
  unit_version : Z; unit_min_length : Z; unit_is_stmt : bool; unit_line_base : Z; unit_line_range : Z;
  unit_lengths : bytes; unit_directories : list bytes; unit_files : list FileEntry;
  unit_program : list (list instr) }.

Definition b2z (b : bool) : Z := if b then 1 else 0.

(** The header the machine keeps; [tl] is what follows the header's tables. *)
Definition unit_header (u : Unit) (tl : bytes) : Header :=
  let files := encode_files (unit_files u) ++ tl in
  let dirs := encode_directories (unit_directories u) ++ files in
  mkHeader (unit_version u) (unit_min_length u) (unit_is_stmt u) (unit_line_base u) (unit_line_range u)
    (1 + Zlen (unit_lengths u)) (unit_lengths u ++ dirs)
    (Piece dirs (Zlen (encode_directories (unit_directories u)))) (Zlen (unit_directories u))
    (Piece files (Zlen (encode_files (unit_files u)))) (Zlen (unit_files u)).

(** The header is encoded with the parameters alone. *)
Definition encode_header (u : Unit) : bytes :=
  [unit_min_length u] ++ (if unit_version u =? 4 then [1] else []) ++
  [b2z (unit_is_stmt u); uint8 (unit_line_base u); unit_line_range u; 1 + Zlen (unit_lengths u)] ++
  unit_lengths u ++ encode_directories (unit_directories u) ++ encode_files (unit_files u).

Definition unit_code (u : Unit) : bytes := encode_program (unit_header u []) (unit_program u).

Definition unit_body (u : Unit) : bytes :=
  le_bytes 2 (unit_version u) ++ le_bytes 4 (Zlen (encode_header u)) ++ encode_header u ++ unit_code u.

(** In the 32-bit format. *)
Definition encode_unit (u : Unit) : bytes := le_bytes 4 (Zlen (unit_body u)) ++ unit_body u.

Definition unit_wf (u : Unit) : Prop :=
  2 <= unit_version u <= 4 /\ 0 <= unit_min_length u < 256 /\ fits_s 8 (unit_line_base u) /\
  0 < unit_line_range u < 256 /\ 1 + Zlen (unit_lengths u) < 256 /\
  Forall is_name (unit_directories u) /\ Forall entry_wf (unit_files u) /\
  Forall (Forall (valid (unit_header u []))) (unit_program u) /\
  Zlen (unit_body u) < 2 ^ 32 - 1.

(** *** Only the parameters of a header matter to the instructions *)

Lemma encode_program_tail u tl program :
  encode_program (unit_header u tl) program = encode_program (unit_header u []) program.
Proof. done. Qed.

Lemma valid_tail u tl i : valid (unit_header u []) i -> valid (unit_header u tl) i.
Proof.
  destruct i; try done. cbn [valid]. intros (Ho & Hk & Ha & Hl). split; [exact Ho|]. split; [exact Hk|]. split; [exact Ha|].
  unfold unit_header in *. cbn [standard_opcode_lengths_ opcode_base_] in *.
  rewrite lookup_app_l in Hl |- * by (unfold Zlen in Ho; lia). done.
Qed.

Lemma exec_tail u tl i r : exec (unit_header u tl) i r = exec (unit_header u []) i r.
Proof. by destruct i. Qed.

Lemma rows_tail u tl code : forall r, rows (unit_header u tl) r code = rows (unit_header u []) r code.
Proof.
  induction code as [|i code IH]; intros r; [done|]. cbn [rows]. rewrite exec_tail.
  destruct (exec (unit_header u []) i r) as [[| |] r']; by rewrite IH.
Qed.

Lemma lookup_program_tail u tl t program :
  lookup_program (unit_header u tl) t program = lookup_program (unit_header u []) t program.
Proof. induction program as [|code program IH]; [done|]. cbn [lookup_program]. by rewrite rows_tail, IH. Qed.

(** *** Reading the header *)

Lemma length_directories ds : Zlen ds <= Zlen (encode_directories ds).
Proof.
  induction ds as [|d ds IH]; [done|]. rewrite encode_directories_cons, Zlen_app, !Zlen_cons.
  pose proof (Zlen_nonneg d). lia.
Qed.

Lemma length_files es : Zlen es <= Zlen (encode_files es).
Proof.
  induction es as [|e es IH]; [done|]. rewrite encode_files_cons, Zlen_app, Zlen_cons. unfold encode_entry.
  rewrite Zlen_app, Zlen_cons. pose proof (Zlen_nonneg (entry_name e)).
  pose proof (Zlen_nonneg (uleb (entry_directory e) ++ uleb (entry_time e) ++ uleb (entry_size e))). lia.
Qed.

Lemma assign_app b tl : Zlen b < 2 ^ 64 -> assign (b ++ tl) tl = Piece (b ++ tl) (Zlen b).
Proof.
  intros Hb. unfold assign. rewrite dist_app, wrap_u_id; [done|]. unfold fits_u. pose proof (Zlen_nonneg b). lia.
Qed.

(** The tables of the header. *)
Lemma Init_tables u tl len : Forall is_name (unit_directories u) -> Forall entry_wf (unit_files u) ->
  Zlen (encode_directories (unit_directories u)) + Zlen (encode_files (unit_files u)) <= len < 2 ^ 32 ->
  let files := encode_files (unit_files u) ++ tl in
  let dirs := encode_directories (unit_directories u) ++ files in
  let h := Piece dirs len in
  exists h1 h2,
    skip_directories (table_fuel h) h 0 = Ok (Zlen (unit_directories u), h1) /\ ptr_ h1 = files /\
    skip_file_names (table_fuel h1) h1 0 = Ok (Zlen (unit_files u), h2) /\ ptr_ h2 = tl.
Proof.
  intros Hd Hf Hl files dirs h. pose proof (length_directories (unit_directories u)).
  pose proof (length_files (unit_files u)). pose proof (length_table_pos (unit_directories u)).
  pose proof (length_files_pos (unit_files u)). pose proof (Zlen_nonneg (unit_directories u)). pose proof (Zlen_nonneg (unit_files u)).
  set (h1 := Piece files (len - Zlen (encode_directories (unit_directories u)))).
  destruct (skip_file_names_spec (unit_files u) tl (len - Zlen (encode_directories (unit_directories u)))
    (table_fuel h1) 0) as (len' & E); [done|lia| |lia|lia|].
  { unfold table_fuel, h1, files. cbn [ptr_]. rewrite length_app. lia. }
  exists h1, (Piece tl len'). split_and!; [|done|exact E|done].
  unfold h, dirs. rewrite skip_directories_spec; [done|done|lia| |lia|lia].
  unfold table_fuel. cbn [ptr_]. rewrite length_app. lia.
Qed.

Lemma length_encode_header u :
  Zlen (encode_header u) = 5 + Zlen (if unit_version u =? 4 then [1] else []) + Zlen (unit_lengths u) +
    Zlen (encode_directories (unit_directories u)) + Zlen (encode_files (unit_files u)).
Proof. unfold encode_header. rewrite !Zlen_app, !Zlen_cons, Zlen_nil. lia. Qed.

Lemma int8_uint8 z : fits_s 8 z -> int8 (uint8 z) = z.
Proof.
  intros Hz. rewrite <- (wrap_s_id 8 z) at 2 by done. apply wrap_s_eq; [done|]. unfold wrap_u. by rewrite Zmod_mod.
Qed.

Lemma Init_spec u rest : unit_wf u ->
  Init false (Piece (unit_body u ++ rest) (Zlen (unit_body u))) =
    Ok (unit_header u (unit_code u ++ rest), Piece (unit_code u ++ rest) (Zlen (unit_code u) + 6)).
Proof.
  intros (Hv & Hm & Hb & Hr & Ho & Hd & Hf & Hp & Hs). pose proof (length_encode_header u) as HL.
  pose proof (Zlen_nonneg (unit_lengths u)). pose proof (length_table_pos (unit_directories u)).
  pose proof (length_files_pos (unit_files u)). pose proof (Zlen_nonneg (unit_code u)). pose proof (Zlen_nonneg rest).
  pose proof (Zlen_nonneg (if unit_version u =? 4 then [1] else [])).
  assert (HB : Zlen (unit_body u) = 6 + Zlen (encode_header u) + Zlen (unit_code u)).
  { unfold unit_body. rewrite !Zlen_app, !Zlen_le_bytes. lia. }
  unfold Init, unit_body. rewrite <- !app_assoc. fold (unit_body u).
  rewrite (Read_le 2) by lia. rstep. rewrite (proj2 (Z.leb_le 2 _)), (proj2 (Z.leb_le _ 4)) by lia. rstep.
  unfold ReadOffset. rewrite (Read_le 4) by lia. rstep. unfold StringPiece.size. cbn [length_ ptr_].
  rewrite (proj2 (Z.leb_le _ _)) by lia. rstep. unfold end_. cbn [length_ ptr_].
  rewrite (proj2 (Z.leb_le _ _)) by (rewrite Zlen_app; pose proof (Zlen_nonneg (unit_code u ++ rest)); lia).
  rewrite plus_app by done. rstep. unfold assign_end. cbn [length_ ptr_]. rewrite dist_app.
  rewrite (wrap_u_id 64 (Zlen (unit_body u) - _)) by (unfold fits_u; lia).
  replace (Zlen (unit_body u) - Zlen (encode_header u)) with (Zlen (unit_code u) + 6) by lia.
  assert (encode_header u ++ unit_code u ++ rest = unit_min_length u :: (if unit_version u =? 4 then [1] else []) ++
    b2z (unit_is_stmt u) :: uint8 (unit_line_base u) :: unit_line_range u :: 1 + Zlen (unit_lengths u) ::
    unit_lengths u ++ encode_directories (unit_directories u) ++ encode_files (unit_files u) ++ unit_code u ++ rest) as ->.
  { unfold encode_header. rewrite <- !app_assoc. by destruct (unit_version u =? 4). }
  rewrite Read1 by lia. rstep. set (len := Zlen (encode_header u)) in *. set (tl := unit_code u ++ rest).
  set (fields := b2z (unit_is_stmt u) :: _).
  assert ((if unit_version u =? 4 then '(m, h) ← Read 1 (Piece ((if unit_version u =? 4 then [1] else []) ++ fields) len);
             _ ← check (m =? 1); Ok h
           else Ok (Piece ((if unit_version u =? 4 then [1] else []) ++ fields) len)) = Ok (Piece fields len)) as ->.
  { destruct (unit_version u =? 4); [|done]. cbn [app]. by rewrite Read1 by lia. }
  unfold fields. rstep. rewrite !Read1 by lia. rstep. rewrite Read1 by lia. rstep. rewrite Read1 by lia. rstep.
  rewrite Read1 by lia. rstep. rewrite (proj2 (Z.eqb_neq (1 + _) 0)) by lia. rstep. cbn [ptr_].
  rewrite Z.add_simpl_l, advance_app by lia. rstep.
  destruct (Init_tables u tl len Hd Hf) as (h1 & h2 & E1 & P1 & E2 & P2); [lia|]. cbv zeta in E1.
  rewrite E1. rstep. rewrite E2. rstep. cbn [ptr_]. rewrite P1, P2, !assign_app by lia.
  rewrite int8_uint8 by done. unfold unit_header. repeat f_equal. by destruct (unit_is_stmt u).
Qed.

Lemma LineNumberVM_new_unit u rest len cd : unit_wf u -> Zlen (encode_unit u) <= len < 2 ^ 64 ->
  LineNumberVM_new (Piece (encode_unit u ++ rest) len) cd =
    let h := unit_header u (unit_code u ++ rest) in
    Ok (mkLineNumberVM false (Piece (unit_code u ++ rest) (Zlen (unit_code u) + 6)) cd h (Reset h)).
Proof.
  intros Hu Hl. pose proof Hu as (_ & _ & _ & _ & _ & _ & _ & _ & Hs).
  assert (HB : 6 <= Zlen (unit_body u)).
  { unfold unit_body. rewrite !Zlen_app, !Zlen_le_bytes. pose proof (Zlen_nonneg (encode_header u)).
    pose proof (Zlen_nonneg (unit_code u)). lia. }
  unfold encode_unit in *. rewrite Zlen_app, Zlen_le_bytes in Hl.
  unfold LineNumberVM_new, Section_.Section_new. rewrite <- app_assoc, Section_Next_32 by lia. rstep.
  cbn [Section_.is_64_bits_]. rewrite Init_spec by done. done.
Qed.

(** ** The rows of a target address *)

(** Row [r] has the target: the row after it is past the target, and it and the
    rows before it are not. *)
Definition covers (target : Z) (l : list Registers) (r : Registers) : Prop :=
  exists i r', l !! i = Some r /\ l !! S i = Some r' /\ target < address_ r' /\
    forall j q, (j <= i)%nat -> l !! j = Some q -> address_ q <= target.

Lemma cross_covers target l : forall p r, address_ p <= target -> cross target p l = Some r -> covers target (p :: l) r.
Proof.
  induction l as [|q l IH]; intros p r Hp Hc; [done|]. cbn [cross] in Hc. destruct (target <? address_ q) eqn:E; zify_bool.
  - injection Hc as ->. exists O, q. split_and!; [done..|]. intros [|j] q' Hj Hq; [by injection Hq as <-|lia].
  - destruct (IH q r E Hc) as (i & r' & H1 & H2 & H3 & H4). exists (S i), r'. split_and!; [done..|].
    intros [|j] q' Hj Hq; [by injection Hq as <-|]. apply (H4 j q'); [lia|done].
Qed.

Lemma lookup_rows_covers target l r : lookup_rows target l = Some r <-> covers target l r.
Proof.
  split.
  - destruct l as [|p [|q l]]; [done..|]. unfold lookup_rows. cbn [tail].
    destruct (address_ p <=? target) eqn:E; [|done]. zify_bool. by apply cross_covers.
  - intros (i & r' & H1 & H2 & H3 & H4). by eapply lookup_rows_found.
Qed.

(** The first sequence that has the target decides. *)
Definition first_covers (h : Header) (target : Z) (program : list (list instr)) (r : Registers) : Prop :=
  exists pre code post, program = pre ++ code :: post /\ covers target (rows h (Reset h) code) r /\
    Forall (fun c => forall q, ~ covers target (rows h (Reset h) c) q) pre.

Lemma lookup_program_first h target program r :
  lookup_program h target program = Some r <-> first_covers h target program r.
Proof.
  induction program as [|code program IH]; cbn [lookup_program].
  { split; [done|]. intros (pre & code & post & He & _). by destruct pre. }
  destruct (lookup_rows target (rows h (Reset h) code)) as [q|] eqn:E.
  - pose proof E as Hq. apply lookup_rows_covers in Hq. split.
    + intros [= <-]. exists [], code, program. split_and!; [done..|constructor].
    + intros ([|c pre] & code' & post & He & Hc & Hp); injection He as <- ->.
      * apply lookup_rows_covers in Hc. congruence.
      * inversion_clear Hp as [|? ? Hn _]. by destruct (Hn q).
  - rewrite IH. split; intros (pre & code' & post & He & Hc & Hp).
    + exists (code :: pre), code', post. rewrite He. split_and!; [done..|]. constructor; [|done].
      intros q Hq%lookup_rows_covers. congruence.
    + destruct pre as [|c pre]; injection He as <- ->.
      * apply lookup_rows_covers in Hc. congruence.
      * exists pre, code', post. split_and!; [done..|]. by inversion_clear Hp.
Qed.

(** ** The search of an address *)

Lemma unit_header_wf u tl : unit_wf u -> header_wf (unit_header u tl).
Proof.
  intros (_ & Hm & _ & Hr & Ho & _). unfold header_wf, unit_header. cbn. pose proof (Zlen_nonneg (unit_lengths u)). lia.
Qed.

(** The machine of a unit. *)
Definition unit_vm (u : Unit) (rest : bytes) (cd : StringPiece) : LineNumberVM :=
  let h := unit_header u (unit_code u ++ rest) in
  mkLineNumberVM false (Piece (unit_code u ++ rest) (Zlen (unit_code u) + 6)) cd h (Reset h).

Lemma FindAddress_goes u rest cd target : unit_wf u ->
  goes (unit_header u (unit_code u ++ rest)) (unit_vm u rest cd) target (S (length rest))
    (FindAddress (unit_vm u rest cd) target) (Piece rest (Zlen (unit_code u) + 6))
    (lookup_program (unit_header u []) target (unit_program u)).
Proof.
  intros Hu. pose proof Hu as (_ & _ & _ & _ & _ & _ & _ & Hp & _).
  set (tl := unit_code u ++ rest). rewrite <- (lookup_program_tail u tl).
  unfold FindAddress. cbn [data_ header unit_vm].
  apply (search_program (unit_header u tl) (unit_header_wf u tl Hu) (unit_vm u rest cd) target eq_refl (unit_program u)).
  - eapply Forall_impl; [exact Hp|]. intros code Hc. eapply Forall_impl; [exact Hc|]. intros i. apply valid_tail.
  - change (encode_program (unit_header u tl) (unit_program u)) with (unit_code u). lia.
  - change (encode_program (unit_header u tl) (unit_program u)) with (unit_code u).
    unfold program_fuel. cbn [ptr_]. unfold tl. rewrite length_app. lia.
Qed.

(** The directory a file entry names: none for 0. *)
Definition entry_path (u : Unit) (e : FileEntry) (dir : bytes) : Prop :=
  if entry_directory e =? 0 then dir = []
  else unit_directories u !! Z.to_nat (entry_directory e - 1) = Some dir.

(** A string of a table. *)
Lemma wf_entry b tail : Zlen b < 2 ^ 32 -> wf (Piece (b ++ 0 :: tail) (Zlen b)).
Proof.
  intros Hb. unfold wf. cbn [ptr_ length_]. rewrite Zlen_app. pose proof (Zlen_nonneg b).
  pose proof (Zlen_nonneg (0 :: tail)). lia.
Qed.

Lemma GetIncludeDirectory_entry u rest cd e dir : unit_wf u -> entry_wf e -> entry_path u e dir ->
  exists d, GetIncludeDirectory (unit_vm u rest cd) (entry_directory e) = Ok d /\ wf d /\ content d = dir /\
    length_ d < 2 ^ 32.
Proof.
  intros Hu (_ & Hd & _) Hp. pose proof Hu as (_ & _ & _ & _ & _ & Hds & _ & _ & Hs). unfold entry_path in Hp.
  unfold GetIncludeDirectory. destruct (entry_directory e =? 0) eqn:E; zify_bool.
  { subst dir. exists (Piece [] 0). split_and!; [done|apply PathText.wf_null|done|done]. }
  assert (HB : Zlen (encode_directories (unit_directories u)) < 2 ^ 32).
  { unfold unit_body in Hs. rewrite !Zlen_app, !Zlen_le_bytes, length_encode_header in Hs.
    pose proof (Zlen_nonneg (unit_code u)). pose proof (Zlen_nonneg (unit_lengths u)). pose proof (length_files_pos (unit_files u)).
    pose proof (Zlen_nonneg (if unit_version u =? 4 then [1] else [])). lia. }
  pose proof (lookup_lt_Some _ _ _ Hp) as Hlt. unfold fits_u in Hd.
  cbn [header unit_vm unit_header include_directory_count_ include_directories_].
  rewrite (proj2 (Z.leb_le _ _)) by (unfold Zlen; lia). rstep.
  replace (Z.to_nat (entry_directory e)) with (S (Z.to_nat (entry_directory e - 1))) by lia.
  destruct (nth_directory_spec _ _ _ (encode_files (unit_files u) ++ unit_code u ++ rest)
    (Zlen (encode_directories (unit_directories u))) (Piece [] 0) Hp Hds) as (tl & ->); [lia|].
  assert (Zlen dir < 2 ^ 32).
  { apply list_elem_of_split_length in Hp as (l1 & l2 & Hl & _). rewrite Hl in HB. unfold encode_directories in HB.
    rewrite fmap_app, concat_app, fmap_cons in HB. cbn [concat] in HB. rewrite !Zlen_app in HB.
    pose proof (Zlen_nonneg (concat ((fun d => d ++ [0]) <$> l1))). pose proof (Zlen_nonneg (concat ((fun d => d ++ [0]) <$> l2))).
    change (Zlen [0]) with 1 in HB. lia. }
  eexists. split; [reflexivity|]. split; [by apply wf_entry|]. split; [by eapply content_Piece|done].
Qed.

Lemma GetFileName_entry u rest cd k e : unit_wf u -> 1 <= k -> unit_files u !! Z.to_nat (k - 1) = Some e ->
  exists p, GetFileName (unit_vm u rest cd) k = Ok (mkFileName p (entry_directory e)) /\ wf p /\
    content p = entry_name e /\ length_ p < 2 ^ 32.
Proof.
  intros Hu Hk He. pose proof Hu as (_ & _ & _ & _ & _ & _ & Hes & _ & Hs).
  assert (HB : Zlen (encode_files (unit_files u)) < 2 ^ 32).
  { unfold unit_body in Hs. rewrite !Zlen_app, !Zlen_le_bytes, length_encode_header in Hs.
    pose proof (Zlen_nonneg (unit_code u)). pose proof (Zlen_nonneg (unit_lengths u)). pose proof (length_table_pos (unit_directories u)).
    pose proof (Zlen_nonneg (if unit_version u =? 4 then [1] else [])). lia. }
  pose proof (lookup_lt_Some _ _ _ He) as Hlt.
  unfold GetFileName. rewrite (proj2 (Z.eqb_neq k 0)) by lia. rstep.
  cbn [header unit_vm unit_header file_name_count_ file_names_].
  rewrite (proj2 (Z.leb_le _ _)) by (unfold Zlen; lia).
  replace (Z.to_nat k) with (S (Z.to_nat (k - 1))) by lia.
  destruct (nth_file_name_spec _ _ _ (unit_code u ++ rest) (Zlen (encode_files (unit_files u))) He Hes) as (tl & ->); [lia|].
  assert (Zlen (entry_name e) < 2 ^ 32).
  { apply list_elem_of_split_length in He as (l1 & l2 & Hl & _). rewrite Hl in HB. unfold encode_files in HB.
    rewrite fmap_app, concat_app, fmap_cons in HB. cbn [concat] in HB. unfold encode_entry at 2 in HB. rewrite !Zlen_app in HB.
    pose proof (Zlen_nonneg (concat (encode_entry <$> l1))). pose proof (Zlen_nonneg (concat (encode_entry <$> l2))).
    pose proof (Zlen_nonneg (0 :: uleb (entry_directory e) ++ uleb (entry_time e) ++ uleb (entry_size e))).
    change (Zlen [0]) with 1 in HB. lia. }
  eexists. split; [reflexivity|]. split; [by apply wf_entry|]. split; [by eapply content_Piece|done].
Qed.

Lemma found_row u rest cd k line e dir : unit_wf u -> wf cd -> length_ cd < 2 ^ 62 -> 1 <= k ->
  unit_files u !! Z.to_nat (k - 1) = Some e -> entry_path u e dir ->
  exists path, found (unit_vm u rest cd) k line = Ok (Some (path, line)) /\
    Path.ToString path = Ok (PathText.path_text (content cd) dir (entry_name e)).
Proof.
  intros Hu Hcd Hcdl Hk He Hd. pose proof Hu as (_ & _ & _ & _ & _ & _ & Hes & _).
  assert (Hew : entry_wf e) by (eapply Forall_lookup_1; eauto).
  unfold found. rewrite (proj2 (Z.eqb_neq k 0)) by lia.
  destruct (GetFileName_entry u rest cd k e Hu Hk He) as (p & -> & Hp & Hpc & Hpl). rstep.
  cbn [directory_index relative_name].
  destruct (GetIncludeDirectory_entry u rest cd e dir Hu Hew Hd) as (d & -> & Hdw & Hdc & Hdl). rstep.
  cbn [compilation_directory_ unit_vm].
  destruct (PathText.Path_new_text cd d p Hcd Hdw Hp) as (path & -> & Hpw & Ht); [lia|]. rstep.
  exists path. split; [done|]. rewrite PathText.ToString_text, Ht, Hdc, Hpc by done. done.
Qed.

(** For a compilation unit with the line number program of the DWARF standard, the
    constructor succeeds, and the path and the line reported for an address are
    those of the row that covers it in the first sequence that has such a row: the
    row's line, and the text of the compilation directory, the file's include
    directory and its name. *)
Theorem FindAddress_row u rest len cd target row e dir :
  unit_wf u -> Zlen (encode_unit u) <= len < 2 ^ 64 -> wf cd -> length_ cd < 2 ^ 62 ->
  first_covers (unit_header u []) target (unit_program u) row ->
  1 <= file_ row -> unit_files u !! Z.to_nat (file_ row - 1) = Some e -> entry_path u e dir ->
  exists vm path, LineNumberVM_new (Piece (encode_unit u ++ rest) len) cd = Ok vm /\
    FindAddress vm target = Ok (Some (path, line_ row)) /\
    Path.ToString path = Ok (PathText.path_text (content cd) dir (entry_name e)).
Proof.
  intros Hu Hl Hcd Hcdl Hrow Hk He Hd. exists (unit_vm u rest cd).
  destruct (found_row u rest cd (file_ row) (line_ row) e dir) as (path & Hf & Ht); [done..|].
  exists path. split; [by apply LineNumberVM_new_unit|]. split; [|done].
  pose proof (FindAddress_goes u rest cd target Hu) as HG.
  apply lookup_program_first in Hrow. rewrite Hrow in HG. cbn [goes] in HG. by rewrite HG.
Qed.

(** C38: An address that no row covers is not reported as missing: StringPiece::advance
    does not shorten the piece, so the machine goes on behind the unit's program,
    and at the end of the file it reads outside the mapping. *)
Theorem missing_address_overruns u len cd target :
  unit_wf u -> Zlen (encode_unit u) <= len < 2 ^ 64 ->
  (forall row, ~ first_covers (unit_header u []) target (unit_program u) row) ->
  exists vm, LineNumberVM_new (Piece (encode_unit u) len) cd = Ok vm /\ FindAddress vm target = Err OutOfBounds.
Proof.
  intros Hu Hl Hn. exists (unit_vm u [] cd). rewrite <- (app_nil_r (encode_unit u)).
  split; [by apply LineNumberVM_new_unit; rewrite ?app_nil_r in *|].
  pose proof (FindAddress_goes u [] cd target Hu) as HG.
  destruct (lookup_program (unit_header u []) target (unit_program u)) as [row|] eqn:E.
  { apply lookup_program_first in E. by destruct (Hn row). }
  destruct HG as (fuel & pf & pl & Hf & ->). destruct fuel as [|fuel]; [cbn in Hf; lia|].
  pose proof (Zlen_nonneg (unit_code u)). cbn [FindAddress_loop]. unfold empty. cbn [length_].
  rewrite (proj2 (Z.eqb_neq (_ + 6) 0)) by lia. unfold Next, program_fuel. cbn [Next_loop]. unfold Step, Read.
  unfold StringPiece.size. cbn [length_ ptr_ length]. rewrite (proj2 (Z.leb_le 1 _)) by lia. done.
Qed.

(** ** Termination *)

(** The outcome of a step that consumes. *)
Ltac ends_step lem := eapply ends_bind; [apply lem; done|]; intros [? ?] ?; unfold shorter in *; cbn [snd] in *.

Lemma skip_arguments_ends n : forall s, ends (fun s' => (left_ s' <= left_ s)%nat) (skip_arguments n s).
Proof.
  induction n as [|n IH]; intros s; cbn [skip_arguments]; [cbn; lia|]. ends_step ReadULEB_ends.
  eapply ends_mono; [apply IH|]. cbn. intros. lia.
Qed.

Lemma Step_standard_ends h r opcode s n : (left_ s < n)%nat -> ends (shorter n) (Step_standard h r opcode s).
Proof.
  intros Hs. unfold Step_standard, quot.
  assert (Hu : ends (shorter n) (arg_count ← vget (standard_opcode_lengths_ h) (opcode - 1);
    program ← skip_arguments (Z.to_nat arg_count) s; Ok (CONTINUE, r, program))).
  { eapply ends_bind; [apply vget_ends|]. intros k _. eapply ends_bind; [apply skip_arguments_ends|].
    intros s' Hs'. unfold ends, shorter. cbn in *. lia. }
  repeat match goal with
  | |- ends _ (if ?b then _ else _) => destruct b
  | |- ends _ (ReadULEB _ ≫= _) => ends_step ReadULEB_ends
  | |- ends _ (ReadSLEB _ ≫= _) => ends_step ReadSLEB_ends
  | |- ends _ (Read _ _ ≫= _) => ends_step Read_ends
  | |- ends _ (Ok _) => unfold ends, shorter; cbn [snd]; lia
  | |- ends _ (_ ← (if ?b then _ else _); _) => destruct b; rstep
  | |- ends _ (Err _) => done
  | |- _ => exact Hu
  end.
Qed.

Lemma Step_extended_ends r s n : (left_ s < n)%nat -> ends (shorter n) (Step_extended r s).
Proof.
  intros Hs. unfold Step_extended. ends_step ReadULEB_ends. eapply ends_bind; [apply ends_check|]. intros _ _.
  ends_step Read_ends. repeat match goal with |- ends _ (if ?b then _ else _) => destruct b end.
  - unfold ends, shorter. cbn. lia.
  - ends_step Read_ends. unfold ends, shorter. cbn. lia.
  - ends_step ReadULEB_ends. unfold ends, shorter. cbn. lia.
  - eapply ends_bind; [apply advance_ends|]. intros s' Hs'. unfold ends, shorter. cbn in *. lia.
Qed.

Lemma Step_ends h r s : ends (shorter (left_ s)) (Step h r s).
Proof.
  unfold Step. ends_step Read_ends. repeat match goal with |- ends _ (if ?b then _ else _) => destruct b end.
  - unfold Step_special, quot. destruct (line_range_ h =? 0); [done|]. rstep. unfold ends, shorter. cbn. lia.
  - by apply Step_standard_ends.
  - by apply Step_extended_ends.
Qed.

Lemma Next_loop_ends fuel h : forall r s n, (left_ s < fuel)%nat -> (left_ s <= n)%nat ->
  ends (shorter n) (Next_loop fuel h r s).
Proof.
  induction fuel as [|fuel IH]; intros r s n Hf Hn; [lia|]. cbn [Next_loop].
  eapply ends_bind; [apply Step_ends|]. intros [[ret r'] s'] Hs. unfold shorter in Hs. cbn [snd] in Hs.
  destruct ret; [apply IH; lia|unfold ends, shorter; cbn; lia..].
Qed.

Lemma Next_ends h r s : ends (shorter (left_ s)) (Next h r s).
Proof. apply Next_loop_ends; unfold program_fuel, left_; lia. Qed.

Lemma ReadFileName_ends s : ends (shorter (left_ s)) (ReadFileName s).
Proof.
  unfold ReadFileName. ends_step ReadNullTerminated_ends. destruct (empty _); [unfold ends, shorter; cbn; lia|].
  do 3 ends_step ReadULEB_ends. unfold ends, shorter. cbn. lia.
Qed.

(** The opcode that is compared with DW_LNE_define_file is zero there: no file is
    ever found. *)
Lemma NextDefineFile_loop_ends fuel h : forall s, (left_ s < fuel)%nat ->
  ends (fun x => fst x = None) (NextDefineFile_loop fuel h s).
Proof.
  induction fuel as [|fuel IH]; intros s Hf; [lia|]. cbn [NextDefineFile_loop]. destruct (empty s); [done|].
  ends_step Read_ends. destruct (opcode_base_ h <=? _); [apply IH; lia|].
  destruct (negb (z =? 0)) eqn:E.
  - eapply ends_bind; [apply vget_ends|]. intros k _. eapply ends_bind; [apply skip_arguments_ends|].
    intros s' Hs'. cbv beta in Hs'. apply IH. lia.
  - ends_step ReadULEB_ends. eapply ends_bind; [apply ends_check|]. intros _ _. ends_step Read_ends.
    apply negb_false_iff in E. zify_bool. subst z. change (0 =? DW_LNE_define_file) with false. cbv iota.
    eapply ends_bind; [apply advance_ends|]. intros s' Hs'. cbv beta in Hs'. apply IH. lia.
Qed.

Lemma nth_define_file_ends n h s : ends (fun _ => False) (nth_define_file n h s).
Proof.
  destruct n; cbn [nth_define_file]; [done|].
  eapply ends_bind; [apply NextDefineFile_loop_ends; unfold program_fuel, left_; lia|].
  intros [fn s'] Hn. cbn in Hn. by subst.
Qed.

(** Files declared by DW_LNE_define_file are never found: NextDefineFile compares
    the wrong variable with the opcode, so every file index past the header's table
    is an error, whatever the program defines. *)
Theorem define_file_unreachable vm index : 0 <= file_name_count_ (header vm) < index ->
  exists e, GetFileName vm index = Err e /\ e <> NoFuel.
Proof.
  intros Hi. unfold GetFileName. rewrite (proj2 (Z.eqb_neq index 0)), (proj2 (Z.leb_gt _ _)) by lia. rstep.
  pose proof (nth_define_file_ends (Z.to_nat (index - file_name_count_ (header vm))) (header vm) (data_ vm)) as H.
  destruct (nth_define_file _ _ _) as [fn|e]; [done|]. exists e. by split.
Qed.

Lemma nth_file_name_ends n : forall s, ends (fun _ => True) (nth_file_name n s).
Proof.
  induction n as [|n IH]; intros s; cbn [nth_file_name]; [done|]. ends_step ReadFileName_ends.
  case_match; [|done]. destruct n; [done|apply IH].
Qed.

Lemma nth_directory_ends n : forall s d, ends (fun _ => True) (nth_directory n s d).
Proof.
  induction n as [|n IH]; intros s d; cbn [nth_directory]; [done|]. ends_step ReadNullTerminated_ends.
  destruct (empty _); [done|apply IH].
Qed.

Lemma range_ends s n : ends (fun _ => True) (range s n).
Proof. unfold range. by destruct (_ && _). Qed.

Lemma strip_back_ends p n : ends (fun _ => True) (strip_back p n).
Proof.
  induction n as [|n IH]; cbn [strip_back]; [done|]. eapply ends_bind; [apply vget_ends|]. intros c _.
  by destruct (c =? 47).
Qed.

Lemma StripSlashes_ends s b : ends (fun _ => True) (StripSlashes s b).
Proof.
  unfold StripSlashes. destruct (empty s); [done|]. eapply ends_bind; [apply range_ends|]. intros r _.
  eapply ends_bind; [apply strip_back_ends|]. done.
Qed.

Lemma Path_new_ends b s f : ends (fun _ => True) (Path.Path_new b s f).
Proof.
  assert (Ha : forall s, ends (fun _ => True) (Path.absolute s)).
  { intros p. unfold Path.absolute. destruct (empty p); [done|]. eapply ends_bind; [apply vget_ends|]. done. }
  unfold Path.Path_new. destruct (empty f); [done|]. eapply ends_bind; [apply Ha|]. intros a _.
  destruct (if a then _ else _) as [b' s']. eapply ends_bind; [apply Ha|]. intros a' _.
  destruct (if empty _ then _ else _) as [b2 s2].
  do 3 (eapply ends_bind; [apply StripSlashes_ends|]; intros ? _). done.
Qed.

Lemma found_ends vm pf pl : ends (fun _ => True) (found vm pf pl).
Proof.
  unfold found, GetFileName, GetIncludeDirectory. destruct (pf =? 0); [done|].
  eapply (ends_bind (fun _ => True)).
  { eapply ends_bind; [apply ends_check|]. intros _ _. destruct (pf <=? _); [apply nth_file_name_ends|].
    eapply ends_mono; [apply nth_define_file_ends|done]. }
  intros fn _. eapply (ends_bind (fun _ => True)).
  { destruct (directory_index fn =? 0); [done|]. eapply ends_bind; [apply ends_check|]. intros _ _.
    apply nth_directory_ends. }
  intros d _. eapply ends_bind; [apply Path_new_ends|]. done.
Qed.

Lemma FindAddress_loop_ends fuel vm target : forall s r state pf pl, (left_ s < fuel)%nat ->
  ends (fun _ => True) (FindAddress_loop fuel vm target s r state pf pl).
Proof.
  induction fuel as [|fuel IH]; intros s r state pf pl Hf; [lia|]. cbn [FindAddress_loop].
  destruct (empty s); [done|]. eapply ends_bind; [apply Next_ends|]. intros [[row r'] s'] Hs.
  unfold shorter in Hs. cbn [snd] in Hs.
  assert (Hc : forall state pf pl, ends (fun _ => True)
    (if negb row then FindAddress_loop fuel vm target s' (Reset (header vm)) START pf pl
     else FindAddress_loop fuel vm target s' r' state pf pl)) by (intros; destruct (negb row); apply IH; lia).
  destruct (match state with START => _ | _ => _ end); [apply Hc| |apply Hc].
  destruct (target <? address_ r'); [apply found_ends|apply Hc].
Qed.

(** The search ends for every machine and every address, whatever the bytes of the
    program are: with an answer or with a fault. *)
Theorem FindAddress_terminates vm target : FindAddress vm target <> Err NoFuel.
Proof.
  pose proof (FindAddress_loop_ends (program_fuel (data_ vm)) vm target (data_ vm) (Reset (header vm)) START 0 0) as H.
  fold (FindAddress vm target) in H. intros E. rewrite E in H. apply H; [unfold program_fuel, left_; lia|done].
Qed.

(** ** A unit of two files *)

Definition demo_code : list instr :=
  [SetAddress 4096; AdvanceLine 9; Copy; SetFile 2; AdvancePc 16; Special 20; UnknownExtended 128 [1; 2]; AdvancePc 8].

Definition demo_unit : Unit :=
  mkUnit 2 1 true (-5) 14 [0; 1; 1; 1; 1; 0; 0; 0; 1] [str "/usr/include"]
    [mkFileEntry (str "a.cc") 0 0 0; mkFileEntry (str "b.h") 1 0 300] [demo_code].

Definition demo_row : Registers := mkRegisters 4113 2 11 0 true false false false false 0 0.

Lemma demo_unit_wf : unit_wf demo_unit.
Proof.
  split; [done|]. split; [done|]. split; [done|]. split; [done|]. split; [done|].
  split; [repeat constructor; done|]. split; [repeat constructor; done|]. split; [|vm_compute; done].
  constructor; [|constructor]. repeat (constructor; [vm_compute; repeat split; done|]). constructor.
Defined.

Lemma FindAddress_row_witness : exists vm path,
  LineNumberVM_new (Piece (encode_unit demo_unit ++ [0]) 200) (of_string (str "/src")) = Ok vm /\
  FindAddress vm 4120 = Ok (Some (path, 11)) /\ Path.ToString path = Ok (str "/usr/include/b.h").
Proof.
  apply (FindAddress_row demo_unit [0] 200 (of_string (str "/src")) 4120 demo_row
    (mkFileEntry (str "b.h") 1 0 300) (str "/usr/include")).
  - exact demo_unit_wf.
  - vm_compute. split; done.
  - vm_compute. repeat split; done.
  - done.
  - exists [], demo_code, []. split; [done|]. split; [|constructor].
    exists 1%nat, (set_address 4121 demo_row). split; [vm_compute; done|]. split; [vm_compute; done|]. split; [done|].
    intros [|[|j]] q Hj Hq; [| |lia]; vm_compute in Hq; injection Hq as <-; vm_compute; done.
  - done.
  - vm_compute. done.
  - vm_compute. done.
Defined.

Lemma missing_address_overruns_witness : exists vm,
  LineNumberVM_new (Piece (encode_unit demo_unit) 200) (of_string (str "/src")) = Ok vm /\
  FindAddress vm 64 = Err OutOfBounds.
Proof.
  apply (missing_address_overruns demo_unit 200 (of_string (str "/src")) 64).
  - exact demo_unit_wf.
  - vm_compute. split; done.
  - intros row Hr. apply lookup_program_first in Hr. vm_compute in Hr. discriminate Hr.
Defined.

Lemma define_file_unreachable_witness : exists e, GetFileName (unit_vm demo_unit [] (Piece [] 0)) 3 = Err e /\ e <> NoFuel.
Proof. apply (define_file_unreachable (unit_vm demo_unit [] (Piece [] 0)) 3). vm_compute. split; done. Defined.
