(* ===== verification/Elf.v ===== *)
(** * symbolizer/Elf

    claire/common/symbolizer/Elf.{h,cc}: an ELF file mapped into memory. The
    structures of <elf.h> are read at their offsets of the 64-bit ABI; a pointer
    to one of them is its offset in the file, and a field outside the mapping is
    a fault. *)

From S2P Require Import Prelude Bytes StringPiece DwarfReader.
Open Scope Z_scope.

(** ** The object and its resources *)

(** [file_] is [None] for MAP_FAILED. *)
(* @src claire/common/symbolizer/Elf.h:171-175 ElfFile *)
Record ElfFile := mkElfFile { fd_ : Z; file_ : option bytes; length_ : Z; base_address_ : Z }.

(* @src claire/common/symbolizer/Elf.cc:35-40 ElfFile::ElfFile *)
Definition ElfFile_empty : ElfFile := mkElfFile (-1) None 0 0.

(** The calls that give resources back. *)
Inductive release := Munmap (file : bytes) (length : Z) | Close (fd : Z).

(* @src claire/common/symbolizer/Elf.cc:96-107 ElfFile::Destroy *)
Definition Destroy (t : ElfFile) : list release :=
  (match file_ t with Some file => [Munmap file (length_ t)] | None => [] end) ++
  (if negb (fd_ t =? -1) then [Close (fd_ t)] else []).

(** The new object and what is left of the other. *)
(* @src claire/common/symbolizer/Elf.cc:66-76 ElfFile::ElfFile *)
Definition ElfFile_move (other : ElfFile) : ElfFile * ElfFile :=
  (mkElfFile (fd_ other) (file_ other) (length_ other) (base_address_ other), mkElfFile (-1) None 0 0).

(** Assignment from another object; [same] if it is the object itself. *)
(* @src claire/common/symbolizer/Elf.cc:78-94 ElfFile::operator= *)
Definition ElfFile_assign (same : bool) (t other : ElfFile) : res (list release * ElfFile * ElfFile) :=
  _ ← check (negb same);
  let released := Destroy t in
  Ok (released, mkElfFile (fd_ other) (file_ other) (length_ other) (base_address_ other), mkElfFile (-1) None 0 0).

(** ** Reading the mapping *)

(** The [n]-byte integer at an offset. *)
Definition load (t : ElfFile) (off n : Z) : res Z :=
  match file_ t with
  | Some file => b ← range (plus file off) n; Ok (of_digits 256 b)
  | None => Err OutOfBounds
  end.

(** The address of an object of [n] bytes. *)
(* @src claire/common/symbolizer/Elf.h:142-148 ElfFile::At *)
Definition At (t : ElfFile) (n offset : Z) : res Z :=
  _ ← check (uint64 (offset + n) <=? length_ t); Ok offset.

Definition sizeof_Ehdr := 64.
Definition sizeof_Phdr := 56.
Definition sizeof_Shdr := 64.
Definition sizeof_Sym := 24.

(* @src claire/common/symbolizer/Elf.h:55-58 ElfFile::GetElfHeader *)
Definition GetElfHeader (t : ElfFile) : res Z := At t sizeof_Ehdr 0.

(* @src claire/common/symbolizer/Elf.h:64-67 ElfFile::GetBaseAddress *)
Definition GetBaseAddress (t : ElfFile) : Z := base_address_ t.

(** Fields of the header. *)
Definition e_ident (t : ElfFile) (i : Z) : res Z := h ← GetElfHeader t; load t (h + i) 1.
Definition e_type (t : ElfFile) : res Z := h ← GetElfHeader t; load t (h + 16) 2.
Definition e_version (t : ElfFile) : res Z := h ← GetElfHeader t; load t (h + 20) 4.
Definition e_phoff (t : ElfFile) : res Z := h ← GetElfHeader t; load t (h + 32) 8.
Definition e_shoff (t : ElfFile) : res Z := h ← GetElfHeader t; load t (h + 40) 8.
Definition e_phentsize (t : ElfFile) : res Z := h ← GetElfHeader t; load t (h + 54) 2.
Definition e_phnum (t : ElfFile) : res Z := h ← GetElfHeader t; load t (h + 56) 2.
Definition e_shentsize (t : ElfFile) : res Z := h ← GetElfHeader t; load t (h + 58) 2.
Definition e_shnum (t : ElfFile) : res Z := h ← GetElfHeader t; load t (h + 60) 2.
Definition e_shstrndx (t : ElfFile) : res Z := h ← GetElfHeader t; load t (h + 62) 2.

(** Fields of program headers, section headers and symbols. *)
Definition p_type (t : ElfFile) (p : Z) : res Z := load t p 4.
Definition p_vaddr (t : ElfFile) (p : Z) : res Z := load t (p + 16) 8.
Definition sh_name (t : ElfFile) (s : Z) : res Z := load t s 4.
Definition sh_type (t : ElfFile) (s : Z) : res Z := load t (s + 4) 4.
Definition sh_addr (t : ElfFile) (s : Z) : res Z := load t (s + 16) 8.
Definition sh_offset (t : ElfFile) (s : Z) : res Z := load t (s + 24) 8.
Definition sh_size (t : ElfFile) (s : Z) : res Z := load t (s + 32) 8.
Definition sh_link (t : ElfFile) (s : Z) : res Z := load t (s + 40) 4.
Definition sh_entsize (t : ElfFile) (s : Z) : res Z := load t (s + 56) 8.
Definition st_name (t : ElfFile) (s : Z) : res Z := load t s 4.
Definition st_info (t : ElfFile) (s : Z) : res Z := load t (s + 4) 1.
Definition st_shndx (t : ElfFile) (s : Z) : res Z := load t (s + 6) 2.
Definition st_value (t : ElfFile) (s : Z) : res Z := load t (s + 8) 8.
Definition st_size (t : ElfFile) (s : Z) : res Z := load t (s + 16) 8.

(** The constants of <elf.h>. *)
Definition ELFCLASS64 := 2.
Definition ELFDATA2LSB := 1.
Definition EV_CURRENT := 1.
Definition ET_EXEC := 2.
Definition ET_DYN := 3.
Definition PT_LOAD := 1.
Definition SHT_SYMTAB := 2.
Definition SHT_STRTAB := 3.
Definition SHT_DYNSYM := 11.
Definition SHN_UNDEF := 0.
Definition STT_OBJECT := 1.
Definition STT_FUNC := 2.

(** ** Validation *)

(** The first PT_LOAD header among the [n] from [p] on. *)
(* @src claire/common/symbolizer/Elf.cc:154-165 ElfFile::Init *)
Fixpoint find_base (t : ElfFile) (n : nat) (p : Z) : res (option Z) :=
  match n with
  | O => Ok None
  | S n =>
      ty ← p_type t p;
      if ty =? PT_LOAD then a ← p_vaddr t p; Ok (Some a) else find_base t n (p + sizeof_Phdr)
  end.

(* @src claire/common/symbolizer/Elf.cc:109-168 ElfFile::Init *)
Definition Init (t : ElfFile) : res ElfFile :=
  m0 ← e_ident t 0; m1 ← e_ident t 1; m2 ← e_ident t 2; m3 ← e_ident t 3;
  _ ← check ((m0 =? 127) && (m1 =? 69) && (m2 =? 76) && (m3 =? 70));
  class ← e_ident t 4; _ ← check (class =? ELFCLASS64);
  data ← e_ident t 5; _ ← check (data =? ELFDATA2LSB);
  v ← e_ident t 6; version ← e_version t; _ ← check ((v =? EV_CURRENT) && (version =? EV_CURRENT));
  ty ← e_type t; _ ← check ((ty =? ET_EXEC) || (ty =? ET_DYN));
  phnum ← e_phnum t; _ ← check (negb (phnum =? 0));
  phentsize ← e_phentsize t; _ ← check (phentsize =? sizeof_Phdr);
  shentsize ← e_shentsize t; _ ← check (shentsize =? sizeof_Shdr);
  phoff ← e_phoff t;
  program_header ← At t sizeof_Phdr phoff;
  base ← find_base t (Z.to_nat phnum) program_header;
  match base with
  | None => Err CheckFailed
  | Some a => Ok (mkElfFile (fd_ t) (file_ t) (length_ t) a)
  end.

(** open() returned [fd]; [contents] is what fstat() and mmap() gave, if they
    succeeded. *)
(* @src claire/common/symbolizer/Elf.cc:42-59 ElfFile::ElfFile *)
Definition ElfFile_new (fd : Z) (contents : option bytes) : res ElfFile :=
  _ ← check (0 <=? fd);
  match contents with
  | None => Err CheckFailed
  | Some file => Init (mkElfFile fd (Some file) (Zlen file) 0)
  end.

(** ** Sections *)

(* @src claire/common/symbolizer/Elf.cc:170-174 ElfFile::GetSectionByIndex *)
Definition GetSectionByIndex (t : ElfFile) (idx : Z) : res Z :=
  shnum ← e_shnum t;
  _ ← check (idx <? shnum);
  shoff ← e_shoff t;
  At t sizeof_Shdr (uint64 (shoff + uint64 (idx * sizeof_Shdr))).

(** The mapping from an offset on. *)
Definition at_offset (t : ElfFile) (off : Z) : res bytes :=
  match file_ t with Some file => Ok (plus file off) | None => Err OutOfBounds end.

(* @src claire/common/symbolizer/Elf.cc:176-179 ElfFile::GetSectionBody *)
Definition GetSectionBody (t : ElfFile) (section : Z) : res StringPiece :=
  off ← sh_offset t section;
  size ← sh_size t section;
  p ← at_offset t off;
  Ok (Piece p size).

(* @src claire/common/symbolizer/Elf.cc:181-190 ElfFile::ValidateStringTable *)
Definition ValidateStringTable (t : ElfFile) (string_table : Z) : res unit :=
  ty ← sh_type t string_table;
  _ ← check (ty =? SHT_STRTAB);
  start ← sh_offset t string_table;
  size ← sh_size t string_table;
  if size =? 0 then Ok tt
  else
    first ← load t start 1;
    if first =? 0 then last ← load t (start + size - 1) 1; check (last =? 0) else check false.

(* @src claire/common/symbolizer/Elf.cc:192-198 ElfFile::GetString *)
Definition GetString (t : ElfFile) (string_table offset : Z) : res bytes :=
  _ ← ValidateStringTable t string_table;
  size ← sh_size t string_table;
  _ ← check (offset <? size);
  start ← sh_offset t string_table;
  at_offset t (start + offset).

(* @src claire/common/symbolizer/Elf.cc:200-209 ElfFile::GetSectionName *)
Definition GetSectionName (t : ElfFile) (section : Z) : res (option bytes) :=
  ndx ← e_shstrndx t;
  if ndx =? SHN_UNDEF then Ok None
  else
    section_names ← GetSectionByIndex t ndx;
    name ← sh_name t section;
    s ← GetString t section_names name;
    Ok (Some s).

(** strlen() and strcmp() == 0 on a string of the mapping; [name] has no NUL. *)
Fixpoint strlen_at (p : bytes) : res Z :=
  match p with
  | [] => Err OutOfBounds
  | c :: p => if c =? 0 then Ok 0 else n ← strlen_at p; Ok (1 + n)
  end.

Fixpoint streq (name p : bytes) : res bool :=
  match p with
  | [] => Err OutOfBounds
  | c :: p =>
      match name with
      | [] => Ok (c =? 0)
      | x :: name => if x =? c then streq name p else Ok false
      end
  end.

(** [off] is [cur - start]; every pass moves [cur] forward. *)
(* @src claire/common/symbolizer/Elf.cc:226-236 ElfFile::GetSectionByName *)
Fixpoint find_name (fuel : nat) (name cur : bytes) (off size : Z) : res (option Z) :=
  match fuel with
  | O => Err NoFuel
  | S fuel =>
      if off =? size then Ok None
      else
        eq ← streq name cur;
        if eq : bool then Ok (Some off)
        else n ← strlen_at cur; find_name fuel name (plus cur (n + 1)) (off + n + 1) size
  end.

(* @src claire/common/symbolizer/Elf.cc:240-247 ElfFile::GetSectionByName *)
Fixpoint find_section_named (t : ElfFile) (n : nat) (ptr offset : Z) : res (option Z) :=
  match n with
  | O => Ok None
  | S n =>
      name ← sh_name t ptr;
      if name =? offset then Ok (Some ptr) else find_section_named t n (ptr + sizeof_Shdr) offset
  end.

(** The table of section headers: its address and its length. *)
Definition section_table (t : ElfFile) : res (Z * nat) :=
  shoff ← e_shoff t;
  ptr ← At t sizeof_Shdr shoff;
  shnum ← e_shnum t;
  Ok (ptr, Z.to_nat shnum).

(* @src claire/common/symbolizer/Elf.cc:211-248 ElfFile::GetSectionByName *)
Definition GetSectionByName (t : ElfFile) (name : bytes) : res (option Z) :=
  ndx ← e_shstrndx t;
  if ndx =? SHN_UNDEF then Ok None
  else
    section_names ← GetSectionByIndex t ndx;
    _ ← ValidateStringTable t section_names;
    off ← sh_offset t section_names;
    size ← sh_size t section_names;
    start ← at_offset t off;
    found ← find_name (S (length start)) name start 0 size;
    match found with
    | None => Ok None
    | Some offset => '(ptr, n) ← section_table t; find_section_named t n ptr offset
    end.

(** ** Symbols *)

(** The section header and the symbol. *)
(* @src claire/common/symbolizer/Elf.h:89-89 Symbol *)
Definition Symbol : Type := option (Z * Z).

(** The symbols [sym], [sym] + 24, ... below [end]; the first that [matches]. *)
(* @src claire/common/symbolizer/Elf.cc:268-281 ElfFile::GetDefinitionByAddress *)
Fixpoint find_symbol (matches : Z -> res bool) (n : nat) (sym : Z) : res (option Z) :=
  match n with
  | O => Ok None
  | S n =>
      m ← matches sym;
      if m : bool then Ok (Some sym) else find_symbol matches n (sym + sizeof_Sym)
  end.

(* @src claire/common/symbolizer/Elf.cc:270-279 ElfFile::GetDefinitionByAddress *)
Definition defines_address (t : ElfFile) (address sym : Z) : res bool :=
  info ← st_info t sym;
  let type := Z.land info 15 in
  if (type =? STT_OBJECT) || (type =? STT_FUNC) then
    shndx ← st_shndx t sym;
    if negb (shndx =? SHN_UNDEF) then
      value ← st_value t sym;
      if value <=? address then size ← st_size t sym; Ok (address <? uint64 (value + size)) else Ok false
    else Ok false
  else Ok false.

(** How many symbols a section holds. *)
Definition symbol_count (t : ElfFile) (section : Z) : res nat :=
  size ← sh_size t section;
  entsize ← sh_entsize t section;
  if entsize =? 0 then Err DivideByZero else Ok (Z.to_nat (size / entsize)).

(** The search in the [n] sections from [ptr] on; [wanted] selects sections. *)
(* @src claire/common/symbolizer/Elf.cc:258-282 ElfFile::GetDefinitionByAddress *)
Fixpoint search_sections (t : ElfFile) (wanted : Z -> res bool) (matches : Z -> Z -> res bool) (n : nat) (ptr : Z) :
    res Symbol :=
  match n with
  | O => Ok None
  | S n =>
      w ← wanted ptr;
      if w : bool then
        off ← sh_offset t ptr;
        sym ← At t sizeof_Sym off;
        k ← symbol_count t ptr;
        found ← find_symbol (matches ptr) k sym;
        match found with
        | Some sym => Ok (Some (ptr, sym))
        | None => search_sections t wanted matches n (ptr + sizeof_Shdr)
        end
      else search_sections t wanted matches n (ptr + sizeof_Shdr)
  end.

(** The section header is copied. *)
(* @src claire/common/symbolizer/Elf.cc:259-264 ElfFile::GetDefinitionByAddress *)
Definition is_symbol_section (t : ElfFile) (ptr : Z) : res bool :=
  _ ← load t ptr sizeof_Shdr;
  ty ← sh_type t ptr; Ok ((ty =? SHT_DYNSYM) || (ty =? SHT_SYMTAB)).

(* @src claire/common/symbolizer/Elf.cc:250-285 ElfFile::GetDefinitionByAddress *)
Definition GetDefinitionByAddress (t : ElfFile) (address : Z) : res Symbol :=
  '(ptr, n) ← section_table t;
  search_sections t (is_symbol_section t) (fun _ => defines_address t address) n ptr.

(** Both comparisons of the condition are with SHT_DYNSYM. *)
(* @src claire/common/symbolizer/Elf.cc:297-305 ElfFile::GetSymbolByName *)
Definition is_named_section (t : ElfFile) (ptr : Z) : res bool :=
  link ← sh_link t ptr;
  if link =? SHN_UNDEF then Ok false
  else ty ← sh_type t ptr; Ok (negb (negb (ty =? SHT_DYNSYM) && negb (ty =? SHT_DYNSYM))).

(* @src claire/common/symbolizer/Elf.cc:311-320 ElfFile::GetSymbolByName *)
Definition has_name (t : ElfFile) (name : bytes) (ptr sym : Z) : res bool :=
  shndx ← st_shndx t sym;
  if shndx =? SHN_UNDEF then Ok false
  else
    st ← st_name t sym;
    if st =? 0 then Ok false
    else
      link ← sh_link t ptr;
      table ← GetSectionByIndex t link;
      sym_name ← GetString t table st;
      streq name sym_name.

(* @src claire/common/symbolizer/Elf.cc:287-326 ElfFile::GetSymbolByName *)
Definition GetSymbolByName (t : ElfFile) (name : bytes) : res Symbol :=
  '(ptr, n) ← section_table t;
  search_sections t (is_named_section t) (has_name t name) n ptr.

(* @src claire/common/symbolizer/Elf.cc:331-337 ElfFile::GetSectionContainingAddress *)
Fixpoint find_containing (t : ElfFile) (n : nat) (ptr addr : Z) : res (option Z) :=
  match n with
  | O => Ok None
  | S n =>
      a ← sh_addr t ptr;
      inside ← (if a <=? addr then size ← sh_size t ptr; Ok (addr <? uint64 (a + size)) else Ok false);
      if inside : bool then Ok (Some ptr) else find_containing t n (ptr + sizeof_Shdr) addr
  end.

(* @src claire/common/symbolizer/Elf.cc:328-340 ElfFile::GetSectionContainingAddress *)
Definition GetSectionContainingAddress (t : ElfFile) (addr : Z) : res (option Z) :=
  '(ptr, n) ← section_table t; find_containing t n ptr addr.

(* @src claire/common/symbolizer/Elf.cc:342-361 ElfFile::GetSymbolName *)
Definition GetSymbolName (t : ElfFile) (symbol : Symbol) : res (option bytes) :=
  match symbol with
  | None => Ok None
  | Some (section, sym) =>
      name ← st_name t sym;
      if name =? 0 then Ok None
      else
        link ← sh_link t section;
        if link =? SHN_UNDEF then Ok None
        else table ← GetSectionByIndex t link; s ← GetString t table name; Ok (Some s)
  end.

(** The address in the file of the [n]-byte object at a virtual address. *)
(* @src claire/common/symbolizer/Elf.h:150-169 ElfFile::ValueAt *)
Definition ValueAt (t : ElfFile) (n section addr : Z) : res Z :=
  ty ← e_type t; _ ← check ((ty =? ET_EXEC) || (ty =? ET_DYN));
  a ← sh_addr t section; size ← sh_size t section;
  _ ← check ((a <=? addr) && (uint64 (addr + n) <=? uint64 (a + size)));
  off ← sh_offset t section;
  At t n (uint64 (off + (addr - a))).

(* @src claire/common/symbolizer/Elf.h:101-108 ElfFile::GetSymbolValue *)
Definition GetSymbolValue (t : ElfFile) (n symbol : Z) : res Z :=
  shndx ← st_shndx t symbol;
  section ← GetSectionByIndex t shndx;
  value ← st_value t symbol;
  ValueAt t n section value.

(* @src claire/common/symbolizer/Elf.h:121-128 ElfFile::GetAddressValue *)
Definition GetAddressValue (t : ElfFile) (n addr : Z) : res Z :=
  section ← GetSectionContainingAddress t addr;
  match section with None => Err CheckFailed | Some section => ValueAt t n section addr end.

(** ** Ownership *)

(** Moving a file hands its resources over: when both objects are destroyed, the
    resources of each are released exactly once, and a moved-from object releases
    nothing; the same holds for assignment, which first releases the resources of
    its target. *)
Theorem move_releases_once t other :
  (let '(a, b) := ElfFile_move other in Destroy a ++ Destroy b = Destroy other /\ Destroy b = []) /\
  ElfFile_assign true t t = Err CheckFailed /\
  (exists a b, ElfFile_assign false t other = Ok (Destroy t, a, b) /\
     Destroy t ++ Destroy a ++ Destroy b = Destroy t ++ Destroy other /\ base_address_ a = base_address_ other).
Proof.
  split; [split; [apply app_nil_r|done]|]. split; [done|]. eexists _, _. split; [reflexivity|].
  split; [|done]. f_equal. apply app_nil_r.
Qed.

(** ** The file as lists

    What the section headers and symbols of a file say, when they lie inside the
    mapping. *)
Record SectionHeader := mkSectionHeader {
  s_name : Z; s_type : Z; s_addr : Z; s_offset : Z; s_size : Z; s_link : Z; s_entsize : Z }.

Record SymbolEntry := mkSymbolEntry { y_name : Z; y_info : Z; y_shndx : Z; y_value : Z; y_size : Z }.

Definition section_at (t : ElfFile) (p : Z) (s : SectionHeader) : Prop :=
  is_Some (match load t p sizeof_Shdr with Ok x => Some x | Err _ => None end) /\
  sh_name t p = Ok (s_name s) /\ sh_type t p = Ok (s_type s) /\ sh_addr t p = Ok (s_addr s) /\
  sh_offset t p = Ok (s_offset s) /\ sh_size t p = Ok (s_size s) /\ sh_link t p = Ok (s_link s) /\
  sh_entsize t p = Ok (s_entsize s).

Definition symbol_at (t : ElfFile) (p : Z) (y : SymbolEntry) : Prop :=
  st_name t p = Ok (y_name y) /\ st_info t p = Ok (y_info y) /\ st_shndx t p = Ok (y_shndx y) /\
  st_value t p = Ok (y_value y) /\ st_size t p = Ok (y_size y).

(** Consecutive objects of [n] bytes from [p] on. *)
Fixpoint table_at {A} (at_ : Z -> A -> Prop) (n p : Z) (l : list A) : Prop :=
  match l with [] => True | x :: l => at_ p x /\ table_at at_ n (p + n) l end.

Definition holds_symbols (s : SectionHeader) : bool := (s_type s =? SHT_DYNSYM) || (s_type s =? SHT_SYMTAB).

(** A section with the symbols it holds, none for other sections. *)
Definition symbols_at (t : ElfFile) (s : SectionHeader) (ys : list SymbolEntry) : Prop :=
  if holds_symbols s
  then uint64 (s_offset s + sizeof_Sym) <= length_ t /\ s_entsize s <> 0 /\
       Z.to_nat (s_size s / s_entsize s) = length ys /\ table_at (symbol_at t) sizeof_Sym (s_offset s) ys
  else ys = [].

Definition image (t : ElfFile) (p : Z) (l : list (SectionHeader * list SymbolEntry)) : Prop :=
  section_table t = Ok (p, length l) /\ table_at (section_at t) sizeof_Shdr p (fst <$> l) /\
  Forall (fun '(s, ys) => symbols_at t s ys) l.

(** The symbol is a defined object or function whose range has the address. *)
Definition has_address (address : Z) (y : SymbolEntry) : bool :=
  ((Z.land (y_info y) 15 =? STT_OBJECT) || (Z.land (y_info y) 15 =? STT_FUNC)) && negb (y_shndx y =? SHN_UNDEF) &&
  (y_value y <=? address) && (address <? uint64 (y_value y + y_size y)).

(** The position of the first element with a property. *)
Fixpoint position {A} (f : A -> bool) (l : list A) : option nat :=
  match l with [] => None | x :: l => if f x then Some O else S <$> position f l end.

(** The first section, and in it the first symbol, with a property. *)
Fixpoint first_symbol (f : SymbolEntry -> bool) (l : list (SectionHeader * list SymbolEntry)) : option (nat * nat) :=
  match l with
  | [] => None
  | (_, ys) :: l =>
      match position f ys with
      | Some j => Some (O, j)
      | None => prod_map S id <$> first_symbol f l
      end
  end.

Definition definition_of (address : Z) := first_symbol (has_address address).

Lemma defines_address_at t address p y : symbol_at t p y -> defines_address t address p = Ok (has_address address y).
Proof.
  intros (H1 & H2 & H3 & H4 & H5). unfold defines_address, has_address. rewrite H2. rstep.
  destruct (_ || _); [|done]. rewrite H3. rstep. destruct (negb (y_shndx y =? SHN_UNDEF)); [|done].
  rewrite H4. rstep. destruct (y_value y <=? address); [|done]. rewrite H5. done.
Qed.

Lemma find_symbol_position (matches : Z -> res bool) (f : SymbolEntry -> bool) t ys : forall p,
  (forall p y, symbol_at t p y -> matches p = Ok (f y)) -> table_at (symbol_at t) sizeof_Sym p ys ->
  find_symbol matches (length ys) p = Ok ((fun j => p + sizeof_Sym * Z.of_nat j) <$> position f ys).
Proof.
  induction ys as [|y ys IH]; intros p Hm Ht; [done|]. destruct Ht as [Hy Ht]. cbn [length find_symbol position].
  rewrite (Hm p y Hy). rstep. destruct (f y); [cbn; do 2 f_equal; unfold sizeof_Sym; lia|].
  rewrite IH by done. destruct (position f ys) as [j|]; [|done]. cbn [fmap option_fmap option_map].
  do 2 f_equal. unfold sizeof_Sym. lia.
Qed.

(** The pointers to the [i]th section and to its [j]th symbol. *)
Definition symbol_pointers (p : Z) (l : list (SectionHeader * list SymbolEntry)) (ij : nat * nat) : Symbol :=
  '(s, _) ← l !! fst ij; Some (p + sizeof_Shdr * Z.of_nat (fst ij), s_offset s + sizeof_Sym * Z.of_nat (snd ij)).

Lemma symbol_pointers_S p x l ij :
  symbol_pointers p (x :: l) (prod_map S id ij) = symbol_pointers (p + sizeof_Shdr) l ij.
Proof.
  destruct ij as [i j]. unfold symbol_pointers. cbn [fst snd prod_map id lookup list_lookup].
  change ((x :: l) !! S i) with (l !! i). destruct (l !! i) as [[s ys]|]; [|done]. cbn. do 2 f_equal.
  unfold sizeof_Shdr. lia.
Qed.

Lemma is_symbol_section_at t p s : section_at t p s -> is_symbol_section t p = Ok (holds_symbols s).
Proof.
  intros ([x Hx] & _ & Hty & _). unfold is_symbol_section. destruct (load t p sizeof_Shdr); [|done]. rstep.
  by rewrite Hty.
Qed.

(** A search for symbols with a property in the sections that hold symbols. *)
Lemma search_sections_image t f matches l : forall p,
  (forall sec q y, symbol_at t q y -> matches sec q = Ok (f y)) ->
  table_at (section_at t) sizeof_Shdr p (fst <$> l) -> Forall (fun '(s, ys) => symbols_at t s ys) l ->
  search_sections t (is_symbol_section t) matches (length l) p =
    Ok (first_symbol f l ≫= symbol_pointers p l).
Proof.
  induction l as [|[s ys] l IH]; intros p Hm Ht Hl; [done|].
  destruct Ht as [Hsec Ht]. inversion_clear Hl as [|? ? Hs Hl'].
  cbn [length search_sections first_symbol]. rewrite (is_symbol_section_at t p s) by done. rstep.
  destruct Hsec as (_ & _ & _ & _ & Ho & Hsz & _ & Hes).
  unfold symbols_at in Hs. destruct (holds_symbols s) eqn:Eh.
  - destruct Hs as (Hin & Hent & Hk & Hy). rewrite Ho. rstep. unfold At. rewrite (proj2 (Z.leb_le _ _)) by done. rstep.
    unfold symbol_count. rewrite Hsz, Hes. rstep. rewrite (proj2 (Z.eqb_neq (s_entsize s) 0)) by done. rstep.
    rewrite Hk, (find_symbol_position _ f t ys) by eauto.
    destruct (position f ys) as [j|]; cbn [fmap option_fmap option_map].
    + rstep. unfold symbol_pointers. cbn. do 3 f_equal. unfold sizeof_Shdr. lia.
    + rstep. rewrite IH by done. f_equal.
      destruct (first_symbol f l) as [ij|]; [|done].
      cbn [fmap option_fmap option_map mbind option_bind]. by rewrite symbol_pointers_S.
  - subst ys. cbn [position]. rewrite IH by done. f_equal.
    destruct (first_symbol f l) as [ij|]; [|done].
    cbn [fmap option_fmap option_map mbind option_bind]. by rewrite symbol_pointers_S.
Qed.

Lemma definition_found t p l address : image t p l ->
  GetDefinitionByAddress t address = Ok (definition_of address l ≫= symbol_pointers p l).
Proof.
  intros (Hp & Ht & Hl). unfold GetDefinitionByAddress. rewrite Hp. rstep.
  exact (search_sections_image t (has_address address) _ l p (fun _ q y => defines_address_at t address q y) Ht Hl).
Qed.

(** Looking a symbol up by address returns exactly the first defined object or
    function whose range contains the address, in the order of the section headers
    and of the symbol tables they describe, and no symbol if there is none. *)
Theorem GetDefinitionByAddress_first t p l address : image t p l ->
  GetDefinitionByAddress t address = Ok (definition_of address l ≫= symbol_pointers p l).
Proof. apply definition_found. Qed.

(** Symbols are looked up by name in SHT_DYNSYM tables alone: a table of type
    SHT_SYMTAB is skipped, because the condition compares with SHT_DYNSYM twice. *)
Theorem GetSymbolByName_dynamic_only t name section sym :
  GetSymbolByName t name = Ok (Some (section, sym)) ->
  sh_type t section = Ok SHT_DYNSYM /\ exists link, sh_link t section = Ok link /\ link <> SHN_UNDEF.
Proof.
  unfold GetSymbolByName. destruct (section_table t) as [[p n]|]; [|done]. rstep. revert p.
  induction n as [|n IH]; intros p; [done|]. cbn [search_sections].
  destruct (is_named_section t p) as [[|]|] eqn:E; [|apply IH|done]. rstep.
  intros H. res_inv. destruct a2 as [s|]; [|by eapply IH]. injection H as <- <-.
  unfold is_named_section in E. res_inv. destruct (a2 =? SHN_UNDEF) eqn:El; [done|]. zify_bool. res_inv.
  rewrite andb_diag, negb_involutive in E. zify_bool. subst. eauto.
Qed.

(** ** Sections by name *)

(** A string table: NUL-terminated strings, one after the other. *)
Definition encode_strings (ns : list bytes) : bytes := concat ((fun n => n ++ [0]) <$> ns).

(** The offset of the first string equal to the name. *)
Fixpoint string_offset (name : bytes) (ns : list bytes) : option Z :=
  match ns with
  | [] => None
  | n :: ns => if bool_decide (n = name) then Some 0 else (fun o => Zlen n + 1 + o) <$> string_offset name ns
  end.

Definition no_nul (b : bytes) : Prop := Forall (fun c => c <> 0) b.

Lemma strlen_at_app b rest : no_nul b -> strlen_at (b ++ 0 :: rest) = Ok (Zlen b).
Proof.
  induction 1 as [|c b Hc _ IH]; [done|]. cbn [app strlen_at]. rewrite (proj2 (Z.eqb_neq c 0)) by done.
  rewrite IH. rstep. by rewrite Zlen_cons.
Qed.

Lemma streq_app name : forall b rest, no_nul name -> no_nul b -> streq name (b ++ 0 :: rest) = Ok (bool_decide (b = name)).
Proof.
  induction name as [|x name IH]; intros [|c b] rest Hn Hb; cbn [app streq].
  - by rewrite bool_decide_eq_true_2.
  - inversion_clear Hb. rewrite (proj2 (Z.eqb_neq c 0)) by done. by rewrite bool_decide_eq_false_2.
  - inversion_clear Hn. rewrite (proj2 (Z.eqb_neq x 0)) by done. by rewrite bool_decide_eq_false_2.
  - inversion_clear Hn. inversion_clear Hb. destruct (x =? c) eqn:E; zify_bool.
    + subst. rewrite IH by done. f_equal. apply bool_decide_ext. split; [by intros ->|by intros [= ->]].
    + rewrite bool_decide_eq_false_2; [done|]. by intros [= ->].
Qed.

Lemma encode_strings_cons n ns : encode_strings (n :: ns) = n ++ 0 :: encode_strings ns.
Proof. unfold encode_strings. cbn [fmap list_fmap concat]. by rewrite <- app_assoc. Qed.

Lemma find_name_strings name ns : forall fuel rest off size, no_nul name -> Forall no_nul ns ->
  size = off + Zlen (encode_strings ns) -> (length (encode_strings ns) < fuel)%nat ->
  find_name fuel name (encode_strings ns ++ rest) off size = Ok ((fun o => off + o) <$> string_offset name ns).
Proof.
  induction ns as [|n ns IH]; intros fuel rest off size Hn Hns -> Hf; (destruct fuel as [|fuel]; [lia|]); cbn [find_name].
  - change (Zlen (encode_strings [])) with 0. by rewrite Z.add_0_r, Z.eqb_refl.
  - inversion_clear Hns as [|? ? Hb Hns']. rewrite encode_strings_cons in *. rewrite Zlen_app, Zlen_cons.
    rewrite length_app in Hf. cbn [length] in Hf.
    pose proof (Zlen_nonneg n). pose proof (Zlen_nonneg (encode_strings ns)).
    rewrite (proj2 (Z.eqb_neq off _)) by lia. rewrite <- app_assoc. cbn [app].
    rewrite streq_app by done. rstep. cbn [string_offset]. case_bool_decide; [cbn; by rewrite Z.add_0_r|].
    rewrite strlen_at_app by done. rstep.
    assert (plus (n ++ 0 :: encode_strings ns ++ rest) (Zlen n + 1) = encode_strings ns ++ rest) as ->.
    { change (n ++ 0 :: encode_strings ns ++ rest) with (n ++ [0] ++ (encode_strings ns ++ rest)).
      rewrite app_assoc. apply plus_app. by rewrite Zlen_app. }
    rewrite IH by first [done|lia]. destruct (string_offset name ns) as [o|]; [|done]. cbn. do 2 f_equal. lia.
Qed.

Lemma find_section_named_table t offset l : forall p, table_at (section_at t) sizeof_Shdr p l ->
  find_section_named t (length l) p offset =
    Ok ((fun i => p + sizeof_Shdr * Z.of_nat i) <$> position (fun s => s_name s =? offset) l).
Proof.
  induction l as [|s l IH]; intros p Ht; [done|]. destruct Ht as [(_ & Hn & _) Ht].
  cbn [length find_section_named position]. rewrite Hn. rstep.
  destruct (s_name s =? offset); [cbn; do 2 f_equal; unfold sizeof_Shdr; lia|]. rewrite IH by done.
  destruct (position _ l) as [i|]; [|done]. cbn. do 2 f_equal. unfold sizeof_Shdr. lia.
Qed.

(** The section names are the strings [ns] of the section [names]. *)
Definition names_at (t : ElfFile) (p : Z) (l : list SectionHeader) (ns : list bytes) : Prop :=
  section_table t = Ok (p, length l) /\ table_at (section_at t) sizeof_Shdr p l /\
  exists ndx sec s rest, e_shstrndx t = Ok ndx /\ ndx <> SHN_UNDEF /\ GetSectionByIndex t ndx = Ok sec /\
    section_at t sec s /\ ValidateStringTable t sec = Ok tt /\
    at_offset t (s_offset s) = Ok (encode_strings ns ++ rest) /\ s_size s = Zlen (encode_strings ns) /\
    Forall no_nul ns.

(** A section is found by name through the first string of the name table that
    equals the name: the result is the first section header whose name is at that
    string's offset, and nothing if no string equals the name. In particular a
    section whose name is stored as the end of another string is not found. *)
Theorem GetSectionByName_strings t p l ns name : names_at t p l ns -> no_nul name ->
  GetSectionByName t name = Ok
    (offset ← string_offset name ns;
     (fun i => p + sizeof_Shdr * Z.of_nat i) <$> position (fun s => s_name s =? offset) l).
Proof.
  intros (Hp & Ht & ndx & sec & s & rest & Hx & Hx0 & Hsec & (_ & _ & _ & _ & Ho & Hs & _) & Hv & Hat & Hsz & Hns) Hn.
  unfold GetSectionByName. rewrite Hx. rstep. rewrite (proj2 (Z.eqb_neq ndx _)) by done. rewrite Hsec. rstep.
  rewrite Hv. rstep. rewrite Ho, Hs. rstep. rewrite Hat. rstep.
  rewrite (find_name_strings name ns) by first [done|rewrite length_app; lia].
  destruct (string_offset name ns) as [o|]; [|done]. cbn [fmap option_fmap option_map]. rstep.
  rewrite Hp. rstep. rewrite Z.add_0_l. by apply find_section_named_table.
Qed.

(** A valid file is accepted with the load address of its first PT_LOAD header. *)
Theorem Init_base_address t t' : Init t = Ok t' ->
  exists a i p, t' = mkElfFile (fd_ t) (file_ t) (length_ t) a /\
    e_phoff t = Ok p /\ p_type t (p + sizeof_Phdr * Z.of_nat i) = Ok PT_LOAD /\
    p_vaddr t (p + sizeof_Phdr * Z.of_nat i) = Ok a /\
    forall j, (j < i)%nat -> exists ty, p_type t (p + sizeof_Phdr * Z.of_nat j) = Ok ty /\ ty <> PT_LOAD.
Proof.
  assert (Hb : forall n p a, find_base t n p = Ok (Some a) -> exists i,
    p_type t (p + sizeof_Phdr * Z.of_nat i) = Ok PT_LOAD /\ p_vaddr t (p + sizeof_Phdr * Z.of_nat i) = Ok a /\
    forall j, (j < i)%nat -> exists ty, p_type t (p + sizeof_Phdr * Z.of_nat j) = Ok ty /\ ty <> PT_LOAD).
  { induction n as [|n IH]; intros p a H; [done|]. cbn [find_base] in H. res_inv.
    destruct (a0 =? PT_LOAD) eqn:El; zify_bool; res_inv.
    - exists O. rewrite Z.mul_0_r, Z.add_0_r. subst. split_and!; [done..|]. intros j Hj. lia.
    - destruct (IH _ _ H) as (i & H1 & H2 & H3). exists (S i).
      replace (p + sizeof_Phdr * Z.of_nat (S i)) with (p + sizeof_Phdr + sizeof_Phdr * Z.of_nat i) by (unfold sizeof_Phdr; lia).
      split_and!; [done..|]. intros [|j] Hj; [rewrite Z.mul_0_r, Z.add_0_r; eauto|].
      replace (p + sizeof_Phdr * Z.of_nat (S j)) with (p + sizeof_Phdr + sizeof_Phdr * Z.of_nat j) by (unfold sizeof_Phdr; lia).
      apply H3. lia. }
  unfold Init. intros H. res_inv. unfold At in *. res_inv.
  match goal with Hf : find_base _ _ _ = Ok ?b |- _ => destruct b as [a'|]; [|done]; apply Hb in Hf; destruct Hf as (i & ? & ? & ?) end.
  res_inv. eauto 10.
Qed.

(** ** A file *)

Definition ehdr_bytes (type phoff shoff phnum shnum shstrndx : Z) : bytes :=
  [127; 69; 76; 70; 2; 1; 1; 0; 0; 0; 0; 0; 0; 0; 0; 0] ++ le_bytes 2 type ++ le_bytes 2 62 ++ le_bytes 4 1 ++
  le_bytes 8 4096 ++ le_bytes 8 phoff ++ le_bytes 8 shoff ++ le_bytes 4 0 ++ le_bytes 2 64 ++ le_bytes 2 56 ++
  le_bytes 2 phnum ++ le_bytes 2 64 ++ le_bytes 2 shnum ++ le_bytes 2 shstrndx.

Definition phdr_bytes (type vaddr : Z) : bytes :=
  le_bytes 4 type ++ le_bytes 4 5 ++ le_bytes 8 0 ++ le_bytes 8 vaddr ++ replicate 32 0.

Definition shdr_bytes (s : SectionHeader) : bytes :=
  le_bytes 4 (s_name s) ++ le_bytes 4 (s_type s) ++ le_bytes 8 0 ++ le_bytes 8 (s_addr s) ++ le_bytes 8 (s_offset s) ++
  le_bytes 8 (s_size s) ++ le_bytes 4 (s_link s) ++ le_bytes 4 0 ++ le_bytes 8 1 ++ le_bytes 8 (s_entsize s).

Definition sym_bytes (y : SymbolEntry) : bytes :=
  le_bytes 4 (y_name y) ++ [y_info y; 0] ++ le_bytes 2 (y_shndx y) ++ le_bytes 8 (y_value y) ++ le_bytes 8 (y_size y).

Definition demo_names : list bytes := [[]; str ".shstrtab"; str ".symtab"; str ".rela.text"; str "main"].

Definition demo_symbols : list SymbolEntry :=
  [mkSymbolEntry 0 0 0 0 0; mkSymbolEntry 30 18 3 4096 32; mkSymbolEntry 0 17 3 4128 8].

(** The name of the last section is stored as the end of ".rela.text". *)
Definition demo_sections : list SectionHeader :=
  [mkSectionHeader 0 0 0 0 0 0 0; mkSectionHeader 1 3 0 176 35 0 0; mkSectionHeader 11 2 0 216 72 1 24;
   mkSectionHeader 24 1 4096 288 64 0 0].

Definition demo_file : bytes :=
  ehdr_bytes 2 64 352 2 4 1 ++ phdr_bytes 6 64 ++ phdr_bytes 1 4096 ++ encode_strings demo_names ++ replicate 5 0 ++
  concat (sym_bytes <$> demo_symbols) ++ replicate 64 144 ++ concat (shdr_bytes <$> demo_sections).

Definition demo_elf : ElfFile := mkElfFile 3 (Some demo_file) (Zlen demo_file) 4096.

Example demo_opens : ElfFile_new 3 (Some demo_file) = Ok demo_elf.
Proof. vm_compute. reflexivity. Qed.

Definition demo_image : list (SectionHeader * list SymbolEntry) :=
  [(mkSectionHeader 0 0 0 0 0 0 0, []); (mkSectionHeader 1 3 0 176 35 0 0, []);
   (mkSectionHeader 11 2 0 216 72 1 24, demo_symbols); (mkSectionHeader 24 1 4096 288 64 0 0, [])].

Lemma demo_sections_at : table_at (section_at demo_elf) sizeof_Shdr 352 demo_sections.
Proof. repeat (split; [split; [eexists; vm_compute; reflexivity|vm_compute; repeat split; reflexivity]|]). exact I. Defined.

Lemma demo_image_at : image demo_elf 352 demo_image.
Proof.
  split; [vm_compute; reflexivity|]. split; [exact demo_sections_at|].
  repeat constructor; try (vm_compute; discriminate); vm_compute; repeat split; reflexivity.
Defined.

Lemma GetDefinitionByAddress_first_witness : image demo_elf 352 demo_image /\
  GetDefinitionByAddress demo_elf 4130 = Ok (Some (352 + 128, 216 + 48)).
Proof. split; [exact demo_image_at|]. exact (GetDefinitionByAddress_first demo_elf 352 demo_image 4130 demo_image_at). Defined.

Lemma GetSectionByName_strings_witness : exists s, demo_sections !! 3%nat = Some s /\
  GetSectionName demo_elf (352 + 192) = Ok (Some (drop 200 demo_file)) /\ take 6 (drop 200 demo_file) = str ".text" ++ [0] /\
  GetSectionByName demo_elf (str ".text") = Ok None.
Proof.
  eexists. split; [reflexivity|]. split; [vm_compute; reflexivity|]. split; [vm_compute; reflexivity|].
  refine (GetSectionByName_strings demo_elf 352 demo_sections demo_names (str ".text") _ _).
  - split; [vm_compute; reflexivity|]. split; [exact demo_sections_at|].
    exists 1, 416, (mkSectionHeader 1 3 0 176 35 0 0), (drop 211 demo_file).
    split; [vm_compute; reflexivity|]. split; [discriminate|]. split; [vm_compute; reflexivity|].
    split; [apply demo_sections_at|]. split; [vm_compute; reflexivity|]. split; [vm_compute; reflexivity|].
    split; [vm_compute; reflexivity|]. repeat constructor; discriminate.
  - repeat constructor; discriminate.
Defined.

Example section_found : GetSectionByName demo_elf (str ".symtab") = Ok (Some (352 + 128)).
Proof. vm_compute. reflexivity. Qed.

(** main is in the symbol table, and is found by address but not by name. *)
Example main_by_address : GetDefinitionByAddress demo_elf 4100 = Ok (Some (480, 240)).
Proof. vm_compute. reflexivity. Qed.
Example main_by_name : GetSymbolByName demo_elf (str "main") = Ok None.
Proof. vm_compute. reflexivity. Qed.

(** The same file with a dynamic symbol table. *)
Definition demo_dynamic : ElfFile :=
  let file := take 484 demo_file ++ le_bytes 4 SHT_DYNSYM ++ drop 488 demo_file in mkElfFile 3 (Some file) (Zlen file) 4096.

Lemma GetSymbolByName_dynamic_only_witness :
  GetSymbolByName demo_dynamic (str "main") = Ok (Some (480, 240)) /\
  sh_type demo_dynamic 480 = Ok SHT_DYNSYM /\ exists link, sh_link demo_dynamic 480 = Ok link /\ link <> SHN_UNDEF.
Proof.
  assert (GetSymbolByName demo_dynamic (str "main") = Ok (Some (480, 240))) as H by (vm_compute; reflexivity).
  split; [exact H|]. exact (GetSymbolByName_dynamic_only demo_dynamic (str "main") 480 240 H).
Defined.

Lemma Init_base_address_witness : exists a i p, demo_elf = mkElfFile 3 (Some demo_file) (Zlen demo_file) a /\
  e_phoff demo_elf = Ok p /\ p_type demo_elf (p + sizeof_Phdr * Z.of_nat i) = Ok PT_LOAD /\
  p_vaddr demo_elf (p + sizeof_Phdr * Z.of_nat i) = Ok a /\
  forall j, (j < i)%nat -> exists ty, p_type demo_elf (p + sizeof_Phdr * Z.of_nat j) = Ok ty /\ ty <> PT_LOAD.
Proof. apply (Init_base_address demo_elf demo_elf). vm_compute. reflexivity. Defined.
