(* ===== verification/Dwarf.v ===== *)
(** * symbolizer/Dwarf: from an address to a file and a line

    Abbreviations, attribute values and Dwarf::FindAddress of
    claire/common/symbolizer/Dwarf.{h,cc}, on top of the readers, the line number
    machine and the ELF file. *)

From S2P Require Import Prelude Bytes Elf StringPiece DwarfReader LineNumberVM.
Open Scope Z_scope.

(** ** The parser and its sections *)

(** [elf_] tells whether there is a file to read. *)
(* @src claire/common/symbolizer/Dwarf.h:277-281 Dwarf *)
Record Dwarf := mkDwarf {
  elf_ : bool; info_ : StringPiece; abbrev_ : StringPiece; aranges_ : StringPiece; line_ : StringPiece;
  strings_ : StringPiece }.

(* @src claire/common/symbolizer/Dwarf.cc:279-289 Dwarf::GetSection *)
Definition GetSection (elf : ElfFile) (name : bytes) : res (option StringPiece) :=
  elf_section ← GetSectionByName elf name;
  match elf_section with
  | None => Ok None
  | Some s => body ← GetSectionBody elf s; Ok (Some body)
  end.

(** The sections in the order in which they are asked for: the first one that is
    missing ends the initialisation. *)
(* @src claire/common/symbolizer/Dwarf.cc:291-304 Dwarf::Init *)
Definition Dwarf_Init (elf : ElfFile) : res Dwarf :=
  let null := Piece [] 0 in
  info ← GetSection elf (str ".debug_info");
  match info with None => Ok (mkDwarf false null null null null null) | Some info =>
  abbrev ← GetSection elf (str ".debug_abbrev");
  match abbrev with None => Ok (mkDwarf false info null null null null) | Some abbrev =>
  aranges ← GetSection elf (str ".debug_aranges");
  match aranges with None => Ok (mkDwarf false info abbrev null null null) | Some aranges =>
  line ← GetSection elf (str ".debug_line");
  match line with None => Ok (mkDwarf false info abbrev aranges null null) | Some line =>
  strings ← GetSection elf (str ".debug_str");
  match strings with None => Ok (mkDwarf false info abbrev aranges line null) | Some strings =>
  again ← GetSection elf (str ".debug_str");
  Ok (mkDwarf true info abbrev aranges line (default strings again))
  end end end end end.

(* @src claire/common/symbolizer/Dwarf.cc:139-143 Dwarf::Dwarf *)
Definition Dwarf_new (elf : ElfFile) : res Dwarf := Dwarf_Init elf.

(** ** Constants of the standard, as in <dwarf.h> *)
Definition DW_CHILDREN_no := 0.
Definition DW_TAG_compile_unit := 17.
Definition DW_AT_name := 3.
Definition DW_AT_stmt_list := 16.
Definition DW_AT_comp_dir := 27.
Definition DW_FORM_addr := 1.
Definition DW_FORM_block2 := 3.
Definition DW_FORM_block4 := 4.
Definition DW_FORM_data2 := 5.
Definition DW_FORM_data4 := 6.
Definition DW_FORM_data8 := 7.
Definition DW_FORM_string := 8.
Definition DW_FORM_block := 9.
Definition DW_FORM_block1 := 10.
Definition DW_FORM_data1 := 11.
Definition DW_FORM_flag := 12.
Definition DW_FORM_sdata := 13.
Definition DW_FORM_strp := 14.
Definition DW_FORM_udata := 15.
Definition DW_FORM_ref_addr := 16.
Definition DW_FORM_ref1 := 17.
Definition DW_FORM_ref2 := 18.
Definition DW_FORM_ref4 := 19.
Definition DW_FORM_ref8 := 20.
Definition DW_FORM_ref_udata := 21.
Definition DW_FORM_indirect := 22.
Definition DW_FORM_sec_offset := 23.
Definition DW_FORM_exprloc := 24.
Definition DW_FORM_flag_present := 25.

(** ** Abbreviations *)

(* @src claire/common/symbolizer/Dwarf.h:164-168 Attribute *)
Record Attribute := mkAttribute { attr_name : Z; attr_form : Z }.

(* @src claire/common/symbolizer/Dwarf.h:158-171 DIEAbbreviation *)
Record DIEAbbreviation := mkDIEAbbreviation { code : Z; tag : Z; has_children : bool; attributes : StringPiece }.

(* @src claire/common/symbolizer/Dwarf.cc:337-340 Dwarf::ReadAttribute *)
Definition ReadAttribute (s : StringPiece) : res (Attribute * StringPiece) :=
  '(name, s) ← ReadULEB s;
  '(form, s) ← ReadULEB s;
  Ok (mkAttribute name form, s).

Definition is_end (a : Attribute) : bool := (attr_name a =? 0) && (attr_form a =? 0).

(** Every pass reads two characters. *)
(* @src claire/common/symbolizer/Dwarf.cc:323-331 Dwarf::ReadAbbreviation *)
Fixpoint skip_attributes (fuel : nat) (section : StringPiece) : res StringPiece :=
  match fuel with
  | O => Err NoFuel
  | S fuel =>
      _ ← check (negb (empty section));
      '(attr, section) ← ReadAttribute section;
      if is_end attr then Ok section else skip_attributes fuel section
  end.

(** [None] at the end of the abbreviations. *)
(* @src claire/common/symbolizer/Dwarf.cc:306-335 Dwarf::ReadAbbreviation *)
Definition ReadAbbreviation (section : StringPiece) : res (option DIEAbbreviation * StringPiece) :=
  '(code, section) ← ReadULEB section;
  if code =? 0 then Ok (None, section)
  else
    '(tag, section) ← ReadULEB section;
    '(children, section) ← Read 1 section;
    let attribute_begin := ptr_ section in
    section ← skip_attributes (S (left_ section)) section;
    Ok (Some (mkDIEAbbreviation code tag (negb (children =? DW_CHILDREN_no)) (assign attribute_begin (ptr_ section))),
        section).

(* @src claire/common/symbolizer/Dwarf.cc:348-357 Dwarf::GetAbbreviation *)
Fixpoint find_abbreviation (fuel : nat) (wanted : Z) (section : StringPiece) : res DIEAbbreviation :=
  match fuel with
  | O => Err NoFuel
  | S fuel =>
      '(abbr, section) ← ReadAbbreviation section;
      match abbr with
      | None => Err CheckFailed
      | Some abbr => if code abbr =? wanted then Ok abbr else find_abbreviation fuel wanted section
      end
  end.

(* @src claire/common/symbolizer/Dwarf.cc:342-358 Dwarf::GetAbbreviation *)
Definition GetAbbreviation (t : Dwarf) (wanted offset : Z) : res DIEAbbreviation :=
  section ← advance offset (abbrev_ t);
  find_abbreviation (S (left_ section)) wanted section.

(** ** Attribute values *)

(* @src claire/common/symbolizer/Dwarf.h:266-266 AttributeValue *)
Inductive AttributeValue := Number (n : Z) | Text (s : StringPiece).

(** boost::get on a variant. *)
Definition get_number (v : AttributeValue) : res Z := match v with Number n => Ok n | Text _ => Err BadGet end.
Definition get_text (v : AttributeValue) : res StringPiece := match v with Text s => Ok s | Number _ => Err BadGet end.

(* @src claire/common/symbolizer/Dwarf.cc:410-416 Dwarf::GetStringFromStringSection *)
Definition GetStringFromStringSection (t : Dwarf) (offset : Z) : res StringPiece :=
  _ ← check (offset <? size (strings_ t));
  s ← advance offset (strings_ t);
  '(r, _) ← ReadNullTerminated s;
  Ok r.

(** A value with what is left to read. *)
Definition number (r : res (Z * StringPiece)) : res (AttributeValue * StringPiece) :=
  '(n, s) ← r; Ok (Number n, s).
Definition text (r : res (StringPiece * StringPiece)) : res (AttributeValue * StringPiece) :=
  '(b, s) ← r; Ok (Text b, s).
Definition block (r : res (Z * StringPiece)) : res (AttributeValue * StringPiece) :=
  '(len, s) ← r; text (ReadBytes s len).

Definition any_of (form : Z) (l : list Z) : bool := existsb (fun f => form =? f) l.

(** An indirect form is read from the input, so what is left bounds the recursion. *)
(* @src claire/common/symbolizer/Dwarf.cc:360-408 Dwarf::ReadAttributeValue *)
Fixpoint ReadAttributeValue_loop (fuel : nat) (t : Dwarf) (s : StringPiece) (form : Z) (is_64_bits : bool) :
    res (AttributeValue * StringPiece) :=
  match fuel with
  | O => Err NoFuel
  | S fuel =>
      if form =? DW_FORM_addr then number (Read 8 s)
      else if form =? DW_FORM_block1 then block (Read 1 s)
      else if form =? DW_FORM_block2 then block (Read 2 s)
      else if form =? DW_FORM_block4 then block (Read 4 s)
      else if any_of form [DW_FORM_block; DW_FORM_exprloc] then block (ReadULEB s)
      else if any_of form [DW_FORM_data1; DW_FORM_ref1] then number (Read 1 s)
      else if any_of form [DW_FORM_data2; DW_FORM_ref2] then number (Read 2 s)
      else if any_of form [DW_FORM_data4; DW_FORM_ref4] then number (Read 4 s)
      else if any_of form [DW_FORM_data8; DW_FORM_ref8] then number (Read 8 s)
      else if form =? DW_FORM_sdata then '(n, s) ← ReadSLEB s; Ok (Number (uint64 n), s)
      else if any_of form [DW_FORM_udata; DW_FORM_ref_udata] then number (ReadULEB s)
      else if form =? DW_FORM_flag then number (Read 1 s)
      else if form =? DW_FORM_flag_present then Ok (Number 1, s)
      else if any_of form [DW_FORM_sec_offset; DW_FORM_ref_addr] then number (ReadOffset s is_64_bits)
      else if form =? DW_FORM_string then text (ReadNullTerminated s)
      else if form =? DW_FORM_strp then
        '(offset, s) ← ReadOffset s is_64_bits;
        v ← GetStringFromStringSection t offset;
        Ok (Text v, s)
      else if form =? DW_FORM_indirect then
        '(form, s) ← ReadULEB s; ReadAttributeValue_loop fuel t s form is_64_bits
      else Err CheckFailed
  end.

(* @src claire/common/symbolizer/Dwarf.cc:360-408 Dwarf::ReadAttributeValue *)
Definition ReadAttributeValue (t : Dwarf) (s : StringPiece) (form : Z) (is_64_bits : bool) :
    res (AttributeValue * StringPiece) :=
  ReadAttributeValue_loop (S (left_ s)) t s form is_64_bits.

(** ** Finding an address *)

(* @src claire/common/symbolizer/Dwarf.h:110-124 LocationInfo *)
Record LocationInfo := mkLocationInfo {
  has_main_file : bool; main_file : Path.Path; has_file_and_line : bool; file : Path.Path; line : Z }.

(* @src claire/common/symbolizer/Dwarf.h:112-115 LocationInfo::LocationInfo *)
Definition LocationInfo_new : LocationInfo := mkLocationInfo false Path.Path_empty false Path.Path_empty 0.

(** The ranges of one set, to the one that starts at zero. *)
(* @src claire/common/symbolizer/Dwarf.cc:448-464 Dwarf::FindAddress *)
Fixpoint in_ranges (fuel : nat) (chunk : StringPiece) (address : Z) : res bool :=
  match fuel with
  | O => Err NoFuel
  | S fuel =>
      '(start, chunk) ← Read 8 chunk;
      '(length, chunk) ← Read 8 chunk;
      if start =? 0 then Ok false
      else if (start <=? address) && (address <? uint64 (start + length)) then Ok true
      else in_ranges fuel chunk address
  end.

(** One set of address ranges: the offset of its compilation unit, and whether it
    has the address. *)
(* @src claire/common/symbolizer/Dwarf.cc:435-464 Dwarf::FindAddress *)
Definition read_set (t : Dwarf) (is_64_bits : bool) (chunk : StringPiece) (address : Z) : res (Z * bool) :=
  '(version, chunk) ← Read 2 chunk;
  _ ← check (version =? 2);
  '(debug_info_offset, chunk) ← ReadOffset chunk is_64_bits;
  '(address_size, chunk) ← Read 1 chunk;
  _ ← check (address_size =? 8);
  '(segment_size, chunk) ← Read 1 chunk;
  _ ← check (segment_size =? 0);
  chunk ← SkipPadding chunk (ptr_ (aranges_ t)) 16;
  found ← in_ranges (S (left_ chunk)) chunk address;
  Ok (debug_info_offset, found).

(** The offset of the compilation unit of an address. *)
(* @src claire/common/symbolizer/Dwarf.cc:433-465 Dwarf::FindAddress *)
Fixpoint find_unit (fuel : nat) (t : Dwarf) (section : Section_.Section_) (address : Z) : res (option Z) :=
  match fuel with
  | O => Err NoFuel
  | S fuel =>
      '(chunk, section) ← Section_.Next section;
      match chunk with
      | None => Ok None
      | Some chunk =>
          '(debug_info_offset, found) ← read_set t (Section_.is_64_bits_ section) chunk address;
          if found : bool then Ok (Some debug_info_offset) else find_unit fuel t section address
      end
  end.

(** The attributes FindAddress cares about. *)
Record unit_attributes := mkUnitAttributes {
  found_line_offset : bool; line_offset : Z; compilation_directory : StringPiece; main_file_name : StringPiece }.

(* @src claire/common/symbolizer/Dwarf.cc:509-525 Dwarf::FindAddress *)
Definition take_attribute (a : unit_attributes) (name : Z) (val : AttributeValue) : res unit_attributes :=
  if name =? DW_AT_stmt_list then
    n ← get_number val; Ok (mkUnitAttributes true n (compilation_directory a) (main_file_name a))
  else if name =? DW_AT_comp_dir then
    s ← get_text val; Ok (mkUnitAttributes (found_line_offset a) (line_offset a) s (main_file_name a))
  else if name =? DW_AT_name then
    s ← get_text val; Ok (mkUnitAttributes (found_line_offset a) (line_offset a) (compilation_directory a) s)
  else Ok a.

(* @src claire/common/symbolizer/Dwarf.cc:500-526 Dwarf::FindAddress *)
Fixpoint read_attributes (fuel : nat) (t : Dwarf) (is_64_bits : bool) (attributes chunk : StringPiece)
    (a : unit_attributes) : res unit_attributes :=
  match fuel with
  | O => Err NoFuel
  | S fuel =>
      '(attr, attributes) ← ReadAttribute attributes;
      if is_end attr then Ok a
      else
        '(val, chunk) ← ReadAttributeValue t chunk (attr_form attr) is_64_bits;
        a ← take_attribute a (attr_name attr) val;
        read_attributes fuel t is_64_bits attributes chunk a
  end.

(** The attributes of the compilation unit at an offset. *)
(* @src claire/common/symbolizer/Dwarf.cc:472-526 Dwarf::FindAddress *)
Definition read_unit (t : Dwarf) (debug_info_offset : Z) : res unit_attributes :=
  s ← advance debug_info_offset (info_ t);
  '(chunk, section) ← Section_.Next (Section_.Section_new s);
  match chunk with
  | None => Err CheckFailed
  | Some chunk =>
      let is_64_bits := Section_.is_64_bits_ section in
      '(version, chunk) ← Read 2 chunk;
      _ ← check ((2 <=? version) && (version <=? 4));
      '(abbrev_offset, chunk) ← ReadOffset chunk is_64_bits;
      '(address_size, chunk) ← Read 1 chunk;
      _ ← check (address_size =? 8);
      '(wanted, chunk) ← ReadULEB chunk;
      _ ← check (negb (wanted =? 0));
      abbr ← GetAbbreviation t wanted abbrev_offset;
      _ ← check (tag abbr =? DW_TAG_compile_unit);
      read_attributes (S (left_ (attributes abbr))) t is_64_bits (attributes abbr) chunk
        (mkUnitAttributes false 0 (Piece [] 0) (Piece [] 0))
  end.

(* @src claire/common/symbolizer/Dwarf.cc:418-546 Dwarf::FindAddress *)
Definition FindAddress (t : Dwarf) (address : Z) : res (bool * LocationInfo) :=
  let location_info := LocationInfo_new in
  if negb (elf_ t) then Ok (false, location_info)
  else
    debug_info_offset ← find_unit (S (left_ (aranges_ t))) t (Section_.Section_new (aranges_ t)) address;
    match debug_info_offset with
    | None => Ok (false, location_info)
    | Some debug_info_offset =>
        a ← read_unit t debug_info_offset;
        main ← (if negb (empty (main_file_name a)) then
                  p ← Path.Path_new (compilation_directory a) (of_cstr (Some [0])) (main_file_name a); Ok (true, p)
                else Ok (false, Path.Path_empty));
        if found_line_offset a then
          line_section ← advance (line_offset a) (line_ t);
          line_vm ← LineNumberVM_new line_section (compilation_directory a);
          r ← LineNumberVM.FindAddress line_vm address;
          Ok (true, match r with
                    | Some (p, l) => mkLocationInfo (fst main) (snd main) true p l
                    | None => mkLocationInfo (fst main) (snd main) false Path.Path_empty 0
                    end)
        else Ok (true, mkLocationInfo (fst main) (snd main) false Path.Path_empty 0)
    end.

(** ** Attribute values and their encodings

    The forms the parser can read, in the 32-bit format. *)
Inductive value :=
  | VFixed (form : Z) (w : nat) (n : Z)    (** [w] bytes *)
  | VSdata (z : Z)
  | VUdata (form n : Z)
  | VPresent
  | VOffset (form n : Z)
  | VString (b : bytes)
  | VStrp (offset : Z) (b : bytes).        (** the string [b] of .debug_str *)

Definition fixed_forms : list (Z * nat) :=
  [(DW_FORM_addr, 8%nat); (DW_FORM_data1, 1%nat); (DW_FORM_ref1, 1%nat); (DW_FORM_data2, 2%nat); (DW_FORM_ref2, 2%nat);
   (DW_FORM_data4, 4%nat); (DW_FORM_ref4, 4%nat); (DW_FORM_data8, 8%nat); (DW_FORM_ref8, 8%nat); (DW_FORM_flag, 1%nat)].

Definition form_of (v : value) : Z :=
  match v with
  | VFixed form _ _ | VUdata form _ | VOffset form _ => form
  | VSdata _ => DW_FORM_sdata
  | VPresent => DW_FORM_flag_present
  | VString _ => DW_FORM_string
  | VStrp _ _ => DW_FORM_strp
  end.

Definition encode_value (v : value) : bytes :=
  match v with
  | VFixed _ w n => le_bytes w n
  | VSdata z => sleb z
  | VUdata _ n => uleb n
  | VPresent => []
  | VOffset _ n => le_bytes 4 n
  | VString b => b ++ [0]
  | VStrp offset _ => le_bytes 4 offset
  end.

(** A string of .debug_str. *)
Definition string_at (t : Dwarf) (offset : Z) (b : bytes) : Prop :=
  exists pre rest len, strings_ t = Piece (pre ++ b ++ 0 :: rest) len /\ Zlen pre = offset /\
    offset < len < 2 ^ 64 /\ Zlen b < len.

Definition value_wf (t : Dwarf) (v : value) : Prop :=
  match v with
  | VFixed form w n => (form, w) ∈ fixed_forms /\ 0 <= n < 2 ^ (8 * Z.of_nat w)
  | VSdata z => fits_s 64 z
  | VUdata form n => form ∈ [DW_FORM_udata; DW_FORM_ref_udata] /\ fits_u 64 n
  | VPresent => True
  | VOffset form n => form ∈ [DW_FORM_sec_offset; DW_FORM_ref_addr] /\ fits_u 32 n
  | VString b => Forall (fun c => c <> 0) b /\ Zlen b < 2 ^ 32
  | VStrp offset b => Forall (fun c => c <> 0) b /\ Zlen b < 2 ^ 32 /\ fits_u 32 offset /\ string_at t offset b
  end.

(** What a value is: a number or a text. *)
Definition meaning (v : value) : Z + bytes :=
  match v with
  | VFixed _ _ n | VUdata _ n | VOffset _ n => inl n
  | VSdata z => inl (uint64 z)
  | VPresent => inl 1
  | VString b | VStrp _ b => inr b
  end.

(** A piece with a text. *)
Definition holds (p : StringPiece) (b : bytes) : Prop := wf p /\ content p = b /\ length_ p < 2 ^ 32.

Definition reads_as (val : AttributeValue) (m : Z + bytes) : Prop :=
  match val, m with
  | Number n, inl k => n = k
  | Text p, inr b => holds p b
  | _, _ => False
  end.

Lemma holds_entry b tail : Zlen b < 2 ^ 32 -> holds (Piece (b ++ 0 :: tail) (Zlen b)) b.
Proof. intros Hb. split; [by apply wf_entry|]. split; [by eapply content_Piece|done]. Qed.

Lemma read_fixed t fuel form w n rest len : (form, w) ∈ fixed_forms -> 0 <= n < 2 ^ (8 * Z.of_nat w) -> Z.of_nat w < len ->
  ReadAttributeValue_loop (S fuel) t (Piece (le_bytes w n ++ rest) len) form false = Ok (Number n, Piece rest len).
Proof.
  intros Hf Hn Hl. unfold fixed_forms in Hf. cbn [ReadAttributeValue_loop].
  repeat (apply elem_of_cons in Hf as [[= -> ->]|Hf];
    [match goal with |- context [le_bytes ?k n] => change (Z.of_nat k) with ltac:(let z := eval cbv in (Z.of_nat k) in exact z) in * end;
     cbn [any_of existsb orb]; unfold number;
     match goal with |- context [Read ?k (Piece (le_bytes ?w n ++ _) _)] => rewrite (Read_le w n) by done end; done|]).
  by apply elem_of_nil in Hf.
Qed.

(** The string of an offset, from the first character after [pre]. *)
Lemma GetString_at t offset b : string_at t offset b -> Forall (fun c => c <> 0) b -> Zlen b < 2 ^ 32 -> 0 <= offset ->
  exists p, GetStringFromStringSection t offset = Ok p /\ holds p b.
Proof.
  intros (pre & rest & len & Hs & Hp & Hl & Hb) Hz H32 Ho. unfold GetStringFromStringSection, size. rewrite Hs.
  cbn [length_]. rewrite (proj2 (Z.ltb_lt _ _)) by lia. rstep. rewrite <- Hp, advance_app by lia. rstep.
  rewrite ReadNullTerminated_app by (done || lia). rstep. eexists. split; [reflexivity|]. by apply holds_entry.
Qed.

(** How much a reader shortens the piece: only strings do. *)
Definition shortened (v : value) : Z := match v with VString b => Zlen b + 1 | _ => 0 end.

(** A value in its encoding is read, and what it means is returned. *)
Lemma ReadAttributeValue_encoded t v rest len : value_wf t v -> 1 < len -> Zlen (encode_value v) < len < 2 ^ 64 ->
  exists val, ReadAttributeValue t (Piece (encode_value v ++ rest) len) (form_of v) false =
      Ok (val, Piece rest (len - shortened v)) /\ reads_as val (meaning v).
Proof.
  intros Hv H1 Hl. unfold ReadAttributeValue.
  destruct v as [form w n|z|form n| |form n|b|offset b]; cbn [encode_value form_of shortened meaning] in *; rewrite ?Z.sub_0_r.
  - destruct Hv as [Hf Hn]. exists (Number n). split; [|done]. apply read_fixed; [done..|].
    rewrite Zlen_le_bytes in Hl. lia.
  - exists (Number (uint64 z)). split; [|done]. cbn [ReadAttributeValue_loop]. unfold DW_FORM_sdata. cbn [Z.eqb Pos.eqb any_of existsb orb].
    rewrite ReadSLEB_sleb by (done || lia). done.
  - destruct Hv as [Hf Hn]. exists (Number n). split; [|done]. cbn [ReadAttributeValue_loop].
    repeat (apply elem_of_cons in Hf as [->|Hf]; [cbn [any_of existsb orb]; unfold number; rewrite ReadULEB_uleb by (done || lia); done|]).
    by apply elem_of_nil in Hf.
  - by exists (Number 1).
  - destruct Hv as [Hf Hn]. exists (Number n). split; [|done]. rewrite Zlen_le_bytes in Hl. cbn [ReadAttributeValue_loop].
    repeat (apply elem_of_cons in Hf as [->|Hf]; [cbn [any_of existsb orb]; unfold number, ReadOffset; rewrite (Read_le 4 n) by (done || lia); done|]).
    by apply elem_of_nil in Hf.
  - destruct Hv as [Hz Hb]. cbn [ReadAttributeValue_loop]. rewrite <- app_assoc. cbn [app].
    exists (Text (Piece (b ++ 0 :: rest) (Zlen b))). split; [|by apply holds_entry].
    unfold DW_FORM_string. cbn [Z.eqb Pos.eqb any_of existsb orb]. unfold text.
    rewrite Zlen_app in Hl. change (Zlen [0]) with 1 in Hl.
    rewrite ReadNullTerminated_app by (done || lia). rstep. by rewrite Z.sub_add_distr.
  - destruct Hv as (Hz & Hb & Ho & Hs). destruct (GetString_at t offset b) as (p & Hp & Hh); [done..|apply Ho|].
    rewrite Zlen_le_bytes in Hl. exists (Text p). split; [|done]. cbn [ReadAttributeValue_loop].
    unfold DW_FORM_strp. cbn [Z.eqb Pos.eqb any_of existsb orb]. unfold ReadOffset.
    rewrite (Read_le 4 offset) by (first [exact Ho|lia]). rstep. by rewrite Hp.
Qed.

(** A block that lies inside its piece is rejected, as the condition of ReadBytes
    is reversed: only a block at least as long as the piece would be taken. *)
Lemma ReadBytes_rejects s len : len < size s -> ReadBytes s len = Err CheckFailed.
Proof. intros Hl. unfold ReadBytes. by rewrite (proj2 (Z.leb_gt _ _)). Qed.

(** ** Abbreviations and their encodings *)

Record abbreviation := mkAbbreviation { ab_code : Z; ab_tag : Z; ab_children : Z; ab_attributes : list (Z * Z) }.

Definition encode_attribute (a : Z * Z) : bytes := uleb (fst a) ++ uleb (snd a).
Definition encode_attributes (l : list (Z * Z)) : bytes := concat (encode_attribute <$> l) ++ [0; 0].
Definition encode_abbreviation (a : abbreviation) : bytes :=
  uleb (ab_code a) ++ uleb (ab_tag a) ++ ab_children a :: encode_attributes (ab_attributes a).

Definition attribute_wf (a : Z * Z) : Prop := fits_u 64 (fst a) /\ fits_u 64 (snd a) /\ a <> (0, 0).
Definition abbreviation_wf (a : abbreviation) : Prop :=
  fits_u 64 (ab_code a) /\ ab_code a <> 0 /\ fits_u 64 (ab_tag a) /\ Forall attribute_wf (ab_attributes a) /\
  Zlen (encode_attributes (ab_attributes a)) < 2 ^ 64.

Lemma encode_attributes_cons a l : encode_attributes (a :: l) = encode_attribute a ++ encode_attributes l.
Proof. unfold encode_attributes. cbn [fmap list_fmap concat]. by rewrite <- app_assoc. Qed.

Lemma ReadAttribute_encoded a rest len : fits_u 64 (fst a) -> fits_u 64 (snd a) -> 1 < len ->
  ReadAttribute (Piece (encode_attribute a ++ rest) len) = Ok (mkAttribute (fst a) (snd a), Piece rest len).
Proof.
  intros H1 H2 Hl. unfold ReadAttribute, encode_attribute. rewrite <- app_assoc, ReadULEB_uleb by done. rstep.
  by rewrite ReadULEB_uleb.
Qed.

Lemma ReadAttribute_last rest len : 1 < len ->
  ReadAttribute (Piece ([0; 0] ++ rest) len) = Ok (mkAttribute 0 0, Piece rest len).
Proof. intros. by apply (ReadAttribute_encoded (0, 0)). Qed.

Lemma is_end_wf a : attribute_wf a -> is_end (mkAttribute (fst a) (snd a)) = false.
Proof.
  intros (_ & _ & Hn). destruct a as [n f]. unfold is_end. cbn in *.
  destruct (n =? 0) eqn:E1; [|done]. destruct (f =? 0) eqn:E2; [|done]. zify_bool. subst. done.
Qed.

Lemma skip_attributes_encoded l : forall fuel rest len, Forall attribute_wf l -> 1 < len -> (length l < fuel)%nat ->
  skip_attributes fuel (Piece (encode_attributes l ++ rest) len) = Ok (Piece rest len).
Proof.
  induction l as [|a l IH]; intros fuel rest len Ha Hl Hf; (destruct fuel as [|fuel]; [lia|]); cbn [skip_attributes];
    unfold empty; cbn [length_]; rewrite (proj2 (Z.eqb_neq len 0)) by lia; rstep.
  - change (encode_attributes []) with [0; 0]. rewrite ReadAttribute_last by done. done.
  - inversion_clear Ha as [|? ? Ha1 Ha2]. rewrite encode_attributes_cons, <- app_assoc.
    rewrite ReadAttribute_encoded by first [apply Ha1|done]. rstep. rewrite is_end_wf by done.
    apply IH; [done..|cbn in Hf; lia].
Qed.

Lemma length_attributes l : (length l < length (encode_attributes l))%nat.
Proof.
  induction l as [|a l IH]; [cbn; lia|]. rewrite encode_attributes_cons, length_app. cbn [length].
  enough (0 < length (encode_attribute a))%nat by lia. unfold encode_attribute. rewrite length_app.
  destruct (uleb_nonempty (fst a)) as (c & b & ->). cbn [length]. lia.
Qed.

Lemma ReadAbbreviation_encoded a rest len : abbreviation_wf a -> 1 < len ->
  ReadAbbreviation (Piece (encode_abbreviation a ++ rest) len) =
    Ok (Some (mkDIEAbbreviation (ab_code a) (ab_tag a) (negb (ab_children a =? DW_CHILDREN_no))
                (Piece (encode_attributes (ab_attributes a) ++ rest) (Zlen (encode_attributes (ab_attributes a))))),
        Piece rest len).
Proof.
  intros (Hc & Hc0 & Ht & Ha & Hz) Hl. unfold ReadAbbreviation, encode_abbreviation. rewrite <- !app_assoc.
  rewrite ReadULEB_uleb by done. rstep. rewrite (proj2 (Z.eqb_neq (ab_code a) 0)) by done.
  rewrite ReadULEB_uleb by done. rstep. cbn [app]. rewrite Read1 by done. rstep.
  rewrite skip_attributes_encoded; [|done|done|].
  2:{ unfold left_. cbn [ptr_]. rewrite length_app. pose proof (length_attributes (ab_attributes a)). lia. }
  rstep. cbn [ptr_]. by rewrite assign_app.
Qed.

Lemma length_abbreviation a : (0 < length (encode_abbreviation a))%nat.
Proof. unfold encode_abbreviation. destruct (uleb_nonempty (ab_code a)) as (c & b & ->). cbn [app length]. lia. Qed.

(** The first abbreviation with the code is found. *)
Lemma find_abbreviation_first pre : forall a fuel rest len, Forall abbreviation_wf pre -> abbreviation_wf a -> 1 < len ->
  Forall (fun b => ab_code b <> ab_code a) pre ->
  (length (concat (encode_abbreviation <$> pre) ++ encode_abbreviation a) <= fuel)%nat ->
  find_abbreviation fuel (ab_code a) (Piece (concat (encode_abbreviation <$> pre) ++ encode_abbreviation a ++ rest) len) =
    Ok (mkDIEAbbreviation (ab_code a) (ab_tag a) (negb (ab_children a =? DW_CHILDREN_no))
          (Piece (encode_attributes (ab_attributes a) ++ rest) (Zlen (encode_attributes (ab_attributes a))))).
Proof.
  induction pre as [|b pre IH]; intros a fuel rest len Hp Ha Hl Hd Hf.
  - pose proof (length_abbreviation a). cbn [fmap list_fmap concat app] in *. destruct fuel as [|fuel]; [lia|].
    cbn [find_abbreviation]. rewrite ReadAbbreviation_encoded by done. rstep. cbn [code]. by rewrite Z.eqb_refl.
  - inversion_clear Hp as [|? ? Hb Hp']. inversion_clear Hd as [|? ? Hne Hd'].
    cbn [fmap list_fmap concat] in *. rewrite <- app_assoc in Hf |- *. rewrite length_app in Hf.
    pose proof (length_abbreviation b). destruct fuel as [|fuel]; [lia|]. cbn [find_abbreviation].
    rewrite ReadAbbreviation_encoded by done. rstep. cbn [code]. rewrite (proj2 (Z.eqb_neq _ _)) by done.
    apply IH; [done..|lia].
Qed.

(** ** The entry of a compilation unit *)

(** What the entry says: the offset of its line number program, its compilation
    directory and its main file. *)
Record described := mkDescribed { d_line_offset : option Z; d_directory : bytes; d_main : bytes }.

Definition describe (d : described) (nv : Z * value) : described :=
  match meaning (snd nv) with
  | inl n => if fst nv =? DW_AT_stmt_list then mkDescribed (Some n) (d_directory d) (d_main d) else d
  | inr b =>
      if fst nv =? DW_AT_comp_dir then mkDescribed (d_line_offset d) b (d_main d)
      else if fst nv =? DW_AT_name then mkDescribed (d_line_offset d) (d_directory d) b
      else d
  end.

(** Offsets are numbers, names are texts. *)
Definition well_typed (nv : Z * value) : Prop :=
  match meaning (snd nv) with
  | inl _ => fst nv <> DW_AT_comp_dir /\ fst nv <> DW_AT_name
  | inr _ => fst nv <> DW_AT_stmt_list
  end.

Definition entry_attributes (nvs : list (Z * value)) : list (Z * Z) := (fun nv => (fst nv, form_of (snd nv))) <$> nvs.

Definition models (a : unit_attributes) (d : described) : Prop :=
  match d_line_offset d with
  | Some n => found_line_offset a = true /\ line_offset a = n
  | None => found_line_offset a = false
  end /\ holds (compilation_directory a) (d_directory d) /\ holds (main_file_name a) (d_main d).

Lemma take_attribute_describe a d nv val : models a d -> well_typed nv -> reads_as val (meaning (snd nv)) ->
  exists a', take_attribute a (fst nv) val = Ok a' /\ models a' (describe d nv).
Proof.
  destruct nv as [name v]. unfold well_typed, describe, take_attribute, models. cbn [fst snd].
  intros (Hl & Hd & Hm) Ht Hr. destruct (meaning v) as [n|b], val as [k|p]; try done; cbn [reads_as] in Hr.
  - subst k. destruct Ht as [H1 H2]. cbn [get_number get_text]. rewrite (proj2 (Z.eqb_neq name DW_AT_comp_dir)), (proj2 (Z.eqb_neq name DW_AT_name)) by done.
    destruct (name =? DW_AT_stmt_list); rstep; eexists; (split; [reflexivity|]); done.
  - rewrite (proj2 (Z.eqb_neq name DW_AT_stmt_list)) by done. cbn [get_text].
    destruct (name =? DW_AT_comp_dir); [rstep; eexists; (split; [reflexivity|]); done|].
    destruct (name =? DW_AT_name); rstep; eexists; (split; [reflexivity|]); done.
Qed.

Definition entry_wf (t : Dwarf) (nv : Z * value) : Prop :=
  value_wf t (snd nv) /\ well_typed nv /\ attribute_wf (fst nv, form_of (snd nv)).

Lemma shortened_le v : 0 <= shortened v <= Zlen (encode_value v).
Proof.
  destruct v; cbn [shortened encode_value]; try (pose proof (Zlen_nonneg (encode_value (VFixed form w n))));
    try match goal with |- 0 <= 0 <= Zlen ?l => pose proof (Zlen_nonneg l); lia end.
  rewrite Zlen_app. change (Zlen [0]) with 1. pose proof (Zlen_nonneg b). lia.
Qed.

Lemma read_attributes_describe t nvs : forall fuel rest k rest' len a d,
  Forall (entry_wf t) nvs -> 1 < k -> Zlen (concat (encode_value <$> (snd <$> nvs))) + 1 < len < 2 ^ 64 ->
  (length nvs < fuel)%nat -> models a d ->
  exists a', read_attributes fuel t false (Piece (encode_attributes (entry_attributes nvs) ++ rest) k)
      (Piece (concat (encode_value <$> (snd <$> nvs)) ++ rest') len) a = Ok a' /\ models a' (foldl describe d nvs).
Proof.
  induction nvs as [|nv nvs IH]; intros fuel rest k rest' len a d Hw Hk Hl Hf Hm; (destruct fuel as [|fuel]; [cbn in Hf; lia|]);
    cbn [read_attributes].
  - change (encode_attributes (entry_attributes [])) with [0; 0]. rewrite ReadAttribute_last by done. rstep. eauto.
  - inversion_clear Hw as [|? ? (Hv & Ht & Ha) Hw']. cbn [fmap list_fmap concat entry_attributes] in *.
    rewrite encode_attributes_cons, <- !app_assoc. rewrite Zlen_app in Hl.
    rewrite ReadAttribute_encoded by first [apply Ha|done]. rstep. pose proof (is_end_wf _ Ha) as He. cbn [fst snd] in He. rewrite He. cbn [fst snd attr_form attr_name].
    pose proof (Zlen_nonneg (encode_value (snd nv))). pose proof (Zlen_nonneg (concat (encode_value <$> (snd <$> nvs)))).
    destruct (ReadAttributeValue_encoded t (snd nv) (concat (encode_value <$> (snd <$> nvs)) ++ rest') len) as (val & E & Hr);
      [done|lia|unfold fmap in *; lia|].
    rewrite E. rstep. destruct (take_attribute_describe a d nv val Hm Ht Hr) as (a2 & -> & Hm2). rstep.
    pose proof (shortened_le (snd nv)). apply IH; [done|done|unfold fmap in *; lia|cbn in Hf; lia|done].
Qed.

(** ** Address ranges and their encodings *)

Record range_set := mkRangeSet { rs_unit : Z; rs_ranges : list (Z * Z) }.

Definition encode_range (r : Z * Z) : bytes := le_bytes 8 (fst r) ++ le_bytes 8 (snd r).

(** A set starts at a multiple of 16 and is padded to the size of a range. *)
Definition set_body (s : range_set) : bytes :=
  le_bytes 2 2 ++ le_bytes 4 (rs_unit s) ++ [8; 0] ++ [0; 0; 0; 0] ++
  concat (encode_range <$> rs_ranges s) ++ encode_range (0, 0).

Definition encode_set (s : range_set) : bytes := le_bytes 4 (Zlen (set_body s)) ++ set_body s.
Definition encode_sets (l : list range_set) : bytes := concat (encode_set <$> l).

Definition range_wf (r : Z * Z) : Prop := fits_u 64 (fst r) /\ fits_u 64 (snd r) /\ fst r <> 0.

Definition set_wf (s : range_set) : Prop :=
  fits_u 32 (rs_unit s) /\ Forall range_wf (rs_ranges s) /\ Zlen (set_body s) < 2 ^ 32 - 1.

Definition in_range (address : Z) (r : Z * Z) : bool :=
  (fst r <=? address) && (address <? uint64 (fst r + snd r)).

(** The unit of the first set that has the address. *)
Fixpoint unit_of (address : Z) (l : list range_set) : option Z :=
  match l with
  | [] => None
  | s :: l => if existsb (in_range address) (rs_ranges s) then Some (rs_unit s) else unit_of address l
  end.

Lemma length_range r : Zlen (encode_range r) = 16.
Proof. unfold encode_range. by rewrite Zlen_app, !Zlen_le_bytes. Qed.

Lemma length_ranges rs : Zlen (concat (encode_range <$> rs)) = 16 * Zlen rs.
Proof.
  induction rs as [|r rs IH]; [done|]. rewrite fmap_cons. cbn [concat]. rewrite Zlen_app, length_range, Zlen_cons, IH. lia.
Qed.

Lemma length_set s : Zlen (encode_set s) = 16 * (Zlen (rs_ranges s) + 2) /\ Zlen (set_body s) = 12 + 16 * (Zlen (rs_ranges s) + 1).
Proof.
  unfold encode_set, set_body. rewrite !Zlen_app, !Zlen_le_bytes, length_ranges, length_range.
  change (Zlen [8; 0]) with 2. change (Zlen [0; 0; 0; 0]) with 4. lia.
Qed.

Lemma in_ranges_encoded rs : forall fuel rest len address, Forall range_wf rs -> 8 < len -> (length rs < fuel)%nat ->
  in_ranges fuel (Piece (concat (encode_range <$> rs) ++ encode_range (0, 0) ++ rest) len) address =
    Ok (existsb (in_range address) rs).
Proof.
  induction rs as [|r rs IH]; intros fuel rest len address Hr Hl Hf; (destruct fuel as [|fuel]; [lia|]); cbn [in_ranges].
  - cbn [fmap list_fmap concat app]. unfold encode_range. cbn [fst snd]. rewrite <- app_assoc.
    rewrite (Read_le 8 0) by done. rstep. rewrite (Read_le 8 0) by done. done.
  - inversion_clear Hr as [|? ? (H1 & H2 & H3) Hr']. cbn [fmap list_fmap concat existsb]. unfold encode_range at 1.
    rewrite <- !app_assoc. rewrite (Read_le 8 (fst r)) by first [exact H1|done]. rstep.
    rewrite (Read_le 8 (snd r)) by first [exact H2|done]. rstep. rewrite (proj2 (Z.eqb_neq (fst r) 0)) by done.
    fold (in_range address r). destruct (in_range address r); [done|]. apply IH; [done..|cbn in Hf; lia].
Qed.

Lemma read_set_encoded t pre s rest address : set_wf s -> Zlen pre mod 16 = 0 ->
  ptr_ (aranges_ t) = pre ++ encode_set s ++ rest -> Zlen (ptr_ (aranges_ t)) < 2 ^ 63 ->
  read_set t false (Piece (set_body s ++ rest) (Zlen (set_body s))) address =
    Ok (rs_unit s, existsb (in_range address) (rs_ranges s)).
Proof.
  intros (Hu & Hr & Hs) Hp Hptr H63. destruct (length_set s) as [HL1 HL2]. pose proof (Zlen_nonneg (rs_ranges s)).
  unfold read_set. unfold set_body at 1. rewrite <- !app_assoc.
  rewrite (Read_le 2 2) by first [done|lia]. rstep. unfold ReadOffset. rewrite (Read_le 4 (rs_unit s)) by first [exact Hu|lia]. rstep.
  cbn [app]. rewrite Read1 by lia. rstep. change (8 =? 8) with true. rewrite Read1 by lia. rstep. change (0 =? 0) with true. rstep.
  set (body := concat (encode_range <$> rs_ranges s) ++ encode_range (0, 0) ++ rest).
  assert (Hd : dist (ptr_ (aranges_ t)) (0 :: 0 :: 0 :: 0 :: body) = Zlen pre + 12).
  { unfold dist, body. rewrite Hptr. rewrite !Zlen_app, !Zlen_cons, !Zlen_app, length_ranges, length_range, HL1. lia. }
  unfold SkipPadding. cbn [ptr_]. rewrite Hd, wrap_u_id.
  2:{ unfold fits_u. pose proof (Zlen_nonneg pre). rewrite Hptr, !Zlen_app, HL1 in H63. pose proof (Zlen_nonneg rest). lia. }
  assert ((Zlen pre + 12) mod 16 = 12) as ->.
  { rewrite <- Zplus_mod_idemp_l, Hp. done. }
  cbn [Z.eqb negb]. unfold size. cbn [length_]. change (16 - 12) with 4. rewrite (proj2 (Z.leb_le _ _)) by lia. rstep.
  change (0 :: 0 :: 0 :: 0 :: body) with ([0; 0; 0; 0] ++ body). change 4 with (Zlen [0; 0; 0; 0]) at 1.
  rewrite advance_app by (change (Zlen [0; 0; 0; 0]) with 4; lia). rstep. unfold body.
  rewrite in_ranges_encoded; [done|done|lia|].
  unfold left_. cbn [ptr_]. pose proof (length_ranges (rs_ranges s)) as HL. unfold Zlen in HL. rewrite length_app. lia.
Qed.

Lemma find_unit_encoded t sets : forall fuel pre b rest address, Forall set_wf sets -> Zlen pre mod 16 = 0 ->
  ptr_ (aranges_ t) = pre ++ encode_sets sets ++ rest -> Zlen (ptr_ (aranges_ t)) < 2 ^ 63 -> (length sets < fuel)%nat ->
  find_unit fuel t (Section_.mkSection b (Piece (encode_sets sets ++ rest) (Zlen (encode_sets sets)))) address =
    Ok (unit_of address sets).
Proof.
  induction sets as [|s sets IH]; intros fuel pre b rest address Hw Hp Hptr H63 Hf; (destruct fuel as [|fuel]; [lia|]);
    cbn [find_unit]; [done|].
  inversion_clear Hw as [|? ? Hs Hw']. destruct (length_set s) as [HL1 HL2]. pose proof (Zlen_nonneg (rs_ranges s)).
  assert (HE : encode_sets (s :: sets) = encode_set s ++ encode_sets sets) by done. rewrite HE in *.
  pose proof (Zlen_nonneg (encode_sets sets)). pose proof (Zlen_nonneg rest). pose proof (Zlen_nonneg pre).
  assert (Hlt : Zlen (encode_set s) + Zlen (encode_sets sets) < 2 ^ 63) by (rewrite Hptr, !Zlen_app in H63; lia).
  rewrite Zlen_app. unfold encode_set at 1. rewrite <- !app_assoc. rewrite Section_Next_32; [|apply Hs|lia|lia].
  rstep. cbn [Section_.is_64_bits_]. rewrite (read_set_encoded t pre s) by (rewrite <- ?app_assoc in Hptr; done).
  rstep. cbn [unit_of]. destruct (existsb (in_range address) (rs_ranges s)); [done|].
  replace (Zlen (encode_set s) + Zlen (encode_sets sets) - 4 - Zlen (set_body s)) with (Zlen (encode_sets sets)) by lia.
  apply (IH fuel (pre ++ encode_set s)); [done| |by rewrite Hptr, <- !app_assoc|done|cbn in Hf; lia].
  rewrite Zlen_app, HL1. rewrite <- Zplus_mod_idemp_l, Hp, Z.add_0_l, Z.mul_comm. apply Z_mod_mult.
Qed.

(** ** A compilation unit *)

Record compile_unit := mkCompileUnit {
  cu_version : Z; cu_abbrev_offset : Z; cu_code : Z; cu_children : Z; cu_entries : list (Z * value);
  cu_more : bytes (** the entries below this one *) }.

Definition cu_abbreviation (c : compile_unit) : abbreviation :=
  mkAbbreviation (cu_code c) DW_TAG_compile_unit (cu_children c) (entry_attributes (cu_entries c)).

Definition info_body (c : compile_unit) : bytes :=
  le_bytes 2 (cu_version c) ++ le_bytes 4 (cu_abbrev_offset c) ++ [8] ++ uleb (cu_code c) ++
  concat (encode_value <$> (snd <$> cu_entries c)) ++ cu_more c.

Definition encode_info (c : compile_unit) : bytes := le_bytes 4 (Zlen (info_body c)) ++ info_body c.

Definition cu_described (c : compile_unit) : described := foldl describe (mkDescribed None [] []) (cu_entries c).

(** A piece has the bytes at an offset, and is long enough for reading them. *)
Definition has_at (p : StringPiece) (offset : Z) (b : bytes) : Prop :=
  exists pre rest, ptr_ p = pre ++ b ++ rest /\ Zlen pre = offset /\ offset < length_ p /\
    Zlen b <= length_ p /\ 1 < length_ p < 2 ^ 64.

(** The unit and its abbreviations in their sections; [before] are the
    abbreviations before the unit's. *)
Definition unit_at (t : Dwarf) (offset : Z) (c : compile_unit) (before : list abbreviation) : Prop :=
  has_at (info_ t) offset (encode_info c) /\
  has_at (abbrev_ t) (cu_abbrev_offset c)
    (concat (encode_abbreviation <$> before) ++ encode_abbreviation (cu_abbreviation c)) /\
  2 <= cu_version c <= 4 /\ fits_u 32 (cu_abbrev_offset c) /\ Zlen (info_body c) < 2 ^ 32 - 1 /\
  Forall abbreviation_wf before /\ abbreviation_wf (cu_abbreviation c) /\
  Forall (fun b => ab_code b <> cu_code c) before /\ Forall (entry_wf t) (cu_entries c).

Lemma advance_has p offset b : has_at p offset b ->
  exists rest, advance offset p = Ok (Piece (b ++ rest) (length_ p)).
Proof.
  destruct p as [s len]. intros (pre & rest & Hp & Ho & Hl & _). cbn [ptr_ length_] in *. subst s offset.
  exists rest. by apply advance_app.
Qed.

Lemma models_nothing : models (mkUnitAttributes false 0 (Piece [] 0) (Piece [] 0)) (mkDescribed None [] []).
Proof. unfold models, holds. cbn. pose proof PathText.wf_null. split_and!; done. Qed.

(** The entry of the unit is found through its abbreviation, and its attributes
    are what it describes. *)
Lemma read_unit_described t offset c before : unit_at t offset c before ->
  exists a, read_unit t offset = Ok a /\ models a (cu_described c).
Proof.
  intros (Hi & Ha & Hv & Ho & Hs & Hb & Hab & Hne & He). unfold read_unit.
  destruct (advance_has _ _ _ Hi) as (ri & ->). destruct Hi as (_ & _ & _ & _ & _ & Hil & Hi1 & Hi2).
  destruct (advance_has _ _ _ Ha) as (ra & Eadv). destruct Ha as (_ & _ & _ & _ & _ & _ & Ha1 & _).
  rstep. unfold Section_.Section_new, encode_info. unfold encode_info in Hil. rewrite Zlen_app, Zlen_le_bytes in Hil.
  pose proof (Zlen_nonneg (concat (encode_value <$> (snd <$> cu_entries c)))). pose proof (Zlen_nonneg (cu_more c)).
  pose proof Hab as (Hc & Hc0 & _ & Haw & Haz). cbn [ab_code ab_tag cu_abbreviation ab_attributes] in *.
  pose proof (length_uleb (cu_code c) Hc).
  assert (HL : Zlen (info_body c) = 7 + Zlen (uleb (cu_code c)) + Zlen (concat (encode_value <$> (snd <$> cu_entries c))) + Zlen (cu_more c)).
  { unfold info_body. rewrite !Zlen_app, !Zlen_le_bytes. change (Zlen [8]) with 1. lia. }
  rewrite <- app_assoc, Section_Next_32 by lia. rstep. cbn [Section_.is_64_bits_]. unfold info_body at 1. rewrite <- !app_assoc.
  rewrite (Read_le 2 (cu_version c)) by lia. rstep.
  rewrite (proj2 (Z.leb_le 2 _)), (proj2 (Z.leb_le _ 4)) by lia. rstep. unfold ReadOffset.
  rewrite (Read_le 4 (cu_abbrev_offset c)) by first [exact Ho|lia]. rstep. cbn [app].
  rewrite Read1 by lia. rstep. change (8 =? 8) with true. rstep. rewrite ReadULEB_uleb by (done || lia). rstep.
  rewrite (proj2 (Z.eqb_neq (cu_code c) 0)) by done. rstep. unfold GetAbbreviation. rewrite Eadv. rstep.
  rewrite <- app_assoc. change (cu_code c) with (ab_code (cu_abbreviation c)).
  rewrite find_abbreviation_first; [|done..|].
  2:{ unfold left_. cbn [ptr_]. rewrite !length_app. lia. }
  rstep. cbn [tag cu_abbreviation ab_tag attributes ab_attributes]. rewrite Z.eqb_refl. rstep.
  apply read_attributes_describe; [done| |lia| |apply models_nothing].
  - pose proof (length_attributes (entry_attributes (cu_entries c))). unfold encode_attributes. rewrite Zlen_app.
    change (Zlen [0; 0]) with 2. pose proof (Zlen_nonneg (concat (encode_attribute <$> entry_attributes (cu_entries c)))). lia.
  - unfold left_. cbn [ptr_]. rewrite length_app. pose proof (length_attributes (entry_attributes (cu_entries c))) as Hla.
    unfold entry_attributes in Hla at 1. rewrite length_fmap in Hla. lia.
Qed.

(** ** From an address to a line *)

(** The sections of a parser: its address ranges, the unit at [offset] and the
    line number program of the unit. *)
Definition debug_info (t : Dwarf) (sets : list range_set) (offset : Z) (c : compile_unit) (before : list abbreviation)
    (lines : Unit) : Prop :=
  elf_ t = true /\
  (exists rest, aranges_ t = Piece (encode_sets sets ++ rest) (Zlen (encode_sets sets)) /\
     Zlen (encode_sets sets ++ rest) < 2 ^ 63) /\ Forall set_wf sets /\
  unit_at t offset c before /\
  (exists lo, d_line_offset (cu_described c) = Some lo /\ has_at (line_ t) lo (encode_unit lines)) /\ unit_wf lines.

Lemma find_unit_sets t sets rest address : aranges_ t = Piece (encode_sets sets ++ rest) (Zlen (encode_sets sets)) ->
  Zlen (encode_sets sets ++ rest) < 2 ^ 63 -> Forall set_wf sets ->
  find_unit (S (left_ (aranges_ t))) t (Section_.Section_new (aranges_ t)) address = Ok (unit_of address sets).
Proof.
  intros Ha Hl Hs. unfold Section_.Section_new. rewrite Ha at 2.
  apply (find_unit_encoded t sets _ [] false rest); [done|done|by rewrite Ha|by rewrite Ha|].
  unfold left_. rewrite Ha. cbn [ptr_]. rewrite length_app.
  assert (length sets <= length (encode_sets sets))%nat; [|lia]. clear. unfold encode_sets.
  induction sets as [|s sets IH]; [done|]. rewrite fmap_cons. cbn [concat length]. rewrite length_app.
  destruct (length_set s) as [HL _]. pose proof (Zlen_nonneg (rs_ranges s)). unfold Zlen in HL. lia.
Qed.

Lemma FindAddress_located t sets offset c before lines address row e dir :
  debug_info t sets offset c before lines ->
  unit_of address sets = Some offset ->
  first_covers (unit_header lines []) address (unit_program lines) row ->
  1 <= LineNumberVM.file_ row -> unit_files lines !! Z.to_nat (LineNumberVM.file_ row - 1) = Some e ->
  entry_path lines e dir ->
  exists info, FindAddress t address = Ok (true, info) /\
    has_file_and_line info = true /\ line info = LineNumberVM.line_ row /\
    Path.ToString (file info) = Ok (PathText.path_text (d_directory (cu_described c)) dir (entry_name e)) /\
    (d_main (cu_described c) <> [] -> has_main_file info = true /\
       Path.ToString (main_file info) =
         Ok (PathText.path_text (d_directory (cu_described c)) [] (d_main (cu_described c)))).
Proof.
  intros (Helf & (ra & Har & Hal) & Hsets & Hunit & (lo & Hlo & Hline) & Hlw) Hof Hrow Hk He Hd.
  unfold FindAddress. rewrite Helf. cbn [negb]. rewrite (find_unit_sets t sets ra) by done. rstep. rewrite Hof.
  destruct (read_unit_described t offset c before Hunit) as (a & -> & Hfl & (Hdw & Hdc & Hdl) & (Hmw & Hmc & Hml)). rstep.
  rewrite Hlo in Hfl. destruct Hfl as [-> ->].
  destruct (advance_has _ _ _ Hline) as (rest & ->). destruct Hline as (_ & _ & _ & _ & _ & Hll & _ & Hl64).
  destruct (FindAddress_row lines rest (length_ (line_ t)) (compilation_directory a) address row e dir) as (vm & path & Hvm & Hf & Hp);
    [done|lia|done|lia|done..|].
  assert (Hmain : exists main, (if negb (empty (main_file_name a)) then
      p ← Path.Path_new (compilation_directory a) (of_cstr (Some [0])) (main_file_name a); Ok (true, p)
    else Ok (false, Path.Path_empty)) = Ok main /\
    (d_main (cu_described c) <> [] -> fst main = true /\ Path.ToString (snd main) =
       Ok (PathText.path_text (d_directory (cu_described c)) [] (d_main (cu_described c))))).
  { rewrite PathText.empty_content, Hmc by done. case_bool_decide as Em; cbn [negb]; [by eexists|].
    assert (wf (of_cstr (Some [0]))) as Hz by (vm_compute; repeat split; discriminate).
    destruct (PathText.Path_new_text (compilation_directory a) (of_cstr (Some [0])) (main_file_name a)) as (p & -> & Hpw & Ht);
      [done..|change (length_ (of_cstr (Some [0]))) with 0; lia|].
    rstep. exists (true, p). split; [done|]. intros _. split; [done|]. cbn [snd].
    rewrite PathText.ToString_text, Ht, Hdc, Hmc by done. done. }
  destruct Hmain as (main & -> & Hm). rstep. rewrite Hvm. rstep. rewrite Hf. rstep.
  eexists. split; [reflexivity|]. cbn [has_file_and_line line file has_main_file main_file].
  split; [done|]. split; [done|]. split; [by rewrite Hp, Hdc|]. exact Hm.
Qed.

(** C7: In a file with well-formed debug information, an address in the ranges of a
    unit is mapped to the file and the line of the row that covers it in the unit's
    line number program, and to the unit's main file. *)
Theorem FindAddress_source t sets offset c before lines address row e dir :
  debug_info t sets offset c before lines ->
  unit_of address sets = Some offset ->
  first_covers (unit_header lines []) address (unit_program lines) row ->
  1 <= LineNumberVM.file_ row -> unit_files lines !! Z.to_nat (LineNumberVM.file_ row - 1) = Some e ->
  entry_path lines e dir ->
  exists info, FindAddress t address = Ok (true, info) /\
    has_file_and_line info = true /\ line info = LineNumberVM.line_ row /\
    Path.ToString (file info) = Ok (PathText.path_text (d_directory (cu_described c)) dir (entry_name e)) /\
    (d_main (cu_described c) <> [] -> has_main_file info = true /\
       Path.ToString (main_file info) =
         Ok (PathText.path_text (d_directory (cu_described c)) [] (d_main (cu_described c)))).
Proof. apply FindAddress_located. Qed.

(** An address in no range is reported as not found, with nothing filled in; so is
    every address when a debug section is missing. *)
Theorem FindAddress_not_found t sets rest address :
  elf_ t = false \/
  (aranges_ t = Piece (encode_sets sets ++ rest) (Zlen (encode_sets sets)) /\
   Zlen (encode_sets sets ++ rest) < 2 ^ 63 /\ Forall set_wf sets /\ unit_of address sets = None) ->
  FindAddress t address = Ok (false, LocationInfo_new).
Proof.
  unfold FindAddress. intros [->|(Ha & Hl & Hs & Hu)]; [done|]. destruct (elf_ t); [|done]. cbn [negb].
  rewrite (find_unit_sets t sets rest) by done. rstep. by rewrite Hu.
Qed.

(** ** Termination *)

Lemma ReadAttribute_ends s : ends (shorter (left_ s)) (ReadAttribute s).
Proof. unfold ReadAttribute. do 2 ends_step ReadULEB_ends. unfold ends, shorter. cbn. lia. Qed.

Lemma skip_attributes_ends fuel : forall s, (left_ s < fuel)%nat ->
  ends (fun s' => (left_ s' <= left_ s)%nat) (skip_attributes fuel s).
Proof.
  induction fuel as [|fuel IH]; intros s Hf; [lia|]. cbn [skip_attributes].
  eapply ends_bind; [apply ends_check|]. intros _ _. ends_step ReadAttribute_ends.
  destruct (is_end _); [unfold ends; lia|]. eapply ends_mono; [apply IH; lia|]. cbn. intros. lia.
Qed.

Lemma ReadAbbreviation_ends s : ends (shorter (left_ s)) (ReadAbbreviation s).
Proof.
  unfold ReadAbbreviation. ends_step ReadULEB_ends. destruct (_ =? 0); [done|].
  ends_step ReadULEB_ends. ends_step Read_ends. eapply ends_bind; [apply skip_attributes_ends; lia|].
  intros s' Hs'. cbv beta in Hs'. unfold ends, shorter. cbn. lia.
Qed.

Lemma GetAbbreviation_ends t w off : ends (fun _ => True) (GetAbbreviation t w off).
Proof.
  assert (Hf : forall fuel s, (left_ s < fuel)%nat -> ends (fun _ => True) (find_abbreviation fuel w s)).
  { induction fuel as [|fuel IH]; intros s Hl; [lia|]. cbn [find_abbreviation]. ends_step ReadAbbreviation_ends.
    case_match; [|done]. destruct (_ =? w); [done|apply IH; lia]. }
  unfold GetAbbreviation. eapply ends_bind; [apply advance_ends|]. intros s _. apply Hf. lia.
Qed.

Lemma ReadBytes_ends s len : ends (fun x => (left_ (snd x) <= left_ s)%nat) (ReadBytes s len).
Proof.
  unfold ReadBytes. eapply ends_bind; [apply ends_check|]. intros _ _.
  eapply ends_bind; [apply advance_ends|]. intros s' Hs'. exact Hs'.
Qed.

Definition no_longer {A} (n : nat) (x : A * StringPiece) : Prop := (left_ (snd x) <= n)%nat.

Lemma number_ends n m : ends (shorter n) m -> ends (no_longer n) (number m).
Proof. intros H. unfold number. eapply ends_bind; [exact H|]. intros [k s] Hs. unfold ends, no_longer, shorter in *. cbn in *. lia. Qed.

Lemma block_ends n m : ends (shorter n) m -> ends (no_longer n) (block m).
Proof.
  intros H. unfold block, text. eapply ends_bind; [exact H|]. intros [k s] Hs.
  eapply ends_bind; [apply ReadBytes_ends|]. intros [b s'] Hs'. unfold ends, no_longer, shorter in *. cbn in *. lia.
Qed.

Lemma ReadAttributeValue_ends t is64 : forall fuel s form, (left_ s < fuel)%nat ->
  ends (no_longer (left_ s)) (ReadAttributeValue_loop fuel t s form is64).
Proof.
  induction fuel as [|fuel IH]; intros s form Hf; [lia|]. cbn [ReadAttributeValue_loop].
  repeat match goal with
  | |- ends _ (if ?b then _ else _) => destruct b
  | |- ends _ (number _) => apply number_ends
  | |- ends _ (block _) => apply block_ends
  | |- ends _ (Read _ _) => by apply Read_ends
  | |- ends _ (ReadULEB _) => apply ReadULEB_ends
  | |- ends _ (ReadOffset _ _) => apply ReadOffset_ends
  | |- ends _ (Err _) => done
  | |- ends _ (Ok _) => unfold ends, no_longer; cbn; lia
  end.
  - ends_step ReadSLEB_ends. unfold ends, no_longer. cbn. lia.
  - unfold text. ends_step ReadNullTerminated_ends. unfold ends, no_longer. cbn. lia.
  - ends_step ReadOffset_ends. unfold GetStringFromStringSection.
    eapply (ends_bind (fun _ => True)); [|intros v _; unfold ends, no_longer; cbn; lia].
    eapply ends_bind; [apply ends_check|]. intros _ _. eapply ends_bind; [apply advance_ends|]. intros s' _.
    ends_step ReadNullTerminated_ends. done.
  - ends_step ReadULEB_ends. eapply ends_mono; [apply IH; lia|]. unfold no_longer. intros. lia.
Qed.

Lemma take_attribute_ends a n v : ends (fun _ => True) (take_attribute a n v).
Proof. unfold take_attribute. repeat case_match; by destruct v. Qed.

Lemma read_attributes_ends t is64 : forall fuel attrs chunk a, (left_ attrs < fuel)%nat ->
  ends (fun _ => True) (read_attributes fuel t is64 attrs chunk a).
Proof.
  induction fuel as [|fuel IH]; intros attrs chunk a Hf; [lia|]. cbn [read_attributes]. ends_step ReadAttribute_ends.
  destruct (is_end _); [done|]. eapply ends_bind; [apply ReadAttributeValue_ends; lia|]. intros [v c] _.
  eapply ends_bind; [apply take_attribute_ends|]. intros a' _. apply IH. lia.
Qed.

Lemma Section_Next_ends s : ends (fun x => match fst x with
    | Some _ => (left_ (Section_.data_ (snd x)) < left_ (Section_.data_ s))%nat | None => True end) (Section_.Next s).
Proof.
  unfold Section_.Next. destruct (empty _); [done|]. ends_step Read_ends.
  eapply (ends_bind (fun x => (left_ (snd x) <= left_ s0)%nat)).
  { destruct (z =? _); [|unfold ends; cbn; lia]. eapply ends_mono; [by apply Read_ends|]. unfold shorter. intros. lia. }
  intros [len c] Hc. cbn [snd] in Hc. eapply ends_bind; [apply ends_check|]. intros _ _.
  unfold end_. cbn [ptr_ length_]. destruct (len <=? _); [|done]. rstep. unfold ends, left_, assign_end, plus in *. cbn.
  rewrite length_drop. lia.
Qed.

Lemma in_ranges_ends address : forall fuel s, (left_ s < fuel)%nat -> ends (fun _ => True) (in_ranges fuel s address).
Proof.
  induction fuel as [|fuel IH]; intros s Hf; [lia|]. cbn [in_ranges]. do 2 ends_step Read_ends.
  destruct (_ =? 0); [done|]. destruct (_ && _); [done|]. apply IH. lia.
Qed.

Lemma read_set_ends t is64 chunk address : ends (fun _ => True) (read_set t is64 chunk address).
Proof.
  unfold read_set. ends_step Read_ends. eapply ends_bind; [apply ends_check|]. intros _ _. ends_step ReadOffset_ends.
  do 2 (ends_step Read_ends; eapply ends_bind; [apply ends_check|]; intros _ _).
  eapply (ends_bind (fun _ => True)).
  { unfold SkipPadding. case_match; [|done]. eapply ends_bind; [apply ends_check|]. intros _ _.
    eapply ends_mono; [apply advance_ends|done]. }
  intros s' _. eapply ends_bind; [apply in_ranges_ends; lia|]. done.
Qed.

Lemma find_unit_ends t address : forall fuel s, (left_ (Section_.data_ s) < fuel)%nat ->
  ends (fun _ => True) (find_unit fuel t s address).
Proof.
  induction fuel as [|fuel IH]; intros s Hf; [lia|]. cbn [find_unit].
  eapply ends_bind; [apply Section_Next_ends|]. intros [[chunk|] s'] Hs'; [|done]. cbn [fst snd] in Hs'.
  eapply ends_bind; [apply read_set_ends|]. intros [off b] _. destruct b; [done|]. apply IH. lia.
Qed.

Lemma read_unit_ends t off : ends (fun _ => True) (read_unit t off).
Proof.
  unfold read_unit. eapply ends_bind; [apply advance_ends|]. intros s _.
  eapply ends_bind; [apply Section_Next_ends|]. intros [[chunk|] s'] _; [|done].
  ends_step Read_ends. eapply ends_bind; [apply ends_check|]. intros _ _. ends_step ReadOffset_ends.
  ends_step Read_ends. eapply ends_bind; [apply ends_check|]. intros _ _. ends_step ReadULEB_ends.
  eapply ends_bind; [apply ends_check|]. intros _ _. eapply ends_bind; [apply GetAbbreviation_ends|]. intros ab _.
  eapply ends_bind; [apply ends_check|]. intros _ _. apply read_attributes_ends. lia.
Qed.

Lemma skip_directories_ends fuel : forall s k, (left_ s < fuel)%nat ->
  ends (fun x => (left_ (snd x) <= left_ s)%nat) (skip_directories fuel s k).
Proof.
  induction fuel as [|fuel IH]; intros s k Hf; [lia|]. cbn [skip_directories]. ends_step ReadNullTerminated_ends.
  destruct (empty _); [unfold ends; cbn; lia|]. eapply ends_mono; [apply IH; lia|]. cbn. intros. lia.
Qed.

Lemma skip_file_names_ends fuel : forall s k, (left_ s < fuel)%nat -> ends (fun _ => True) (skip_file_names fuel s k).
Proof.
  induction fuel as [|fuel IH]; intros s k Hf; [lia|]. cbn [skip_file_names]. ends_step ReadFileName_ends.
  case_match; [apply IH; lia|done].
Qed.

Lemma Init_ends b s : ends (fun _ => True) (LineNumberVM.Init b s).
Proof.
  unfold LineNumberVM.Init. ends_step Read_ends. eapply ends_bind; [apply ends_check|]. intros _ _.
  ends_step ReadOffset_ends. eapply ends_bind; [apply ends_check|]. intros _ _.
  eapply (ends_bind (fun _ => True)); [unfold end_; by case_match|]. intros stop _. ends_step Read_ends.
  eapply (ends_bind (fun _ => True)).
  { case_match; [|done]. ends_step Read_ends. eapply ends_bind; [apply ends_check|]. done. }
  intros h _. do 4 ends_step Read_ends. eapply ends_bind; [apply ends_check|]. intros _ _.
  eapply ends_bind; [apply advance_ends|]. intros h' _.
  eapply ends_bind; [apply skip_directories_ends; unfold table_fuel, left_; lia|]. intros [k d] _.
  eapply ends_bind; [apply skip_file_names_ends; unfold table_fuel, left_; lia|]. by intros [k' d'] _.
Qed.

Lemma LineNumberVM_new_ends s cd : ends (fun _ => True) (LineNumberVM_new s cd).
Proof.
  unfold LineNumberVM_new. eapply ends_bind; [apply Section_Next_ends|]. intros [[chunk|] s'] _; [|done].
  eapply ends_bind; [apply Init_ends|]. by intros [h d] _.
Qed.

(** C37: The lookup of an address ends for every file and every address, whatever the
    bytes of its debug sections are: with an answer or with a fault. *)
Theorem FindAddress_ends t address : FindAddress t address <> Err NoFuel.
Proof.
  enough (ends (fun _ => True) (FindAddress t address)) as H by (intros E; by rewrite E in H).
  unfold FindAddress. destruct (negb (elf_ t)); [done|].
  eapply ends_bind; [apply find_unit_ends; cbn; lia|]. intros [off|] _; [|done].
  eapply ends_bind; [apply read_unit_ends|]. intros a _. eapply (ends_bind (fun _ => True)).
  { case_match; [|done]. eapply ends_bind; [apply Path_new_ends|]. done. }
  intros main _. destruct (found_line_offset a); [|done]. eapply ends_bind; [apply advance_ends|]. intros s _.
  eapply ends_bind; [apply LineNumberVM_new_ends|]. intros vm _. eapply (ends_bind (fun _ => True)); [|done].
  pose proof (FindAddress_terminates vm address) as Hv. destruct (LineNumberVM.FindAddress vm address) as [x|e]; [done|].
  cbn. congruence.
Qed.

(** The length of a block, by its form. *)
Definition block_length (form : Z) (s : StringPiece) : res (Z * StringPiece) :=
  if form =? DW_FORM_block1 then Read 1 s
  else if form =? DW_FORM_block2 then Read 2 s
  else if form =? DW_FORM_block4 then Read 4 s
  else ReadULEB s.

(** Attributes of a block form are never read: the condition of ReadBytes is
    reversed, so a block shorter than what is left of its piece is rejected. *)
Theorem blocks_rejected t s form is_64_bits n s' :
  form ∈ [DW_FORM_block1; DW_FORM_block2; DW_FORM_block4; DW_FORM_block; DW_FORM_exprloc] ->
  block_length form s = Ok (n, s') -> n < size s' ->
  ReadAttributeValue t s form is_64_bits = Err CheckFailed.
Proof.
  intros Hf Hr Hn. unfold ReadAttributeValue. cbn [ReadAttributeValue_loop].
  assert (Hb : block (block_length form s) = Err CheckFailed).
  { rewrite Hr. unfold block, text. rstep. by rewrite ReadBytes_rejects. }
  repeat (apply elem_of_cons in Hf as [->|Hf]; [exact Hb|]). by apply elem_of_nil in Hf.
Qed.

Lemma blocks_rejected_witness : ReadAttributeValue (mkDwarf true (Piece [] 0) (Piece [] 0) (Piece [] 0) (Piece [] 0) (Piece [] 0))
  (Piece [2; 7; 7; 1] 4) DW_FORM_block1 false = Err CheckFailed.
Proof.
  apply (blocks_rejected _ (Piece [2; 7; 7; 1] 4) DW_FORM_block1 false 2 (Piece [7; 7; 1] 4));
    [left|vm_compute; reflexivity|reflexivity].
Defined.

(** ** A file with one unit *)

Definition demo_entries : list (Z * value) :=
  [(37, VStrp 4 (str "gcc")); (DW_AT_name, VString (str "a.cc")); (DW_AT_comp_dir, VStrp 8 (str "/src"));
   (DW_AT_stmt_list, VOffset DW_FORM_sec_offset 3); (17, VFixed DW_FORM_addr 8 4096); (18, VUdata DW_FORM_udata 40)].

Definition demo_cu : compile_unit := mkCompileUnit 4 2 3 1 demo_entries [0; 0].
Definition demo_before : list abbreviation := [mkAbbreviation 1 46 0 [(3, 8); (17, 1)]].
Definition demo_sets : list range_set := [mkRangeSet 0 [(8192, 16)]; mkRangeSet 5 [(1, 1); (4096, 32)]].

Definition demo_info : bytes := replicate 5 9 ++ encode_info demo_cu ++ [1].
Definition demo_abbrev : bytes :=
  [0; 0] ++ (concat (encode_abbreviation <$> demo_before) ++ encode_abbreviation (cu_abbreviation demo_cu)) ++ [0].
Definition demo_aranges : bytes := encode_sets demo_sets.
Definition demo_line : bytes := [9; 9; 9] ++ encode_unit demo_unit ++ [0].
Definition demo_strings : bytes := [0; 97; 98; 0] ++ str "gcc" ++ 0 :: str "/src" ++ [0].

Definition object_names : list bytes :=
  [[]; str ".shstrtab"; str ".symtab"; str ".debug_info"; str ".debug_abbrev"; str ".debug_aranges"; str ".debug_line";
   str ".debug_str"; str "main"].

Definition object_symbols : list SymbolEntry := [mkSymbolEntry 0 0 0 0 0; mkSymbolEntry 83 18 3 4096 32].

(** Type, link, entry size and body of each section. *)
Definition object_bodies : list (Z * Z * Z * bytes) :=
  [(0, 0, 0, []); (SHT_STRTAB, 0, 0, encode_strings object_names); (SHT_SYMTAB, 1, 24, concat (sym_bytes <$> object_symbols));
   (1, 0, 0, demo_info); (1, 0, 0, demo_abbrev); (1, 0, 0, demo_aranges); (1, 0, 0, demo_line); (1, 0, 0, demo_strings)].

(** The headers of sections laid out one after the other. *)
Fixpoint place (off : Z) (ns : list bytes) (bs : list (Z * Z * Z * bytes)) : list SectionHeader :=
  match ns, bs with
  | n :: ns, (type, link, entsize, body) :: bs =>
      mkSectionHeader (default 0 (string_offset n object_names)) type 0 off (Zlen body) link entsize
        :: place (off + Zlen body) ns bs
  | _, _ => []
  end.

Definition object_sections : list SectionHeader := Eval vm_compute in place 120 object_names object_bodies.

(** The file: its headers, the sections and the section headers. *)
Definition object_file : bytes := Eval vm_compute in
  let body := concat (snd <$> object_bodies) in
  ehdr_bytes 2 64 (120 + Zlen body) 1 8 1 ++ phdr_bytes 1 4096 ++ body ++ concat (shdr_bytes <$> object_sections).

Definition object_elf : ElfFile := mkElfFile 3 (Some object_file) (Zlen object_file) 4096.

Definition section_piece (i : nat) : StringPiece :=
  let s := nth i object_sections (mkSectionHeader 0 0 0 0 0 0 0) in Piece (drop (Z.to_nat (s_offset s)) object_file) (s_size s).

Definition demo_dwarf : Dwarf :=
  mkDwarf true (section_piece 3) (section_piece 4) (section_piece 5) (section_piece 6) (section_piece 7).

Example object_opens : ElfFile_new 3 (Some object_file) = Ok object_elf.
Proof. vm_compute. reflexivity. Qed.

Lemma object_dwarf : Dwarf_new object_elf = Ok demo_dwarf.
Proof. vm_compute. reflexivity. Defined.

Example demo_lookup : exists p, FindAddress demo_dwarf 4113 = Ok (true, p) /\ line p = 11 /\
  Path.ToString (file p) = Ok (str "/usr/include/b.h") /\ Path.ToString (main_file p) = Ok (str "/src/a.cc").
Proof. eexists. split; [vm_compute; reflexivity|]. vm_compute. repeat split; reflexivity. Qed.

(** Where bytes of a piece are, by computation. *)
Lemma split_at (s b : bytes) (n : nat) : take (length b) (drop n s) = b -> s = take n s ++ b ++ drop (n + length b) s.
Proof.
  intros Hb. rewrite <- drop_drop. rewrite <- Hb at 1. by rewrite !take_drop.
Qed.

Lemma has_at_drop p n b : take (length b) (drop n (ptr_ p)) = b -> (n <= length (ptr_ p))%nat ->
  Z.of_nat n < length_ p -> Zlen b <= length_ p -> 1 < length_ p < 2 ^ 64 -> has_at p (Z.of_nat n) b.
Proof.
  intros Hb Hn. exists (take n (ptr_ p)), (drop (n + length b) (ptr_ p)). split; [by apply split_at|].
  split; [unfold Zlen; rewrite length_take; lia|done].
Qed.

Lemma string_at_drop t n b : take (length b + 1) (drop n (ptr_ (strings_ t))) = b ++ [0] -> (n <= length (ptr_ (strings_ t)))%nat ->
  Z.of_nat n < length_ (strings_ t) < 2 ^ 64 -> Zlen b < length_ (strings_ t) -> string_at t (Z.of_nat n) b.
Proof.
  intros Hb Hn Hl Hz. exists (take n (ptr_ (strings_ t))), (drop (n + length (b ++ [0])) (ptr_ (strings_ t))), (length_ (strings_ t)).
  split; [|split; [unfold Zlen; rewrite length_take; lia|done]]. destruct (strings_ t) as [s len]. cbn [ptr_ length_] in *. f_equal.
  rewrite (split_at s (b ++ [0]) n) at 1; [by rewrite <- app_assoc|]. by rewrite length_app.
Qed.

Lemma demo_unit_at : unit_at demo_dwarf 5 demo_cu demo_before.
Proof.
  assert (Hstr : forall off b, In (off, b) [(4, str "gcc"); (8, str "/src")] -> string_at demo_dwarf off b).
  { intros off b [[= <- <-]|[[= <- <-]|[]]].
    - apply (string_at_drop demo_dwarf 4); [vm_compute; done|vm_compute; lia|by split|done].
    - apply (string_at_drop demo_dwarf 8); [vm_compute; done|vm_compute; lia|by split|done]. }
  split; [apply (has_at_drop _ 5); [vm_compute; done|vm_compute; lia|done|done|by split]|].
  split; [apply (has_at_drop _ 2); [vm_compute; done|vm_compute; lia|done|done|by split]|].
  split; [done|]. split; [done|]. split; [vm_compute; done|].
  split; [repeat constructor; done|]. split.
  { split; [done|]. split; [done|]. split; [done|]. split; [|vm_compute; done]. repeat constructor; done. }
  split; [repeat constructor; done|].
  repeat (constructor; [split; [|split; [vm_compute; repeat split; discriminate|repeat split; vm_compute; done]]|]).
  - split; [repeat constructor; done|]. split; [done|]. split; [done|]. apply Hstr. by left.
  - split; [repeat constructor; done|done].
  - split; [repeat constructor; done|]. split; [done|]. split; [done|]. apply Hstr. right. by left.
  - split; [left|done].
  - split; [left|done].
  - split; [left|done].
  - constructor.
Defined.

Lemma demo_debug_info : debug_info demo_dwarf demo_sets 5 demo_cu demo_before demo_unit.
Proof.
  split; [done|]. split; [exists (drop 112 (ptr_ (aranges_ demo_dwarf))); split; [vm_compute; reflexivity|vm_compute; done]|]. split.
  { repeat constructor; done. }
  split; [exact demo_unit_at|]. split; [|exact demo_unit_wf].
  exists 3. split; [reflexivity|]. apply (has_at_drop _ 3); [vm_compute; done|vm_compute; lia|done|done|by split].
Defined.

Lemma FindAddress_source_witness : exists info, FindAddress demo_dwarf 4120 = Ok (true, info) /\
  has_file_and_line info = true /\ line info = 11 /\ Path.ToString (file info) = Ok (str "/usr/include/b.h") /\
  (str "a.cc" <> [] -> has_main_file info = true /\ Path.ToString (main_file info) = Ok (str "/src/a.cc")).
Proof.
  apply (FindAddress_source demo_dwarf demo_sets 5 demo_cu demo_before demo_unit 4120 demo_row
    (mkFileEntry (str "b.h") 1 0 300) (str "/usr/include")).
  - exact demo_debug_info.
  - reflexivity.
  - exists [], demo_code, []. split; [done|]. split; [|constructor].
    exists 1%nat, (set_address 4121 demo_row). split; [vm_compute; done|]. split; [vm_compute; done|]. split; [done|].
    intros [|[|j]] q Hj Hq; [| |lia]; vm_compute in Hq; injection Hq as <-; vm_compute; done.
  - done.
  - reflexivity.
  - vm_compute. reflexivity.
Defined.

Lemma FindAddress_not_found_witness : FindAddress demo_dwarf 64 = Ok (false, LocationInfo_new).
Proof.
  apply (FindAddress_not_found demo_dwarf demo_sets (drop 112 (ptr_ (aranges_ demo_dwarf))) 64). right. split; [vm_compute; reflexivity|]. split; [vm_compute; done|].
  split; [repeat constructor; done|vm_compute; reflexivity].
Defined.
