(* ===== verification/Symbolizer.v ===== *)
(** * symbolizer/Symbolizer

    claire/common/symbolizer/Symbolizer.{h,cc}: from an instruction address to a
    symbol name and a source location, through the memory mappings of the process,
    the ELF file of the mapping and its debug information. *)

From S2P Require Import Prelude Bytes Elf StringPiece DwarfReader LineNumberVM Dwarf.
Open Scope Z_scope.

(** ** strtoull *)

Definition is_space (c : Z) : bool := (c =? 32) || ((9 <=? c) && (c <=? 13)).

Definition hex_value (c : Z) : option Z :=
  if (48 <=? c) && (c <=? 57) then Some (c - 48)
  else if (97 <=? c) && (c <=? 102) then Some (c - 87)
  else if (65 <=? c) && (c <=? 70) then Some (c - 55)
  else None.

Fixpoint skip_space (p : bytes) : bytes :=
  match p with c :: p' => if is_space c then skip_space p' else p | [] => [] end.

(** The digits at the front, added to [acc], and what follows them. *)
Fixpoint hex_digits (p : bytes) (acc : Z) : Z * bytes :=
  match p with
  | c :: p' => match hex_value c with Some d => hex_digits p' (acc * 16 + d) | None => (acc, p) end
  | [] => (acc, [])
  end.

(** Is there a digit? *)
Definition starts_hex (p : bytes) : bool :=
  match p with c :: _ => match hex_value c with Some _ => true | None => false end | [] => false end.

(** strtoull(p, &end, 16): the value and [end]. *)
Definition strtoull16 (p : bytes) : Z * bytes :=
  let q := skip_space p in
  let '(negative, q) := match q with
                        | c :: q' => if c =? 45 then (true, q') else if c =? 43 then (false, q') else (false, q)
                        | [] => (false, q)
                        end in
  let q := match q with
           | z :: x :: q' => if (z =? 48) && ((x =? 120) || (x =? 88)) && starts_hex q' then q' else q
           | _ => q
           end in
  if starts_hex q then
    let '(v, rest) := hex_digits q 0 in
    ((if 2 ^ 64 <=? v then 2 ^ 64 - 1 else if negative then uint64 (- v) else v), rest)
  else (0, p).

(* @src claire/common/symbolizer/Symbolizer.cc:43-52 FromHex *)
Definition FromHex (s : StringPiece) : res Z :=
  b ← StringPiece.ToString s;
  let p := b ++ [0] in
  let '(val, rest) := strtoull16 p in
  first ← vget p 0;
  last ← vget rest 0;
  _ ← check (negb (first =? 0) && (last =? 0));
  Ok val.

(** ** The symbolizer *)

(* @src claire/common/symbolizer/Symbolizer.h:58-58 Symbolizer *)
Definition Symbolizer : Type := (gmap bytes ElfFile).

(* @src claire/common/symbolizer/Symbolizer.cc:65-70 MappedFile *)
Record MappedFile := mkMappedFile { begin : Z; stop : Z; name : bytes }.

Section Symbolize.
(** The contents of /proc/self/maps, boost's split at newlines, the match of a line
    against the regular expression of a maps entry (begin, end, offset and file
    name), and the descriptor and the contents of an opened file. *)
Variable maps : bytes.
Variable split_lines : bytes -> list bytes.
Variable match_line : bytes -> option (bytes * bytes * bytes * bytes).
Variable open_file : bytes -> Z * option bytes.

(* @src claire/common/symbolizer/Symbolizer.cc:54-63 GetMapsLine *)
Definition GetMapsLine : list bytes := split_lines maps.

(** The first main mapping (offset 0) that has the address. *)
(* @src claire/common/symbolizer/Symbolizer.cc:100-127 Symbolizer::Symbolize *)
Fixpoint find_mapping (lines : list bytes) (address : Z) : res (option MappedFile) :=
  match lines with
  | [] => Ok None
  | line :: lines =>
      if empty (of_string line) then find_mapping lines address
      else
        match match_line line with
        | None => Err CheckFailed
        | Some (m1, m2, m3, m4) =>
            begin ← FromHex (of_string m1);
            stop ← FromHex (of_string m2);
            file_offset ← FromHex (of_string m3);
            if negb (file_offset =? 0) then find_mapping lines address
            else if (begin <=? address) && (address <? stop) then Ok (Some (mkMappedFile begin stop m4))
            else find_mapping lines address
        end
  end.

(** The file, opened once per name; [None] for mappings that are no file. *)
(* @src claire/common/symbolizer/Symbolizer.cc:159-173 Symbolizer::GetFile *)
Definition GetFile (elf_files_ : Symbolizer) (name : bytes) : res (option ElfFile * Symbolizer) :=
  first ← vget (name ++ [0]) 0;
  special ← (if first =? 91 then Ok true
             else last ← vget name (uint64 (Zlen name - 1)); Ok (last =? 41));
  if special : bool then Ok (None, elf_files_)
  else
    match elf_files_ !! name with
    | Some f => Ok (Some f, elf_files_)
    | None =>
        let '(fd, contents) := open_file name in
        f ← ElfFile_new fd contents;
        Ok (Some f, <[name := f]> elf_files_)
    end.

(** Found or not, the symbol's name, its location and the symbolizer afterwards. *)
(* @src claire/common/symbolizer/Symbolizer.cc:74-157 Symbolizer::Symbolize *)
Definition Symbolize (t : Symbolizer) (address : Z) : res (bool * StringPiece * LocationInfo * Symbolizer) :=
  let symbol_name := Piece [] 0 in
  let location := LocationInfo_new in
  found_file ← find_mapping GetMapsLine address;
  match found_file with
  | None => Ok (false, symbol_name, location, t)
  | Some found_file =>
      '(elf_file, t) ← GetFile t (name found_file);
      match elf_file with
      | None => Ok (false, symbol_name, location, t)
      | Some elf_file =>
          let orig_address := uint64 (address - begin found_file + GetBaseAddress elf_file) in
          sym ← GetDefinitionByAddress elf_file orig_address;
          match sym with
          | None => Ok (false, symbol_name, location, t)
          | Some _ =>
              sym_name ← GetSymbolName elf_file sym;
              let symbol_name := match sym_name with Some n => of_cstr (Some n) | None => symbol_name end in
              dwarf ← Dwarf_new elf_file;
              '(_, location) ← Dwarf.FindAddress dwarf orig_address;
              Ok (true, symbol_name, location, t)
          end
      end
  end.
End Symbolize.

(** ** The text of a stack frame *)

(** sprintf("%#18jx"). *)
Definition format_address (address : Z) : bytes :=
  pad 32 18 (if address =? 0 then str "0" else str "0x" ++ hex address).

Section Write.
Variable demangle : bytes -> bytes.

(* @src claire/common/symbolizer/Symbolizer.cc:175-214 Symbolizer::Write *)
Definition Write (out : bytes) (address : Z) (symbol_name : StringPiece) (location : LocationInfo) : res bytes :=
  let out := out ++ str "    @ " in
  let out := out ++ format_address address in
  out ← (if negb (empty symbol_name) then
    let out := out ++ str " " ++ demangle (c_string (ptr_ symbol_name)) in
    out ← (if has_file_and_line location then
             f ← Path.ToString (file location);
             Ok (out ++ str "   " ++ f ++ str ":" ++ stored 20 (dec (line location)))
           else Ok out);
    if has_main_file location then
      differs ← (if negb (has_file_and_line location) then Ok true
                 else f ← Path.ToString (file location); m ← Path.ToString (main_file location);
                      Ok (bool_decide (f <> m)));
      if differs : bool then
        m ← Path.ToString (main_file location);
        Ok (out ++ [10] ++ str "                         (compiling " ++ m ++ str ")")
      else Ok out
    else Ok out
  else Ok (out ++ str " (unknown)"));
  Ok (out ++ [10]).
End Write.

(** ** Hexadecimal numerals *)

Lemma hex_value_char d : 0 <= d < 16 -> hex_value (hex_char d) = Some d.
Proof.
  intros Hd. unfold hex_char. destruct (d <? 10) eqn:E; zify_bool; unfold hex_value.
  - assert ((48 <=? 48 + d) && (48 + d <=? 57) = true) as -> by (apply andb_true_iff; split; apply Z.leb_le; lia).
    f_equal. lia.
  - assert ((48 <=? 97 + (d - 10)) && (97 + (d - 10) <=? 57) = false) as ->
      by (apply andb_false_iff; right; apply Z.leb_gt; lia).
    assert ((97 <=? 97 + (d - 10)) && (97 + (d - 10) <=? 102) = true) as ->
      by (apply andb_true_iff; split; apply Z.leb_le; lia).
    f_equal. lia.
Qed.

Lemma hex_digits_app ds : forall acc rest, Forall (fun d => 0 <= d < 16) ds -> starts_hex rest = false ->
  hex_digits ((hex_char <$> ds) ++ rest) acc = (foldl (fun a d => a * 16 + d) acc ds, rest).
Proof.
  induction ds as [|d ds IH]; intros acc rest Hd Hr.
  - cbn. destruct rest as [|c rest]; [done|]. cbn in *. by destruct (hex_value c).
  - inversion_clear Hd. rewrite fmap_cons. cbn [app hex_digits foldl]. rewrite hex_value_char by done. by apply IH.
Qed.

Lemma foldl_digits l acc : foldl (fun a d => a * 16 + d) acc (reverse l) = acc * 16 ^ Zlen l + of_digits 16 l.
Proof.
  revert acc. induction l as [|d l IH]; intros acc; [rewrite Zlen_nil; cbn; lia|].
  rewrite reverse_cons, foldl_app, IH. cbn [foldl of_digits]. rewrite Zlen_cons.
  rewrite Z.pow_add_r by (pose proof (Zlen_nonneg l); lia). ring.
Qed.

Lemma hex_char_range d : 0 <= d < 16 -> 48 <= hex_char d <= 57 \/ 97 <= hex_char d <= 102.
Proof. intros. unfold hex_char. destruct (d <? 10) eqn:E; zify_bool; lia. Qed.

(** A numeral is read back, up to the NUL behind it. *)
Lemma strtoull16_digits ds : ds <> [] -> Forall (fun d => 0 <= d < 16) ds ->
  foldl (fun a d => a * 16 + d) 0 ds < 2 ^ 64 ->
  strtoull16 ((hex_char <$> ds) ++ [0]) = (foldl (fun a d => a * 16 + d) 0 ds, [0]).
Proof.
  intros Hne Hd Hlt. destruct ds as [|d ds]; [done|]. pose proof (hex_digits_app (d :: ds) 0 [0] Hd eq_refl) as HD.
  inversion_clear Hd as [|? ? Hd1 Hd2]. pose proof (hex_char_range d Hd1) as Hc. rewrite fmap_cons in *.
  unfold strtoull16. cbn [app skip_space].
  assert (is_space (hex_char d) = false) as ->.
  { unfold is_space. apply orb_false_iff. split; [apply Z.eqb_neq; lia|]. apply andb_false_iff. right. apply Z.leb_gt. lia. }
  rewrite (proj2 (Z.eqb_neq (hex_char d) 45)), (proj2 (Z.eqb_neq (hex_char d) 43)) by lia.
  assert (Hs : forall q, starts_hex (hex_char d :: q) = true) by (intros q; cbn; by rewrite hex_value_char).
  assert ((match (hex_char <$> ds) ++ [0] with
           | x :: q' => if (hex_char d =? 48) && ((x =? 120) || (x =? 88)) && starts_hex q' then q'
                        else hex_char d :: (hex_char <$> ds) ++ [0]
           | [] => hex_char d :: (hex_char <$> ds) ++ [0] end) = hex_char d :: (hex_char <$> ds) ++ [0]) as ->.
  { destruct ds as [|d2 ds]; [by destruct (hex_char d =? 48)|]. rewrite fmap_cons. cbn [app].
    inversion_clear Hd2 as [|? ? Hd3 _]. pose proof (hex_char_range d2 Hd3).
    rewrite (proj2 (Z.eqb_neq (hex_char d2) 120)), (proj2 (Z.eqb_neq (hex_char d2) 88)) by lia. by rewrite andb_false_r. }
  rewrite Hs. cbn [app] in HD. rewrite HD. by rewrite (proj2 (Z.leb_gt _ _)).
Qed.

Lemma c_string_app b rest : no_nul b -> c_string (b ++ 0 :: rest) = b.
Proof. induction 1 as [|c b Hc _ IH]; [done|]. cbn. by rewrite (proj2 (Z.eqb_neq c 0)), IH. Qed.

Lemma ToString_cstr b rest : no_nul b -> StringPiece.ToString (of_cstr (Some (b ++ 0 :: rest))) = Ok b.
Proof.
  intros Hb. unfold StringPiece.ToString, of_cstr, strlen. cbn [ptr_ length_]. rewrite c_string_app by done.
  rewrite range_ok by (rewrite Zlen_app; pose proof (Zlen_nonneg b); pose proof (Zlen_nonneg (0 :: rest)); lia).
  f_equal. apply take_app_length'. unfold Zlen. lia.
Qed.

(** A numeral of a number, with any number of leading zeros. *)
Definition numeral (b : bytes) (n : Z) : Prop := fits_u 64 n /\ exists k, b = replicate k 48 ++ hex n.

(** The digits of a numeral. *)
Lemma numeral_digits b n : numeral b n -> exists ds, ds <> [] /\ Forall (fun d => 0 <= d < 16) ds /\
  b = hex_char <$> ds /\ foldl (fun a d => a * 16 + d) 0 ds = n.
Proof.
  intros [[Hn Hn'] [k ->]]. exists (replicate k 0 ++ reverse (to_digits 16 n)). split_and!.
  - intros [_ E]%app_nil. apply (f_equal length) in E. rewrite length_reverse, to_digits_eq in E by lia. done.
  - apply Forall_app. split; [by apply Forall_replicate|]. apply Forall_reverse, to_digits_range; lia.
  - by rewrite fmap_app, fmap_replicate.
  - rewrite foldl_app. assert (foldl (fun a d => a * 16 + d) 0 (replicate k 0) = 0) as -> by (induction k; [done|exact IHk]).
    rewrite foldl_digits, Z.mul_0_l, Z.add_0_l. apply of_to_digits; lia.
Qed.

Lemma FromHex_numeral b n : numeral b n -> FromHex (of_string b) = Ok n.
Proof.
  intros Hb. pose proof Hb as [Hn _]. destruct (numeral_digits b n Hb) as (ds & Hne & Hr & -> & Hv).
  unfold FromHex, StringPiece.ToString, of_string. cbn [ptr_ length_].
  rewrite range_ok by (pose proof (Zlen_nonneg (hex_char <$> ds)); lia). rstep.
  assert (Z.to_nat (Zlen (hex_char <$> ds)) = length (hex_char <$> ds)) as -> by (unfold Zlen; lia). rewrite firstn_all.
  rewrite strtoull16_digits, Hv by (done || (rewrite Hv; apply Hn)).
  destruct ds as [|d ds]; [done|]. rewrite fmap_cons. cbn [app].
  inversion_clear Hr as [|? ? Hd _]. pose proof (hex_char_range d Hd).
  change (vget (hex_char d :: (hex_char <$> ds) ++ [0]) 0) with (Ok (hex_char d)). rstep. change (vget [0] 0) with (Ok 0). rstep.
  rewrite (proj2 (Z.eqb_neq (hex_char d) 0)) by lia. done.
Qed.

(** ** Mappings *)

(** An entry of /proc/self/maps. *)
Record mapping := mkMapping { m_begin : Z; m_end : Z; m_offset : Z; m_name : bytes }.

(** The fields the regular expression finds in the line of an entry. *)
Definition fields_of (line : option (bytes * bytes * bytes * bytes)) (m : mapping) : Prop :=
  exists b e o, line = Some (b, e, o, m_name m) /\ numeral b (m_begin m) /\ numeral e (m_end m) /\ numeral o (m_offset m).

Definition maps_address (address : Z) (m : mapping) : bool :=
  (m_offset m =? 0) && (m_begin m <=? address) && (address <? m_end m).

Fixpoint mapping_of (address : Z) (l : list mapping) : option mapping :=
  match l with [] => None | m :: l => if maps_address address m then Some m else mapping_of address l end.

Section Correct.
Context (maps : bytes) (split_lines : bytes -> list bytes) (match_line : bytes -> option (bytes * bytes * bytes * bytes))
  (open_file : bytes -> Z * option bytes).

(** The lines of the file, apart from empty ones, are the entries. *)
Context (entries : list (bytes * mapping))
  (Hsplit : filter (fun l => l <> []) (split_lines maps) = fst <$> entries)
  (Hmatch : Forall (fun e => fields_of (match_line (fst e)) (snd e)) entries).

Lemma find_mapping_entries ls es address : filter (fun l => l <> []) ls = fst <$> es ->
  Forall (fun e => fields_of (match_line (fst e)) (snd e)) es ->
  find_mapping match_line ls address =
    Ok ((fun m => mkMappedFile (m_begin m) (m_end m) (m_name m)) <$> mapping_of address (snd <$> es)).
Proof.
  revert es. induction ls as [|l ls IH]; intros es Hf He; cbn [find_mapping].
  { destruct es; [done|discriminate]. }
  destruct (decide (l = [])) as [->|Hne]; [by apply IH|]. rewrite filter_cons_True in Hf by done.
  destruct es as [|[l' m] es]; [discriminate|]. injection Hf as -> Hf.
  apply Forall_cons in He as [(b & e & o & Hm & H1 & H2 & H3) He'].
  assert (empty (of_string l') = false) as ->.
  { apply Z.eqb_neq. cbn. destruct l'; [done|]. rewrite Zlen_cons. pose proof (Zlen_nonneg l'). lia. }
  cbn [fst snd] in *. rewrite Hm, (FromHex_numeral b _ H1), (FromHex_numeral e _ H2), (FromHex_numeral o _ H3). rstep.
  rewrite fmap_cons. cbn [mapping_of snd]. unfold maps_address. destruct (m_offset m =? 0); cbn [negb andb]; [|by apply IH].
  destruct ((m_begin m <=? address) && (address <? m_end m)); [done|by apply IH].
Qed.

(** C6: An address inside a function with debug information is symbolized: the first
    main mapping (offset 0) that has the address gives the file; the address, moved
    from the mapping to the file's load address, gives the symbol whose range has
    it and, through the file's debug sections, the row of the line number program
    that covers it. The answer is the symbol's name with the file and the line of
    that row and the unit's main file. *)
Theorem Symbolize_source t t' address m elf p l symbol name rest dwarf sets offset c before lines row e dir :
  mapping_of address (snd <$> entries) = Some m ->
  GetFile open_file t (m_name m) = Ok (Some elf, t') ->
  let orig := uint64 (address - m_begin m + base_address_ elf) in
  image elf p l -> definition_of orig l ≫= symbol_pointers p l = Some symbol ->
  GetSymbolName elf (Some symbol) = Ok (Some (name ++ 0 :: rest)) -> no_nul name ->
  Dwarf_new elf = Ok dwarf -> debug_info dwarf sets offset c before lines ->
  unit_of orig sets = Some offset -> first_covers (unit_header lines []) orig (unit_program lines) row ->
  1 <= LineNumberVM.file_ row -> unit_files lines !! Z.to_nat (LineNumberVM.file_ row - 1) = Some e ->
  entry_path lines e dir ->
  exists symbol_name info,
    Symbolize maps split_lines match_line open_file t address = Ok (true, symbol_name, info, t') /\
    StringPiece.ToString symbol_name = Ok name /\
    has_file_and_line info = true /\ line info = LineNumberVM.line_ row /\
    Path.ToString (file info) = Ok (PathText.path_text (d_directory (cu_described c)) dir (entry_name e)) /\
    (d_main (cu_described c) <> [] -> has_main_file info = true /\
       Path.ToString (main_file info) =
         Ok (PathText.path_text (d_directory (cu_described c)) [] (d_main (cu_described c)))).
Proof.
  intros Hm Hg orig Hi Hs Hn Hnn Hd Hdi Hu Hr Hk He Hp.
  destruct (FindAddress_located dwarf sets offset c before lines orig row e dir) as (info & Hf & Hinfo); [done..|].
  exists (of_cstr (Some (name ++ 0 :: rest))), info. split; [|split; [by apply ToString_cstr|exact Hinfo]].
  unfold Symbolize, GetMapsLine. rewrite (find_mapping_entries _ entries), Hm by done. cbn [fmap option_fmap option_map]. rstep.
  cbn [Symbolizer.name begin]. rewrite Hg. rstep. fold orig. change (GetBaseAddress elf) with (base_address_ elf). fold orig.
  rewrite (definition_found elf p l) by done. rstep. rewrite Hs, Hn. rstep. rewrite Hd. rstep. by rewrite Hf.
Qed.

(** The answer is negative, with nothing filled in, for an address in no main
    mapping, in a mapping that is no file, or in a file none of whose symbols covers
    it. *)
Theorem Symbolize_not_found t address :
  match mapping_of address (snd <$> entries) with
  | None => True
  | Some m => exists f t', GetFile open_file t (m_name m) = Ok (f, t') /\
      match f with
      | None => True
      | Some elf => exists p l, image elf p l /\ definition_of (uint64 (address - m_begin m + base_address_ elf)) l = None
      end
  end ->
  exists t', Symbolize maps split_lines match_line open_file t address = Ok (false, Piece [] 0, LocationInfo_new, t').
Proof.
  unfold Symbolize, GetMapsLine. rewrite (find_mapping_entries _ entries) by done. rstep.
  destruct (mapping_of address (snd <$> entries)) as [m|]; [|by eexists].
  intros (f & t' & Hg & Hf). exists t'. cbn [fmap option_fmap option_map name begin]. rewrite Hg. rstep.
  destruct f as [elf|]; [|done]. destruct Hf as (p & l & Hi & Hn).
  change (GetBaseAddress elf) with (base_address_ elf). by rewrite (definition_found elf p l), Hn.
Qed.
End Correct.

(** A file is opened once: after it was found its object is reused. *)
Theorem GetFile_cached open_file open_file' t name f t' :
  GetFile open_file t name = Ok (Some f, t') ->
  GetFile open_file' t' name = Ok (Some f, t') /\ forall other, other <> name -> t' !! other = t !! other.
Proof.
  unfold GetFile. destruct (vget (name ++ [0]) 0) as [first|]; [|done]. rstep.
  destruct (if first =? 91 then _ else _) as [[]|]; [done| |done]. rstep.
  destruct (t !! name) as [g|] eqn:Eg.
  - intros [= <- <-]. by rewrite Eg.
  - destruct (open_file name) as [fd contents]. intros H. apply bind_ok_inv in H as (g & Hg & [= <- <-]).
    unfold Symbolizer in *. rewrite lookup_insert_eq. split; [done|]. intros other Ho. by rewrite lookup_insert_ne.
Qed.

(** An address in an anonymous mapping (which has an empty name) makes GetFile
    read outside the name. *)
Theorem anonymous_mapping_faults open_file t : GetFile open_file t [] = Err OutOfBounds.
Proof. reflexivity. Qed.

(** ** The text of a frame *)

Lemma empty_cstr b rest : no_nul b -> empty (of_cstr (Some (b ++ 0 :: rest))) = bool_decide (b = []).
Proof.
  intros Hb. unfold empty, of_cstr, strlen. cbn [length_]. rewrite c_string_app by done.
  destruct b as [|c b]; [done|]. rewrite bool_decide_eq_false_2 by done. apply Z.eqb_neq. rewrite Zlen_cons.
  pose proof (Zlen_nonneg b). lia.
Qed.

(** The line written for a frame: the address, the demangled name or "(unknown)",
    the file and the line if they are known, and the unit's main file when it is
    known and is another file. *)
Theorem Write_frame demangle out address name rest info f m : no_nul name ->
  (has_file_and_line info = true -> Path.ToString (file info) = Ok f /\ 0 <= line info < 10 ^ 19) ->
  (has_main_file info = true -> Path.ToString (main_file info) = Ok m) ->
  Write demangle out address (of_cstr (Some (name ++ 0 :: rest))) info = Ok
    (out ++ str "    @ " ++ format_address address ++
     (if bool_decide (name = []) then str " (unknown)"
      else str " " ++ demangle name ++
           (if has_file_and_line info then str "   " ++ f ++ str ":" ++ dec (line info) else []) ++
           (if has_main_file info && negb (has_file_and_line info && bool_decide (f = m))
            then [10] ++ str "                         (compiling " ++ m ++ str ")" else [])) ++ [10]).
Proof.
  intros Hn Hf Hm. unfold Write. rewrite empty_cstr by done. cbn [of_cstr ptr_]. rewrite c_string_app by done.
  case_bool_decide as E; cbn [negb]; [rstep; by rewrite <- !app_assoc|].
  destruct (has_file_and_line info).
  - destruct Hf as [-> Hl]; [done|]. rstep.
    assert (stored 20 (dec (line info)) = dec (line info)) as ->.
    { destruct (dec_length (line info) 19) as [_ Hd]; [exact Hl|lia|]. apply take_ge. exact Hd. }
    destruct (has_main_file info); rstep; [rewrite Hm by done|by rewrite <- !app_assoc]. rstep.
    destruct (decide (f = m)) as [->|Hfm].
    + rewrite bool_decide_eq_false_2, bool_decide_eq_true_2 by naive_solver. cbn [negb]. rstep. by rewrite <- !app_assoc.
    + rewrite bool_decide_eq_true_2, bool_decide_eq_false_2 by done. cbn [negb]. rstep. by rewrite <- !app_assoc.
  - rstep. destruct (has_main_file info); rstep; [rewrite Hm by done|]; rstep; by rewrite <- !app_assoc.
Qed.

(** ** A process with one mapped file *)

Definition demo_maps : list (bytes * mapping) :=
  [(str "00400000-00401000 r-xp 00000000 08:01 42  /bin/demo", mkMapping 4194304 4198400 0 (str "/bin/demo"));
   (str "00600000-00601000 rw-p 00001000 08:01 42  /bin/demo", mkMapping 6291456 6295552 4096 (str "/bin/demo"));
   (str "7ffc0000-7ffd0000 rw-p 00000000 00:00 0   [stack]", mkMapping 2147221504 2147287040 0 (str "[stack]"))].

Definition demo_split (s : bytes) : list bytes := (fst <$> demo_maps) ++ [[]].

Definition demo_match (line : bytes) : option (bytes * bytes * bytes * bytes) :=
  '(_, m) ← List.find (fun e => bool_decide (fst e = line)) demo_maps;
  Some (take 8 line, take 8 (drop 9 line), take 8 (drop 23 line), m_name m).

Definition demo_open (name : bytes) : Z * option bytes :=
  if bool_decide (name = str "/bin/demo") then (3, Some object_file) else (-1, None).

Lemma demo_lines : Forall (fun e => fields_of (demo_match (fst e)) (snd e)) demo_maps.
Proof.
  assert (Hn : forall k b n, fits_u 64 n -> b = replicate k 48 ++ hex n -> numeral b n) by (intros k; split; eauto).
  repeat constructor; eexists _, _, _; (split; [vm_compute; reflexivity|]).
  - split; [by apply (Hn 2%nat)|]. split; [by apply (Hn 2%nat)|]. by apply (Hn 7%nat).
  - split; [by apply (Hn 2%nat)|]. split; [by apply (Hn 2%nat)|]. by apply (Hn 4%nat).
  - split; [by apply (Hn 0%nat)|]. split; [by apply (Hn 0%nat)|]. by apply (Hn 7%nat).
Defined.

Definition object_image : list (SectionHeader * list SymbolEntry) := Eval vm_compute in
  (fun s => (s, if s_type s =? SHT_SYMTAB then object_symbols else [])) <$> object_sections.

Lemma object_image_at : image object_elf 544 object_image.
Proof.
  split; [vm_compute; reflexivity|]. split.
  - repeat (split; [split; [eexists; vm_compute; reflexivity|vm_compute; repeat split; reflexivity]|]). exact I.
  - do 2 (constructor; [reflexivity|]). constructor; [|by repeat (constructor; [reflexivity|])].
    split; [vm_compute; discriminate|]. split; [discriminate|]. split; [reflexivity|]. repeat (split; [vm_compute; repeat split; reflexivity|]). exact I.
Defined.

Lemma Symbolize_source_witness : exists symbol_name info t',
  Symbolize [] demo_split demo_match demo_open ∅ 4194328 = Ok (true, symbol_name, info, t') /\
  StringPiece.ToString symbol_name = Ok (str "main") /\ line info = 11 /\
  Path.ToString (file info) = Ok (str "/usr/include/b.h") /\ Path.ToString (main_file info) = Ok (str "/src/a.cc").
Proof.
  destruct (Symbolize_source [] demo_split demo_match demo_open demo_maps eq_refl demo_lines
    ∅ {[ str "/bin/demo" := object_elf ]} 4194328 (mkMapping 4194304 4198400 0 (str "/bin/demo")) object_elf 544 object_image
    (672, 232) (str "main") (drop 208 object_file) demo_dwarf demo_sets 5 demo_cu demo_before demo_unit demo_row
    (mkFileEntry (str "b.h") 1 0 300) (str "/usr/include")) as (n & info & H & Hn & _ & Hl & Hf & Hm).
  - reflexivity.
  - vm_compute. reflexivity.
  - exact object_image_at.
  - vm_compute. reflexivity.
  - vm_compute. reflexivity.
  - repeat constructor; discriminate.
  - exact object_dwarf.
  - exact demo_debug_info.
  - reflexivity.
  - exists [], demo_code, []. split; [done|]. split; [|constructor].
    exists 1%nat, (set_address 4121 demo_row). split; [vm_compute; done|]. split; [vm_compute; done|]. split; [done|].
    intros [|[|j]] q Hj Hq; [| |lia]; vm_compute in Hq; injection Hq as <-; vm_compute; done.
  - done.
  - reflexivity.
  - vm_compute. reflexivity.
  - exists n, info, {[ str "/bin/demo" := object_elf ]}. destruct Hm as [_ Hm]; [discriminate|].
    exact (conj H (conj Hn (conj Hl (conj Hf Hm)))).
Defined.

Lemma Symbolize_not_found_witness : exists t',
  Symbolize [] demo_split demo_match demo_open ∅ 4194500 = Ok (false, Piece [] 0, LocationInfo_new, t').
Proof.
  apply (Symbolize_not_found [] demo_split demo_match demo_open demo_maps eq_refl demo_lines).
  cbn. exists (Some object_elf), {[ str "/bin/demo" := object_elf ]}. split; [vm_compute; reflexivity|].
  exists 544, object_image. split; [exact object_image_at|vm_compute; reflexivity].
Defined.

Lemma GetFile_cached_witness : GetFile (fun _ => (-1, None)) {[ str "/bin/demo" := object_elf ]} (str "/bin/demo") =
  Ok (Some object_elf, {[ str "/bin/demo" := object_elf ]}).
Proof.
  apply (GetFile_cached demo_open (fun _ => (-1, None)) ∅ (str "/bin/demo")). vm_compute. reflexivity.
Defined.

Lemma Write_frame_witness : Write (fun n => n ++ str "()") [] 4194328 (of_cstr (Some (str "main" ++ [0]))) LocationInfo_new =
  Ok (str "    @           0x400018 main()" ++ [10]).
Proof.
  refine (Write_frame (fun n => n ++ str "()") [] 4194328 (str "main") [] LocationInfo_new [] [] _ _ _).
  - repeat constructor; discriminate.
  - discriminate.
  - discriminate.
Defined.
