(* ===== verification/Json.v ===== *)
(** * JSON documents

    The values the library builds with rapidjson before handing them to its
    writer, which is not part of the repository. *)

From S2P Require Import Prelude Bytes.

(** [JRef] is a string the document refers to without owning it (StringRef),
    [JStr] one copied into the document's allocator. *)
Inductive json :=
  | JInt (n : Z)
  | JRef (s : bytes)
  | JStr (s : bytes)
  | JArray (l : list json)
  | JObject (l : list (bytes * json)).
