(* ===== verification/Samples.v ===== *)
(** * metrics/BucketRanges, HistogramSamples and SampleVector

    The buckets of a histogram and the vector of counts over them:
    claire/common/metrics/BucketRanges.{h,cc}, HistogramSamples.{h,cc} and
    SampleVector.{h,cc}. Samples and counts are 32-bit ints, the sum an int64. *)

From S2P Require Import Prelude.

(** ** BucketRanges *)

(* @src claire/common/metrics/BucketRanges.h:51-54 BucketRanges *)
Record BucketRanges := Ranges { ranges_ : list Z }.

(* @src claire/common/metrics/BucketRanges.h:37-38 BucketRanges::BucketRanges *)
Definition BucketRanges_new (num_ranges : Z) : BucketRanges :=
  Ranges (replicate (Z.to_nat num_ranges) 0).

(* @src claire/common/metrics/BucketRanges.h:40-41 BucketRanges::size, range *)
Definition range (r : BucketRanges) (i : Z) : res Z := vget (ranges_ r) i.

(* @src claire/common/metrics/BucketRanges.cc:17-22 BucketRanges::set_range *)
Definition set_range (i value : Z) (r : BucketRanges) : res BucketRanges :=
  _ ← check (i <? Zlen (ranges_ r));
  _ ← check (0 <? value);
  l ← vset (ranges_ r) i value;
  Ok (Ranges l).

(* @src claire/common/metrics/BucketRanges.h:48-48 BucketRanges::bucket_count *)
Definition bucket_count (r : BucketRanges) : Z := uint64 (Zlen (ranges_ r) - 1).

(** ** The iterator interface *)

(** Done(), Next() and Get() of SampleCountIterator: Get yields the bucket's
    bounds and its count. *)
(* @src claire/common/metrics/HistogramSamples.h:51-70 SampleCountIterator *)
Class SampleCountIterator (I : Type) := {
  Done : I -> bool;
  Next : I -> res I;
  Get : I -> res (Z * Z * Z);
}.

(** ** SampleVector *)

(* @src claire/common/metrics/SampleVector.h:51-54 SampleVector *)
Record SampleVector := SV {
  counts_ : list Z;
  bucket_ranges_ : BucketRanges;
  sum_ : Z;
}.

(* @src claire/common/metrics/SampleVector.cc:19-24 SampleVector::SampleVector *)
Definition SampleVector_new (r : BucketRanges) : res SampleVector :=
  _ ← check (1 <=? bucket_count r);
  Ok (SV (replicate (Z.to_nat (bucket_count r)) 0) r 0).

(** The do-while loop of the binary search. *)
(* @src claire/common/metrics/SampleVector.cc:99-112 SampleVector::GetBucketIndex *)
Fixpoint bucket_search (fuel : nat) (r : BucketRanges) (value under over : Z) : res Z :=
  match fuel with
  | O => Err NoFuel
  | S fuel =>
      _ ← check (under <=? over);
      let mid := under + (over - under) / 2 in
      if mid =? under then Ok mid
      else
        x ← range r mid;
        if x <=? value then bucket_search fuel r value mid over
        else bucket_search fuel r value under mid
  end.

(* @src claire/common/metrics/SampleVector.cc:92-118 SampleVector::GetBucketIndex *)
Definition GetBucketIndex_fuel (fuel : nat) (r : BucketRanges) (value : Z) : res Z :=
  let n := bucket_count r in
  _ ← check (1 <=? n);
  lo ← range r 0;
  _ ← check (lo <=? value);
  hi ← range r n;
  _ ← check (value <? hi);
  mid ← bucket_search fuel r value 0 n;
  a ← range r mid;
  _ ← check (a <=? value);
  b ← range r (mid + 1);
  _ ← check (value <? b);
  Ok mid.

(** The search halves an interval of less than 2^64: 65 passes are enough. *)
Definition GetBucketIndex (r : BucketRanges) (value : Z) : res Z := GetBucketIndex_fuel 65 r value.

(** [count] only enters the sum: one bucket is incremented by one. *)
(* @src claire/common/metrics/SampleVector.cc:26-31 SampleVector::Accumulate *)
Definition Accumulate (value count : Z) (s : SampleVector) : res SampleVector :=
  i ← GetBucketIndex (bucket_ranges_ s) value;
  c ← vget (counts_ s) i;
  counts ← vset (counts_ s) i (int32 (c + 1));
  Ok (SV counts (bucket_ranges_ s) (int64 (sum_ s + int32 (count * value)))).

(* @src claire/common/metrics/SampleVector.cc:33-37 SampleVector::GetCount *)
Definition GetCount (value : Z) (s : SampleVector) : res Z :=
  i ← GetBucketIndex (bucket_ranges_ s) value;
  vget (counts_ s) i.

(* @src claire/common/metrics/SampleVector.cc:39-47 SampleVector::TotalCount *)
Definition TotalCount (s : SampleVector) : Z := foldl (fun count x => int32 (count + x)) 0 (counts_ s).

(* @src claire/common/metrics/SampleVector.cc:49-53 SampleVector::GetCountAtIndex *)
Definition GetCountAtIndex (i : Z) (s : SampleVector) : res Z :=
  _ ← check (i <? Zlen (counts_ s));
  vget (counts_ s) i.

(** ** SampleVectorIterator *)

(* @src claire/common/metrics/SampleVector.h:77-80 SampleVectorIterator *)
Record SampleVectorIterator := SVI {
  it_counts : list Z;
  it_ranges : BucketRanges;
  index_ : Z;
}.

(** The number of empty buckets at the front of a list of counts. *)
(* @src claire/common/metrics/SampleVector.cc:175-190 SampleVectorIterator::SkipEmptyBuckets *)
Fixpoint skip_empty (counts : list Z) : Z :=
  match counts with
  | c :: counts => if c =? 0 then 1 + skip_empty counts else 0
  | [] => 0
  end.

Definition SkipEmptyBuckets (i : SampleVectorIterator) : SampleVectorIterator :=
  SVI (it_counts i) (it_ranges i)
    (index_ i + skip_empty (drop (Z.to_nat (index_ i)) (it_counts i))).

(* @src claire/common/metrics/SampleVector.cc:120-128 SampleVectorIterator::SampleVectorIterator *)
Definition SampleVectorIterator_new (counts : list Z) (r : BucketRanges) : res SampleVectorIterator :=
  _ ← check (Zlen counts <=? bucket_count r);
  Ok (SkipEmptyBuckets (SVI counts r 0)).

(* @src claire/common/metrics/SampleVector.cc:132-135 SampleVectorIterator::Done *)
Definition it_Done (i : SampleVectorIterator) : bool := index_ i =? Zlen (it_counts i).

(* @src claire/common/metrics/SampleVector.cc:137-142 SampleVectorIterator::Next *)
Definition it_Next (i : SampleVectorIterator) : res SampleVectorIterator :=
  _ ← check (negb (it_Done i));
  Ok (SkipEmptyBuckets (SVI (it_counts i) (it_ranges i) (index_ i + 1))).

(* @src claire/common/metrics/SampleVector.cc:144-163 SampleVectorIterator::Get *)
Definition it_Get (i : SampleVectorIterator) : res (Z * Z * Z) :=
  _ ← check (negb (it_Done i));
  min ← range (it_ranges i) (index_ i);
  max ← range (it_ranges i) (index_ i + 1);
  count ← vget (it_counts i) (index_ i);
  Ok (min, max, count).

(* @src claire/common/metrics/SampleVector.cc:165-173 SampleVectorIterator::GetBucketIndex *)
Definition it_GetBucketIndex (i : SampleVectorIterator) : res Z :=
  _ ← check (negb (it_Done i)); Ok (index_ i).

(* @src claire/common/metrics/SampleVector.h:57-81 SampleVectorIterator *)
#[export] Instance sample_vector_iterator : SampleCountIterator SampleVectorIterator := {
  Done := it_Done;
  Next := it_Next;
  Get := it_Get;
}.

(** ** Adding and subtracting *)

(* @src claire/common/metrics/HistogramSamples.h:42-42 HistogramSamples::Operator *)
Inductive Operator := ADD | SUBTRACT.

Section AddSubtract.
Context {I : Type} `{SampleCountIterator I}.

(** The loop returns iter->Done(). *)
(* @src claire/common/metrics/SampleVector.cc:69-87 SampleVector::AddSubtractImpl *)
Fixpoint add_subtract_loop (fuel : nat) (op : Operator) (r : BucketRanges) (counts : list Z)
  (index : Z) (iter : I) : res (bool * list Z) :=
  match fuel with
  | O => Err NoFuel
  | S fuel =>
      if (index <? Zlen counts) && negb (Done iter) then
        '(min, max, count) ← Get iter;
        a ← range r index;
        match (if min =? a then b ← range r (index + 1); Ok (max =? b) else Ok false) with
        | Err e => Err e
        | Ok true =>
            c ← vget counts index;
            counts ← vset counts index (int32 (c + match op with ADD => count | SUBTRACT => - count end));
            iter ← Next iter;
            add_subtract_loop fuel op r counts index iter
        | Ok false =>
            if a <? min then add_subtract_loop fuel op r counts (index + 1) iter
            else Ok (false, counts)
        end
      else Ok (Done iter, counts)
  end.

(* @src claire/common/metrics/SampleVector.cc:60-88 SampleVector::AddSubtractImpl *)
Definition AddSubtractImpl (fuel : nat) (iter : I) (op : Operator) (s : SampleVector)
  : res (bool * SampleVector) :=
  '(ok, counts) ← add_subtract_loop fuel op (bucket_ranges_ s) (counts_ s) 0 iter;
  Ok (ok, SV counts (bucket_ranges_ s) (sum_ s)).
End AddSubtract.

(** Passes of the loop: each moves the bucket index or the iterator. *)
Definition add_fuel (s other : SampleVector) : nat := S (length (counts_ s) + length (counts_ other)).

Definition combine (op : Operator) (other s : SampleVector) : res SampleVector :=
  let s := SV (counts_ s) (bucket_ranges_ s)
              (int64 (match op with ADD => sum_ s + sum_ other | SUBTRACT => sum_ s - sum_ other end)) in
  iter ← SampleVectorIterator_new (counts_ other) (bucket_ranges_ other);
  '(success, s) ← AddSubtractImpl (add_fuel s other) iter op s;
  _ ← check success;
  Ok s.

(* @src claire/common/metrics/HistogramSamples.cc:15-20 HistogramSamples::Add *)
Definition Add (other s : SampleVector) : res SampleVector := combine ADD other s.

(* @src claire/common/metrics/HistogramSamples.cc:22-27 HistogramSamples::Subtract *)
Definition Subtract (other s : SampleVector) : res SampleVector := combine SUBTRACT other s.

(* @src claire/common/metrics/HistogramSamples.cc:29-32 HistogramSamples::IncreaseSum *)
Definition IncreaseSum (diff : Z) (s : SampleVector) : SampleVector :=
  SV (counts_ s) (bucket_ranges_ s) (int64 (sum_ s + diff)).

(** ** Lemmas and properties *)

(** The bounds increase strictly; a vector has one count per bucket. *)
Definition increasing (r : BucketRanges) : Prop :=
  forall i j x y, (i < j)%nat -> ranges_ r !! i = Some x -> ranges_ r !! j = Some y -> x < y.

Record ranges_ok (r : BucketRanges) : Prop := {
  ro_size : 2 <= Zlen (ranges_ r) < 2 ^ 31;
  ro_incr : increasing r;
}.

Record samples_ok (s : SampleVector) : Prop := {
  so_ranges : ranges_ok (bucket_ranges_ s);
  so_len : Zlen (counts_ s) = bucket_count (bucket_ranges_ s);
}.

Lemma bucket_count_eq r : ranges_ok r -> bucket_count r = Zlen (ranges_ r) - 1.
Proof. intros [Hs _]. apply wrap_u_id. unfold fits_u. lia. Qed.

Lemma increasing_lt r i j x y : increasing r -> i < j -> range r i = Ok x -> range r j = Ok y -> x < y.
Proof.
  intros Hi Hij [Hi0 Hx]%vget_ok [Hj0 Hy]%vget_ok. eapply Hi; [|exact Hx|exact Hy]. lia.
Qed.

Lemma increasing_le r i j x y : increasing r -> i <= j -> range r i = Ok x -> range r j = Ok y -> x <= y.
Proof.
  intros Hi Hij Hx Hy. destruct (decide (i = j)) as [->|]; [rewrite Hx in Hy; injection Hy; lia|].
  enough (x < y) by lia. eapply increasing_lt; [exact Hi| |exact Hx|exact Hy]. lia.
Qed.

(** The total is the sum of the counts, wrapped. *)
Lemma total_sum l a : foldl (fun count x => int32 (count + x)) (int32 a) l = int32 (a + zsum l).
Proof.
  revert a. induction l as [|x l IH]; intros a; cbn [foldl].
  { change (zsum []) with 0. f_equal. lia. }
  change (zsum (x :: l)) with (x + zsum l). rewrite wrap_s_add_l by lia. rewrite IH. f_equal. lia.
Qed.

Lemma TotalCount_sum s : TotalCount s = int32 (zsum (counts_ s)).
Proof. unfold TotalCount. change 0 with (int32 0) at 1. apply total_sum. Qed.

(** Membership in bucket [i]. *)
Definition in_bucket (r : BucketRanges) (i v : Z) : Prop :=
  exists a b, range r i = Ok a /\ range r (i + 1) = Ok b /\ a <= v < b.

Lemma in_bucket_unique r i j v : increasing r -> in_bucket r i v -> in_bucket r j v -> i = j.
Proof.
  intros Hr (a & b & Ha & Hb & Hv) (c & d & Hc & Hd & Hw).
  destruct (Z.lt_trichotomy i j) as [Hlt|[->|Hlt]]; [|done|]; exfalso.
  - pose proof (increasing_le r (i + 1) j b c Hr ltac:(lia) Hb Hc). lia.
  - pose proof (increasing_le r (j + 1) i d a Hr ltac:(lia) Hd Ha). lia.
Qed.

Lemma bucket_search_spec fuel : forall r v under over x y,
  0 <= under -> under < over < Zlen (ranges_ r) -> over - under <= 2 ^ (Z.of_nat fuel - 1) -> (0 < fuel)%nat ->
  range r under = Ok x -> x <= v -> range r over = Ok y -> v < y ->
  exists i, bucket_search fuel r v under over = Ok i /\ in_bucket r i v /\ under <= i < over.
Proof.
  induction fuel as [|fuel IH]; intros r v under over x y H0 Huo Hf Hfp Hx Hxv Hy Hvy; [lia|].
  cbn [bucket_search]. rewrite (proj2 (Z.leb_le _ _)) by lia. rstep.
  pose proof (Z.div_mod (over - under) 2 ltac:(lia)) as Hdm.
  pose proof (Z.mod_pos_bound (over - under) 2 ltac:(lia)) as Hmb.
  set (h := (over - under) / 2) in *.
  destruct (under + h =? under) eqn:E; zify_bool.
  - exists under. split; [f_equal; lia|]. split; [|lia].
    exists x, y. replace (under + 1) with over by lia. auto.
  - destruct (vget_in (ranges_ r) (under + h)) as [z Hz]; [lia|].
    unfold range at 1. rewrite Hz. rstep.
    destruct fuel as [|fuel]; [change (2 ^ (Z.of_nat 1 - 1)) with 1 in Hf; lia|].
    assert (Hpow : 2 ^ (Z.of_nat (S (S fuel)) - 1) = 2 * 2 ^ (Z.of_nat (S fuel) - 1))
      by (rewrite <- Z.pow_succ_r by lia; f_equal; lia).
    destruct (z <=? v) eqn:Ez; zify_bool.
    + destruct (IH r v (under + h) over z y) as (i & Hi & Hb & Hr); [lia|lia|lia|lia|done..|].
      exists i. split; [done|]. split; [done|lia].
    + destruct (IH r v under (under + h) x z) as (i & Hi & Hb & Hr); [lia|lia|lia|lia|done..|].
      exists i. split; [done|]. split; [done|lia].
Qed.

Lemma GetBucketIndex_fuel_in fuel r v lo hi :
  ranges_ok r -> bucket_count r <= 2 ^ (Z.of_nat fuel - 1) -> (0 < fuel)%nat ->
  range r 0 = Ok lo -> range r (bucket_count r) = Ok hi -> lo <= v < hi ->
  exists i, GetBucketIndex_fuel fuel r v = Ok i /\ 0 <= i < bucket_count r /\ in_bucket r i v.
Proof.
  intros Hr Hf Hf0 Hlo Hhi Hv. pose proof (bucket_count_eq r Hr) as Hn. destruct Hr as [Hs Hi].
  unfold GetBucketIndex_fuel. rewrite (proj2 (Z.leb_le 1 (bucket_count r))) by lia. rstep.
  rewrite Hlo. rstep. rewrite (proj2 (Z.leb_le lo v)) by lia. rstep.
  rewrite Hhi. rstep. rewrite (proj2 (Z.ltb_lt v hi)) by lia. rstep.
  destruct (bucket_search_spec fuel r v 0 (bucket_count r) lo hi) as (i & Hsrch & Hb & Hir);
    [lia|lia|lia|done|done|lia|done|lia|].
  rewrite Hsrch. rstep. pose proof Hb as (a & b & Ha & Hb' & Hvb). rewrite Ha. rstep.
  rewrite (proj2 (Z.leb_le a v)) by lia. rstep. rewrite Hb'. rstep.
  rewrite (proj2 (Z.ltb_lt v b)) by lia. rstep. by exists i.
Qed.

Lemma GetBucketIndex_fuel_out fuel r v lo hi :
  ranges_ok r -> range r 0 = Ok lo -> range r (bucket_count r) = Ok hi -> ~ lo <= v < hi ->
  GetBucketIndex_fuel fuel r v = Err CheckFailed.
Proof.
  intros Hr Hlo Hhi Hv. pose proof (bucket_count_eq r Hr). destruct Hr as [Hs _].
  unfold GetBucketIndex_fuel. rewrite (proj2 (Z.leb_le 1 (bucket_count r))) by lia. rstep.
  rewrite Hlo. rstep. destruct (lo <=? v) eqn:E1; rstep; [|done]. rewrite Hhi. rstep.
  destruct (v <? hi) eqn:E2; rstep; [|done]. zify_bool. lia.
Qed.

Lemma GetBucketIndex_in r v lo hi :
  ranges_ok r -> range r 0 = Ok lo -> range r (bucket_count r) = Ok hi -> lo <= v < hi ->
  exists i, GetBucketIndex r v = Ok i /\ 0 <= i < bucket_count r /\ in_bucket r i v.
Proof.
  intros Hr. apply GetBucketIndex_fuel_in; [done| |lia].
  pose proof (bucket_count_eq r Hr). destruct Hr as [Hs _].
  assert (H64 : 2 ^ (Z.of_nat 65 - 1) = 2 ^ 64) by reflexivity. rewrite H64. lia.
Qed.

Lemma ranges_ends r : ranges_ok r ->
  exists lo hi, range r 0 = Ok lo /\ range r (bucket_count r) = Ok hi.
Proof.
  intros Hr. pose proof (bucket_count_eq r Hr) as Hn. destruct Hr as [Hs Hi].
  destruct (vget_in (ranges_ r) 0) as [lo Hlo]; [lia|].
  destruct (vget_in (ranges_ r) (bucket_count r)) as [hi Hhi]; [lia|]. by exists lo, hi.
Qed.

(** C29: the binary search always ends and finds the bucket of a value: for
    strictly increasing bounds and a value between the first and the last one, it
    returns the only index whose bucket contains the value; any other value
    fails a CHECK. *)
Theorem GetBucketIndex_correct r v :
  ranges_ok r ->
  exists lo hi, range r 0 = Ok lo /\ range r (bucket_count r) = Ok hi /\
    (lo <= v < hi -> exists i, GetBucketIndex r v = Ok i /\ 0 <= i < bucket_count r /\ in_bucket r i v /\
       forall j, in_bucket r j v -> j = i) /\
    (~ lo <= v < hi -> GetBucketIndex r v = Err CheckFailed).
Proof.
  intros Hr. destruct (ranges_ends r Hr) as (lo & hi & Hlo & Hhi).
  exists lo, hi. split; [done|]. split; [done|]. split.
  - intros Hv. destruct (GetBucketIndex_in r v lo hi Hr Hlo Hhi Hv) as (i & H1 & H2 & H3).
    exists i. split; [done|]. split; [done|]. split; [done|].
    intros j Hj. by apply (in_bucket_unique r j i v (ro_incr r Hr)).
  - intros Hv. by apply (GetBucketIndex_fuel_out 65 r v lo hi).
Qed.

(** Accumulate adds one to the bucket of the value, whatever [count] is, and
    [count] times the value to the sum; every other bucket is unchanged. The total
    grows by one as long as no counter overflows. *)
Lemma Accumulate_spec s v n lo hi :
  samples_ok s -> range (bucket_ranges_ s) 0 = Ok lo ->
  range (bucket_ranges_ s) (bucket_count (bucket_ranges_ s)) = Ok hi -> lo <= v < hi ->
  exists s' i c, Accumulate v n s = Ok s' /\ samples_ok s' /\ bucket_ranges_ s' = bucket_ranges_ s /\
    in_bucket (bucket_ranges_ s) i v /\ vget (counts_ s) i = Ok c /\
    vget (counts_ s') i = Ok (int32 (c + 1)) /\
    (forall j, j <> i -> vget (counts_ s') j = vget (counts_ s) j) /\
    sum_ s' = int64 (sum_ s + int32 (n * v)) /\
    (fits_s 32 (c + 1) -> TotalCount s' = int32 (TotalCount s + 1)).
Proof.
  intros [Hr Hl] Hlo Hhi Hv. destruct (GetBucketIndex_in _ v lo hi Hr Hlo Hhi Hv) as (i & Hi & Hib & Hin).
  destruct (vget_in (counts_ s) i) as [c Hc]; [lia|].
  exists (SV (<[Z.to_nat i := int32 (c + 1)]> (counts_ s)) (bucket_ranges_ s)
    (int64 (sum_ s + int32 (n * v)))), i, c.
  unfold Accumulate. rewrite Hi. rstep. rewrite Hc. rstep. rewrite vset_ok by lia. rstep.
  split; [done|]. split; [split; [done|]; cbn [counts_ bucket_ranges_]; by rewrite Zlen_insert|].
  split; [done|]. split; [done|]. split; [done|]. cbn [counts_ sum_].
  split; [by apply vget_insert_eq; lia|]. split; [|split; [done|]].
  - intros j Hj. apply vget_insert_ne; [lia|done].
  - intros Hfit. rewrite wrap_s_id by done. apply vget_ok in Hc as [_ Hc].
    rewrite !TotalCount_sum. cbn [counts_]. rewrite (zsum_insert _ _ c) by done.
    rewrite wrap_s_add_l by lia. f_equal. lia.
Qed.

(** ** Addition and subtraction of samples *)

Lemma skip_empty_spec l :
  0 <= skip_empty l <= Zlen l /\
  (forall j c, (j < Z.to_nat (skip_empty l))%nat -> l !! j = Some c -> c = 0) /\
  (forall c, l !! Z.to_nat (skip_empty l) = Some c -> c <> 0).
Proof.
  induction l as [|x l IH]; cbn [skip_empty].
  { change (Zlen (@nil Z)) with 0. split; [lia|]. by split. }
  rewrite Zlen_cons. pose proof (Zlen_nonneg l). destruct (x =? 0) eqn:E; zify_bool.
  - destruct IH as (H1 & H2 & H3). split; [lia|].
    replace (Z.to_nat (1 + skip_empty l)) with (S (Z.to_nat (skip_empty l))) by lia. split.
    + intros [|j] c Hj Hc; [by simplify_eq/=|]. apply (H2 j); [lia|done].
    + intros c Hc. by apply H3.
  - split; [lia|]. split; [intros j c Hj; lia|]. intros c Hc. by simplify_eq/=.
Qed.

(** The iterator stands on a non-empty bucket or at the end; what it skipped was
    empty. *)
Lemma SkipEmptyBuckets_spec it :
  0 <= index_ it <= Zlen (it_counts it) ->
  let it' := SkipEmptyBuckets it in
  it_counts it' = it_counts it /\ it_ranges it' = it_ranges it /\
  index_ it <= index_ it' <= Zlen (it_counts it) /\
  (forall j c, (Z.to_nat (index_ it) <= j < Z.to_nat (index_ it'))%nat -> it_counts it !! j = Some c -> c = 0) /\
  (forall c, it_counts it !! Z.to_nat (index_ it') = Some c -> c <> 0).
Proof.
  intros Hi. cbn. set (l := drop (Z.to_nat (index_ it)) (it_counts it)).
  destruct (skip_empty_spec l) as (H1 & H2 & H3).
  assert (Hl : Zlen l = Zlen (it_counts it) - index_ it) by (unfold l, Zlen; rewrite length_drop; unfold Zlen in Hi; lia).
  assert (Hlk : forall j, l !! j = it_counts it !! (Z.to_nat (index_ it) + j)%nat)
    by (intros j; apply lookup_drop).
  split; [done|]. split; [done|]. split; [lia|]. split.
  - intros j c Hj Hc. apply (H2 (j - Z.to_nat (index_ it))%nat); [lia|].
    rewrite Hlk. by replace (_ + _)%nat with j by lia.
  - intros c Hc. apply H3. rewrite Hlk.
    assert (Z.to_nat (index_ it) + Z.to_nat (skip_empty l) = Z.to_nat (index_ it + skip_empty l))%nat as ->
      by lia. exact Hc.
Qed.

Definition comb (op : Operator) (c d : Z) : Z :=
  if d =? 0 then c else int32 (c + match op with ADD => d | SUBTRACT => - d end).

(** The counts after the buckets below [k] of the other vector were added. *)
Definition added (op : Operator) (cs ds counts : list Z) (k : Z) : Prop :=
  length counts = length cs /\
  forall j c d, cs !! j = Some c -> ds !! j = Some d ->
    counts !! j = Some (if Z.of_nat j <? k then comb op c d else c).

Lemma added_skip op cs ds counts k k' : added op cs ds counts k -> k <= k' ->
  (forall j c, (Z.to_nat k <= j < Z.to_nat k')%nat -> ds !! j = Some c -> c = 0) ->
  added op cs ds counts k'.
Proof.
  intros [Hl Ha] Hk Hz. split; [done|]. intros j c d Hc Hd. rewrite (Ha j c d Hc Hd). f_equal.
  destruct (Z.of_nat j <? k) eqn:E1, (Z.of_nat j <? k') eqn:E2; zify_bool; try lia; try done.
  rewrite (Hz j d) by (done || lia). done.
Qed.

Lemma added_here op cs ds counts k c d :
  added op cs ds counts k -> 0 <= k -> cs !! Z.to_nat k = Some c -> ds !! Z.to_nat k = Some d -> d <> 0 ->
  vget counts k = Ok c /\
  added op cs ds (<[Z.to_nat k := int32 (c + match op with ADD => d | SUBTRACT => - d end)]> counts) (k + 1).
Proof.
  intros [Hl Ha] Hk Hc Hd Hne.
  assert (counts !! Z.to_nat k = Some c) as Hck.
  { rewrite (Ha _ c d Hc Hd). rewrite (proj2 (Z.ltb_ge _ _)); [done|lia]. }
  split; [by apply vget_lookup|]. split; [by rewrite length_insert|].
  intros j c' d' Hc' Hd'. destruct (decide (j = Z.to_nat k)) as [->|Hj].
  - simplify_eq. rewrite list_lookup_insert_eq by (by eapply lookup_lt_Some).
    rewrite (proj2 (Z.ltb_lt _ _)) by lia. unfold comb. by rewrite (proj2 (Z.eqb_neq _ _)).
  - rewrite list_lookup_insert_ne by done. rewrite (Ha j c' d' Hc' Hd'). f_equal.
    destruct (Z.of_nat j <? k) eqn:E1, (Z.of_nat j <? k + 1) eqn:E2; zify_bool; try lia; done.
Qed.

Lemma add_subtract_loop_spec op r cs ds fuel : forall counts index it,
  ranges_ok r -> Zlen cs = bucket_count r -> Zlen ds = bucket_count r ->
  it_ranges it = r -> it_counts it = ds -> 0 <= index <= index_ it -> index_ it <= Zlen ds ->
  (forall c, ds !! Z.to_nat (index_ it) = Some c -> c <> 0) ->
  added op cs ds counts (index_ it) ->
  (2 * length ds < fuel + Z.to_nat index + Z.to_nat (index_ it))%nat ->
  exists counts', add_subtract_loop fuel op r counts index it = Ok (true, counts') /\
    added op cs ds counts' (Zlen ds).
Proof.
  induction fuel as [|fuel IH]; intros counts index it Hr Hcs Hds Hir Hic Hidx Hle Hnz Ha Hf.
  { unfold Zlen in *. lia. }
  pose proof (bucket_count_eq r Hr) as Hn. cbn [add_subtract_loop].
  assert (Hlen : Zlen counts = Zlen cs) by (unfold Zlen; by rewrite (proj1 Ha)).
  unfold Done, Get, Next, sample_vector_iterator, it_Done, it_Get, it_Next, it_Done. rewrite Hic, Hir.
  destruct (index_ it =? Zlen ds) eqn:Edone; zify_bool.
  - rewrite andb_false_r. exists counts. split; [done|]. by rewrite <- Edone.
  - rewrite (proj2 (Z.ltb_lt index _)) by lia. rstep.
    destruct (vget_in (ranges_ r) (index_ it)) as [mn Hmn]; [lia|].
    destruct (vget_in (ranges_ r) (index_ it + 1)) as [mx Hmx]; [lia|].
    destruct (vget_in ds (index_ it)) as [d Hd]; [lia|].
    destruct (vget_in (ranges_ r) index) as [a Hra]; [lia|].
    change (range r (index_ it) = Ok mn) in Hmn. change (range r (index_ it + 1) = Ok mx) in Hmx.
    change (range r index = Ok a) in Hra.
    rewrite Hmn. rstep. rewrite Hmx. rstep. rewrite Hd. rstep. rewrite Hra. rstep.
    destruct (Z.eq_dec index (index_ it)) as [->|Hne].
    + assert (a = mn) as -> by congruence. rewrite Z.eqb_refl. rewrite Hmx. rstep.
      rewrite Z.eqb_refl. apply vget_ok in Hd as [_ Hd].
      destruct (lookup_lt_is_Some_2 cs (Z.to_nat (index_ it))) as [c Hc]; [unfold Zlen in *; lia|].
      destruct (added_here op cs ds counts (index_ it) c d Ha ltac:(lia) Hc Hd (Hnz d Hd)) as [Hv Ha'].
      rewrite Hv. rstep. rewrite vset_ok by lia. rstep.
      set (it1 := SVI ds r (index_ it + 1)).
      destruct (SkipEmptyBuckets_spec it1) as (K1 & K2 & K3 & K4 & K5); [cbn; lia|]. cbn [it1 it_counts it_ranges index_] in K1, K2, K3, K4, K5.
      apply IH; auto; [lia|lia| |lia].
      by eapply added_skip; [exact Ha'|lia|].
    + assert (a < mn) as Hlt.
      { eapply (increasing_lt r index (index_ it)); [apply Hr|lia|exact Hra|exact Hmn]. }
      rewrite (proj2 (Z.eqb_neq mn a)) by lia. rewrite (proj2 (Z.ltb_lt a mn)) by done.
      apply IH; auto; lia.
Qed.

Lemma combine_spec op s o :
  samples_ok s -> samples_ok o -> bucket_ranges_ o = bucket_ranges_ s ->
  exists s', combine op o s = Ok s' /\ samples_ok s' /\ bucket_ranges_ s' = bucket_ranges_ s /\
    sum_ s' = int64 (match op with ADD => sum_ s + sum_ o | SUBTRACT => sum_ s - sum_ o end) /\
    forall i c d, counts_ s !! i = Some c -> counts_ o !! i = Some d -> fits_s 32 c ->
      counts_ s' !! i = Some (int32 (c + match op with ADD => d | SUBTRACT => - d end)).
Proof.
  intros [Hr Hl] [_ Hlo] Heq. rewrite Heq in Hlo. unfold combine, SampleVectorIterator_new.
  rewrite Heq, (proj2 (Z.leb_le _ _)) by lia. rstep.
  set (r := bucket_ranges_ s) in *. set (it0 := SVI (counts_ o) r 0).
  destruct (SkipEmptyBuckets_spec it0) as (K1 & K2 & K3 & K4 & K5).
  { cbn. pose proof (Zlen_nonneg (counts_ o)). lia. }
  cbn [it0 it_counts it_ranges index_] in K1, K2, K3, K4, K5.
  unfold AddSubtractImpl. cbn [bucket_ranges_ counts_ sum_].
  destruct (add_subtract_loop_spec op r (counts_ s) (counts_ o)
    (add_fuel (SV (counts_ s) r (int64 match op with ADD => sum_ s + sum_ o | SUBTRACT => sum_ s - sum_ o end)) o)
    (counts_ s) 0 (SkipEmptyBuckets it0)) as (counts' & Hc & Ha); auto; [lia|lia| | |].
  - eapply (added_skip _ _ _ _ 0); [|lia|exact K4]. split; [done|]. intros j c d Hj Hd.
    rewrite (proj2 (Z.ltb_ge _ _)) by lia. done.
  - unfold add_fuel. cbn [counts_]. unfold Zlen in *. lia.
  - rewrite Hc. rstep. eexists. split; [reflexivity|].
    destruct Ha as [Hla Ha]. split; [split; cbn; [done|]; unfold Zlen in *; by rewrite Hla|].
    split; [done|]. split; [done|]. intros i c d Hi Hd Hfit. cbn [counts_].
    rewrite (Ha i c d Hi Hd). apply lookup_lt_Some in Hd. unfold Zlen in *.
    rewrite (proj2 (Z.ltb_lt _ _)) by lia. f_equal. unfold comb. destruct (d =? 0) eqn:E; [|done].
    zify_bool. subst d. destruct op; rewrite wrap_s_id; try lia; replace (c + _) with c by lia; done.
Qed.

(** Adding (or subtracting) samples with the same ranges never fails and works
    bucket by bucket: every count becomes the wrapped sum (difference), the sum
    of values likewise, and the ranges stay. *)
Theorem combine_pointwise op s o :
  samples_ok s -> samples_ok o -> bucket_ranges_ o = bucket_ranges_ s ->
  exists s', combine op o s = Ok s' /\ samples_ok s' /\ bucket_ranges_ s' = bucket_ranges_ s /\
    sum_ s' = int64 (match op with ADD => sum_ s + sum_ o | SUBTRACT => sum_ s - sum_ o end) /\
    forall i c d, counts_ s !! i = Some c -> counts_ o !! i = Some d -> fits_s 32 c ->
      counts_ s' !! i = Some (int32 (c + match op with ADD => d | SUBTRACT => - d end)).
Proof. apply combine_spec. Qed.

(** ** Witnesses *)
Definition demo_ranges : BucketRanges := Ranges [0; 1; 3; 7; INT_MAX].

Lemma demo_ranges_ok : ranges_ok demo_ranges.
Proof.
  split; [change (2 <= 5 < 2 ^ 31); lia|]. intros i j x y Hij Hx Hy. cbn [demo_ranges ranges_] in *.
  pose proof (lookup_lt_Some _ _ _ Hy) as Hj. cbn in Hj. unfold INT_MAX in *.
  do 5 (destruct j as [|j]; [do 5 (destruct i as [|i]; [cbn in *; simplify_eq; lia|]); lia|]). lia.
Qed.

Definition demo_samples : SampleVector := SV [0; 2; 0; 1] demo_ranges 12.

Lemma demo_samples_ok : samples_ok demo_samples.
Proof. split; [apply demo_ranges_ok|reflexivity]. Qed.

Lemma GetBucketIndex_correct_witness :
  GetBucketIndex demo_ranges 5 = Ok 2 /\
  exists lo hi, range demo_ranges 0 = Ok lo /\ range demo_ranges (bucket_count demo_ranges) = Ok hi /\
    (lo <= 5 < hi -> exists i, GetBucketIndex demo_ranges 5 = Ok i /\
       0 <= i < bucket_count demo_ranges /\ in_bucket demo_ranges i 5 /\
       forall j, in_bucket demo_ranges j 5 -> j = i) /\
    (~ lo <= 5 < hi -> GetBucketIndex demo_ranges 5 = Err CheckFailed).
Proof. split; [vm_compute; reflexivity|]. apply (GetBucketIndex_correct demo_ranges 5 demo_ranges_ok). Defined.

Lemma combine_pointwise_witness :
  exists s', combine SUBTRACT demo_samples demo_samples = Ok s' /\ samples_ok s' /\
    bucket_ranges_ s' = demo_ranges /\ sum_ s' = int64 (12 - 12) /\
    forall i c d, [0; 2; 0; 1] !! i = Some c -> [0; 2; 0; 1] !! i = Some d -> fits_s 32 c ->
      counts_ s' !! i = Some (int32 (c + - d)).
Proof. apply (combine_pointwise SUBTRACT demo_samples demo_samples demo_samples_ok demo_samples_ok). reflexivity. Defined.
