(* ===== verification/Double.v ===== *)
(** * Doubles

    The [double] arithmetic of the metrics code: IEEE 754 binary64 through the
    Standard Library's executable [SpecFloat], conversions to and from the
    integers, and printf's "%.1f". [log] and [exp] of the C library, which no
    standard fixes to the last bit, are the class [Libm]. *)

From Stdlib Require Import SpecFloat.
From S2P Require Import Prelude Bytes.

Abbreviation double := spec_float.

Definition dadd : double -> double -> double := SFadd 53 1024.
Definition dsub : double -> double -> double := SFsub 53 1024.
Definition dmul : double -> double -> double := SFmul 53 1024.
Definition ddiv : double -> double -> double := SFdiv 53 1024.
Definition dlt : double -> double -> bool := SFltb.

(** [static_cast<double>(n)]: rounded to nearest. *)
Definition of_Z (n : Z) : double := binary_normalize 53 1024 n 0 false.

Definition dzero : double := of_Z 0.
Definition half : double := ddiv (of_Z 1) (of_Z 2).

(** The value of a finite double rounded down, and towards zero. *)
Definition floor_Z (x : double) : option Z :=
  match x with
  | S754_zero _ => Some 0
  | S754_finite false m e => Some (Z.shiftl (Zpos m) e)
  | S754_finite true m e => Some (Z.shiftl (Zneg m) e)
  | _ => None
  end.

Definition trunc_Z (x : double) : option Z :=
  match x with
  | S754_zero _ => Some 0
  | S754_finite s m e => Some (cond_Zopp s (Z.shiftl (Zpos m) e))
  | _ => None
  end.

(** Conversion to [int]. Out of range it is undefined behaviour; x86-64 gives
    the "integer indefinite" value INT_MIN. *)
Definition to_int (n : option Z) : Z :=
  match n with
  | Some n => if (- 2 ^ 31 <=? n) && (n <? 2 ^ 31) then n else - 2 ^ 31
  | None => - 2 ^ 31
  end.

Class Libm := { log : double -> double; exp : double -> double }.

(** ** printf's "%.1f" *)

(** A magnitude in tenths, rounded to nearest, ties to even. *)
Definition tenths (m : positive) (e : Z) : Z :=
  if 0 <=? e then 10 * Zpos m * 2 ^ e
  else
    let '(q, r) := Z.div_eucl (10 * Zpos m) (2 ^ (- e)) in
    match (2 * r) ?= (2 ^ (- e)) with
    | Lt => q
    | Gt => q + 1
    | Eq => if Z.even q then q else q + 1
    end.

Definition fixed1 (t : Z) : bytes := dec (t / 10) ++ 46 :: dec (t mod 10).

Definition fmt1 (x : double) : bytes :=
  match x with
  | S754_zero s => (if s then [45] else []) ++ fixed1 0
  | S754_finite s m e => (if s then [45] else []) ++ fixed1 (tenths m e)
  | S754_infinity s => (if s then [45] else []) ++ str "inf"
  | S754_nan => str "nan"
  end.

Lemma to_int_fits n : fits_s 32 (to_int n).
Proof.
  unfold to_int, fits_s. destruct n as [n|]; [|lia].
  destruct ((- 2 ^ 31 <=? n) && (n <? 2 ^ 31)) eqn:E; zify_bool; lia.
Qed.

Example fmt1_tie : fmt1 (ddiv (of_Z 5) (of_Z 4)) = str "1.2".
Proof. vm_compute. reflexivity. Qed.
Example fmt1_third : fmt1 (ddiv (of_Z 200) (of_Z 3)) = str "66.7".
Proof. vm_compute. reflexivity. Qed.
Example fmt1_negative : fmt1 (ddiv (of_Z (-1)) (of_Z 8)) = str "-0.1".
Proof. vm_compute. reflexivity. Qed.
Example of_Z_rounds : of_Z (2 ^ 53 + 1) = of_Z (2 ^ 53).
Proof. vm_compute. reflexivity. Qed.
