(* ===== verification/DoubleReal.v ===== *)
(** * Doubles as real numbers

    The real number a double stands for, and how far the sum, the difference and the
    quotient of two doubles are from the exact ones, by SpecFloat's definition of the
    rounding. What the documentation of a C library says of the accuracy of log and
    exp is [libm_accurate]; from it follows what Histogram needs of the step between
    two bucket bounds. *)

From Stdlib Require Import SpecFloat Reals Lra Psatz.
From S2P Require Import Prelude Double.
#[local] Open Scope R_scope.

Lemma Rabs_inv a b : Rabs a <= b -> - b <= a <= b.
Proof. unfold Rabs. destruct (Rcase_abs a); lra. Qed.

(** ** Powers of two *)

Definition b2 (e : Z) : R := powerRZ 2 e.

Lemma b2_pos e : 0 < b2 e.
Proof. apply powerRZ_lt. lra. Qed.

Lemma b2_add a b : b2 (a + b) = b2 a * b2 b.
Proof. apply powerRZ_add. lra. Qed.

Lemma b2_IZR e : (0 <= e)%Z -> b2 e = IZR (2 ^ e).
Proof.
  intros He. unfold b2. destruct e as [|p|p]; [done| |lia]. cbn [powerRZ]. rewrite pow_IZR. f_equal.
  by rewrite positive_nat_Z.
Qed.

Lemma b2_le a b : (a <= b)%Z -> b2 a <= b2 b.
Proof.
  intros Hab. replace b with (a + (b - a))%Z by lia. rewrite b2_add.
  assert (1 <= b2 (b - a)) by (rewrite b2_IZR by lia; apply IZR_le; pose proof (Z.pow_pos_nonneg 2 (b - a)); lia).
  pose proof (b2_pos a). nra.
Qed.

Lemma b2_lt_inv a b : b2 a < b2 b -> (a < b)%Z.
Proof. intros H. destruct (Z.lt_ge_cases a b) as [|Hge]; [done|]. pose proof (b2_le b a Hge). lra. Qed.

Lemma b2_opp e : b2 e * b2 (- e) = 1.
Proof. rewrite <- b2_add. by replace (e + - e)%Z with 0%Z by lia. Qed.

Lemma b2_succ e : b2 (e + 1) = 2 * b2 e.
Proof. rewrite b2_add. change (b2 1) with (2 * 1). lra. Qed.

(** The number of binary digits. *)
Lemma digits_spec p : (2 ^ (Zpos (digits2_pos p) - 1) <= Zpos p < 2 ^ Zpos (digits2_pos p))%Z.
Proof.
  induction p as [p IH|p IH|]; cbn [digits2_pos]; [| |done].
  all: rewrite Pos2Z.inj_succ; set (d := Zpos (digits2_pos p)) in *; replace (Z.succ d - 1)%Z with ((d - 1) + 1)%Z by lia.
  all: assert (1 <= d)%Z by (unfold d; lia); rewrite Z.pow_succ_r, Z.pow_add_r by lia; change (2 ^ 1)%Z with 2%Z; lia.
Qed.

Lemma digits_R p : b2 (Zpos (digits2_pos p) - 1) <= IZR (Zpos p) < b2 (Zpos (digits2_pos p)).
Proof.
  destruct (digits_spec p). rewrite !b2_IZR by lia. split; [by apply IZR_le|by apply IZR_lt].
Qed.

(** ** The value of a double *)

Definition finite (x : double) : bool := match x with S754_zero _ | S754_finite _ _ _ => true | _ => false end.

Definition D2R (x : double) : R := match x with S754_finite s m e => IZR (cond_Zopp s (Zpos m)) * b2 e | _ => 0 end.

(** ** Shifting to the right

    [v] is the real number a shift record stands for, in units of its last place. *)
Record between (r : shr_record) (v : R) : Prop := {
  bt_nonneg : (0 <= shr_m r)%Z;
  bt_lower : IZR (shr_m r) <= v;
  bt_upper : v < IZR (shr_m r) + 1;
  bt_exact : loc_of_shr_record r = loc_Exact -> v = IZR (shr_m r);
}.

Lemma between_shr_1 r v : between r v -> between (shr_1 r) (v / 2).
Proof.
  destruct r as [m r s]. intros [Hn Hl Hu He]. cbn in Hn, Hl, Hu, He.
  assert (Hex : r = false -> s = false -> v = IZR m) by (intros -> ->; by apply He).
  destruct m as [|[p|p|]|p]; cbn; [| | | |lia].
  - split; cbn; [lia|lra|lra|]. destruct r, s; cbn; try done. intros _. rewrite Hex by done. lra.
  - rewrite (Pos2Z.inj_xI p), plus_IZR, mult_IZR in *. split; cbn; [lia|lra|lra|]. by destruct (r || s).
  - rewrite (Pos2Z.inj_xO p), mult_IZR in *. split; cbn; [lia|lra|lra|]. destruct r, s; cbn; try done.
    intros _. rewrite Hex by done. lra.
  - split; cbn; [lia|lra|lra|]. by destruct (r || s).
Qed.

Lemma between_iter p : forall r v, between r v -> between (SpecFloat.iter_pos shr_1 p r) (v * b2 (- Zpos p)).
Proof.
  induction p as [p IH|p IH|]; intros r v Hb; cbn [SpecFloat.iter_pos].
  - apply between_shr_1, IH, IH in Hb. replace (- Zpos p~1)%Z with ((-1 + - Zpos p) + - Zpos p)%Z by lia.
    rewrite !b2_add. change (b2 (-1)) with (/ (2 * 1)). by replace (v * (/ (2 * 1) * b2 (- Zpos p) * b2 (- Zpos p)))
      with (v / 2 * b2 (- Zpos p) * b2 (- Zpos p)) by field.
  - apply IH, IH in Hb. replace (- Zpos p~0)%Z with (- Zpos p + - Zpos p)%Z by lia.
    rewrite b2_add. by rewrite <- Rmult_assoc.
  - apply between_shr_1 in Hb. assert (E : v * b2 (Z.opp (Zpos 1)) = v / 2) by (change (b2 (Z.opp (Zpos 1))) with (/ (2 * 1)); field). by rewrite E.
Qed.

Lemma between_shr r e n x : between r (x * b2 (- e)) ->
  exists r', shr r e n = (r', Z.max e (e + n)) /\ between r' (x * b2 (- Z.max e (e + n))).
Proof.
  intros Hb. destruct n as [|p|p]; unfold shr.
  - exists r. replace (Z.max e (e + 0)) with e by lia. done.
  - replace (Z.max e (e + Zpos p)) with (e + Zpos p)%Z by lia. eexists. split; [done|].
    apply (between_iter p) in Hb. replace (- (e + Zpos p))%Z with (- e + - Zpos p)%Z by lia. by rewrite b2_add, <- Rmult_assoc.
  - exists r. replace (Z.max e (e + Z.neg p)) with e by lia. done.
Qed.

Lemma between_of_loc m l v : (0 <= m)%Z -> IZR m <= v < IZR m + 1 -> (l = loc_Exact -> v = IZR m) ->
  between (shr_record_of_loc m l) v.
Proof. intros Hm [Hl Hu] He. destruct l as [|[]]; split; cbn; try done. Qed.

Lemma round_near r v : between r v ->
  let n := round_nearest_even (shr_m r) (loc_of_shr_record r) in
  (shr_m r <= n <= shr_m r + 1)%Z /\ Rabs (IZR n - v) <= 1.
Proof.
  intros [Hn Hl Hu He]. cbv zeta.
  assert (Hcase : forall n, n = shr_m r \/ n = (shr_m r + 1)%Z -> (shr_m r <= n <= shr_m r + 1)%Z /\ Rabs (IZR n - v) <= 1).
  { intros n [-> | ->]; (split; [lia|]); rewrite ?plus_IZR; unfold Rabs; destruct (Rcase_abs _); lra. }
  apply Hcase. unfold round_nearest_even. destruct (loc_of_shr_record r) as [|[]]; auto. destruct (Z.even _); auto.
Qed.

(** ** Rounding *)

Abbreviation round_aux := (binary_round_aux 53 1024).
Abbreviation exp53 := (fexp 53 1024).

(** The value of a double with its sign. *)
Lemma D2R_finite s m e : D2R (S754_finite s m e) = if s then - (IZR (Zpos m) * b2 e) else IZR (Zpos m) * b2 e.
Proof. unfold D2R. destruct s; cbn [cond_Zopp]; [|done]. rewrite opp_IZR. lra. Qed.

Lemma shr_m_of_loc m l : shr_m (shr_record_of_loc m l) = m.
Proof. by destruct l as [|[]]. Qed.

Lemma loc_of_of_loc m l : loc_of_shr_record (shr_record_of_loc m l) = l.
Proof. by destruct l as [|[]]. Qed.

Lemma digits_bound m : (0 <= m)%Z -> IZR m + 1 <= b2 (Zdigits2 m).
Proof.
  intros Hm. destruct m as [|p|p]; [change (0 + 1 <= 1); lra| |lia].
  destruct (digits_spec p). cbn [Zdigits2]. rewrite b2_IZR, <- plus_IZR by lia. apply IZR_le. lia.
Qed.

(** After the first shift the mantissa has at most 53 digits. *)
Lemma first_shift m e l x r1 : (0 <= m)%Z -> between (shr_record_of_loc m l) (x * b2 (- e)) ->
  let e1 := Z.max e (exp53 (Zdigits2 m + e)) in between r1 (x * b2 (- e1)) -> (shr_m r1 < 2 ^ 53)%Z.
Proof.
  intros Hm Hb e1 Hb1. apply lt_IZR, (Rle_lt_trans _ _ _ (bt_lower _ _ Hb1)). rewrite <- (b2_IZR 53) by lia.
  assert (Hx : x * b2 (- e) < b2 (Zdigits2 m)).
  { apply (Rlt_le_trans _ _ _ (bt_upper _ _ Hb)). rewrite shr_m_of_loc. by apply digits_bound. }
  apply (Rlt_le_trans _ (b2 (Zdigits2 m + (e - e1)))).
  - rewrite (b2_add (Zdigits2 m)). replace (- e1)%Z with (- e + (e - e1))%Z by lia. rewrite b2_add, <- Rmult_assoc.
    apply Rmult_lt_compat_r; [apply b2_pos|done].
  - apply b2_le. unfold e1, fexp, emin. lia.
Qed.

Lemma digits_le m k : (0 <= m <= 2 ^ k)%Z -> (0 <= k)%Z -> (Zdigits2 m <= k + 1)%Z.
Proof.
  intros Hm Hk. destruct m as [|p|p]; [cbn; lia| |lia]. cbn [Zdigits2]. destruct (digits_spec p) as [Hl _].
  assert (2 ^ (Zpos (digits2_pos p) - 1) <= 2 ^ k)%Z as Hle by lia. apply Z.pow_le_mono_r_iff in Hle; lia.
Qed.

(** The result is within three units of the place the first shift rounds at. *)
Lemma round_aux_spec s m e l x : (0 <= m)%Z -> between (shr_record_of_loc m l) (x * b2 (- e)) ->
  let e1 := Z.max e (exp53 (Zdigits2 m + e)) in (e1 + 1 <= 971)%Z ->
  exists y, finite (round_aux s m e l) = true /\ D2R (round_aux s m e l) = (if s then - y else y) /\
    Rabs (y - x) <= 3 * b2 e1.
Proof.
  intros Hm Hb e1 Hfin. unfold round_aux, binary_round_aux, shr_fexp.
  destruct (between_shr _ e (exp53 (Zdigits2 m + e) - e) x Hb) as (r1 & -> & Hb1).
  replace (Z.max e (e + (exp53 (Zdigits2 m + e) - e))) with e1 in * by lia.
  pose proof (first_shift m e l x r1 Hm Hb Hb1) as H53. pose proof (round_near _ _ Hb1) as [Hn Hnear].
  set (n := round_nearest_even _ _) in *. pose proof (bt_nonneg _ _ Hb1) as H0.
  assert (Hb2 : between (shr_record_of_loc n loc_Exact) ((IZR n * b2 e1) * b2 (- e1))).
  { rewrite Rmult_assoc, b2_opp, Rmult_1_r. apply between_of_loc; [lia|lra|done]. }
  destruct (between_shr _ e1 (exp53 (Zdigits2 n + e1) - e1) _ Hb2) as (r2 & -> & Hb3).
  set (e2 := Z.max e1 _) in *. assert (He2 : (e1 <= e2 <= e1 + 1)%Z).
  { pose proof (digits_le n 53 ltac:(lia) ltac:(lia)). unfold e2, e1, fexp, emin. lia. }
  pose proof (bt_nonneg _ _ Hb3) as H2. pose proof (bt_lower _ _ Hb3) as Hl. pose proof (bt_upper _ _ Hb3) as Hu.
  exists (IZR (shr_m r2) * b2 e2). assert (Hy : Rabs (IZR (shr_m r2) * b2 e2 - x) <= 3 * b2 e1).
  { pose proof (b2_pos e1). pose proof (b2_pos e2). pose proof (b2_le _ _ (proj2 He2)) as Hle. rewrite b2_succ in Hle.
    assert (Hx : x = x * b2 (- e1) * b2 e1) by (rewrite Rmult_assoc, (Rmult_comm (b2 (- e1))), b2_opp; ring).
    assert (Hnx : IZR n * b2 e1 = IZR n * b2 e1 * b2 (- e2) * b2 e2)
      by (rewrite (Rmult_assoc _ (b2 (- e2))), (Rmult_comm (b2 (- e2))), b2_opp; ring).
    set (v := x * b2 (- e1)) in *. set (w := IZR n * b2 e1 * b2 (- e2)) in *. apply Rabs_inv in Hnear. apply Rabs_le. nra. }
  destruct (shr_m r2) as [|p|p] eqn:Em; [| |lia].
  - split; [done|]. split; [|done]. cbn. destruct s; lra.
  - rewrite (proj2 (Z.leb_le _ _)) by lia. split; [done|]. split; [apply D2R_finite|done].
Qed.

(** ** The rounding error

    More than any of the operations makes: eight units in the last place. *)
Definition err (x : R) : R := x / 562949953421312 + / 1267650600228229401496703205376.

Lemma b2_inv e : (0 <= e)%Z -> b2 (- e) = / IZR (2 ^ e).
Proof.
  intros He. pose proof (b2_opp e) as Ho. rewrite (b2_IZR e He) in Ho. assert (0 < IZR (2 ^ e)) by (apply IZR_lt, Z.pow_pos_nonneg; lia).
  apply (Rmult_eq_reg_l (IZR (2 ^ e))); [|lra]. rewrite Ho. field. lra.
Qed.

Lemma b2_tiny : b2 (- 1074) <= / 20282409603651670423947251286016.
Proof. apply (Rle_trans _ (b2 (- 104))); [by apply b2_le|]. apply Req_le, (b2_inv 104). lia. Qed.

Lemma b2_m52 : b2 (- 52) = / 4503599627370496.
Proof. apply (b2_inv 52). lia. Qed.

(** The place of the first digit of a number with [d] digits. *)
Lemma fexp_place d x : b2 (d - 1) <= x -> b2 (exp53 d) <= b2 (- 52) * x + b2 (- 1074).
Proof.
  intros Hx. unfold fexp, emin. pose proof (b2_pos (- 52)). pose proof (b2_pos (- 1074)). pose proof (b2_pos (d - 1)).
  destruct (Z.max_spec (d - 53) (3 - 1024 - 53)) as [[_ ->]|[_ ->]].
  - change (3 - 1024 - 53)%Z with (- 1074)%Z. nra.
  - replace (d - 53)%Z with (-52 + (d - 1))%Z by lia. rewrite b2_add. nra.
Qed.

Lemma round_error s m e l x : (0 <= m)%Z -> between (shr_record_of_loc m l) (x * b2 (- e)) ->
  b2 e <= b2 (- 52) * x + b2 (- 1074) -> 0 <= x < b2 900 ->
  finite (round_aux s m e l) = true /\ Rabs (D2R (round_aux s m e l) - (if s then - x else x)) <= err x.
Proof.
  intros Hm Hb He [H0 Hx]. pose proof b2_m52 as E52. pose proof b2_tiny as Ht.
  assert (Hlow : IZR m * b2 e <= x).
  { pose proof (bt_lower _ _ Hb) as Hl. rewrite shr_m_of_loc in Hl. pose proof (b2_pos e).
    replace x with (x * b2 (- e) * b2 e) by (rewrite Rmult_assoc, (Rmult_comm (b2 (- e))), b2_opp; ring). nra. }
  assert (H1 : b2 (Z.max e (exp53 (Zdigits2 m + e))) <= 2 * (b2 (- 52) * x + b2 (- 1074))).
  { assert (Hf : b2 (exp53 (Zdigits2 m + e)) <= b2 (- 52) * x + b2 (- 1074) \/ (exp53 (Zdigits2 m + e) <= Z.max e (-1074))%Z).
    { destruct m as [|p|p]; [right; unfold fexp, emin; cbn [Zdigits2]; lia| |lia]. left. apply fexp_place.
      cbn [Zdigits2]. replace (Zpos (digits2_pos p) + e - 1)%Z with ((Zpos (digits2_pos p) - 1) + e)%Z by lia.
      rewrite b2_add. pose proof (digits_R p) as [Hd _]. pose proof (b2_pos e). nra. }
    pose proof (b2_pos (- 1074)). pose proof (b2_pos (- 52)). pose proof (b2_pos e).
    destruct Hf as [Hf|Hf]; destruct (Z.max_spec e (exp53 (Zdigits2 m + e))) as [[Hl ->]|[_ ->]]; try nra.
    assert (b2 (exp53 (Zdigits2 m + e)) <= b2 (-1074)) by (apply b2_le; lia). nra. }
  destruct (round_aux_spec s m e l x Hm Hb) as (y & Hfin & Hy & Hxy).
  - enough (Z.max e (exp53 (Zdigits2 m + e)) < 900)%Z by lia. apply b2_lt_inv.
    apply (Rle_lt_trans _ _ _ H1).
    assert (1 <= b2 900) by (apply (b2_le 0); lia). rewrite E52. lra.
  - split; [done|]. rewrite Hy. unfold err. apply Rabs_inv in Hxy. rewrite E52 in H1. apply Rabs_le.
    destruct s; lra.
Qed.

Lemma iter_xO m d : Zpos (Pos.iter xO m d) = (Zpos m * 2 ^ Zpos d)%Z.
Proof.
  induction d as [|d IH] using Pos.peano_ind; [cbn; lia|].
  rewrite Pos.iter_succ, Pos2Z.inj_xO, IH, Pos2Z.inj_succ, Z.pow_succ_r by lia. lia.
Qed.

Lemma iter_xO_digits m d : digits2_pos (Pos.iter xO m d) = (digits2_pos m + d)%positive.
Proof.
  induction d as [|d IH] using Pos.peano_ind; [cbn; lia|]. rewrite Pos.iter_succ. cbn [digits2_pos]. rewrite IH. lia.
Qed.

(** Shifting to the left loses nothing. *)
Lemma shl_align_value m e e' : let '(mz, ez) := shl_align m e e' in
  IZR (Zpos mz) * b2 ez = IZR (Zpos m) * b2 e /\ ez = Z.min e e' /\ Zpos (digits2_pos mz) = (Zpos (digits2_pos m) + (e - ez))%Z.
Proof.
  unfold shl_align. destruct (e' - e)%Z as [|d|d] eqn:E; [split; [done|lia]|split; [done|lia]|].
  rewrite iter_xO, iter_xO_digits, mult_IZR, <- (b2_IZR (Zpos d)), Rmult_assoc, <- b2_add by lia.
  replace (Zpos d + e')%Z with e by lia. split; [done|]. lia.
Qed.

Lemma binary_round_error s m e : IZR (Zpos m) * b2 e < b2 900 ->
  finite (binary_round 53 1024 s m e) = true /\
  Rabs (D2R (binary_round 53 1024 s m e) - (if s then - (IZR (Zpos m) * b2 e) else IZR (Zpos m) * b2 e)) <= err (IZR (Zpos m) * b2 e).
Proof.
  intros Hlt. unfold binary_round. pose proof (shl_align_value m e (exp53 (Zpos (digits2_pos m) + e))) as Hv.
  destruct (shl_align _ _ _) as [mz ez]. destruct Hv as (Hv & Hez & _). pose proof (b2_pos e).
  assert (0 < IZR (Zpos m)) by (apply (IZR_lt 0); lia). apply round_error; [lia| | |nra].
  - apply between_of_loc; [lia| |]; rewrite <- Hv, Rmult_assoc, b2_opp; intros; lra.
  - apply (Rle_trans _ (b2 (exp53 (Zpos (digits2_pos m) + e)))); [apply b2_le; lia|]. apply fexp_place.
    replace (Zpos (digits2_pos m) + e - 1)%Z with ((Zpos (digits2_pos m) - 1) + e)%Z by lia.
    rewrite b2_add. pose proof (digits_R m) as [Hd _]. nra.
Qed.

Lemma err_nonneg x : 0 <= x -> 0 <= err x.
Proof. unfold err. lra. Qed.

Lemma normalize_error m e : Rabs (IZR m * b2 e) < b2 900 ->
  finite (binary_normalize 53 1024 m e false) = true /\
  Rabs (D2R (binary_normalize 53 1024 m e false) - IZR m * b2 e) <= err (Rabs (IZR m * b2 e)).
Proof.
  intros Hlt. assert (Hz : forall p, 0 < IZR (Zpos p) * b2 e).
  { intros p. apply Rmult_lt_0_compat; [apply (IZR_lt 0); lia|apply b2_pos]. }
  destruct m as [|p|p]; cbn [binary_normalize].
  - split; [done|]. cbn [D2R]. rewrite Rmult_0_l, Rminus_0_r, Rabs_R0. apply err_nonneg. lra.
  - rewrite (Rabs_pos_eq (IZR (Zpos p) * b2 e)) in * by (apply Rlt_le, Hz). apply (binary_round_error false p e Hlt).
  - change (Zneg p) with (- Zpos p)%Z in *. rewrite opp_IZR, Ropp_mult_distr_l_reverse in *.
    rewrite (Rabs_Ropp (IZR (Zpos p) * b2 e)) in *.
    rewrite (Rabs_pos_eq (IZR (Zpos p) * b2 e)) in * by (apply Rlt_le, Hz). apply (binary_round_error true p e Hlt).
Qed.

(** ** The operations *)

(** Opposite, for the subtraction. *)
Lemma D2R_opp x : D2R (SFopp x) = - D2R x.
Proof. destruct x as [| | |s m e]; cbn [SFopp]; rewrite ?D2R_finite; [cbn; lra..|]. destruct s; cbn [negb]; lra. Qed.

Lemma finite_opp x : finite (SFopp x) = finite x.
Proof. by destruct x. Qed.

Lemma aligned_value s m e ez : (ez <= e)%Z ->
  IZR (cond_Zopp s (Zpos (shl_align m e ez).1)) * b2 ez = D2R (S754_finite s m e).
Proof.
  intros Hle. pose proof (shl_align_value m e ez) as Hv. destruct (shl_align m e ez) as [mz e'] eqn:E.
  destruct Hv as (Hv & He & _). replace e' with ez in Hv by lia. rewrite D2R_finite. cbn [fst].
  destruct s; cbn [cond_Zopp]; [|done]. rewrite opp_IZR. lra.
Qed.

Lemma near_self v : Rabs (v - v) <= err (Rabs v).
Proof. replace (v - v) with 0 by ring. rewrite Rabs_R0. apply err_nonneg, Rabs_pos. Qed.

Lemma dadd_error x y : finite x = true -> finite y = true -> Rabs (D2R x + D2R y) < b2 900 ->
  finite (dadd x y) = true /\ Rabs (D2R (dadd x y) - (D2R x + D2R y)) <= err (Rabs (D2R x + D2R y)).
Proof.
  intros Hx Hy Hlt. assert (Hself : forall z, finite z = true -> D2R z = D2R x + D2R y ->
    finite z = true /\ Rabs (D2R z - (D2R x + D2R y)) <= err (Rabs (D2R x + D2R y))).
  { intros z Hz ->. split; [done|apply near_self]. }
  unfold dadd, SFadd. destruct x as [sx| | |sx mx ex]; try done; destruct y as [sy| | |sy my ey]; try done.
  1: apply Hself; destruct sx, sy; cbn; (done || lra).
  1, 2: apply Hself; [done|cbn [D2R]; lra].
  assert (E : D2R (S754_finite sx mx ex) + D2R (S754_finite sy my ey) =
    IZR (cond_Zopp sx (Zpos (shl_align mx ex (Z.min ex ey)).1) + cond_Zopp sy (Zpos (shl_align my ey (Z.min ex ey)).1)) *
    b2 (Z.min ex ey)) by (rewrite plus_IZR, Rmult_plus_distr_r, !aligned_value by lia; done).
  rewrite E in *. by apply normalize_error.
Qed.

Lemma dsub_error x y : finite x = true -> finite y = true -> Rabs (D2R x - D2R y) < b2 900 ->
  finite (dsub x y) = true /\ Rabs (D2R (dsub x y) - (D2R x - D2R y)) <= err (Rabs (D2R x - D2R y)).
Proof.
  intros Hx Hy Hlt. assert (Hself : forall z, finite z = true -> D2R z = D2R x - D2R y ->
    finite z = true /\ Rabs (D2R z - (D2R x - D2R y)) <= err (Rabs (D2R x - D2R y))).
  { intros z Hz ->. split; [done|apply near_self]. }
  unfold dsub, SFsub. destruct x as [sx| | |sx mx ex]; try done; destruct y as [sy| | |sy my ey]; try done.
  1: apply Hself; destruct sx, sy; cbn; (done || lra).
  1: apply Hself; [done|change (S754_finite (negb sy) my ey) with (SFopp (S754_finite sy my ey)); rewrite D2R_opp; cbn [D2R]; lra].
  1: apply Hself; [done|cbn [D2R]; lra].
  assert (E : D2R (S754_finite sx mx ex) - D2R (S754_finite sy my ey) =
    IZR (cond_Zopp sx (Zpos (shl_align mx ex (Z.min ex ey)).1) - cond_Zopp sy (Zpos (shl_align my ey (Z.min ex ey)).1)) *
    b2 (Z.min ex ey)) by (rewrite minus_IZR, Rmult_minus_distr_r, !aligned_value by lia; done).
  rewrite E in *. by apply normalize_error.
Qed.

Lemma new_location_exact m r : new_location m r = loc_Exact -> r = 0%Z.
Proof.
  unfold new_location, new_location_even, new_location_odd. destruct (Z.even m), (r =? 0)%Z eqn:E; zify_bool; done.
Qed.

(** The exact quotient lies in the record of the rounded one. *)
Lemma div_between m1 m2 : (0 <= m1)%Z -> (0 < m2)%Z ->
  between (shr_record_of_loc (m1 / m2) (new_location m2 (m1 mod m2))) (IZR m1 / IZR m2).
Proof.
  intros H1 H2. pose proof (Z.div_mod m1 m2 ltac:(lia)) as E. pose proof (Z.mod_pos_bound m1 m2 H2) as [Hr Hr2].
  apply (f_equal IZR) in E. rewrite plus_IZR, mult_IZR in E. apply IZR_le in Hr. apply IZR_lt in Hr2, H2.
  assert (Ev : IZR m1 / IZR m2 = IZR (m1 / m2) + IZR (m1 mod m2) / IZR m2) by (rewrite E; field; lra).
  assert (0 <= IZR (m1 mod m2) / IZR m2 < 1).
  { split; [apply Rmult_le_pos; [lra|apply Rlt_le, Rinv_0_lt_compat; lra]|apply (Rmult_lt_reg_r (IZR m2)); [lra|]; unfold Rdiv; rewrite Rmult_assoc, Rinv_l; lra]. }
  apply between_of_loc; [apply Z.div_pos; [done|by apply lt_IZR]|lra|].
  intros Hl%new_location_exact. rewrite Ev, Hl. unfold Rdiv. lra.
Qed.

(** The mantissa of the dividend is shifted so that the quotient has enough digits. *)
Lemma div_core m1 e1 m2 e2 : let x := IZR (Zpos m1) / IZR (Zpos m2) * b2 (e1 - e2) in
  exists q e' l, SFdiv_core_binary 53 1024 (Zpos m1) e1 (Zpos m2) e2 = (q, e', l) /\ (0 <= q)%Z /\
    between (shr_record_of_loc q l) (x * b2 (- e')) /\ b2 e' <= b2 (- 52) * x + b2 (- 1074).
Proof.
  intros x. unfold SFdiv_core_binary. cbn [Zdigits2].
  set (d := (Zpos (digits2_pos m1) + e1 - (Zpos (digits2_pos m2) + e2))%Z). set (e' := Z.min (exp53 d) (e1 - e2)).
  set (s := (e1 - e2 - e')%Z). assert (Hs : (0 <= s)%Z) by lia.
  assert (Em : (match s with 0 => Zpos m1 | Zpos _ => Z.shiftl (Zpos m1) s | Zneg _ => 0 end)%Z = (Zpos m1 * 2 ^ s)%Z).
  { destruct s as [|p|p]; [lia|by rewrite Z.shiftl_mul_pow2 by lia|lia]. }
  rewrite Em. pose proof (Z.pow_pos_nonneg 2 s ltac:(lia) Hs). pose proof (div_between (Zpos m1 * 2 ^ s) (Zpos m2) ltac:(lia) ltac:(lia)) as Hb.
  unfold Z.div, Z.modulo in Hb. pose proof (Z.div_pos (Zpos m1 * 2 ^ s) (Zpos m2) ltac:(lia) ltac:(lia)) as Hq. unfold Z.div in Hq.
  destruct (Z.div_eucl (Zpos m1 * 2 ^ s) (Zpos m2)) as [q r]. eexists q, e', _. split; [reflexivity|]. split; [done|].
  assert (0 < IZR (Zpos m1)) by (apply (IZR_lt 0); lia). assert (H2 : 0 < IZR (Zpos m2)) by (apply (IZR_lt 0); lia). split.
  - replace (x * b2 (- e')) with (IZR (Zpos m1 * 2 ^ s) / IZR (Zpos m2)); [done|].
    rewrite mult_IZR, <- b2_IZR by done. unfold x, s. replace (e1 - e2 - e')%Z with (e1 - e2 + - e')%Z by lia.
    rewrite b2_add. field. lra.
  - apply (Rle_trans _ (b2 (exp53 d))); [apply b2_le; lia|]. apply fexp_place.
    pose proof (digits_R m1) as [Hd1 _]. pose proof (digits_R m2) as [_ Hd2].
    replace (d - 1)%Z with ((Zpos (digits2_pos m1) - 1) + (e1 - e2) + - Zpos (digits2_pos m2))%Z by lia.
    rewrite !b2_add. pose proof (b2_opp (Zpos (digits2_pos m2))) as Ho. pose proof (b2_pos (- Zpos (digits2_pos m2))) as Hp.
    assert (Hi : b2 (- Zpos (digits2_pos m2)) <= / IZR (Zpos m2)).
    { apply (Rmult_le_reg_r (IZR (Zpos m2))); [done|]. rewrite Rinv_l by lra. nra. }
    unfold x, Rdiv. pose proof (b2_pos (e1 - e2)). pose proof (b2_pos (Zpos (digits2_pos m1) - 1)).
    apply (Rle_trans _ (IZR (Zpos m1) * b2 (e1 - e2) * b2 (- Zpos (digits2_pos m2)))); [apply Rmult_le_compat_r; nra|].
    replace (IZR (Zpos m1) * / IZR (Zpos m2) * b2 (e1 - e2)) with (IZR (Zpos m1) * b2 (e1 - e2) * / IZR (Zpos m2)) by ring.
    apply Rmult_le_compat_l; nra.
Qed.

Lemma ddiv_error x y : finite x = true -> finite y = true -> D2R y <> 0 -> Rabs (D2R x / D2R y) < b2 900 ->
  finite (ddiv x y) = true /\ Rabs (D2R (ddiv x y) - D2R x / D2R y) <= err (Rabs (D2R x / D2R y)).
Proof.
  intros Hx Hy Hne Hlt. unfold ddiv, SFdiv. destruct x as [sx| | |sx mx ex]; try done; destruct y as [sy| | |sy my ey]; try done.
  - split; [done|]. cbn [D2R]. unfold Rdiv. rewrite Rmult_0_l. apply near_self.
  - destruct (div_core mx ex my ey) as (q & e' & l & -> & Hq & Hb & He).
    set (v := IZR (Zpos mx) / IZR (Zpos my) * b2 (ex - ey)) in *.
    assert (0 < IZR (Zpos mx)) by (apply (IZR_lt 0); lia). assert (H2 : 0 < IZR (Zpos my)) by (apply (IZR_lt 0); lia).
    pose proof (b2_pos ey). pose proof (b2_pos ex).
    assert (Hv : 0 < v) by (unfold v, Rdiv; pose proof (b2_pos (ex - ey)); pose proof (Rinv_0_lt_compat _ H2); apply Rmult_lt_0_compat; nra).
    assert (E : D2R (S754_finite sx mx ex) / D2R (S754_finite sy my ey) = if xorb sx sy then - v else v).
    { rewrite !D2R_finite. unfold v. replace (ex - ey)%Z with (ex + - ey)%Z by lia. rewrite b2_add.
      replace (b2 (- ey)) with (/ b2 ey) by (pose proof (b2_opp ey); apply (Rmult_eq_reg_l (b2 ey)); [rewrite Rinv_r; lra|lra]).
      destruct sx, sy; cbn [xorb]; field; lra. }
    assert (Ea : Rabs (D2R (S754_finite sx mx ex) / D2R (S754_finite sy my ey)) = v).
    { rewrite E. destruct (xorb sx sy); [rewrite Rabs_Ropp|]; apply Rabs_pos_eq; lra. }
    rewrite Ea, E in *. apply round_error; [done|done|done|lra].
Qed.

(** Integers of less than 53 digits are represented exactly. *)
Lemma of_Z_exact n : (0 < n < 2 ^ 53)%Z -> finite (of_Z n) = true /\ D2R (of_Z n) = IZR n.
Proof.
  intros Hn. destruct n as [|p|p]; [lia| |lia]. unfold of_Z. cbn [binary_normalize]. unfold binary_round.
  pose proof (shl_align_value p 0 (exp53 (Zpos (digits2_pos p) + 0))) as Hv.
  assert (Hd : (Zpos (digits2_pos p) <= 53)%Z).
  { destruct (digits_spec p) as [Hl _]. assert (2 ^ (Zpos (digits2_pos p) - 1) < 2 ^ 53)%Z as Hlt by lia.
    apply Z.pow_lt_mono_r_iff in Hlt; lia. }
  destruct (shl_align _ _ _) as [mz ez]. destruct Hv as (Hv & Hez & Hdz).
  unfold binary_round_aux, shr_fexp. cbn [Zdigits2].
  assert (E0 : (exp53 (Zpos (digits2_pos mz) + ez) - ez = 0)%Z) by (revert Hez Hdz; unfold fexp, emin; lia).
  rewrite E0. cbn [shr]. rewrite shr_m_of_loc, loc_of_of_loc. cbn [round_nearest_even]. cbn [Zdigits2]. rewrite E0. cbn [shr].
  rewrite shr_m_of_loc. rewrite (proj2 (Z.leb_le _ _)) by (revert Hez; unfold fexp, emin; lia).
  split; [done|]. rewrite D2R_finite, Hv. change (b2 0) with 1. lra.
Qed.

Lemma half_value : finite half = true /\ D2R half = / 2.
Proof.
  split; [vm_compute; reflexivity|]. replace half with (S754_finite false 4503599627370496 (-53)) by (vm_compute; reflexivity).
  rewrite D2R_finite. replace (b2 (-53)) with (/ IZR (2 ^ 53)) by (symmetry; apply (b2_inv 53); lia).
  change (2 ^ 53)%Z with 9007199254740992%Z. field.
Qed.

(** floor. *)
Lemma floor_Z_value x : finite x = true ->
  exists n, floor_Z x = Some n /\ IZR n <= D2R x < IZR n + 1.
Proof.
  intros Hx. destruct x as [s| | |s m e]; try done; [exists 0%Z; split; [done|cbn; lra]|].
  assert (Hs : forall z, exists n, Z.shiftl z e = n /\ IZR n <= IZR z * b2 e < IZR n + 1).
  { intros z. eexists. split; [reflexivity|]. destruct (Z.le_gt_cases 0 e) as [He|He].
    - rewrite Z.shiftl_mul_pow2, mult_IZR, b2_IZR by lia. lra.
    - rewrite Z.shiftl_div_pow2 by lia. pose proof (Z.pow_pos_nonneg 2 (- e) ltac:(lia) ltac:(lia)) as Hp.
      pose proof (Z.div_mod z (2 ^ (- e)) ltac:(lia)) as E. pose proof (Z.mod_pos_bound z (2 ^ (- e)) Hp) as [Hr Hr2].
      apply (f_equal IZR) in E. rewrite plus_IZR, mult_IZR in E. apply IZR_le in Hr. apply IZR_lt in Hr2, Hp.
      pose proof (b2_opp e) as Ho. rewrite (b2_IZR (- e)) in Ho by lia. pose proof (b2_pos e). rewrite E.
      set (P := IZR (2 ^ (- e))) in *. set (q := IZR (z / 2 ^ (- e))). set (r := IZR (z mod 2 ^ (- e))) in *.
      replace ((P * q + r) * b2 e) with (q * (b2 e * P) + r * b2 e) by ring. rewrite Ho. nra. }
  destruct s; cbn [floor_Z]; [destruct (Hs (Zneg m)) as (n & <- & Hn)|destruct (Hs (Zpos m)) as (n & <- & Hn)];
    (eexists; split; [reflexivity|exact Hn]).
Qed.

(** ** The C library

    Its documentation promises results within one or two units in the last place of
    the exact value; sixteen are allowed here. Nothing is asked outside of the ranges
    named, and not that the functions are monotone or exact anywhere. *)
Record libm_accurate `{Libm} : Prop := {
  la_log : forall x, finite x = true -> 1 <= D2R x <= 18446744073709551616 ->
    finite (log x) = true /\ Rabs (D2R (log x) - ln (D2R x)) <= (1 + ln (D2R x)) / 281474976710656;
  la_exp : forall x, finite x = true -> -1 <= D2R x <= 64 ->
    finite (exp x) = true /\ Rabs (D2R (exp x) - Rtrigo_def.exp (D2R x)) <= Rtrigo_def.exp (D2R x) / 281474976710656;
}.

(** ** Logarithms *)

Lemma ln_le_minus_1 x : 0 < x -> ln x <= x - 1.
Proof. intros Hx. pose proof (exp_ineq1_le (ln x)) as H. rewrite exp_ln in H by done. lra. Qed.

Lemma ln_tangent x a : 0 < x -> 0 < a -> ln x <= ln a + (x - a) / a.
Proof.
  intros Hx Ha. assert (0 < x / a) by (apply Rdiv_lt_0_compat; done).
  pose proof (ln_le_minus_1 (x / a) ltac:(done)) as H0. unfold Rdiv in H0; rewrite ln_mult, ln_Rinv in H0 by (done || by apply Rinv_0_lt_compat).
  replace ((x - a) / a) with (x * / a - 1) by (field; lra). lra.
Qed.

Lemma ln_mono x y : 0 < x -> x <= y -> ln x <= ln y.
Proof. intros Hx [Hlt| ->]; [left; by apply ln_increasing|right; done]. Qed.

Lemma exp_mono x y : x <= y -> Rtrigo_def.exp x <= Rtrigo_def.exp y.
Proof. intros [Hlt| ->]; [left; by apply exp_increasing|right; done]. Qed.

Lemma ln_bounds x : 1 <= x < 2147483648 -> 0 <= ln x <= 31.
Proof.
  intros Hx. split; [rewrite <- ln_1; apply ln_mono; lra|].
  apply (Rle_trans _ (ln (2 ^ 31))); [apply ln_mono; lra|]. rewrite ln_pow by lra.
  pose proof (ln_le_minus_1 2 ltac:(lra)). cbn [INR]. lra.
Qed.

(** The inequality of the weighted arithmetic and geometric means. *)
Lemma mean_le i c m : 0 < i <= 1 -> 0 < c -> 0 < m ->
  Rtrigo_def.exp (ln c + (ln m - ln c) * i) <= c + (m - c) * i.
Proof.
  intros Hi Hc Hm. assert (Ha : 0 < c + (m - c) * i) by nra. rewrite <- (exp_ln _ Ha).
  assert (Hle : ln c + (ln m - ln c) * i <= ln (c + (m - c) * i)).
  { pose proof (ln_tangent c _ Hc Ha). pose proof (ln_tangent m _ Hm Ha). set (a := c + (m - c) * i) in *.
    assert (E : (1 - i) * ((c - a) / a) + i * ((m - a) / a) = 0) by (unfold a in *; field; lra). nra. }
  by apply exp_mono.
Qed.

Lemma exp_near d : Rabs d <= / 2 -> Rabs (Rtrigo_def.exp d - 1) <= 2 * Rabs d.
Proof.
  intros Hd. pose proof (exp_ineq1_le d). pose proof (exp_ineq1_le (- d)). pose proof (exp_pos d).
  assert (E : Rtrigo_def.exp d * Rtrigo_def.exp (- d) = 1) by (rewrite <- exp_plus, Rplus_opp_r; apply exp_0).
  revert Hd. unfold Rabs. destruct (Rcase_abs d), (Rcase_abs (Rtrigo_def.exp d - 1)); intros; nra.
Qed.

Lemma err_le x a b : Rabs x <= a -> err a <= b -> err (Rabs x) <= b.
Proof. unfold err. lra. Qed.

Lemma small_900 x : Rabs x <= 9007199254740992 -> Rabs x < b2 900.
Proof.
  intros Hx. apply (Rle_lt_trans _ _ _ Hx), (Rlt_le_trans _ (b2 54)); [rewrite b2_IZR by lia; by apply IZR_lt|by apply b2_le].
Qed.

(** ** The step of an exponential scale

    The next of [k] steps of equal ratio from [c] to [m], as Histogram computes it. *)
Section Step.
Context `{Libm}.
Hypothesis Hlibm : libm_accurate.

Lemma log_near n : (1 <= n < 2 ^ 31)%Z ->
  finite (log (of_Z n)) = true /\ Rabs (D2R (log (of_Z n)) - ln (IZR n)) <= / 8796093022208.
Proof.
  intros [H1 H2]. destruct (of_Z_exact n ltac:(lia)) as [Hf Hv]. apply IZR_le in H1. apply IZR_lt in H2.
  destruct (ln_bounds (IZR n) ltac:(split; [done|exact H2])) as [Hl0 Hl]. change (IZR (2 ^ 31)) with 2147483648 in H2.
  destruct (la_log Hlibm (of_Z n) Hf) as [Hfl Hn]; [rewrite Hv; lra|]. split; [done|]. rewrite Hv in Hn. lra.
Qed.

Variables (c m k : Z).
Hypotheses (Hc : (1 <= c <= m)%Z) (Hm : (m < 2 ^ 31)%Z) (Hk : (1 <= k < 2 ^ 31)%Z).

(** The exact exponent and power. *)
Definition exact_log : R := ln (IZR c) + (ln (IZR m) - ln (IZR c)) * / IZR k.

Lemma inv_k : 0 < / IZR k <= 1.
Proof.
  destruct Hk as [Hk1 _]. apply IZR_le in Hk1. split; [apply Rinv_0_lt_compat; lra|]. rewrite <- Rinv_1. by apply Rinv_le_contravar; [lra|].
Qed.

Lemma exact_log_bounds : 0 <= exact_log <= ln (IZR m) /\ ln (IZR m) <= 31.
Proof.
  destruct Hc as [Hc1 Hcm]. pose proof Hm as Hm'. apply IZR_le in Hc1, Hcm. apply IZR_lt in Hm'. change (IZR (2 ^ 31)) with 2147483648 in Hm'.
  pose proof (ln_bounds (IZR c) ltac:(lra)). pose proof (ln_bounds (IZR m) ltac:(lra)).
  pose proof (ln_mono (IZR c) (IZR m) ltac:(lra) Hcm). pose proof inv_k. unfold exact_log. nra.
Qed.

Definition log_sum : double := let lc := log (of_Z c) in dadd lc (ddiv (dsub (log (of_Z m)) lc) (of_Z k)).

(** Each of the four operations adds at most 2^-41 to the error of the exponent. *)
Lemma log_sum_near : finite log_sum = true /\ Rabs (D2R log_sum - exact_log) <= / 1099511627776.
Proof.
  unfold log_sum. cbv zeta. destruct (log_near c ltac:(lia)) as [Fc Nc]. destruct (log_near m ltac:(lia)) as [Fm Nm].
  destruct (of_Z_exact k ltac:(lia)) as [Fk Vk]. pose proof exact_log_bounds as [Hx Hl]. pose proof inv_k as Hi.
  assert (Hlc : 0 <= ln (IZR c) <= ln (IZR m)).
  { destruct Hc as [Hc1 Hcm]. apply IZR_le in Hc1, Hcm. split; [rewrite <- ln_1|]; apply ln_mono; lra. }
  unfold exact_log in *. set (lc := log (of_Z c)) in *. set (lm := log (of_Z m)) in *. set (i := / IZR k) in *.
  set (a := ln (IZR c)) in *. set (b := ln (IZR m)) in *. apply Rabs_inv in Nc, Nm.
  assert (B1 : Rabs (D2R lm - D2R lc) <= 32) by (apply Rabs_le; lra).
  destruct (dsub_error lm lc Fm Fc) as [F1 E1]; [by apply small_900; lra|].
  apply (err_le _ 32 (/ 8796093022208)) in B1; [|unfold err; lra].
  assert (N1 : Rabs (D2R (dsub lm lc) - (b - a)) <= 3 * / 8796093022208) by (apply Rabs_inv in E1; apply Rabs_le; lra).
  set (d := dsub lm lc) in *. apply Rabs_inv in N1.
  assert (Q : Rabs (D2R d * i - (b - a) * i) <= 3 * / 8796093022208) by (apply Rabs_le; nra).
  assert (Ed : D2R d / D2R (of_Z k) = D2R d * i) by (rewrite Vk; reflexivity).
  assert (B2 : Rabs (D2R d * i) <= 33) by (apply Rabs_inv in Q; apply Rabs_le; nra).
  destruct (ddiv_error d (of_Z k) F1 Fk) as [F2 E2]; [rewrite Vk; destruct Hk as [Hk1 _]; apply IZR_le in Hk1; lra|rewrite Ed; by apply small_900; lra|].
  rewrite Ed in E2. apply (err_le _ 33 (/ 8796093022208)) in B2; [|unfold err; lra].
  set (q := ddiv d (of_Z k)) in *. apply Rabs_inv in E2, Q.
  assert (B3 : Rabs (D2R lc + D2R q) <= 32) by (apply Rabs_le; lra).
  destruct (dadd_error lc q Fc F2) as [F3 E3]; [by apply small_900; lra|]. split; [done|].
  apply (err_le _ 32 (/ 8796093022208)) in B3; [|unfold err; lra]. apply Rabs_inv in E3. apply Rabs_le. lra.
Qed.

Lemma exp_sum_near : finite (exp log_sum) = true /\
  Rabs (D2R (exp log_sum) - Rtrigo_def.exp exact_log) <= / 128 /\ 1 <= Rtrigo_def.exp exact_log <= IZR m.
Proof.
  destruct log_sum_near as [Fs Ns]. pose proof exact_log_bounds as [Hx Hl].
  assert (Hm0 : 0 < IZR m) by (apply (IZR_lt 0); lia).
  assert (Hb : 1 <= Rtrigo_def.exp exact_log <= IZR m).
  { split; [rewrite <- exp_0|rewrite <- (exp_ln (IZR m)) by done]; apply exp_mono; lra. }
  pose proof Hm as Hm'. apply IZR_lt in Hm'. change (IZR (2 ^ 31)) with 2147483648 in Hm'.
  pose proof Ns as Ns'. apply Rabs_inv in Ns'. destruct (la_exp Hlibm _ Fs) as [Fe Ne]; [lra|]. split; [done|]. split; [|done].
  set (d := D2R log_sum - exact_log) in *. replace (D2R log_sum) with (exact_log + d) in Ne by (unfold d; ring).
  rewrite exp_plus in Ne. set (e := Rtrigo_def.exp exact_log) in *.
  pose proof (exp_near d ltac:(lra)) as Hd. apply Rabs_inv in Ne, Hd. pose proof (Rabs_pos d). apply Rabs_le. nra.
Qed.

(** The step rounds the mean, so it does not overshoot. *)
Lemma step_bounds : exists n, floor_Z (dadd (exp log_sum) half) = Some n /\ (0 <= n <= m)%Z /\
  (k * (n - c) < (m - c) + k)%Z /\ (k = 1 -> n = m)%Z.
Proof.
  destruct exp_sum_near as (Fe & Ne & Hb). destruct half_value as [Fh Vh]. apply Rabs_inv in Ne.
  pose proof Hm as Hm'. apply IZR_lt in Hm'. change (IZR (2 ^ 31)) with 2147483648 in Hm'.
  destruct Hc as [Hc1 _]. pose proof Hc1 as Hc'. apply IZR_le in Hc'. destruct Hk as [Hk1 _]. pose proof Hk1 as Hk'. apply IZR_le in Hk'.
  assert (B : Rabs (D2R (exp log_sum) + D2R half) <= 2147483650) by (rewrite Vh; apply Rabs_le; lra).
  destruct (dadd_error _ _ Fe Fh) as [F E]; [by apply small_900; lra|].
  apply (err_le _ _ (/ 128)) in B; [|unfold err; lra]. apply Rabs_inv in E. rewrite Vh in E, B.
  destruct (floor_Z_value _ F) as (n & -> & Hn). exists n. split; [done|].
  pose proof (mean_le (/ IZR k) (IZR c) (IZR m) inv_k ltac:(lra) ltac:(lra)) as Hmean. fold exact_log in Hmean.
  set (e := Rtrigo_def.exp exact_log) in *. set (f := D2R (dadd (exp log_sum) half)) in *.
  assert (Hfe : - / 64 <= f - (e + / 2) <= / 64) by lra.
  assert (Hn0 : (-1 < n)%Z) by (apply lt_IZR; change (IZR (-1)) with (-1); lra).
  assert (Hnm : (n < m + 1)%Z) by (apply lt_IZR; rewrite plus_IZR; lra).
  split; [lia|]. split.
  - apply lt_IZR. rewrite !plus_IZR, mult_IZR, !minus_IZR. assert (Hi : IZR k * / IZR k = 1) by (apply Rinv_r; lra).
    assert (Hke : IZR k * e <= IZR k * IZR c + (IZR m - IZR c)).
    { replace (IZR k * IZR c + (IZR m - IZR c)) with (IZR k * (IZR c + (IZR m - IZR c) * / IZR k)) by (rewrite Rmult_plus_distr_l; field; lra).
      apply Rmult_le_compat_l; [lra|done]. }
    nra.
  - intros Ek. enough (m - 1 < n)%Z by lia. apply lt_IZR. rewrite minus_IZR.
    assert (e = IZR m); [|lra]. unfold e, exact_log. rewrite Ek, Rinv_1.
    replace (ln (IZR c) + (ln (IZR m) - ln (IZR c)) * 1) with (ln (IZR m)) by ring. apply exp_ln. lra.
Qed.
End Step.

(** ** A library that is accurate

    The real logarithm and exponential, rounded up to a multiple of 2^-60 and then to
    a double. *)
Definition round_R (v : R) : double := binary_normalize 53 1024 (up (v * 1152921504606846976)) (-60) false.

Definition real_libm : Libm := {| log := fun x => round_R (ln (D2R x)); exp := fun x => round_R (Rtrigo_def.exp (D2R x)) |}.

Lemma round_R_near v : 0 <= v <= b2 128 -> finite (round_R v) = true /\
  Rabs (D2R (round_R v) - v) <= v / 562949953421312 + / 281474976710656 / 8.
Proof.
  intros Hv. unfold round_R. destruct (archimed (v * 1152921504606846976)) as [Hu1 Hu2].
  set (n := up (v * 1152921504606846976)) in *.
  assert (E : b2 (-60) = / 1152921504606846976) by (apply (b2_inv 60); lia).
  assert (Hn : v <= IZR n * b2 (-60) <= v + / 1152921504606846976) by (rewrite E; lra).
  assert (H128 : b2 128 + 1 <= b2 900).
  { apply (Rle_trans _ (b2 129)); [|by apply b2_le]. change 129%Z with (128 + 1)%Z. rewrite b2_succ.
    assert (1 <= b2 128) by (apply (b2_le 0); lia). lra. }
  assert (Ha : Rabs (IZR n * b2 (-60)) = IZR n * b2 (-60)) by (apply Rabs_pos_eq; lra).
  destruct (normalize_error n (-60)) as [F N]; [rewrite Ha; lra|]. split; [done|]. rewrite Ha in N.
  unfold err in N. apply Rabs_inv in N. apply Rabs_le. lra.
Qed.

Lemma real_libm_accurate : @libm_accurate real_libm.
Proof.
  split; cbn [log exp real_libm]; intros x Hx Hr.
  - assert (Hl : 0 <= ln (D2R x)) by (rewrite <- ln_1; apply ln_mono; lra).
    assert (Hu : ln (D2R x) <= b2 128).
    { pose proof (ln_le_minus_1 (D2R x) ltac:(lra)). assert (b2 64 <= b2 128) as H64 by by apply b2_le.
      rewrite (b2_IZR 64) in H64 by lia. change (IZR (2 ^ 64)) with 18446744073709551616 in H64. lra. }
    destruct (round_R_near _ (conj Hl Hu)) as [F N]. split; [done|]. lra.
  - assert (Hl : / 3 <= Rtrigo_def.exp (D2R x)).
    { apply (Rle_trans _ (Rtrigo_def.exp (-1))); [|apply exp_mono; lra].
      pose proof exp_le_3. pose proof (exp_pos 1). pose proof (exp_pos (-1)).
      assert (Rtrigo_def.exp 1 * Rtrigo_def.exp (-1) = 1) by (rewrite <- exp_plus; replace (1 + -1) with 0 by ring; apply exp_0).
      nra. }
    assert (Hu : Rtrigo_def.exp (D2R x) <= b2 128).
    { rewrite <- (exp_ln (b2 128)) by apply b2_pos. apply exp_mono. change (b2 128) with (2 ^ 128).
      rewrite ln_pow by lra. pose proof ln_lt_2. replace (INR 128) with 128 by (rewrite INR_IZR_INZ; reflexivity). lra. }
    assert (Hp : 0 <= Rtrigo_def.exp (D2R x)) by lra. destruct (round_R_near _ (conj Hp Hu)) as [F N]. split; [done|]. lra.
Qed.
