(* ===== verification/Histogram.v ===== *)
(** * metrics/Histogram and HistogramRecorder

    claire/common/metrics/Histogram.{h,cc} and HistogramRecorder.{h,cc}: the
    construction of the exponential buckets, the recording of samples, the JSON
    and text renderings, and the process-wide map of histograms. *)

From stdpp Require Import sorting.
From S2P Require Import Prelude Bytes Registry StringPiece Json Samples Double DoubleReal.
Open Scope Z_scope.

(* @src claire/common/metrics/Histogram.cc:27-27 Histogram::kSampleTypeMax *)
Definition kSampleTypeMax : Z := INT_MAX.
(* @src claire/common/metrics/Histogram.cc:28-28 Histogram::kBucketCountMax *)
Definition kBucketCountMax : Z := 16384.

(** samples_ shares the ranges, which do not change once it exists. *)
(* @src claire/common/metrics/Histogram.h:251-259 Histogram *)
Record Histogram := MkHistogram {
  histogram_name_ : bytes;
  h_ranges : BucketRanges;
  declared_min_ : Z;
  declared_max_ : Z;
  samples_ : SampleVector;
}.

(** The result, and the arguments as it leaves them. *)
(* @src claire/common/metrics/Histogram.cc:104-136 Histogram::InspectConstructionArguments *)
Definition InspectConstructionArguments (minimum maximum bucket_count : Z) : bool * (Z * Z * Z) :=
  let minimum := if minimum <? 1 then 1 else minimum in
  let maximum := if kSampleTypeMax <=? maximum then kSampleTypeMax - 1 else maximum in
  let bucket_count := if kBucketCountMax <=? bucket_count then kBucketCountMax - 1 else bucket_count in
  (if maximum <=? minimum then false
   else if bucket_count <? 3 then false
   else if uint64 (int32 (int32 (maximum - minimum) + 2)) <? bucket_count then false
   else true, (minimum, maximum, bucket_count)).

(** ** Construction *)
Section Construction.
Context `{Libm}.

(** The [k]'th root step from [current] towards [maximum]. *)
(* @src claire/common/metrics/Histogram.cc:76-83 Histogram::InitializeBucketRanges *)
Definition next_range (log_max : double) (current k : Z) : Z :=
  let log_current := log (of_Z current) in
  let log_ratio := ddiv (dsub log_max log_current) (of_Z k) in
  let log_next := dadd log_current log_ratio in
  to_int (floor_Z (dadd (exp log_next) half)).

(* @src claire/common/metrics/Histogram.cc:74-89 Histogram::InitializeBucketRanges *)
Fixpoint init_loop (fuel : nat) (log_max : double) (bucket_count bucket_index current : Z)
  (ranges : BucketRanges) : res BucketRanges :=
  match fuel with
  | O => Err NoFuel
  | S fuel =>
      let bucket_index := uint64 (bucket_index + 1) in
      if bucket_index <? bucket_count then
        let next := next_range log_max current (uint64 (bucket_count - bucket_index)) in
        let current := if current <? next then next else int32 (current + 1) in
        ranges ← set_range bucket_index current ranges;
        init_loop fuel log_max bucket_count bucket_index current ranges
      else Ok ranges
  end.

(* @src claire/common/metrics/Histogram.cc:65-91 Histogram::InitializeBucketRanges *)
Definition InitializeBucketRanges (minimum maximum : Z) (ranges : BucketRanges) : res BucketRanges :=
  let log_max := log (of_Z maximum) in
  let bucket_index := 1 in
  let current := minimum in
  ranges ← set_range bucket_index current ranges;
  let count := bucket_count ranges in
  ranges ← init_loop (S (Z.to_nat count)) log_max count bucket_index current ranges;
  set_range (bucket_count ranges) kSampleTypeMax ranges.

(* @src claire/common/metrics/Histogram.cc:50-61 Histogram::Histogram *)
Definition Histogram_new (name : bytes) (minimum maximum bucket_count : Z) : res Histogram :=
  ranges ← InitializeBucketRanges minimum maximum (BucketRanges_new (uint64 (bucket_count + 1)));
  samples ← SampleVector_new ranges;
  Ok (MkHistogram name ranges minimum maximum samples).
End Construction.

(** ** Recording *)

(* @src claire/common/metrics/Histogram.cc:93-96 Histogram::ranges *)
Definition h_range (h : Histogram) (i : Z) : res Z := range (h_ranges h) i.
(* @src claire/common/metrics/Histogram.cc:98-101 Histogram::bucket_count *)
Definition h_bucket_count (h : Histogram) : Z := bucket_count (h_ranges h).

Definition with_samples (s : SampleVector) (h : Histogram) : Histogram :=
  MkHistogram (histogram_name_ h) (h_ranges h) (declared_min_ h) (declared_max_ h) s.

(* @src claire/common/metrics/Histogram.cc:143-153 Histogram::Add *)
Definition Add (value : Z) (h : Histogram) : res Histogram :=
  lo ← h_range h 0;
  _ ← check (0 =? lo);
  hi ← h_range h (h_bucket_count h);
  _ ← check (kSampleTypeMax =? hi);
  let value := if kSampleTypeMax <=? value then kSampleTypeMax - 1 else value in
  let value := if value <? 0 then 0 else value in
  s ← Accumulate value 1 (samples_ h);
  Ok (with_samples s h).

(* @src claire/common/metrics/Histogram.cc:160-163 Histogram::AddSamples *)
Definition AddSamples (other : SampleVector) (h : Histogram) : res Histogram :=
  s ← Samples.Add other (samples_ h); Ok (with_samples s h).

(* @src claire/common/metrics/Histogram.cc:246-251 Histogram::SnapshotSampleVector *)
Definition SnapshotSampleVector (h : Histogram) : res SampleVector :=
  s ← SampleVector_new (h_ranges h); Samples.Add (samples_ h) s.

(* @src claire/common/metrics/Histogram.cc:155-158 Histogram::SnapshotSamples *)
Definition SnapshotSamples (h : Histogram) : res SampleVector := SnapshotSampleVector h.

(** ** JSON *)

(* @src claire/common/metrics/Histogram.cc:195-210 Histogram::WriteJSON *)
Fixpoint json_buckets (n : nat) (i : Z) (h : Histogram) (snapshot : SampleVector) : res (list json) :=
  match n with
  | O => Ok []
  | S n =>
      count ← GetCountAtIndex i snapshot;
      bucket ←
        (if 0 <? count then
           low ← h_range h i;
           if i =? h_bucket_count h - 1 then Ok [JObject [(str "low", JInt low)]]
           else high ← h_range h (i + 1);
                Ok [JObject [(str "low", JInt low); (str "high", JInt high); (str "count", JInt count)]]
         else Ok []);
      rest ← json_buckets n (i + 1) h snapshot;
      Ok (bucket ++ rest)
  end.

(* @src claire/common/metrics/Histogram.cc:138-141 Histogram::type *)
Definition type (h : Histogram) : bytes := str "Histogram".

(** The document handed to the writer; output receives its text. *)
(* @src claire/common/metrics/Histogram.cc:179-219 Histogram::WriteJSON *)
Definition WriteJSON (render : json -> bytes) (h : Histogram) : res bytes :=
  snapshot ← SnapshotSampleVector h;
  buckets ← json_buckets (Z.to_nat (h_bucket_count h)) 0 h snapshot;
  Ok (c_string (render (JObject
    [(str "name", JRef (c_string (histogram_name_ h)));
     (str "count", JInt (TotalCount snapshot));
     (str "sum", JInt (sum_ snapshot));
     (str "type", JRef (c_string (type h)));
     (str "min", JInt (declared_min_ h));
     (str "max", JInt (declared_max_ h));
     (str "bucket_count", JInt (h_bucket_count h));
     (str "buckets", JArray buckets)]))).

(** ** The text rendering

    Each routine returns the bytes it appends to the output; StringAppendF
    appends the formatted text (StringUtil). *)

(* @src claire/common/metrics/Histogram.cc:221-224 Histogram::PrintEmptyBucket *)
Definition PrintEmptyBucket (index : Z) : bool := true.

(* @src claire/common/metrics/Histogram.cc:231-239 Histogram::GetBucketSize *)
Definition GetBucketSize (current i : Z) (h : Histogram) : res double :=
  b ← h_range h (i + 1);
  a ← h_range h i;
  _ ← check (a <? b);
  let kTransitionWidth := of_Z 5 in
  let denominator := of_Z (int32 (b - a)) in
  let denominator := if dlt kTransitionWidth denominator then kTransitionWidth else denominator in
  Ok (ddiv (of_Z current) denominator).

(* @src claire/common/metrics/Histogram.cc:253-258 Histogram::GetSimpleAsciiBucketRange *)
Definition GetSimpleAsciiBucketRange (sample : Z) : bytes := sdec sample.

(* @src claire/common/metrics/Histogram.cc:241-244 Histogram::GetAsciiBucketRange *)
Definition GetAsciiBucketRange (i : Z) (h : Histogram) : res bytes :=
  a ← h_range h i; Ok (GetSimpleAsciiBucketRange a).

(** The two countdown loops append max(0, x) characters each. *)
(* @src claire/common/metrics/Histogram.cc:260-273 Histogram::WriteAsciiBucketGraph *)
Definition WriteAsciiBucketGraph (current_size max_size : double) : bytes :=
  let k_line_length := 72 in
  let x_count := to_int (trunc_Z (dadd (dmul (of_Z k_line_length) (ddiv current_size max_size)) half)) in
  let x_remainder := int32 (k_line_length - x_count) in
  replicate (Z.to_nat x_count) 45 ++ [79] ++ replicate (Z.to_nat x_remainder) 32.

(* @src claire/common/metrics/Histogram.cc:275-280 Histogram::WriteAsciiBucketValue *)
Definition WriteAsciiBucketValue (current : Z) (scaled_sum : double) : bytes :=
  str " (" ++ sdec current ++ str " = " ++ pad 32 3 (fmt1 (ddiv (of_Z current) scaled_sum)) ++ str "%)".

(* @src claire/common/metrics/Histogram.cc:387-400 Histogram::WriteAsciiBucketContext *)
Definition WriteAsciiBucketContext (past current remaining i : Z) : bytes :=
  let scaled_sum := ddiv (of_Z (int64 (int64 (past + current) + remaining))) (of_Z 100) in
  WriteAsciiBucketValue current scaled_sum ++
  (if 0 <? i then str " {" ++ pad 32 3 (fmt1 (ddiv (of_Z past) scaled_sum)) ++ str "%}" else []).

(* @src claire/common/metrics/Histogram.cc:368-385 Histogram::WriteAsciiHeader *)
Definition WriteAsciiHeader (samples : SampleVector) (sample_count : Z) (h : Histogram) : res bytes :=
  let title := str "Histogram: " ++ c_string (histogram_name_ h) ++ str " recorded " ++ sdec sample_count ++
               str " samples" in
  if sample_count =? 0 then _ ← check (sum_ samples =? 0); Ok title
  else
    let average := ddiv (of_Z (sum_ samples)) (of_Z sample_count) in
    Ok (title ++ str ", average = " ++ fmt1 average).

(* @src claire/common/metrics/Histogram.cc:356-366 Histogram::GetPeakBucketSize *)
Fixpoint peak_loop (n : nat) (i : Z) (max : double) (samples : SampleVector) (h : Histogram) : res double :=
  match n with
  | O => Ok max
  | S n =>
      c ← GetCountAtIndex i samples;
      current_size ← GetBucketSize c i h;
      peak_loop n (i + 1) (if dlt max current_size then current_size else max) samples h
  end.

(* @src claire/common/metrics/Histogram.cc:356-366 Histogram::GetPeakBucketSize *)
Definition GetPeakBucketSize (samples : SampleVector) (h : Histogram) : res double :=
  peak_loop (Z.to_nat (h_bucket_count h)) 0 dzero samples h.

(* @src claire/common/metrics/Histogram.cc:301-307 Histogram::WriteAsciiImpl *)
Fixpoint largest_loop (fuel : nat) (largest : Z) (snapshot : SampleVector) : res Z :=
  match fuel with
  | O => Err NoFuel
  | S fuel =>
      c ← GetCountAtIndex largest snapshot;
      if c =? 0 then if largest =? 0 then Ok largest else largest_loop fuel (largest - 1) snapshot
      else Ok largest
  end.

(* @src claire/common/metrics/Histogram.cc:310-319 Histogram::WriteAsciiImpl *)
Fixpoint width_loop (n : nat) (i print_width : Z) (snapshot : SampleVector) (h : Histogram) : res Z :=
  match n with
  | O => Ok print_width
  | S n =>
      c ← GetCountAtIndex i snapshot;
      if c =? 0 then width_loop n (i + 1) print_width snapshot h
      else
        text ← GetAsciiBucketRange i h;
        let width := Zlen text + 1 in
        width_loop n (i + 1) (if print_width <? width then width else print_width) snapshot h
  end.

(* @src claire/common/metrics/Histogram.cc:337-341 Histogram::WriteAsciiImpl *)
Fixpoint skip_loop (fuel : nat) (i : Z) (snapshot : SampleVector) (h : Histogram) : res Z :=
  match fuel with
  | O => Err NoFuel
  | S fuel =>
      if i <? h_bucket_count h - 1 then
        c ← GetCountAtIndex (i + 1) snapshot;
        if c =? 0 then skip_loop fuel (i + 1) snapshot h else Ok i
      else Ok i
  end.

Section Graph.
Variables (graph_it : bool) (newline : bytes) (max_size : double) (print_width : Z)
  (snapshot : SampleVector) (h : Histogram).

(** The condition of the "no reason to plot emptiness" branch. *)
(* @src claire/common/metrics/Histogram.cc:334-335 Histogram::WriteAsciiImpl *)
Definition starts_gap (current i : Z) : res bool :=
  if (current =? 0) && (i <? h_bucket_count h - 1)
  then next ← GetCountAtIndex (i + 1) snapshot; Ok (next =? 0)
  else Ok false.

(** The loop returns what it appended and the final value of past. *)
(* @src claire/common/metrics/Histogram.cc:324-352 Histogram::WriteAsciiImpl *)
Fixpoint graph_loop (fuel : nat) (i remaining past : Z) : res (bytes * Z) :=
  match fuel with
  | O => Err NoFuel
  | S fuel =>
      if i <? h_bucket_count h then
        current ← GetCountAtIndex i snapshot;
        if (current =? 0) && negb (PrintEmptyBucket i) then graph_loop fuel (i + 1) remaining past
        else
          let remaining := int64 (remaining - current) in
          text ← GetAsciiBucketRange i h;
          let label := text ++ replicate (Z.to_nat (print_width + 1 - Zlen text)) 32 in
          gap ← starts_gap current i;
          if (gap : bool) then
            i ← skip_loop (S (Z.to_nat (h_bucket_count h))) i snapshot h;
            '(rest, past) ← graph_loop fuel (i + 1) remaining past;
            Ok (label ++ str "... " ++ newline ++ rest, past)
          else
            current_size ← GetBucketSize current i h;
            let graph := if graph_it then WriteAsciiBucketGraph current_size max_size else [] in
            let context := WriteAsciiBucketContext past current remaining i in
            '(rest, past) ← graph_loop fuel (i + 1) remaining (int64 (past + current));
            Ok (label ++ graph ++ context ++ newline ++ rest, past)
      else Ok ([], past)
  end.
End Graph.

(* @src claire/common/metrics/Histogram.cc:282-354 Histogram::WriteAsciiImpl *)
Definition WriteAsciiImpl (graph_it : bool) (newline : bytes) (h : Histogram) : res bytes :=
  snapshot ← SnapshotSampleVector h;
  let sample_count := TotalCount snapshot in
  header ← WriteAsciiHeader snapshot sample_count h;
  max_size ← (if graph_it then GetPeakBucketSize snapshot h else Ok dzero);
  let count := h_bucket_count h in
  _ ← largest_loop (S (Z.to_nat count)) (count - 1) snapshot;
  print_width ← width_loop (Z.to_nat count) 0 1 snapshot h;
  '(graph, past) ← graph_loop graph_it newline max_size print_width snapshot h
    (S (Z.to_nat count)) 0 sample_count 0;
  _ ← check (sample_count =? past);
  Ok (header ++ newline ++ graph).

(* @src claire/common/metrics/Histogram.cc:174-177 Histogram::WriteAscii *)
Definition WriteAscii (h : Histogram) (output : bytes) : res bytes :=
  text ← WriteAsciiImpl true [10] h; Ok (output ++ text).

(* @src claire/common/metrics/Histogram.cc:166-172 Histogram::WriteHTMLGraph *)
Definition WriteHTMLGraph (h : Histogram) (output : bytes) : res bytes :=
  let output := output ++ str "<PRE>" in
  text ← WriteAsciiImpl true (str "<br>") h;
  Ok (output ++ text ++ str "</PRE>").

(** ** HistogramRecorder *)

(* @src claire/common/metrics/HistogramRecorder.h:60-69 HistogramRecorder *)
Record HistogramRecorder := HR { histograms_ : gmap bytes ptr }.

Definition HistogramRecorder_init : HistogramRecorder := HR ∅.

(* @src claire/common/metrics/HistogramRecorder.cc:24-51 HistogramRecorder::RegisterOrDeleteDuplicate *)
Definition RegisterOrDeleteDuplicate (histogram : ptr) (s : store Histogram) (r : HistogramRecorder)
  : res (ptr * store Histogram * HistogramRecorder) :=
  h ← load s histogram;
  let name := histogram_name_ h in
  let '(to_return, to_delete, histograms) :=
    match histograms_ r !! name with
    | None => (histogram, None, <[name := histogram]> (histograms_ r))
    | Some other =>
        if (histogram =? other)%nat then (histogram, None, histograms_ r)
        else (other, Some histogram, histograms_ r)
    end in
  Ok (to_return, del to_delete s, HR histograms).

(* @src claire/common/metrics/HistogramRecorder.cc:82-89 HistogramRecorder::FindHistogram *)
Definition FindHistogram (name : bytes) (r : HistogramRecorder) : option ptr := histograms_ r !! name.

#[export] Instance histogram_registry : Registry bytes Histogram HistogramRecorder := {
  reg_key := histogram_name_;
  reg_find := FindHistogram;
  reg_register := RegisterOrDeleteDuplicate;
}.

#[export] Instance histogram_registry_laws : RegistryLaws bytes Histogram HistogramRecorder.
Proof.
  split; cbn; unfold RegisterOrDeleteDuplicate, load, FindHistogram.
  - intros p x s r -> Hf. rstep. rewrite Hf. eexists. split; [reflexivity|].
    split; [apply lookup_insert_eq|]. intros k Hk. by apply lookup_insert_ne.
  - intros p q x s r -> Hf Hne. rstep. rewrite Hf, (proj2 (Nat.eqb_neq _ _)) by done. by destruct r.
  - intros p x s r -> Hf. rstep. rewrite Hf, Nat.eqb_refl. by destruct r.
Qed.

(** [it->first.find(query) != npos]. *)
Definition contains (name query : bytes) : bool :=
  bool_decide (query `prefix_of` drop (search name query) name).

(** The order of std::map<std::string, ...>. *)
Definition lex_le (l k : bytes) : Prop := lex l k <> Gt.
#[export] Instance lex_le_dec : RelDecision lex_le.
Proof. intros l k. unfold lex_le. destruct (lex l k); [left|left|right]; congruence. Defined.

Definition names (r : HistogramRecorder) : list bytes :=
  merge_sort lex_le (map_to_list (histograms_ r)).*1.

(* @src claire/common/metrics/HistogramRecorder.cc:91-99 HistogramRecorder::GetSnapshot *)
Definition GetSnapshot (query : bytes) (r : HistogramRecorder) : list ptr :=
  omap (fun name => if contains name query then histograms_ r !! name else None) (names r).

Fixpoint write_each (write : Histogram -> bytes -> res bytes) (after : bytes) (l : list ptr)
  (s : store Histogram) (output : bytes) : res bytes :=
  match l with
  | [] => Ok output
  | p :: l =>
      h ← load s p;
      output ← write h output;
      write_each write after l s (output ++ after)
  end.

(* @src claire/common/metrics/HistogramRecorder.cc:53-63 HistogramRecorder::WriteHTMLGraph *)
Definition Recorder_WriteHTMLGraph (query : bytes) (s : store Histogram) (r : HistogramRecorder)
  (output : bytes) : res bytes :=
  write_each WriteHTMLGraph (str "<br><hr><br>") (GetSnapshot query r) s output.

(* @src claire/common/metrics/HistogramRecorder.cc:65-80 HistogramRecorder::WriteGraph *)
Definition Recorder_WriteGraph (query : bytes) (s : store Histogram) (r : HistogramRecorder)
  (output : bytes) : res bytes :=
  let title := if negb (Zlen query =? 0)
               then str "Collections of histograms for " ++ c_string query ++ [10]
               else str "Collections of all histograms" ++ [10] in
  write_each WriteAscii [10] (GetSnapshot query r) s (output ++ title).

(* @src claire/common/metrics/Histogram.cc:33-48 Histogram::FactoryGet *)
Definition FactoryGet `{Libm} (name : bytes) (minimum maximum bucket_count : Z)
  (s : store Histogram) (r : HistogramRecorder) : res (ptr * store Histogram * HistogramRecorder) :=
  match FindHistogram name r with
  | Some p => Ok (p, s, r)
  | None =>
      h ← Histogram_new name minimum maximum bucket_count;
      get_or_create h s r
  end.

(** ** Properties of the construction *)

(** The restrictions of Histogram.h, with the upper limits of the code. *)
Record valid_args (minimum maximum bucket_count : Z) : Prop := {
  va_min : 1 <= minimum < maximum;
  va_max : maximum <= kSampleTypeMax - 1;
  va_count : 3 <= bucket_count < kBucketCountMax;
  va_fit : bucket_count <= maximum - minimum + 2;
}.

(** The bounds up to index [b] increase, from zero. *)
Record filled (r : BucketRanges) (b last : Z) : Prop := {
  fi_incr : forall i j x y, (i < j)%nat -> Z.of_nat j <= b ->
    ranges_ r !! i = Some x -> ranges_ r !! j = Some y -> x < y;
  fi_zero : ranges_ r !! 0%nat = Some 0;
  fi_last : ranges_ r !! Z.to_nat b = Some last;
}.

Lemma set_range_filled r b last v :
  filled r b last -> 0 <= b -> b + 1 < Zlen (ranges_ r) -> 0 < v -> last < v ->
  exists r', set_range (b + 1) v r = Ok r' /\ filled r' (b + 1) v /\
    Zlen (ranges_ r') = Zlen (ranges_ r) /\
    forall j, j <> b + 1 -> vget (ranges_ r') j = vget (ranges_ r) j.
Proof.
  intros [Hi H0 Hl] Hb Hlen Hv Hlt. exists (Ranges (<[Z.to_nat (b + 1) := v]> (ranges_ r))).
  unfold set_range. rewrite (proj2 (Z.ltb_lt (b + 1) _)) by done. rstep.
  rewrite (proj2 (Z.ltb_lt 0 v)) by done. rstep. rewrite vset_ok by lia. rstep.
  split; [done|]. cbn [ranges_]. split; [|split; [by rewrite Zlen_insert|intros j Hj; apply vget_insert_ne; lia]].
  assert (Hn : (Z.to_nat (b + 1) < length (ranges_ r))%nat) by (unfold Zlen in Hlen; lia).
  split; cbn [ranges_].
  - intros i j x y Hij Hj Hx Hy. rewrite list_lookup_insert_ne in Hx by lia.
    destruct (decide (j = Z.to_nat (b + 1))) as [->|Hne].
    + rewrite list_lookup_insert_eq in Hy by done. injection Hy as <-.
      destruct (decide (i = Z.to_nat b)) as [->|Hib]; [congruence|].
      specialize (Hi i (Z.to_nat b) x last). lapply Hi; [|lia]. intros Hi'.
      specialize (Hi' ltac:(lia) Hx Hl). lia.
    + rewrite list_lookup_insert_ne in Hy by lia. apply (Hi i j); [lia|lia|done|done].
  - by rewrite list_lookup_insert_ne by lia.
  - by apply list_lookup_insert_eq.
Qed.

Section ConstructionProofs.
Context `{Libm}.

(** The next bound, [k] steps from the maximum: it neither reaches the maximum too
    early nor misses it with the last step. *)
Lemma next_range_ok c k maximum : libm_accurate -> 1 <= c -> 1 <= k -> c + k <= maximum < 2 ^ 31 ->
  let n := next_range (log (of_Z maximum)) c k in
  n <= maximum /\ n + (k - 1) <= maximum /\ (k = 1 -> n = maximum).
Proof.
  intros Hl Hc Hk Hm. destruct (step_bounds Hl c maximum k) as (n & Hn & Hn0 & Hs & Hn1); [lia..|].
  assert (E : next_range (log (of_Z maximum)) c k = n).
  { unfold next_range. change (to_int (floor_Z (dadd (exp (log_sum c maximum k)) half)) = n). rewrite Hn.
    unfold to_int. rewrite (proj2 (Z.leb_le _ n)), (proj2 (Z.ltb_lt n _)) by lia. done. }
  rewrite E. split; [lia|]. split; [nia|done].
Qed.

Lemma init_loop_ok fuel : forall maximum n b cur r,
  libm_accurate -> maximum <= kSampleTypeMax - 1 -> n < kBucketCountMax ->
  filled r b cur -> 1 <= b < n -> 1 <= cur -> cur + (n - 1 - b) <= maximum ->
  Zlen (ranges_ r) = n + 1 -> (Z.to_nat (n - b) < S fuel)%nat -> (0 < fuel)%nat ->
  exists r' last, init_loop fuel (log (of_Z maximum)) n b cur r = Ok r' /\
    filled r' (n - 1) last /\ last = (if b =? n - 1 then cur else maximum) /\ Zlen (ranges_ r') = n + 1 /\
    forall j, j <= b -> vget (ranges_ r') j = vget (ranges_ r) j.
Proof.
  unfold kSampleTypeMax, kBucketCountMax, INT_MAX.
  induction fuel as [|fuel IH]; intros maximum n b cur r Hacc Hmax Hn Hfi Hb Hcur Hroom Hlen Hf Hf0; [lia|].
  cbn [init_loop]. rewrite wrap_u_id by (unfold fits_u; lia).
  destruct (b + 1 <? n) eqn:E; zify_bool.
  - rewrite wrap_u_id by (unfold fits_u; lia). set (k := n - (b + 1)).
    set (next := next_range (log (of_Z maximum)) cur k).
    set (cur' := if cur <? next then next else int32 (cur + 1)).
    assert (Hc' : cur < cur' /\ cur' + (k - 1) <= maximum /\ (k = 1 -> cur' = maximum)).
    { destruct (next_range_ok cur k maximum) as (Hn0 & Hnext & Hlast); [done|lia..|]. fold next in Hn0, Hnext, Hlast.
      unfold cur'. destruct (cur <? next) eqn:Ec; zify_bool; [done|]. rewrite wrap_s_id by (unfold fits_s; lia). lia. }
    destruct (set_range_filled r b cur cur' Hfi) as (r1 & Hr1 & Hfi1 & Hl1 & Ho1); [lia..|].
    rewrite Hr1. rstep.
    destruct (IH maximum n (b + 1) cur' r1) as (r' & last & Hr' & Hfi' & Hla & Hl' & Ho');
      [done|lia|lia|done|lia|lia|lia|lia|lia|lia|].
    exists r', last. split; [done|]. split; [done|]. split; [|split; [done|]].
    + rewrite Hla, (proj2 (Z.eqb_neq b _)) by lia. destruct (b + 1 =? n - 1) eqn:Eb; zify_bool; [|done]. apply Hc'. lia.
    + intros j Hj. rewrite Ho' by lia. apply Ho1. lia.
  - exists r, cur. split; [done|]. assert (b = n - 1) as -> by lia.
    rewrite Z.eqb_refl. split; [done|]. split; [done|]. split; [done|done].
Qed.

(** What the constructor promises. *)
Record new_ok (name : bytes) (minimum maximum n : Z) (h : Histogram) : Prop := {
  no_ranges : ranges_ok (h_ranges h);
  no_count : h_bucket_count h = n;
  no_first : h_range h 0 = Ok 0;
  no_second : h_range h 1 = Ok minimum;
  no_last : h_range h n = Ok kSampleTypeMax;
  no_below : h_range h (n - 1) = Ok maximum;
  no_args : (histogram_name_ h, declared_min_ h, declared_max_ h) = (name, minimum, maximum);
  no_empty : samples_ h = SV (replicate (Z.to_nat n) 0) (h_ranges h) 0;
}.

Lemma filled_increasing r n : filled r n kSampleTypeMax -> Zlen (ranges_ r) = n + 1 -> increasing r.
Proof.
  intros [Hi _ _] Hlen i j x y Hij Hx Hy. apply (Hi i j); [done| |done|done].
  apply lookup_lt_Some in Hy. unfold Zlen in Hlen. lia.
Qed.

Lemma Histogram_new_ok name minimum maximum n :
  valid_args minimum maximum n -> libm_accurate ->
  exists h, Histogram_new name minimum maximum n = Ok h /\ new_ok name minimum maximum n h.
Proof.
  intros [Hmin Hmax Hn Hfit] Hacc.
  unfold Histogram_new, InitializeBucketRanges, BucketRanges_new, kBucketCountMax in *.
  rewrite wrap_u_id by (unfold fits_u; lia).
  set (r0 := Ranges (replicate (Z.to_nat (n + 1)) 0)).
  assert (Hl0 : Zlen (ranges_ r0) = n + 1) by (unfold Zlen; cbn; rewrite length_replicate; lia).
  assert (H0 : ranges_ r0 !! 0%nat = Some 0) by (apply lookup_replicate_2; lia).
  destruct (set_range_filled r0 0 0 minimum) as (r1 & Hr1 & Hf1 & Hl1 & _); [|lia..|].
  { split; [intros i j x y Hij Hj; lia|done|done]. }
  change (0 + 1) with 1 in Hr1, Hf1. rewrite Hr1. rstep.
  assert (Hbc : bucket_count r1 = n)
    by (unfold bucket_count; rewrite Hl1, Hl0, wrap_u_id by (unfold fits_u; lia); lia).
  rewrite Hbc.
  destruct (init_loop_ok (S (Z.to_nat n)) maximum n 1 minimum r1) as (r2 & last & Hr2 & Hf2 & Hla & Hl2 & Ho2);
    [done|lia|unfold kBucketCountMax; lia|done|lia|lia|lia|lia|lia|lia|].
  rewrite (proj2 (Z.eqb_neq 1 _)) in Hla by lia. subst last. rewrite Hr2. rstep. assert (Hbc2 : bucket_count r2 = n)
    by (unfold bucket_count; rewrite Hl2, wrap_u_id by (unfold fits_u; lia); lia).
  rewrite Hbc2.
  destruct (set_range_filled r2 (n - 1) maximum kSampleTypeMax Hf2) as (r3 & Hr3 & Hf3 & Hl3 & Ho3);
    [lia|lia|unfold kSampleTypeMax, INT_MAX; lia|lia|].
  replace (n - 1 + 1) with n in * by lia. rewrite Hr3. rstep.
  assert (Hrok : ranges_ok r3) by (split; [lia|apply (filled_increasing r3 n); [done|lia]]).
  assert (Hbc3 : bucket_count r3 = n) by (rewrite bucket_count_eq; [lia|done]).
  unfold SampleVector_new. rewrite Hbc3, (proj2 (Z.leb_le 1 n)) by lia. rstep.
  eexists. split; [reflexivity|].
  split; cbn [h_ranges histogram_name_ declared_min_ declared_max_ samples_];
    unfold h_bucket_count, h_range, range; cbn [h_ranges]; try done.
  - apply vget_lookup; [lia|apply Hf3].
  - rewrite Ho3 by lia. rewrite Ho2 by lia. apply vget_lookup; [lia|apply Hf1].
  - apply vget_lookup; [lia|apply Hf3].
  - rewrite Ho3 by lia. apply vget_lookup; [lia|apply Hf2].
Qed.

(** What InspectConstructionArguments accepts is what the constructor needs. *)
Lemma Inspect_valid minimum maximum n minimum' maximum' n' :
  fits_s 32 minimum -> fits_s 32 maximum -> fits_u 64 n ->
  InspectConstructionArguments minimum maximum n = (true, (minimum', maximum', n')) ->
  valid_args minimum' maximum' n'.
Proof.
  unfold InspectConstructionArguments, kSampleTypeMax, kBucketCountMax, INT_MAX, fits_s, fits_u.
  intros Hmin Hmax Hn E.
  set (mn := if minimum <? 1 then 1 else minimum) in *.
  set (mx := if 2 ^ 31 - 1 <=? maximum then 2 ^ 31 - 1 - 1 else maximum) in *.
  set (bc := if 16384 <=? n then 16384 - 1 else n) in *.
  assert (1 <= mn < 2 ^ 31) by (unfold mn; destruct (minimum <? 1) eqn:?; zify_bool; lia).
  assert (mx <= 2 ^ 31 - 2) by (unfold mx; destruct (2 ^ 31 - 1 <=? maximum) eqn:?; zify_bool; lia).
  assert (bc < 16384) by (unfold bc; destruct (16384 <=? n) eqn:?; zify_bool; lia).
  injection E as E <- <- <-.
  destruct (mx <=? mn) eqn:E1; [done|]. destruct (bc <? 3) eqn:E2; [done|]. zify_bool.
  rewrite (wrap_s_id 32 (mx - mn)), (wrap_s_id 32 (mx - mn + 2)), wrap_u_id in E
    by (unfold fits_s, fits_u; lia).
  destruct (mx - mn + 2 <? bc) eqn:E3; [done|]. zify_bool.
  split; unfold kSampleTypeMax, kBucketCountMax, INT_MAX; lia.
Qed.
End ConstructionProofs.

(** ** Properties of the recorded samples *)

(** A histogram whose counters did not overflow. *)
Record hist_ok (h : Histogram) : Prop := {
  ho_samples : samples_ok (samples_ h);
  ho_shared : bucket_ranges_ (samples_ h) = h_ranges h;
  ho_first : h_range h 0 = Ok 0;
  ho_last : h_range h (h_bucket_count h) = Ok kSampleTypeMax;
  ho_counts : Forall (fun c => 0 <= c) (counts_ (samples_ h));
  ho_total : zsum (counts_ (samples_ h)) <= INT_MAX;
  ho_sum : fits_s 64 (sum_ (samples_ h));
  ho_zero : zsum (counts_ (samples_ h)) = 0 -> sum_ (samples_ h) = 0;
}.

Lemma ho_ranges h : hist_ok h -> ranges_ok (h_ranges h).
Proof. intros Ho. rewrite <- (ho_shared h Ho). apply Ho. Qed.

Lemma ho_len h : hist_ok h -> Zlen (counts_ (samples_ h)) = h_bucket_count h.
Proof. intros Ho. unfold h_bucket_count. rewrite <- (ho_shared h Ho). apply Ho. Qed.

Lemma ho_bound h : hist_ok h -> 1 <= h_bucket_count h < 2 ^ 31 /\ Zlen (ranges_ (h_ranges h)) = h_bucket_count h + 1.
Proof.
  intros Ho. pose proof (ho_ranges h Ho) as Hr. unfold h_bucket_count. rewrite bucket_count_eq by done.
  destruct Hr as [Hs _]. lia.
Qed.

Lemma new_hist_ok `{Libm} name minimum maximum n h : 0 <= n -> new_ok name minimum maximum n h -> hist_ok h.
Proof.
  intros Hn [Hr Hc Hf _ Hl _ _ He]. split; rewrite ?He; cbn [counts_ bucket_ranges_ sum_]; try done.
  - split; [done|]. cbn. unfold Zlen. rewrite length_replicate.
    change (bucket_count (h_ranges h)) with (h_bucket_count h). lia.
  - by rewrite Hc.
  - by apply Forall_replicate.
  - rewrite zsum_zeros. unfold INT_MAX. lia.
Qed.

(** The value recorded for a sample. *)
Definition clamp (v : Z) : Z := Z.max 0 (Z.min v (kSampleTypeMax - 1)).

Lemma clamp_eq v :
  (let value := if kSampleTypeMax <=? v then kSampleTypeMax - 1 else v in
   if value <? 0 then 0 else value) = clamp v.
Proof.
  unfold clamp, kSampleTypeMax, INT_MAX. cbv zeta. destruct (2 ^ 31 - 1 <=? v) eqn:E; zify_bool.
  - rewrite (proj2 (Z.ltb_ge _ 0)); lia.
  - destruct (v <? 0) eqn:E2; zify_bool; lia.
Qed.

(** C28: what InspectConstructionArguments accepts, the constructor can build,
    whatever the three arguments were: with the arguments it leaves behind, and a C
    library whose log and exp are within sixteen units in the last place of the real
    functions, no DCHECK of the constructor fails, the loop ends, and the bounds are
    strictly increasing: 0, minimum, ..., maximum, INT_MAX, with every count zero.
    The rounding of every operation on the way is accounted for, so no root step
    passes the maximum before its turn, and the last one reaches it. *)
Theorem accepted_arguments_construct `{Libm} name minimum maximum n minimum' maximum' n' :
  fits_s 32 minimum -> fits_s 32 maximum -> fits_u 64 n ->
  InspectConstructionArguments minimum maximum n = (true, (minimum', maximum', n')) ->
  libm_accurate ->
  exists h, Histogram_new name minimum' maximum' n' = Ok h /\ new_ok name minimum' maximum' n' h.
Proof.
  intros Hmin Hmax Hn Hi Hacc. apply Histogram_new_ok; [|done].
  exact (Inspect_valid _ _ _ _ _ _ Hmin Hmax Hn Hi).
Qed.

(** The histogram after a sample was counted in bucket [i], whose count was [c]. *)
Definition counted (i c v : Z) (h : Histogram) : Histogram :=
  with_samples (SV (<[Z.to_nat i := c + 1]> (counts_ (samples_ h))) (h_ranges h)
    (int64 (sum_ (samples_ h) + clamp v))) h.

Lemma counted_ok h i c v : hist_ok h -> zsum (counts_ (samples_ h)) < INT_MAX ->
  vget (counts_ (samples_ h)) i = Ok c -> hist_ok (counted i c v h).
Proof.
  intros Ho Hroom [Hi Hlk]%vget_ok. pose proof Ho as [Hs Hsh Hf Hl Hc Ht Hsum Hz].
  pose proof (zsum_elem _ _ _ Hc Hlk) as Hcb. pose proof (Forall_lookup_1 _ _ _ _ Hc Hlk) as Hc0.
  assert (Hzs : zsum (<[Z.to_nat i := c + 1]> (counts_ (samples_ h))) = zsum (counts_ (samples_ h)) + 1)
    by (rewrite (zsum_insert _ _ c) by done; lia).
  split; cbn [counted with_samples samples_ counts_ bucket_ranges_ sum_ h_ranges]; try done.
  - split; cbn [counts_ bucket_ranges_]; [by apply ho_ranges|]. rewrite Zlen_insert. by apply ho_len.
  - apply Forall_insert; [done|lia].
  - lia.
  - apply wrap_s_fits; lia.
  - rewrite Hzs. pose proof (zsum_nonneg _ Hc). lia.
Qed.

Lemma Add_ok h v : hist_ok h -> zsum (counts_ (samples_ h)) < INT_MAX ->
  exists i c, in_bucket (h_ranges h) i (clamp v) /\ vget (counts_ (samples_ h)) i = Ok c /\
    Add v h = Ok (counted i c v h).
Proof.
  intros Ho Hroom. pose proof Ho as [Hs Hsh Hf Hl Hc Ht Hsum Hz]. unfold Add. rewrite Hf. rstep.
  change (0 =? 0) with true. rstep. rewrite Hl. rstep. rewrite Z.eqb_refl. rstep.
  pose proof (clamp_eq v) as Hcl. cbv zeta in Hcl |- *. rewrite Hcl.
  assert (Hcv : 0 <= clamp v < kSampleTypeMax) by (unfold clamp, kSampleTypeMax, INT_MAX; lia).
  destruct (GetBucketIndex_in (h_ranges h) (clamp v) 0 kSampleTypeMax (ho_ranges h Ho)) as (i & Hi & Hb & Hib); [done..|].
  destruct (vget_in (counts_ (samples_ h)) i) as [c Hci]; [rewrite ho_len by done; exact Hb|].
  exists i, c. split; [done|]. split; [done|]. pose proof Hci as [Hi0 Hlk]%vget_ok.
  pose proof (zsum_elem _ _ _ Hc Hlk) as Hcb. pose proof (Forall_lookup_1 _ _ _ _ Hc Hlk) as Hc0.
  unfold Accumulate. rewrite Hsh, Hi. rstep. rewrite Hci. rstep.
  rewrite vset_ok by (rewrite ho_len by done; exact Hb). rstep.
  unfold counted, kSampleTypeMax in *.
  rewrite Z.mul_1_l, (wrap_s_id 32 (c + 1)), (wrap_s_id 32 (clamp v)) by (unfold fits_s, INT_MAX in *; lia). done.
Qed.

(** C19: Add never fails on a well-formed histogram: any int is clamped to
    [0, INT_MAX - 1], the one bucket that contains the clamped value is incremented,
    every other count stays, the total grows by one and the sum by the clamped
    value; the histogram stays well formed. *)
Theorem Add_records h v :
  hist_ok h -> zsum (counts_ (samples_ h)) < INT_MAX ->
  exists h' i c, Add v h = Ok h' /\ hist_ok h' /\ in_bucket (h_ranges h) i (clamp v) /\
    (histogram_name_ h', h_ranges h') = (histogram_name_ h, h_ranges h) /\
    vget (counts_ (samples_ h)) i = Ok c /\ vget (counts_ (samples_ h')) i = Ok (c + 1) /\
    (forall j, j <> i -> vget (counts_ (samples_ h')) j = vget (counts_ (samples_ h)) j) /\
    TotalCount (samples_ h') = TotalCount (samples_ h) + 1 /\
    sum_ (samples_ h') = int64 (sum_ (samples_ h) + clamp v).
Proof.
  intros Ho Hroom. destruct (Add_ok h v Ho Hroom) as (i & c & Hib & Hci & Ha).
  pose proof (counted_ok h i c v Ho Hroom Hci) as Ho'. pose proof Hci as [Hi Hlk]%vget_ok.
  assert (Hb : i < Zlen (counts_ (samples_ h))) by (apply lookup_lt_Some in Hlk; unfold Zlen; lia).
  exists (counted i c v h), i, c. do 5 (split; [done|]). cbn [counted with_samples samples_ counts_ sum_].
  split; [by apply vget_insert_eq; lia|].
  split; [intros j Hj; apply vget_insert_ne; [lia|done]|]. split; [|done].
  pose proof (ho_total _ Ho') as Ht'. pose proof (ho_counts _ Ho') as Hc'.
  cbn [counted with_samples samples_ counts_] in Ht', Hc'.
  apply zsum_nonneg in Hc'. pose proof (zsum_nonneg _ (ho_counts h Ho)).
  rewrite !TotalCount_sum. cbn [counts_].
  rewrite !wrap_s_id by (unfold fits_s, INT_MAX in *; lia). rewrite (zsum_insert _ _ c) by done. lia.
Qed.

(** ** Snapshots *)

Lemma zero_samples_ok r n : ranges_ok r -> bucket_count r = n -> samples_ok (SV (replicate (Z.to_nat n) 0) r 0).
Proof.
  intros Hr Hn. pose proof (bucket_count_eq r Hr). pose proof (ro_size r Hr).
  split; [done|]. cbn. unfold Zlen. rewrite length_replicate. lia.
Qed.

(** A snapshot equals the samples. *)
Lemma Snapshot_samples h : hist_ok h -> SnapshotSampleVector h = Ok (samples_ h).
Proof.
  intros Ho. pose proof (ho_ranges h Ho) as Hr. pose proof (ho_bound h Ho) as [Hb _].
  unfold SnapshotSampleVector, SampleVector_new. change (bucket_count (h_ranges h)) with (h_bucket_count h).
  rewrite (proj2 (Z.leb_le 1 _)) by lia. rstep. unfold Samples.Add.
  set (z := SV (replicate (Z.to_nat (h_bucket_count h)) 0) (h_ranges h) 0).
  assert (Hz : samples_ok z) by (by apply zero_samples_ok).
  destruct (combine_spec ADD z (samples_ h) Hz (ho_samples h Ho) (ho_shared h Ho)) as
    (s' & Hc & Hs' & Hr' & Hsum & Hcounts).
  rewrite Hc. f_equal. cbn [z sum_ bucket_ranges_] in *.
  assert (Hl : counts_ s' = counts_ (samples_ h)).
  { pose proof (so_len _ Hs') as E1. pose proof (ho_len h Ho) as E2. rewrite Hr' in E1.
    change (bucket_count (h_ranges h)) with (h_bucket_count h) in E1. unfold Zlen in *.
    apply list_eq_same_length with (length (counts_ s')); [lia|done|].
    intros j x y Hj Hx Hy. pose proof (zsum_elem _ _ _ (ho_counts h Ho) Hy) as Hyb.
    pose proof (ho_total h Ho). assert (Hfy : fits_s 32 y) by (unfold fits_s, INT_MAX in *; lia).
    assert (Hj0 : counts_ z !! j = Some 0) by (apply lookup_replicate_2; lia).
    pose proof (Hcounts j 0 y Hj0 Hy ltac:(unfold fits_s; lia)) as E. rewrite Hx in E.
    injection E as ->. by apply wrap_s_id. }
  destruct (samples_ h) as [cs r sm] eqn:Es, s' as [cs' r' sm']. cbn [counts_ bucket_ranges_ sum_] in *.
  subst. f_equal; [|]. { pose proof (ho_shared h Ho) as E. rewrite Es in E. by cbn in E. }
  rewrite Z.add_0_l. apply wrap_s_id; [done|]. pose proof (ho_sum h Ho) as E. by rewrite Es in E.
Qed.

Lemma GetCountAtIndex_in h i : hist_ok h -> 0 <= i < h_bucket_count h ->
  exists c, GetCountAtIndex i (samples_ h) = Ok c /\ counts_ (samples_ h) !! Z.to_nat i = Some c.
Proof.
  intros Ho Hi. pose proof (ho_len h Ho) as Hl. unfold GetCountAtIndex.
  rewrite (proj2 (Z.ltb_lt i _)) by lia. rstep.
  destruct (vget_in (counts_ (samples_ h)) i) as [c Hc]; [lia|]. exists c. split; [done|]. by apply vget_ok.
Qed.

Lemma h_range_in h i : hist_ok h -> 0 <= i <= h_bucket_count h ->
  exists a, h_range h i = Ok a /\ ranges_ (h_ranges h) !! Z.to_nat i = Some a.
Proof.
  intros Ho Hi. pose proof (ho_bound h Ho) as [_ Hl]. unfold h_range, range.
  destruct (vget_in (ranges_ (h_ranges h)) i) as [a Ha]; [lia|]. exists a. split; [done|]. by apply vget_ok.
Qed.

(** The rendered buckets, read off the bounds and the counts: the non-empty ones,
    in order; the last one without its upper bound and without its count. *)
Fixpoint entries (bounds counts : list Z) : list json :=
  match bounds, counts with
  | low :: ((high :: _) as bounds), c :: counts =>
      (if 0 <? c then
         [JObject ((str "low", JInt low) ::
            match counts with [] => [] | _ => [(str "high", JInt high); (str "count", JInt c)] end)]
       else []) ++ entries bounds counts
  | _, _ => []
  end.

Lemma entries_cons low high bounds c counts :
  entries (low :: high :: bounds) (c :: counts) =
  (if 0 <? c then
     [JObject ((str "low", JInt low) ::
        match counts with [] => [] | _ => [(str "high", JInt high); (str "count", JInt c)] end)]
   else []) ++ entries (high :: bounds) counts.
Proof. done. Qed.

Lemma json_buckets_entries h : hist_ok h -> forall n i,
  0 <= i -> Z.of_nat n = h_bucket_count h - i ->
  json_buckets n i h (samples_ h) =
  Ok (entries (drop (Z.to_nat i) (ranges_ (h_ranges h))) (drop (Z.to_nat i) (counts_ (samples_ h)))).
Proof.
  intros Ho. pose proof (ho_len h Ho) as Hlc. pose proof (ho_bound h Ho) as [_ Hlr]. unfold Zlen in *.
  induction n as [|n IH]; intros i Hi Hn; cbn [json_buckets].
  { rewrite (drop_ge (counts_ _)) by lia.
    destruct (drop _ (ranges_ _)) as [|? [|? ?]]; done. }
  destruct (GetCountAtIndex_in h i Ho) as (c & Hc & Hcl); [lia|].
  destruct (h_range_in h i Ho) as (low & Hlow & Hll); [lia|].
  destruct (h_range_in h (i + 1) Ho) as (high & Hhigh & Hlh); [lia|].
  rewrite Hc. rstep. replace (Z.to_nat (i + 1)) with (S (Z.to_nat i)) in Hlh by lia.
  rewrite (drop_S (ranges_ _) low (Z.to_nat i)), (drop_S (ranges_ _) high), (drop_S (counts_ _) c) by done.
  rewrite entries_cons, <- (drop_S (ranges_ (h_ranges h)) high (S (Z.to_nat i))) by done.
  assert (Hd : drop (S (Z.to_nat i)) (counts_ (samples_ h)) = [] <-> i = h_bucket_count h - 1).
  { rewrite <- length_zero_iff_nil, length_drop. lia. }
  rewrite (IH (i + 1)) by lia. replace (Z.to_nat (i + 1)) with (S (Z.to_nat i)) by lia. rewrite Hlow, Hhigh.
  destruct (0 <? c); rstep; [|done].
  destruct (i =? h_bucket_count h - 1) eqn:E; zify_bool.
  - rewrite (proj2 Hd E). done.
  - destruct (drop (S (Z.to_nat i)) (counts_ (samples_ h))); [by destruct E; apply Hd|]. done.
Qed.

(** WriteJSON renders exactly this document: the name, the total and the sum,
    the declared arguments, and one entry per non-empty bucket in increasing
    order. The last bucket's entry carries neither an upper bound nor its count. *)
Theorem WriteJSON_document render h :
  hist_ok h ->
  WriteJSON render h = Ok (c_string (render (JObject
    [(str "name", JRef (c_string (histogram_name_ h)));
     (str "count", JInt (zsum (counts_ (samples_ h))));
     (str "sum", JInt (sum_ (samples_ h)));
     (str "type", JRef (str "Histogram"));
     (str "min", JInt (declared_min_ h));
     (str "max", JInt (declared_max_ h));
     (str "bucket_count", JInt (Zlen (counts_ (samples_ h))));
     (str "buckets", JArray (entries (ranges_ (h_ranges h)) (counts_ (samples_ h))))]))).
Proof.
  intros Ho. unfold WriteJSON. rewrite Snapshot_samples by done. rstep.
  pose proof (ho_bound h Ho) as [Hb _]. rewrite (json_buckets_entries h Ho) by lia. rstep.
  rewrite ho_len by done. pose proof (zsum_nonneg _ (ho_counts h Ho)). pose proof (ho_total h Ho).
  rewrite TotalCount_sum, wrap_s_id by (unfold fits_s, INT_MAX in *; lia). done.
Qed.

(** ** The text rendering *)

Lemma GetBucketSize_in h c i : hist_ok h -> 0 <= i < h_bucket_count h ->
  exists d, GetBucketSize c i h = Ok d.
Proof.
  intros Ho Hi. destruct (h_range_in h i Ho) as (a & Ha & Hla); [lia|].
  destruct (h_range_in h (i + 1) Ho) as (b & Hb & Hlb); [lia|].
  unfold GetBucketSize. rewrite Hb, Ha. rstep.
  pose proof (increasing_lt _ i (i + 1) a b (ro_incr _ (ho_ranges h Ho)) ltac:(lia) Ha Hb).
  rewrite (proj2 (Z.ltb_lt a b)) by done. by eexists.
Qed.

Lemma peak_loop_ok h : hist_ok h -> forall n i m, 0 <= i -> i + Z.of_nat n = h_bucket_count h ->
  exists d, peak_loop n i m (samples_ h) h = Ok d.
Proof.
  intros Ho. induction n as [|n IH]; intros i m Hi Hn; cbn [peak_loop]; [by eexists|].
  destruct (GetCountAtIndex_in h i Ho) as (c & Hc & _); [lia|]. rewrite Hc. rstep.
  destruct (GetBucketSize_in h c i Ho) as [d Hd]; [lia|]. rewrite Hd. rstep. apply IH; lia.
Qed.

Lemma largest_loop_ok h : hist_ok h -> forall fuel i, 0 <= i < h_bucket_count h -> (Z.to_nat i < fuel)%nat ->
  exists j, largest_loop fuel i (samples_ h) = Ok j.
Proof.
  intros Ho. induction fuel as [|fuel IH]; intros i Hi Hf; [lia|]. cbn [largest_loop].
  destruct (GetCountAtIndex_in h i Ho Hi) as (c & Hc & _). rewrite Hc. rstep.
  destruct (c =? 0); [|by eexists]. destruct (i =? 0) eqn:E; zify_bool; [by eexists|]. apply IH; lia.
Qed.

Lemma width_loop_ok h : hist_ok h -> forall n i w, 0 <= i -> i + Z.of_nat n = h_bucket_count h ->
  exists w', width_loop n i w (samples_ h) h = Ok w'.
Proof.
  intros Ho. induction n as [|n IH]; intros i w Hi Hn; cbn [width_loop]; [by eexists|].
  destruct (GetCountAtIndex_in h i Ho) as (c & Hc & _); [lia|]. rewrite Hc. rstep.
  destruct (c =? 0); [apply IH; lia|]. unfold GetAsciiBucketRange.
  destruct (h_range_in h i Ho) as (a & Ha & _); [lia|]. rewrite Ha. rstep. apply IH; lia.
Qed.

(** The buckets skipped hold nothing. *)
Lemma skip_loop_ok h : hist_ok h -> forall fuel i, 0 <= i < h_bucket_count h ->
  h_bucket_count h - i <= Z.of_nat fuel ->
  exists j, skip_loop fuel i (samples_ h) h = Ok j /\ i <= j < h_bucket_count h /\
    zsum (drop (Z.to_nat (i + 1)) (counts_ (samples_ h))) = zsum (drop (Z.to_nat (j + 1)) (counts_ (samples_ h))).
Proof.
  intros Ho. induction fuel as [|fuel IH]; intros i Hi Hf; [lia|]. cbn [skip_loop].
  destruct (i <? h_bucket_count h - 1) eqn:E; zify_bool; [|exists i; split; [done|lia]].
  destruct (GetCountAtIndex_in h (i + 1) Ho) as (c & Hc & Hl); [lia|]. rewrite Hc. rstep.
  destruct (c =? 0) eqn:Ec; zify_bool; [|exists i; split; [done|lia]]. subst c.
  destruct (IH (i + 1)) as (j & Hj & Hij & Hz); [lia|lia|]. exists j. split; [done|]. split; [lia|].
  rewrite (zsum_drop _ _ 0) by done. rewrite <- Hz. replace (S (Z.to_nat (i + 1))) with (Z.to_nat (i + 1 + 1)) by lia.
  lia.
Qed.

(** The graph loop ends, and past grows by the counts it went over. *)
Lemma graph_loop_ok h g nl ms w : hist_ok h -> forall fuel i remaining past,
  0 <= i <= h_bucket_count h -> h_bucket_count h - i < Z.of_nat fuel ->
  exists out, graph_loop g nl ms w (samples_ h) h fuel i remaining (int64 past) =
    Ok (out, int64 (past + zsum (drop (Z.to_nat i) (counts_ (samples_ h))))).
Proof.
  intros Ho. pose proof (ho_len h Ho) as Hlen. unfold Zlen in Hlen.
  induction fuel as [|fuel IH]; intros i remaining past Hi Hf; [lia|]. cbn [graph_loop].
  destruct (i <? h_bucket_count h) eqn:E; zify_bool.
  2: { exists []. rewrite drop_ge by lia. change (zsum []) with 0. by rewrite Z.add_0_r. }
  destruct (GetCountAtIndex_in h i Ho) as (c & Hc & Hl); [lia|]. rewrite Hc. rstep.
  unfold PrintEmptyBucket. rewrite andb_false_r. unfold GetAsciiBucketRange.
  destruct (h_range_in h i Ho) as (a & Ha & _); [lia|]. rewrite Ha. rstep.
  rewrite (zsum_drop _ _ c) by done. replace (S (Z.to_nat i)) with (Z.to_nat (i + 1)) by lia.
  assert (exists b, starts_gap (samples_ h) h c i = Ok b /\ (b = true -> c = 0)) as (b & Hb & Hb0).
  { unfold starts_gap. destruct ((c =? 0) && (i <? h_bucket_count h - 1)) eqn:Eg; zify_bool; [|by eexists].
    destruct (GetCountAtIndex_in h (i + 1) Ho) as (d & Hd & _); [lia|]. rewrite Hd. rstep. by eexists. }
  rewrite Hb. rstep. destruct b.
  - rewrite (Hb0 eq_refl). destruct (skip_loop_ok h Ho (S (Z.to_nat (h_bucket_count h))) i) as (j & Hj & Hij & Hz);
      [lia|lia|].
    rewrite Hj. rstep. edestruct (IH (j + 1)) as [out Hout]; [lia|lia|]. rewrite Hout. rstep.
    rewrite Z.add_0_l, Hz. by eexists.
  - destruct (GetBucketSize_in h c i Ho) as [d Hd]; [lia|]. rewrite Hd. rstep. rewrite wrap_s_add_l by lia.
    edestruct (IH (i + 1)) as [out Hout]; [lia|lia|]. rewrite Hout. rstep.
    replace (past + (c + zsum (drop (Z.to_nat (i + 1)) (counts_ (samples_ h)))))
      with (past + c + zsum (drop (Z.to_nat (i + 1)) (counts_ (samples_ h)))) by lia. by eexists.
Qed.

Definition title (h : Histogram) : bytes :=
  str "Histogram: " ++ c_string (histogram_name_ h) ++ str " recorded " ++
  dec (zsum (counts_ (samples_ h))) ++ str " samples".

(** The text rendering of a well-formed histogram always ends, no DCHECK on the
    way fails (the one that compares the samples drawn with the total included),
    and the text appended starts with the title line. *)
Theorem WriteAscii_total h output :
  hist_ok h -> exists text, WriteAscii h output = Ok (output ++ title h ++ text).
Proof.
  intros Ho. unfold WriteAscii, WriteAsciiImpl. rewrite Snapshot_samples by done. rstep.
  pose proof (zsum_nonneg _ (ho_counts h Ho)) as H0. pose proof (ho_total h Ho) as H1.
  assert (Htot : TotalCount (samples_ h) = zsum (counts_ (samples_ h)))
    by (rewrite TotalCount_sum; apply wrap_s_id; unfold fits_s, INT_MAX in *; lia).
  rewrite Htot.
  assert (Hh : exists avg, WriteAsciiHeader (samples_ h) (zsum (counts_ (samples_ h))) h = Ok (title h ++ avg)).
  { unfold WriteAsciiHeader, title, sdec. rewrite (proj2 (Z.ltb_ge _ 0)) by lia.
    destruct (_ =? 0) eqn:E; zify_bool.
    - rewrite (ho_zero h Ho) by done. exists []. by rewrite app_nil_r.
    - eexists. by rewrite <- !app_assoc. }
  destruct Hh as [avg Hh]. rewrite Hh. rstep. unfold GetPeakBucketSize.
  pose proof (ho_bound h Ho) as [Hb _].
  destruct (peak_loop_ok h Ho (Z.to_nat (h_bucket_count h)) 0 dzero) as [ms Hms]; [lia|lia|]. rewrite Hms. rstep.
  destruct (largest_loop_ok h Ho (S (Z.to_nat (h_bucket_count h))) (h_bucket_count h - 1)) as [j Hj]; [lia|lia|].
  rewrite Hj. rstep. destruct (width_loop_ok h Ho (Z.to_nat (h_bucket_count h)) 0 1) as [w Hw]; [lia|lia|].
  rewrite Hw. rstep.
  destruct (graph_loop_ok h true [10] ms w Ho (S (Z.to_nat (h_bucket_count h))) 0
    (zsum (counts_ (samples_ h))) 0) as [out Hout]; [lia|lia|].
  change (int64 0) with 0 in Hout. rewrite Hout. rstep. change (Z.to_nat 0) with 0%nat. rewrite drop_0, Z.add_0_l.
  rewrite wrap_s_id by (unfold fits_s, INT_MAX in *; lia). rewrite Z.eqb_refl. rstep.
  eexists. by rewrite <- !app_assoc.
Qed.

(** ** The recorder *)

Lemma recorder_inv_empty : reg_inv (store_empty : store Histogram) HistogramRecorder_init.
Proof. split; cbn; unfold FindHistogram; intros *; rewrite ?lookup_empty; naive_solver. Qed.

(** One histogram per name: FactoryGet returns the histogram registered under
    the name, a new one with empty buckets when there was none. From then on every
    FactoryGet of the name returns that same histogram and changes nothing,
    whatever its arguments; so does a call of another thread that found nothing
    before and registers its own histogram only now: that one is deleted. *)
Theorem FactoryGet_shared `{Libm} name minimum maximum n s r :
  reg_inv s r -> valid_args minimum maximum n -> libm_accurate ->
  exists p s' r' h, FactoryGet name minimum maximum n s r = Ok (p, s', r') /\ reg_inv s' r' /\
    FindHistogram name r' = Some p /\ objs s' !! p = Some h /\ histogram_name_ h = name /\
    match FindHistogram name r with
    | Some q => (p, s', r') = (q, s, r)
    | None => new_ok name minimum maximum n h
    end /\
    (forall minimum2 maximum2 n2, FactoryGet name minimum2 maximum2 n2 s' r' = Ok (p, s', r')) /\
    (forall h2, histogram_name_ h2 = name ->
       exists s'', get_or_create h2 s' r' = Ok (p, s'', r') /\ objs s'' = objs s').
Proof.
  intros I Hv Hacc.
  assert (Hlate : forall p s' r', reg_inv s' r' -> FindHistogram name r' = Some p -> forall h2, histogram_name_ h2 = name ->
    exists s'', get_or_create h2 s' r' = Ok (p, s'', r') /\ objs s'' = objs s').
  { intros p s' r' I' Hf h2 Hn. destruct (get_or_create_spec h2 s' r' I') as (p2 & s2 & r2 & y & E & _ & _ & _ & _ & Hm).
    cbn [reg_key reg_find histogram_registry] in Hm. rewrite Hn, Hf in Hm. destruct Hm as (-> & -> & Hs). by exists s2. }
  unfold FactoryGet at 1. destruct (FindHistogram name r) as [q|] eqn:Eq.
  - destruct (reg_live _ _ I name q Eq) as (h & Hh & Hk). exists q, s, r, h.
    do 6 (split; [done|]). split; [|by apply Hlate].
    intros. unfold FactoryGet. by rewrite Eq.
  - destruct (Histogram_new_ok name minimum maximum n Hv Hacc) as (h & Hh & Hok). rewrite Hh. rstep.
    assert (Hname : histogram_name_ h = name) by (pose proof (no_args _ _ _ _ _ Hok); congruence).
    destruct (get_or_create_spec h s r I) as (p & s' & r' & y & E & I' & Hf & Hp & _ & Hm).
    cbn [reg_key reg_find histogram_registry] in Hf, Hm. rewrite Hname, ?Eq in *. destruct Hm as (Hp' & -> & _).
    exists p, s', r', h. do 6 (split; [done|]). split; [|by apply Hlate].
    intros. unfold FactoryGet. by rewrite Hf.
Qed.

(** FactoryGet does not normalise its arguments: a minimum below one fails a
    DCHECK when the name is new, although InspectConstructionArguments would have
    raised it to one. *)
Theorem FactoryGet_bad_minimum `{Libm} name minimum maximum n s r :
  FindHistogram name r = None -> minimum < 1 ->
  FactoryGet name minimum maximum n s r = Err CheckFailed /\
  (InspectConstructionArguments minimum maximum n).2.1.1 = 1.
Proof.
  intros Hf Hm. unfold FactoryGet. rewrite Hf. split.
  - unfold Histogram_new, InitializeBucketRanges, set_range. destruct (1 <? _); rstep; [|done].
    by rewrite (proj2 (Z.ltb_ge 0 minimum)) by lia.
  - unfold InspectConstructionArguments. by rewrite (proj2 (Z.ltb_lt minimum 1)) by lia.
Qed.

Lemma contains_spec name query :
  contains name query = true <-> exists a b, name = a ++ query ++ b.
Proof.
  unfold contains. rewrite bool_decide_eq_true. destruct (search_spec name query) as [Hf Hb]. split.
  - intros [b Hp]. exists (take (search name query) name), b. by rewrite <- Hp, take_drop.
  - intros (a & b & ->). destruct Hf as [Hf|[Hl Hne]]; [done|]. exfalso.
    assert (Hq : (0 < length query)%nat) by (destruct query; [done|cbn; lia]).
    apply (Hb (length a)); [rewrite Hl, !length_app; lia|]. rewrite drop_app_length. by exists b.
Qed.

(** A snapshot holds exactly the registered histograms whose name contains the
    query, each once if the registrations are distinct, in the order of the
    names. *)
Theorem GetSnapshot_matches query r :
  (forall p, p ∈ GetSnapshot query r <->
     exists name a b, FindHistogram name r = Some p /\ name = a ++ query ++ b) /\
  (forall name, name ∈ names r <-> is_Some (FindHistogram name r)) /\
  NoDup (names r) /\ Sorted lex_le (names r).
Proof.
  assert (Hn : forall name, name ∈ names r <-> is_Some (FindHistogram name r)).
  { intros name. unfold names, FindHistogram. rewrite merge_sort_Permutation, list_elem_of_fmap. split.
    - intros ([k p] & -> & Hin). apply elem_of_map_to_list in Hin. by eexists.
    - intros [p Hp]. exists (name, p). split; [done|]. by apply elem_of_map_to_list. }
  split; [|split; [done|split]].
  - intros p. unfold GetSnapshot. rewrite list_elem_of_omap. split.
    + intros (name & Hin & Hc). destruct (contains name query) eqn:E; [|done].
      apply contains_spec in E as (a & b & ->). by exists (a ++ query ++ b), a, b.
    + intros (name & a & b & Hf & Hab). exists name. split; [apply Hn; by eexists|].
      assert (contains name query = true) as -> by (apply contains_spec; eauto). done.
  - unfold names. rewrite merge_sort_Permutation. apply NoDup_fst_map_to_list.
  - apply Sorted_merge_sort. intros x y. unfold lex_le. rewrite (lex_antisym x y).
    destruct (lex x y); [left|left|right]; done.
Qed.

(** ** Witnesses *)

(** A C library for examples that are computed; it spaces the buckets evenly. *)
Definition linear_libm : Libm := {| log := fun x => x; exp := fun x => x |}.

Definition demo : Histogram :=
  MkHistogram (str "demo") (Ranges [0; 1; 4; 7; INT_MAX]) 1 7
    (SV [0; 2; 0; 1] (Ranges [0; 1; 4; 7; INT_MAX]) 12).

Lemma demo_ok : hist_ok demo.
Proof.
  split; try reflexivity.
  - split; [|reflexivity]. split; [change (2 <= 5 < 2 ^ 31); lia|]. intros i j x y Hij Hx Hy.
    pose proof (lookup_lt_Some _ _ _ Hy) as Hj. cbn in Hx, Hy, Hj. unfold INT_MAX in *.
    do 5 (destruct j as [|j]; [do 5 (destruct i as [|i]; [cbn in *; simplify_eq; lia|]); lia|]). lia.
  - cbn. repeat constructor; lia.
  - vm_compute. congruence.
  - vm_compute. split; congruence.
  - vm_compute. congruence.
Qed.

Lemma accepted_arguments_construct_witness :
  exists h, @Histogram_new real_libm (str "a") 1 1000000 50 = Ok h /\ new_ok (str "a") 1 1000000 50 h.
Proof.
  apply (@accepted_arguments_construct real_libm (str "a") (-5) 1000000 50 1 1000000 50);
    [unfold fits_s; lia|unfold fits_s; lia|unfold fits_u; lia|reflexivity|exact real_libm_accurate].
Defined.

Lemma Add_records_witness :
  exists h' i c, Add (-3) demo = Ok h' /\ hist_ok h' /\ in_bucket (h_ranges demo) i (clamp (-3)) /\
    (histogram_name_ h', h_ranges h') = (histogram_name_ demo, h_ranges demo) /\
    vget (counts_ (samples_ demo)) i = Ok c /\ vget (counts_ (samples_ h')) i = Ok (c + 1) /\
    (forall j, j <> i -> vget (counts_ (samples_ h')) j = vget (counts_ (samples_ demo)) j) /\
    TotalCount (samples_ h') = TotalCount (samples_ demo) + 1 /\
    sum_ (samples_ h') = int64 (sum_ (samples_ demo) + clamp (-3)).
Proof. apply (Add_records demo (-3) demo_ok). reflexivity. Defined.

Lemma WriteJSON_document_witness :
  WriteJSON (fun _ => str "{}") demo = Ok (str "{}") /\
  entries (ranges_ (h_ranges demo)) (counts_ (samples_ demo)) =
    [JObject [(str "low", JInt 1); (str "high", JInt 4); (str "count", JInt 2)];
     JObject [(str "low", JInt 7)]].
Proof. split; [apply (WriteJSON_document (fun _ => str "{}") demo demo_ok)|reflexivity]. Defined.

Lemma WriteAscii_total_witness :
  exists text, WriteAscii demo [] = Ok ([] ++ title demo ++ text).
Proof. apply (WriteAscii_total demo [] demo_ok). Defined.

Example demo_title : title demo = str "Histogram: demo recorded 3 samples".
Proof. reflexivity. Qed.

Example demo_line :
  WriteAsciiBucketContext 2 1 0 3 = str " (1 = 33.3%) {66.7%}".
Proof. vm_compute. reflexivity. Qed.

Lemma FactoryGet_shared_witness :
  exists p s' r' h,
    @FactoryGet real_libm (str "a") 1 7 4 store_empty HistogramRecorder_init = Ok (p, s', r') /\
    reg_inv s' r' /\ FindHistogram (str "a") r' = Some p /\ objs s' !! p = Some h /\
    histogram_name_ h = str "a" /\ new_ok (str "a") 1 7 4 h /\
    (forall minimum2 maximum2 n2,
       @FactoryGet real_libm (str "a") minimum2 maximum2 n2 s' r' = Ok (p, s', r')) /\
    (forall h2, histogram_name_ h2 = str "a" ->
       exists s'', get_or_create h2 s' r' = Ok (p, s'', r') /\ objs s'' = objs s').
Proof.
  apply (@FactoryGet_shared real_libm (str "a") 1 7 4 _ _ recorder_inv_empty).
  - split; unfold kSampleTypeMax, kBucketCountMax, INT_MAX; lia.
  - exact real_libm_accurate.
Defined.

Lemma FactoryGet_bad_minimum_witness :
  @FactoryGet linear_libm (str "a") 0 7 4 store_empty HistogramRecorder_init = Err CheckFailed /\
  (InspectConstructionArguments 0 7 4).2.1.1 = 1.
Proof. apply (@FactoryGet_bad_minimum linear_libm); [reflexivity|lia]. Defined.
