(* ===== verification/HistogramUse.v ===== *)
(** * metrics/Histogram: the recording macros

    The macros of claire/common/metrics/Histogram.h with which code records a
    sample. Each use keeps a pointer of its own in every thread, fetches the
    histogram from the recorder the first time and calls Add on it.

    Threads run concurrently. The recorder is accessed under its mutex, but the
    increments of Accumulate are a load and a store each (the FIXME on Count says as
    much), and another thread can run in between. A use is therefore a sequence of
    steps here, one per access to something shared, and the steps of the threads
    interleave in any order. What is read outside of the counts and the sum, the name
    and the ranges of a histogram, does not change once it exists. *)

From S2P Require Import Prelude Bytes Registry Samples Double DoubleReal Histogram.
Open Scope Z_scope.

(** A use in the source, in a thread: the __thread pointer is one per both. *)
Abbreviation place := nat.
Abbreviation thread := nat.

(** The parameters of one expansion of the block: the expressions of Add and
    FactoryGet are the same in all the macros. *)
Record block := Block {
  b_place : place;
  b_name : bytes;
  b_sample : Z;
  b_min : Z;
  b_max : Z;
  b_count : Z;
}.

(* @src claire/common/metrics/Histogram.h:99-101 HISTOGRAM_CUSTOM_TIMES *)
Definition HISTOGRAM_CUSTOM_TIMES (pl : place) (name : bytes) (sample min max bucket_count : Z) : block :=
  Block pl name sample min max bucket_count.

(* @src claire/common/metrics/Histogram.h:112-114 HISTOGRAM_CUSTOM_COUNTS *)
Definition HISTOGRAM_CUSTOM_COUNTS (pl : place) (name : bytes) (sample min max bucket_count : Z) : block :=
  Block pl name sample min max bucket_count.

(* @src claire/common/metrics/Histogram.h:103-104 HISTOGRAM_COUNTS *)
Definition HISTOGRAM_COUNTS (pl : place) (name : bytes) (sample : Z) : block :=
  HISTOGRAM_CUSTOM_COUNTS pl name sample 1 1000000 50.
(* @src claire/common/metrics/Histogram.h:106-107 HISTOGRAM_COUNTS_100 *)
Definition HISTOGRAM_COUNTS_100 (pl : place) (name : bytes) (sample : Z) : block :=
  HISTOGRAM_CUSTOM_COUNTS pl name sample 1 100 50.
(* @src claire/common/metrics/Histogram.h:109-110 HISTOGRAM_COUNTS_10000 *)
Definition HISTOGRAM_COUNTS_10000 (pl : place) (name : bytes) (sample : Z) : block :=
  HISTOGRAM_CUSTOM_COUNTS pl name sample 1 10000 50.
(* @src claire/common/metrics/Histogram.h:116-117 HISTOGRAM_MEMORY_KB *)
Definition HISTOGRAM_MEMORY_KB (pl : place) (name : bytes) (sample : Z) : block :=
  HISTOGRAM_CUSTOM_COUNTS pl name sample 1000 500000 50.

(** Where a thread is in a use: before the test of the pointer; after FindHistogram
    returned NULL; with the histogram at [p]; in Accumulate before the increment of
    bucket [i], [value] being the clamped sample; after the load of its count; and
    likewise for the sum. *)
Inductive point :=
| Start (b : block)
| Missing (b : block)
| Fetched (b : block) (p : ptr)
| AtCount (b : block) (p : ptr) (i value : Z)
| HaveCount (b : block) (p : ptr) (i value count : Z)
| AtSum (b : block) (p : ptr) (value : Z)
| HaveSum (b : block) (p : ptr) (value sum : Z).

(** [running] has the threads that are in a use. *)
(* @src claire/common/metrics/Histogram.h:88-88 histogram_pointer *)
Record process := Process {
  heap : store Histogram;
  recorder : HistogramRecorder;
  histogram_pointers : gmap (thread * place) ptr;
  running : gmap thread point;
}.

Definition process_init : process := Process store_empty HistogramRecorder_init ∅ ∅.

Definition goto (t : thread) (x : point) (w : process) : process :=
  Process (heap w) (recorder w) (histogram_pointers w) (<[t := x]> (running w)).
Definition leave (t : thread) (w : process) : process :=
  Process (heap w) (recorder w) (histogram_pointers w) (delete t (running w)).
Definition set_pointer (here : thread * place) (p : ptr) (w : process) : process :=
  Process (heap w) (recorder w) (<[here := p]> (histogram_pointers w)) (running w).
Definition set_histogram (p : ptr) (h : Histogram) (w : process) : process :=
  Process (assign p h (heap w)) (recorder w) (histogram_pointers w) (running w).

(** ** Add, access by access *)

(** Up to the increment: the clamped sample and its bucket. *)
(* @src claire/common/metrics/Histogram.cc:143-153 Histogram::Add *)
Definition Add_index (value : Z) (h : Histogram) : res (Z * Z) :=
  lo ← h_range h 0;
  _ ← check (0 =? lo);
  hi ← h_range h (h_bucket_count h);
  _ ← check (kSampleTypeMax =? hi);
  let value := if kSampleTypeMax <=? value then kSampleTypeMax - 1 else value in
  let value := if value <? 0 then 0 else value in
  i ← GetBucketIndex (bucket_ranges_ (samples_ h)) value;
  Ok (i, value).

(** The stores of [counts_[bucket_index]++] and [sum_ += diff]. *)
(* @src claire/common/metrics/SampleVector.cc:29-29 SampleVector::Accumulate *)
Definition store_count (i c : Z) (h : Histogram) : res Histogram :=
  counts ← vset (counts_ (samples_ h)) i c;
  Ok (with_samples (SV counts (bucket_ranges_ (samples_ h)) (sum_ (samples_ h))) h).
(* @src claire/common/metrics/HistogramSamples.cc:27-30 HistogramSamples::IncreaseSum *)
Definition store_sum (s : Z) (h : Histogram) : Histogram :=
  with_samples (SV (counts_ (samples_ h)) (bucket_ranges_ (samples_ h)) s) h.

(** Without another thread in between, they make up Histogram::Add. *)
Lemma Add_steps v h : Add v h =
  ('(i, value) ← Add_index v h;
   c ← vget (counts_ (samples_ h)) i;
   h ← store_count i (int32 (c + 1)) h;
   Ok (store_sum (int64 (sum_ (samples_ h) + int32 (1 * value))) h)).
Proof.
  unfold Add, Add_index, Accumulate, store_count. destruct (h_range h 0) as [lo|]; [rstep|done].
  destruct (check (0 =? lo)) as [u|]; [rstep; clear u|done]. destruct (h_range h (h_bucket_count h)) as [hi|]; [rstep|done].
  destruct (check (kSampleTypeMax =? hi)) as [u|]; [rstep; clear u|done]. cbv zeta.
  set (value := if _ <? 0 then _ else _). destruct (GetBucketIndex _ value) as [i|]; [rstep|done].
  destruct (vget _ i) as [c|]; [rstep|done]. by destruct (vset _ i _).
Qed.

Section Macros.
Context `{Libm}.

(** The next step of thread [t], which is at [x]. FactoryGet is FindHistogram and, if
    that returned NULL, the registration of a new histogram, which may turn out to be
    a duplicate by then. *)
(* @src claire/common/metrics/Histogram.h:84-95 STATIC_HISTOGRAM_POINTER_BLOCK *)
Definition STATIC_HISTOGRAM_POINTER_BLOCK (t : thread) (x : point) (w : process) : res process :=
  match x with
  | Start b =>
      match histogram_pointers w !! (t, b_place b) with
      | Some p => Ok (goto t (Fetched b p) w)
      | None =>
          match FindHistogram (b_name b) (recorder w) with
          | Some p => Ok (goto t (Fetched b p) (set_pointer (t, b_place b) p w))
          | None => Ok (goto t (Missing b) w)
          end
      end
  | Missing b =>
      h ← Histogram_new (b_name b) (b_min b) (b_max b) (b_count b);
      '(p, s, r) ← get_or_create h (heap w) (recorder w);
      Ok (goto t (Fetched b p) (set_pointer (t, b_place b) p (Process s r (histogram_pointers w) (running w))))
  | Fetched b p =>
      h ← load (heap w) p;
      _ ← check (bool_decide (histogram_name_ h = b_name b));
      '(i, value) ← Add_index (b_sample b) h;
      Ok (goto t (AtCount b p i value) w)
  | AtCount b p i value =>
      h ← load (heap w) p;
      c ← vget (counts_ (samples_ h)) i;
      Ok (goto t (HaveCount b p i value c) w)
  | HaveCount b p i value c =>
      h ← load (heap w) p;
      h ← store_count i (int32 (c + 1)) h;
      Ok (goto t (AtSum b p value) (set_histogram p h w))
  | AtSum b p value =>
      h ← load (heap w) p;
      Ok (goto t (HaveSum b p value (sum_ (samples_ h))) w)
  | HaveSum b p value s =>
      h ← load (heap w) p;
      Ok (leave t (set_histogram p (store_sum (int64 (s + int32 (1 * value))) h) w))
  end.

(** ** Runs *)

(** The histogram whose Add the thread has entered, and the one it is about to. *)
Definition adding (x : point) : option ptr :=
  match x with
  | AtCount _ p _ _ | HaveCount _ p _ _ _ | AtSum _ p _ | HaveSum _ p _ _ => Some p
  | _ => None
  end.
Definition entering (x : point) : option ptr := match x with Fetched _ p => Some p | _ => None end.

(** No other thread is in Add of the histogram that a thread at [x] enters. *)
Definition alone (x : point) (w : process) : Prop :=
  forall p t' x', entering x = Some p -> running w !! t' = Some x' -> adding x' <> Some p.

(** The processes reached by any interleaving, with the uses begun on the way. A run
    is exclusive if the Adds of one histogram do not overlap, which the program has to
    see to itself where it matters. *)
Inductive reached (exclusive : bool) : list block -> process -> Prop :=
| reached_init : reached exclusive [] process_init
| reached_begin us w t b : reached exclusive us w -> running w !! t = None ->
    reached exclusive (us ++ [b]) (goto t (Start b) w)
| reached_step us w t x w' : reached exclusive us w -> running w !! t = Some x ->
    (exclusive = true -> alone x w) -> STATIC_HISTOGRAM_POINTER_BLOCK t x w = Ok w' -> reached exclusive us w'.
End Macros.

(** The steps a use has left. *)
Definition steps_left (x : option point) : nat :=
  match x with
  | None => 0
  | Some (HaveSum _ _ _ _) => 1
  | Some (AtSum _ _ _) => 2
  | Some (HaveCount _ _ _ _ _) => 3
  | Some (AtCount _ _ _ _) => 4
  | Some (Fetched _ _) => 5
  | Some (Missing _) => 6
  | Some (Start _) => 7
  end.

(** ** What is recorded *)

Definition args (b : block) : Z * Z * Z := (b_min b, b_max b, b_count b).

Definition of_name (name : bytes) (us : list block) : list block := filter (fun b => b_name b = name) us.

(** The number of samples of [l] between two bounds, and their sum. *)
Definition landed (lo hi : Z) (l : list block) : Z := Zlen (filter (fun b => lo <= clamp (b_sample b) < hi) l).
Definition total (l : list block) : Z := zsum (map (fun b => clamp (b_sample b)) l).

(** A counter for [n] increments: it holds [n] if none was lost, and otherwise less,
    but not zero. *)
Definition tallied (exclusive : bool) (c n : Z) : Prop :=
  0 <= c <= n /\ (0 < n -> 0 < c) /\ (exclusive = true -> c = n).
Definition summed (exclusive : bool) (s n : Z) : Prop :=
  0 <= s <= n /\ (exclusive = true -> s = n).

(** What the samples of [l] leave in a histogram. *)
Record totals (exclusive : bool) (l : list block) (h : Histogram) : Prop := {
  to_ok : hist_ok h;
  to_args : exists b, b ∈ l /\ (declared_min_ h, declared_max_ h, h_bucket_count h) = args b;
  to_bucket : forall i lo hi, h_range h i = Ok lo -> h_range h (i + 1) = Ok hi ->
    exists c, vget (counts_ (samples_ h)) i = Ok c /\ tallied exclusive c (landed lo hi l);
  to_count : tallied exclusive (zsum (counts_ (samples_ h))) (Zlen l);
  to_sum : summed exclusive (sum_ (samples_ h)) (total l);
}.

(** The one histogram of a name that has uses; there is none without a use. *)
Definition recorded (exclusive : bool) (name : bytes) (l : list block) (w : process) : Prop :=
  match l with
  | [] => FindHistogram name (recorder w) = None
  | _ => exists p h, FindHistogram name (recorder w) = Some p /\ objs (heap w) !! p = Some h /\
      histogram_name_ h = name /\ totals exclusive l h
  end.

(** ** Counters *)

Lemma tallied_0 ex : tallied ex 0 0.
Proof. repeat split; lia. Qed.

Lemma tallied_add ex c c' n n' : tallied ex c n -> tallied ex c' n' -> tallied ex (c + c') (n + n').
Proof. intros (H1 & H2 & H3) (H1' & H2' & H3'). split; [lia|]. split; [lia|]. intros E. rewrite (H3 E), (H3' E). done. Qed.

Lemma landed_cons lo hi b l :
  landed lo hi (b :: l) = (if decide (lo <= clamp (b_sample b) < hi) then 1 else 0) + landed lo hi l.
Proof. unfold landed. rewrite filter_cons. case_decide; rewrite ?Zlen_cons; lia. Qed.

Lemma landed_bounds lo hi l : 0 <= landed lo hi l <= Zlen l.
Proof. unfold landed, Zlen. pose proof (length_filter (fun b => lo <= clamp (b_sample b) < hi) l). lia. Qed.

Lemma clamp_bounds v : 0 <= clamp v < kSampleTypeMax.
Proof. unfold clamp, kSampleTypeMax, INT_MAX. lia. Qed.

Lemma landed_split lo mid hi l : lo <= mid <= hi -> landed lo hi l = landed lo mid l + landed mid hi l.
Proof.
  intros Hm. induction l as [|b l IH]; [done|]. rewrite !landed_cons, IH. repeat case_decide; lia.
Qed.

Lemma landed_all l : landed 0 kSampleTypeMax l = Zlen l.
Proof.
  induction l as [|b l IH]; [done|]. pose proof (clamp_bounds (b_sample b)).
  rewrite landed_cons, IH, Zlen_cons. case_decide; lia.
Qed.

Lemma landed_empty lo l : landed lo lo l = 0.
Proof. induction l as [|b l IH]; [done|]. rewrite landed_cons, IH. case_decide; lia. Qed.

Lemma landed_perm lo hi l k : l ≡ₚ k -> landed lo hi l = landed lo hi k.
Proof. intros Hp. unfold landed, Zlen. by rewrite Hp. Qed.

Lemma zsum_perm l k : l ≡ₚ k -> zsum l = zsum k.
Proof. induction 1; unfold zsum in *; cbn in *; lia. Qed.

Lemma total_perm l k : l ≡ₚ k -> total l = total k.
Proof. intros Hp. apply zsum_perm. by rewrite Hp. Qed.

Lemma total_cons b l : total (b :: l) = clamp (b_sample b) + total l.
Proof. done. Qed.

Lemma total_bounds l : 0 <= total l <= Zlen l * kSampleTypeMax.
Proof.
  induction l as [|b l IH]; [change (0 <= 0 <= 0); lia|]. pose proof (clamp_bounds (b_sample b)).
  rewrite total_cons, Zlen_cons. lia.
Qed.

(** ** A histogram while samples are recorded *)

(** The parts that do not change. *)
Record shape (h : Histogram) : Prop := {
  sh_ranges : ranges_ok (h_ranges h);
  sh_shared : bucket_ranges_ (samples_ h) = h_ranges h;
  sh_first : h_range h 0 = Ok 0;
  sh_last : h_range h (h_bucket_count h) = Ok kSampleTypeMax;
  sh_len : Zlen (counts_ (samples_ h)) = h_bucket_count h;
}.

Lemma shape_range h i : shape h -> 0 <= i <= h_bucket_count h -> exists x, h_range h i = Ok x.
Proof.
  intros Hs Hi. apply vget_in. pose proof (bucket_count_eq _ (sh_ranges h Hs)) as E. unfold h_bucket_count in Hi. lia.
Qed.

Lemma range_index h i lo hi : shape h -> h_range h i = Ok lo -> h_range h (i + 1) = Ok hi ->
  0 <= i < h_bucket_count h.
Proof.
  intros Hs [Hi _]%vget_ok [_ Hl]%vget_ok. pose proof (bucket_count_eq _ (sh_ranges h Hs)) as E.
  unfold h_bucket_count. apply lookup_lt_Some in Hl. unfold Zlen in *. lia.
Qed.

(** [k] uses counted, [s] uses summed. *)
Record kept (ex : bool) (k s : list block) (h : Histogram) : Prop := {
  ke_shape : shape h;
  ke_bucket : forall i lo hi, h_range h i = Ok lo -> h_range h (i + 1) = Ok hi ->
    exists c, vget (counts_ (samples_ h)) i = Ok c /\ tallied ex c (landed lo hi k);
  ke_sum : summed ex (sum_ (samples_ h)) (total s);
}.

(** The buckets together hold all the uses counted. *)
Lemma kept_below ex k s h : kept ex k s h -> forall n hi, (Z.of_nat n <= h_bucket_count h) ->
  h_range h (Z.of_nat n) = Ok hi -> tallied ex (zsum (take n (counts_ (samples_ h)))) (landed 0 hi k).
Proof.
  intros [Hs Hb _]. induction n as [|n IH]; intros hi Hn Hhi.
  - change (Z.of_nat 0) with 0 in Hhi. rewrite (sh_first h Hs) in Hhi. injection Hhi as <-. rewrite landed_empty. apply tallied_0.
  - destruct (shape_range h (Z.of_nat n) Hs) as [lo Hlo]; [lia|].
    replace (Z.of_nat (S n)) with (Z.of_nat n + 1) in Hhi by lia. destruct (Hb _ _ _ Hlo Hhi) as (c & Hc & Ht).
    apply vget_ok in Hc as [_ Hc]. rewrite Nat2Z.id in Hc. rewrite (take_S_r _ _ c) by done. rewrite zsum_app.
    pose proof (ro_incr _ (sh_ranges h Hs)) as Hinc. rewrite (landed_split 0 lo hi).
    + change (zsum [c]) with (c + 0). rewrite Z.add_0_r. apply tallied_add; [apply IH; [lia|done]|done].
    + pose proof (increasing_lt (h_ranges h) (Z.of_nat n) (Z.of_nat n + 1) lo hi Hinc ltac:(lia) Hlo Hhi).
      pose proof (increasing_le (h_ranges h) 0 (Z.of_nat n) 0 lo Hinc ltac:(lia) (sh_first h Hs) Hlo). lia.
Qed.

Lemma kept_count ex k s h : kept ex k s h -> tallied ex (zsum (counts_ (samples_ h))) (Zlen k).
Proof.
  intros Hk. pose proof (ke_shape _ _ _ _ Hk) as Hs. pose proof (sh_len h Hs) as Hl. unfold Zlen in Hl.
  rewrite <- (landed_all k), <- (firstn_all (counts_ (samples_ h))). apply (kept_below ex k s h Hk); [lia|].
  rewrite Hl. apply (sh_last h Hs).
Qed.

Lemma kept_nonneg ex k s h : kept ex k s h -> Forall (fun c => 0 <= c) (counts_ (samples_ h)).
Proof.
  intros [Hs Hb _]. apply Forall_lookup. intros i c Hc. pose proof (lookup_lt_Some _ _ _ Hc) as Hi.
  pose proof (sh_len h Hs) as Hl. unfold Zlen in Hl.
  destruct (shape_range h (Z.of_nat i) Hs) as [lo Hlo]; [lia|]. destruct (shape_range h (Z.of_nat i + 1) Hs) as [hi Hhi]; [lia|].
  destruct (Hb _ _ _ Hlo Hhi) as (c' & Hc' & Ht). apply vget_ok in Hc' as [_ Hc']. rewrite Nat2Z.id in Hc'.
  destruct Ht as [Ht _]. rewrite Hc in Hc'. injection Hc' as <-. lia.
Qed.

(** When all the uses are over. *)
Lemma kept_totals ex k s l h : kept ex k s h -> k ≡ₚ l -> s ≡ₚ l -> Zlen l <= INT_MAX ->
  (exists b, b ∈ l /\ (declared_min_ h, declared_max_ h, h_bucket_count h) = args b) -> totals ex l h.
Proof.
  intros Hk Hkl Hsl Hl Hargs. pose proof (kept_count ex k s h Hk) as Hc. pose proof (kept_nonneg ex k s h Hk) as Hn.
  assert (El : Zlen k = Zlen l) by (unfold Zlen; by rewrite Hkl). destruct Hk as [[H1 H2 H3 H4 H5] Hb Hsum].
  rewrite (total_perm _ _ Hsl) in Hsum. pose proof (total_bounds l) as Ht. unfold kSampleTypeMax, INT_MAX in *.
  split; [|done| |by rewrite <- El|done].
  - destruct Hc as (Hc & Hc0 & _). destruct Hsum as [Hsum _]. split; try done.
    + split; rewrite ?H2; [done|]. exact H5.
    + unfold INT_MAX. lia.
    + unfold fits_s. nia.
    + intros E. assert (Zlen l = 0) as E0 by lia. unfold Zlen in E0. destruct l; [|cbn in E0; lia]. cbn in Hsum. unfold total, zsum in Hsum. cbn in Hsum. lia.
  - intros i lo hi Hlo Hhi. rewrite <- (landed_perm _ _ _ _ Hkl). by apply Hb.
Qed.

(** The stores of Add keep the name, the ranges and the declared arguments. *)
Definition same (h h' : Histogram) : Prop :=
  (histogram_name_ h', h_ranges h', declared_min_ h', declared_max_ h') =
  (histogram_name_ h, h_ranges h, declared_min_ h, declared_max_ h).

(** The store of a count [c] loaded before, in the bucket of the sample. *)
Lemma kept_store_count ex k s h b i c : kept ex k s h -> in_bucket (h_ranges h) i (clamp (b_sample b)) ->
  Zlen k < INT_MAX -> 0 <= c -> (forall lo hi, h_range h i = Ok lo -> h_range h (i + 1) = Ok hi -> c <= landed lo hi k) ->
  (ex = true -> vget (counts_ (samples_ h)) i = Ok c) ->
  exists h', store_count i (int32 (c + 1)) h = Ok h' /\ same h h' /\ kept ex (b :: k) s h'.
Proof.
  intros [Hs Hb Hsum] Hin Hk Hc0 Hc Hex. pose proof Hin as (a & z & Ha & Hz & Haz).
  pose proof (range_index h i a z Hs Ha Hz) as Hi. pose proof (sh_len h Hs) as Hl.
  pose proof (landed_bounds a z k). pose proof (Hc a z Ha Hz) as Hcl.
  unfold store_count. rewrite vset_ok by lia. rstep. rewrite wrap_s_id by (unfold fits_s, INT_MAX in *; lia).
  eexists. split; [reflexivity|]. split; [done|].
  split; [destruct Hs; split; cbn; try done; by rewrite Zlen_insert| |done].
  intros j lo hi Hlo Hhi. cbn [with_samples samples_ counts_]. change (h_range h j = Ok lo) in Hlo.
  change (h_range h (j + 1) = Ok hi) in Hhi. destruct (Hb j lo hi Hlo Hhi) as (d & Hd & Ht). rewrite landed_cons.
  destruct (Z.eq_dec j i) as [->|Hne].
  - exists (c + 1). rewrite vget_insert_eq by (unfold Zlen in *; lia). split; [done|].
    unfold h_range in *. assert (lo = a) as -> by congruence. assert (hi = z) as -> by congruence. rewrite decide_True by done.
    destruct Ht as (H1 & H2 & H3). split; [lia|]. split; [lia|]. intros E. pose proof (Hex E). pose proof (H3 E). assert (c = d) by congruence. lia.
  - exists d. rewrite vget_insert_ne by (lia || done). split; [done|]. rewrite decide_False; [done|].
    intros Hv. apply Hne. apply (in_bucket_unique (h_ranges h) j i (clamp (b_sample b)));
      [apply (ro_incr _ (sh_ranges h Hs))|by exists lo, hi|done].
Qed.

(** The store of a sum [z] loaded before. *)
Lemma kept_store_sum ex k s h b z : kept ex k s h -> Zlen s < INT_MAX -> 0 <= z <= total s ->
  (ex = true -> sum_ (samples_ h) = z) ->
  kept ex k (b :: s) (store_sum (int64 (z + int32 (1 * clamp (b_sample b)))) h).
Proof.
  intros [Hs Hb [Hs1 Hs2]] Hl Hz Hex. pose proof (clamp_bounds (b_sample b)). pose proof (total_bounds s).
  split; [by destruct Hs; split|done|]. unfold store_sum. cbn [with_samples samples_ sum_].
  unfold kSampleTypeMax in *. rewrite Z.mul_1_l, (wrap_s_id 32), wrap_s_id, total_cons by (unfold fits_s, INT_MAX in *; nia).
  split; [lia|]. intros E. pose proof (Hex E). pose proof (Hs2 E). lia.
Qed.

(** A new histogram. *)
Lemma new_kept `{Libm} name minimum maximum n h ex : valid_args minimum maximum n ->
  new_ok name minimum maximum n h -> kept ex [] [] h.
Proof.
  intros Hv Hn. assert (Ho : hist_ok h) by (eapply new_hist_ok; [|exact Hn]; destruct Hv; lia).
  pose proof Hn as [Hr Hc _ _ _ _ Ha He].
  assert (Hs : shape h) by (split; [done|apply Ho|apply Ho|apply Ho|by apply ho_len]).
  split; [done| |rewrite He; split; [change (0 <= 0 <= 0); lia|done]].
  intros i lo hi H1 H2. pose proof (range_index h i lo hi Hs H1 H2) as Hi. rewrite He. exists 0.
  split; [|apply tallied_0]. apply vget_lookup; [lia|]. apply lookup_replicate_2. lia.
Qed.

Lemma Add_index_ok h v : shape h ->
  exists i, Add_index v h = Ok (i, clamp v) /\ in_bucket (h_ranges h) i (clamp v).
Proof.
  intros Hs. unfold Add_index. rewrite (sh_first h Hs). rstep. change (0 =? 0) with true. rstep.
  rewrite (sh_last h Hs). rstep. rewrite Z.eqb_refl. rstep. pose proof (clamp_eq v) as Hcl. cbv zeta in Hcl |- *. rewrite Hcl.
  destruct (GetBucketIndex_in (h_ranges h) (clamp v) 0 kSampleTypeMax (sh_ranges h Hs)) as (i & Hi & _ & Hib);
    [apply (sh_first h Hs)|apply (sh_last h Hs)|apply clamp_bounds|].
  rewrite (sh_shared h Hs), Hi. rstep. by exists i.
Qed.

(** ** The uses under way *)

Definition use_of (x : point) : block :=
  match x with
  | Start b | Missing b | Fetched b _ | AtCount b _ _ _ | HaveCount b _ _ _ _ | AtSum b _ _ | HaveSum b _ _ _ => b
  end.

(** Those whose sample is not in the counts yet, and not in the sum. *)
Definition uncounted (x : point) : list block :=
  match x with AtSum _ _ _ | HaveSum _ _ _ _ => [] | _ => [use_of x] end.
Definition unsummed (x : point) : list block := [use_of x].

Definition todo (f : point -> list block) (m : gmap thread point) : list block :=
  concat (map (fun '(_, x) => f x) (map_to_list m)).

Lemma todo_insert f m t x : m !! t = None -> todo f (<[t := x]> m) ≡ₚ f x ++ todo f m.
Proof. intros Hm. unfold todo. by rewrite (map_to_list_insert m t x Hm). Qed.

Lemma todo_delete f m t x : m !! t = Some x -> todo f m ≡ₚ f x ++ todo f (delete t m).
Proof.
  intros Hm. rewrite <- (insert_delete_id m t x Hm) at 1. apply todo_insert, lookup_delete_eq.
Qed.

Lemma todo_replace f m t x y : m !! t = Some x -> f y = f x -> todo f (<[t := y]> m) ≡ₚ todo f m.
Proof.
  intros Hm Hf. rewrite (todo_delete f m t x Hm), <- (insert_delete_eq m t y), todo_insert by apply lookup_delete_eq.
  by rewrite Hf.
Qed.

Lemma of_name_app name k l : of_name name (k ++ l) = of_name name k ++ of_name name l.
Proof. apply filter_app. Qed.

Lemma of_name_eq b k : of_name (b_name b) (b :: k) = b :: of_name (b_name b) k.
Proof. unfold of_name. by rewrite filter_cons, decide_True. Qed.

Lemma of_name_ne name b k : name <> b_name b -> of_name name (b :: k) = of_name name k.
Proof. intros Hne. unfold of_name. rewrite filter_cons, decide_False; congruence. Qed.

Lemma of_name_len name k : Zlen (of_name name k) <= Zlen k.
Proof. unfold of_name, Zlen. pose proof (length_filter (fun b => b_name b = name) k). lia. Qed.

Lemma landed_app lo hi k l : landed lo hi (k ++ l) = landed lo hi k + landed lo hi l.
Proof. unfold landed. by rewrite filter_app, Zlen_app. Qed.

Lemma total_app k l : total (k ++ l) = total k + total l.
Proof. unfold total. by rewrite map_app, zsum_app. Qed.

(** ** The invariant *)

Definition find (name : bytes) (w : process) : option ptr := FindHistogram name (recorder w).
Definition hist_at (p : ptr) (w : process) : option Histogram := objs (heap w) !! p.

(** What a thread in a use knows: the histogram is that of its name, the bucket is
    that of its sample, and what it loaded is no more than what was recorded by now,
    [k] being the uses counted and [s] those summed. *)
Definition point_ok (w : process) (k s : list block) (x : point) : Prop :=
  match x with
  | Start _ | Missing _ => True
  | Fetched b p => find (b_name b) w = Some p
  | AtCount b p i v => find (b_name b) w = Some p /\ v = clamp (b_sample b) /\
      forall h, hist_at p w = Some h -> in_bucket (h_ranges h) i v
  | HaveCount b p i v c => find (b_name b) w = Some p /\ v = clamp (b_sample b) /\
      (forall h, hist_at p w = Some h -> in_bucket (h_ranges h) i v) /\ 0 <= c /\
      forall h lo hi, hist_at p w = Some h -> h_range h i = Ok lo -> h_range h (i + 1) = Ok hi ->
        c <= landed lo hi (of_name (b_name b) k)
  | AtSum b p v => find (b_name b) w = Some p /\ v = clamp (b_sample b)
  | HaveSum b p v z => find (b_name b) w = Some p /\ v = clamp (b_sample b) /\
      0 <= z <= total (of_name (b_name b) s)
  end.

(** In an exclusive run, what a thread loaded is what is there. *)
Definition exact (w : process) (x : point) : Prop :=
  match x with
  | HaveCount _ p i _ c => forall h, hist_at p w = Some h -> vget (counts_ (samples_ h)) i = Ok c
  | HaveSum _ p _ z => forall h, hist_at p w = Some h -> sum_ (samples_ h) = z
  | _ => True
  end.

(** Histograms do not disappear and their ranges do not change. *)
Record grows (w w' : process) : Prop := {
  gr_find : forall name p, find name w = Some p -> find name w' = Some p;
  gr_hist : forall name p h', find name w = Some p -> hist_at p w' = Some h' ->
    exists h, hist_at p w = Some h /\ h_ranges h' = h_ranges h;
}.

Lemma point_ok_grows w w' k k' s s' x : grows w w' -> point_ok w k s x -> point_ok w' (k' ++ k) (s' ++ s) x.
Proof.
  intros [Hf Hh]. assert (Hb : forall b p i v, find (b_name b) w = Some p ->
    (forall h, hist_at p w = Some h -> in_bucket (h_ranges h) i v) ->
    forall h, hist_at p w' = Some h -> in_bucket (h_ranges h) i v).
  { intros b p i v Hp Hi h' Hh'. destruct (Hh _ _ _ Hp Hh') as (h & Hph & ->). by apply Hi. }
  destruct x as [b|b|b p|b p i v|b p i v c|b p v|b p v z]; cbn; try done.
  - apply Hf.
  - intros (Hp & Hv & Hi). split; [by apply Hf|]. split; [done|]. by eapply Hb.
  - intros (Hp & Hv & Hi & Hc & Hl). split; [by apply Hf|]. split; [done|]. split; [by eapply Hb|]. split; [done|].
    intros h' lo hi Hh' Hlo Hhi. destruct (Hh _ _ _ Hp Hh') as (h & Hph & E). unfold h_range in *. rewrite E in Hlo, Hhi.
    specialize (Hl h lo hi Hph Hlo Hhi). rewrite of_name_app, landed_app. pose proof (landed_bounds lo hi (of_name (b_name b) k')). lia.
  - intros [Hp Hv]. split; [by apply Hf|done].
  - intros (Hp & Hv & Hz). split; [by apply Hf|]. split; [done|]. rewrite of_name_app, total_app.
    pose proof (total_bounds (of_name (b_name b) s')). lia.
Qed.

Section Uses.
Context `{Libm}.
(** The name each use in the source is written with. *)
Variable name_of : place -> bytes.

Record use_ok (b : block) : Prop := {
  uo_name : b_name b = name_of (b_place b);
  uo_args : valid_args (b_min b) (b_max b) (b_count b);
}.

(** The part on the pointers, the recorder and the histograms. *)
Record shared_ok (ex : bool) (us : list block) (w : process) (k s : list block) : Prop := {
  so_reg : reg_inv (heap w) (recorder w);
  so_pointer : forall t pl p, histogram_pointers w !! (t, pl) = Some p -> find (name_of pl) w = Some p;
  so_kept : forall name p h, find name w = Some p -> hist_at p w = Some h -> kept ex (of_name name k) (of_name name s) h;
  so_args : forall name p h, find name w = Some p -> hist_at p w = Some h -> exists b, b ∈ us /\ b_name b = name /\
    (declared_min_ h, declared_max_ h, h_bucket_count h) = args b;
  so_none : forall name, find name w = None -> of_name name k = [] /\ of_name name s = [];
}.

(** The part on the threads in a use. *)
Record threads_ok (ex : bool) (us : list block) (w : process) (k s : list block) : Prop := {
  th_counted : us ≡ₚ k ++ todo uncounted (running w);
  th_summed : us ≡ₚ s ++ todo unsummed (running w);
  th_points : forall t x, running w !! t = Some x -> point_ok w k s x;
  th_exact : ex = true -> forall t x, running w !! t = Some x -> exact w x;
  th_alone : ex = true -> forall t t' x x' p, running w !! t = Some x -> running w !! t' = Some x' ->
    adding x = Some p -> adding x' = Some p -> t = t';
}.

(** A step of thread [t] from [x], which adds [k'] to the uses counted and [s'] to
    those summed and leaves the thread at [y], or out of the use. *)
Record moved (ex : bool) (w w' : process) (t : thread) (x : point) (k s : list block) (y : option point)
    (k' s' : list block) : Prop := {
  mo_from : running w !! t = Some x;
  mo_running : running w' = match y with Some y => <[t := y]> (running w) | None => delete t (running w) end;
  mo_grows : grows w w';
  mo_counted : uncounted x = k' ++ match y with Some y => uncounted y | None => [] end;
  mo_summed : unsummed x = s' ++ match y with Some y => unsummed y | None => [] end;
  mo_point : forall y', y = Some y' -> point_ok w' (k' ++ k) (s' ++ s) y' /\ (ex = true -> exact w' y');
  mo_others : ex = true -> forall t' z, t' <> t -> running w !! t' = Some z -> point_ok w k s z -> exact w z -> exact w' z;
  mo_alone : ex = true -> forall y' p, y = Some y' -> adding y' = Some p ->
    adding x = Some p \/ forall t' z, running w !! t' = Some z -> adding z <> Some p;
}.

Lemma threads_moved ex us w w' t x k s y k' s' : threads_ok ex us w k s -> moved ex w w' t x k s y k' s' ->
  threads_ok ex us w' (k' ++ k) (s' ++ s).
Proof.
  intros [Hc Hs Hp He Ha] [Hx Hr Hg Hck Hsk Hy Ho Hal].
  assert (Htodo : forall f l, f x = l ++ match y with Some y => f y | None => [] end ->
    todo f (running w) ≡ₚ l ++ todo f (running w')).
  { intros f l E. rewrite Hr, (todo_delete f _ t x Hx), E, <- app_assoc. f_equiv. destruct y as [y|]; [|done].
    rewrite <- (insert_delete_eq (running w) t y), todo_insert by apply lookup_delete_eq. done. }
  assert (Hcase : forall t' z, running w' !! t' = Some z -> (t' = t /\ y = Some z) \/ (t' <> t /\ running w !! t' = Some z)).
  { intros t' z. rewrite Hr. destruct y as [y|]; [rewrite lookup_insert|rewrite lookup_delete]; case_decide; intros E;
      simplify_eq; auto. }
  split.
  - rewrite Hc, (Htodo uncounted k' Hck), !(assoc_L (++)). by rewrite (comm (++) k k').
  - rewrite Hs, (Htodo unsummed s' Hsk), !(assoc_L (++)). by rewrite (comm (++) s s').
  - intros t' z Hz. apply Hcase in Hz as [[-> ->]|[Hne Hz]]; [by apply Hy|]. eapply point_ok_grows; [done|by eapply Hp].
  - intros E t' z Hz. apply Hcase in Hz as [[-> ->]|[Hne Hz]]; [by apply Hy|]. by eapply Ho; eauto.
  - intros E t1 t2 z1 z2 p H1 H2 A1 A2.
    assert (Hother : forall t' z u, y = Some z -> adding z = Some p -> t' <> t -> running w !! t' = Some u ->
      adding u = Some p -> False).
    { intros t' z u Hyz Az Hne Hu Au. destruct (Hal E _ _ Hyz Az) as [Hax|Hno]; [|by apply (Hno t' u)].
      apply Hne. by eapply Ha. }
    apply Hcase in H1 as [[-> Y1]|[N1 H1]], H2 as [[-> Y2]|[N2 H2]]; [done| | |by eapply Ha]; exfalso; eauto.
Qed.

(** A step that touches neither the recorder nor a histogram. *)
Lemma moved_local ex w w' t x y k s : running w !! t = Some x -> heap w' = heap w -> recorder w' = recorder w ->
  running w' = <[t := y]> (running w) -> uncounted y = uncounted x -> unsummed y = unsummed x ->
  point_ok w k s y -> exact w y ->
  (ex = true -> adding y = adding x \/ (adding y = entering x /\ alone x w)) ->
  moved ex w w' t x k s (Some y) [] [].
Proof.
  intros Hx Eh Er Em Hc Hs Hp He Ha. assert (Hg : grows w w').
  { split; unfold find, hist_at; rewrite ?Eh, ?Er; [done|]. intros name p h _ Hh. by exists h. }
  assert (Hex : forall z, exact w z -> exact w' z) by (intros []; cbn; unfold hist_at; rewrite ?Eh; done).
  split; try done.
  - intros y' [= <-]. split; [by apply (point_ok_grows w w' k [] s [])|]. auto.
  - intros _ t' z _ _ _. apply Hex.
  - intros E y' p [= <-] Hy. destruct (Ha E) as [<-|[E2 Hal]]; [by left|]. right. intros t' z Hz. apply (Hal p t' z); congruence.
Qed.

Lemma shared_local ex us w w' k s : shared_ok ex us w k s -> heap w' = heap w -> recorder w' = recorder w ->
  (forall t pl p, histogram_pointers w' !! (t, pl) = Some p -> find (name_of pl) w = Some p) ->
  shared_ok ex us w' k s.
Proof.
  intros [H1 H2 H3 H4 H5] Eh Er Hp. split; unfold find, hist_at in *; by rewrite ?Eh, ?Er.
Qed.

(** The stores: the histogram at [p] is replaced. *)
Lemma hist_at_set q p h w w' : heap w' = assign p h (heap w) -> hist_at q w' = if decide (p = q) then Some h else hist_at q w.
Proof. intros E. unfold hist_at. rewrite E. cbn. apply lookup_insert. Qed.

Lemma grows_store w w' p h h' : hist_at p w = Some h -> same h h' -> heap w' = assign p h' (heap w) ->
  recorder w' = recorder w -> grows w w'.
Proof.
  intros Hh Hs Eh Er. split; [unfold find; by rewrite Er|]. intros name q z _. rewrite (hist_at_set q p h' w w' Eh).
  case_decide as Hd; [intros [= <-]; subst q; exists h; split; [done|]; unfold same in Hs; congruence|by exists z].
Qed.

(** The threads in other histograms do not notice. *)
Lemma exact_store w w' p h z : heap w' = assign p h (heap w) -> adding z <> Some p -> exact w z -> exact w' z.
Proof.
  intros Eh Ha. destruct z; cbn in *; try done; intros He z; rewrite (hist_at_set _ _ _ _ _ Eh), decide_False by congruence; apply He.
Qed.

Lemma moved_store ex us w w' t x y k s k' s' p h h' : threads_ok ex us w k s -> running w !! t = Some x ->
  adding x = Some p -> find (b_name (use_of x)) w = Some p -> hist_at p w = Some h -> same h h' ->
  heap w' = assign p h' (heap w) -> recorder w' = recorder w ->
  running w' = match y with Some y => <[t := y]> (running w) | None => delete t (running w) end ->
  uncounted x = k' ++ match y with Some y => uncounted y | None => [] end ->
  unsummed x = s' ++ match y with Some y => unsummed y | None => [] end ->
  (forall z, y = Some z -> z = AtSum (use_of x) p (clamp (b_sample (use_of x)))) ->
  moved ex w w' t x k s y k' s'.
Proof.
  intros Ht Hx Ha Hf Hh Hs Eh Er Em Ec Es Hy.
  split; [done|done|by eapply grows_store|done|done| | |].
  - intros z ->. rewrite (Hy z eq_refl). cbn. unfold find. by rewrite Er.
  - intros E t' z Hne Hz _. apply (exact_store w w' p h' z Eh). intros Az. apply Hne.
    symmetry. by eapply (th_alone _ _ _ _ _ Ht E t t').
  - intros E z q -> Hq. rewrite (Hy z eq_refl) in Hq. left. cbn in Hq. congruence.
Qed.

Lemma shared_store ex us w w' k s k' s' b p h h' : shared_ok ex us w k s -> find (b_name b) w = Some p ->
  hist_at p w = Some h -> same h h' -> heap w' = assign p h' (heap w) -> recorder w' = recorder w ->
  histogram_pointers w' = histogram_pointers w ->
  kept ex (of_name (b_name b) (k' ++ k)) (of_name (b_name b) (s' ++ s)) h' ->
  (forall name, name <> b_name b -> of_name name (k' ++ k) = of_name name k /\ of_name name (s' ++ s) = of_name name s) ->
  shared_ok ex us w' (k' ++ k) (s' ++ s).
Proof.
  intros [Hr Hp Hk Ha Hn] Hf Hh Hs Eh Er Ep Hk' Hother.
  assert (Ef : forall name, find name w' = find name w) by (intros; unfold find; by rewrite Er).
  assert (Hname : forall q, hist_at q w = Some h -> q = p).
  { intros q Hq. pose proof (reg_owned _ _ Hr q h Hq) as E1. pose proof (reg_owned _ _ Hr p h Hh) as E2. congruence. }
  assert (Hpn : forall name, find name w = Some p -> name = b_name b).
  { intros name Hn'. destruct (reg_live _ _ Hr _ _ Hn') as (z & Hz & <-). destruct (reg_live _ _ Hr _ _ Hf) as (z' & Hz' & <-). congruence. }
  unfold same in Hs. split.
  - rewrite Eh, Er. eapply assign_inv; [done|exact Hh|cbn; congruence].
  - rewrite Ep. intros t pl q Hq. rewrite Ef. by apply Hp in Hq.
  - intros name q z. rewrite Ef, (hist_at_set _ _ _ _ _ Eh). case_decide as Hd.
    + subst q. intros Hq [= <-]. by rewrite (Hpn name Hq).
    + intros Hq Hz. destruct (Hother name) as [-> ->]; [intros ->; congruence|]. by eapply Hk.
  - intros name q z. rewrite Ef, (hist_at_set _ _ _ _ _ Eh). case_decide as Hd; [|by apply Ha].
    subst q. intros Hq [= <-]. destruct (Ha name p h Hq Hh) as (b' & Hb & Hbn & Hargs). exists b'. split; [done|]. split; [done|].
    rewrite <- Hargs. unfold h_bucket_count. congruence.
  - intros name. rewrite Ef. intros Hnone. destruct (Hother name) as [-> ->]; [intros ->; congruence|]. by apply Hn.
Qed.

(** The registration: the histogram of the name is the one that was there, or the
    new one if there was none. *)
Lemma create_spec b h s r : reg_inv s r -> histogram_name_ h = b_name b ->
  exists p s' r', get_or_create h s r = Ok (p, s', r') /\ reg_inv s' r' /\
    (forall name, FindHistogram name r' = if decide (name = b_name b) then Some p else FindHistogram name r) /\
    (forall q, FindHistogram (b_name b) r = Some q -> p = q) /\
    forall name q z, FindHistogram name r' = Some q -> objs s' !! q = Some z ->
      (FindHistogram name r = Some q /\ objs s !! q = Some z) \/
      (name = b_name b /\ z = h /\ FindHistogram name r = None).
Proof.
  intros Hr Hname. destruct (get_or_create_spec h s r Hr) as (p & s' & r' & y & E & I & Hf & Hpy & Ho & Hm).
  cbn [reg_key reg_find histogram_registry] in *. rewrite Hname in *. exists p, s', r'. split; [done|]. split; [done|].
  split; [intros name; case_decide as Hd; [by subst|by apply Ho]|].
  destruct (FindHistogram (b_name b) r) as [q'|] eqn:Eq.
  - destruct Hm as (-> & -> & ->). split; [congruence|]. auto.
  - destruct Hm as (-> & -> & ->). split; [done|]. intros name q z Hq. rewrite lookup_insert.
    destruct (decide (name = b_name b)) as [->|Hne].
    + assert (q = next_addr s) as -> by congruence. rewrite decide_True by done. intros [= <-]. auto.
    + rewrite Ho in Hq by done. rewrite decide_False; [auto|]. intros <-.
      destruct (reg_live _ _ Hr _ _ Hq) as (z' & Hz' & _). pose proof (reg_fresh _ _ Hr (next_addr s) ltac:(lia)). congruence.
Qed.

Lemma step_missing ex us w k s t b : libm_accurate -> use_ok b -> b ∈ us -> shared_ok ex us w k s ->
  running w !! t = Some (Missing b) ->
  exists w' p, STATIC_HISTOGRAM_POINTER_BLOCK t (Missing b) w = Ok w' /\ shared_ok ex us w' k s /\
    moved ex w w' t (Missing b) k s (Some (Fetched b p)) [] [].
Proof.
  intros Hl [Hn Hv] Hb Hsh Hx. pose proof Hsh as [Hr Hp Hk Ha Hno]. cbn [STATIC_HISTOGRAM_POINTER_BLOCK].
  destruct (Histogram_new_ok (b_name b) _ _ _ Hv Hl) as (h & Hh & Hok). rewrite Hh. rstep.
  assert (Hname : histogram_name_ h = b_name b) by (pose proof (no_args _ _ _ _ _ Hok); congruence).
  destruct (create_spec b h _ _ Hr Hname) as (p & st & r & E & I & Hf & Hold & Hobj). rewrite E. rstep.
  eexists _, p. split; [reflexivity|]. set (w' := goto _ _ _).
  assert (Hf' : forall name, find name w' = if decide (name = b_name b) then Some p else find name w) by exact Hf.
  assert (Hfw : forall name q, find name w = Some q -> find name w' = Some q).
  { intros name q Hq. rewrite Hf'. case_decide as Hd; [|done]. subst. by rewrite (Hold q). }
  split; split; try done.
  - intros t' pl q. cbn. rewrite lookup_insert. case_decide as Hd; [|intros Hq; by apply Hfw, (Hp t')].
    intros [= <-]. injection Hd as <- <-. rewrite Hf', decide_True by done. done.
  - intros name q z Hq Hz. destruct (Hobj _ _ _ Hq Hz) as [[Hq0 Hz0]|(-> & -> & Hnone)]; [by eapply Hk|].
    destruct (Hno _ Hnone) as [-> ->]. by eapply new_kept.
  - intros name q z Hq Hz. destruct (Hobj _ _ _ Hq Hz) as [[Hq0 Hz0]|(-> & -> & Hnone)]; [by eapply Ha|].
    exists b. split; [done|]. split; [done|]. pose proof (no_args _ _ _ _ _ Hok). pose proof (no_count _ _ _ _ _ Hok).
    unfold args. congruence.
  - intros name. rewrite Hf'. case_decide; [done|]. apply Hno.
  - split; [done|]. intros name q z Hq Hz. destruct (Hobj _ _ _ (Hfw _ _ Hq) Hz) as [[Hq0 Hz0]|(-> & -> & Hnone)]; [by exists z|].
    unfold find in Hq. congruence.
  - intros y [= <-]. split; [|done]. cbn. by rewrite Hf', decide_True.
  - intros _ t' z _ _ Hz. assert (Hlive : forall c q y, find c w = Some q -> hist_at q w' = Some y -> hist_at q w = Some y).
    { intros c q y Hq Hy. destruct (Hobj _ _ _ (Hfw _ _ Hq) Hy) as [[_ Hy0]|(-> & _ & Hnone)]; [done|]. unfold find in Hq. congruence. }
    destruct z; cbn in *; try done; intros He y Hy; apply He; eapply Hlive; [apply Hz|done|apply Hz|done].
  - by intros _ y q [= <-] Hy.
Qed.

Lemma live ex us w k s name p : shared_ok ex us w k s -> find name w = Some p ->
  exists h, load (heap w) p = Ok h /\ hist_at p w = Some h /\ histogram_name_ h = name /\
    kept ex (of_name name k) (of_name name s) h.
Proof.
  intros Hsh Hf. destruct (reg_live _ _ (so_reg _ _ _ _ _ Hsh) _ _ Hf) as (h & Hh & Hn). exists h.
  split; [unfold load; by rewrite Hh|]. split; [done|]. split; [done|]. by eapply so_kept.
Qed.

(** One more use counted, and summed. *)
Lemma of_name_one name b l : name <> b_name b -> of_name name ([b] ++ l) = of_name name l.
Proof. apply of_name_ne. Qed.

Lemma room ex us w k s t x : threads_ok ex us w k s -> running w !! t = Some x -> Zlen us <= INT_MAX ->
  (uncounted x <> [] -> Zlen k < INT_MAX) /\ Zlen s < INT_MAX.
Proof.
  intros Ht Hx Hl. pose proof (th_counted _ _ _ _ _ Ht) as Hc. pose proof (th_summed _ _ _ _ _ Ht) as Hs.
  rewrite (todo_delete uncounted _ t x Hx) in Hc. rewrite (todo_delete unsummed _ t x Hx) in Hs. apply Permutation_length in Hc, Hs. rewrite !length_app in Hc, Hs.
  cbn in Hs. unfold Zlen in *. split; [|lia]. intros Hne. destruct (uncounted x); [done|]. cbn in Hc. lia.
Qed.

(** What a step of a thread at [x] does. *)
Definition step_done (ex : bool) (us : list block) (w : process) (k s : list block) (t : thread) (x : point) : Prop :=
  exists w' y k' s', STATIC_HISTOGRAM_POINTER_BLOCK t x w = Ok w' /\ shared_ok ex us w' (k' ++ k) (s' ++ s) /\
    moved ex w w' t x k s y k' s' /\ (steps_left y < steps_left (Some x))%nat.

Section OneStep.
Variables (ex : bool) (us : list block) (w : process) (k s : list block) (t : thread).
Hypotheses (Hsh : shared_ok ex us w k s) (Hth : threads_ok ex us w k s) (Hlen : Zlen us <= INT_MAX).

Lemma step_start b : use_ok b -> running w !! t = Some (Start b) -> step_done ex us w k s t (Start b).
Proof.
  intros [Hn _] Hx. unfold step_done. cbn [STATIC_HISTOGRAM_POINTER_BLOCK].
  assert (Hpt : forall p, find (b_name b) w = Some p ->
    forall t' pl q, <[(t, b_place b) := p]> (histogram_pointers w) !! (t', pl) = Some q -> find (name_of pl) w = Some q).
  { intros p Hp t' pl q. rewrite lookup_insert. case_decide as Hd; [|by apply (so_pointer _ _ _ _ _ Hsh)].
    intros [= <-]. injection Hd as <- <-. by rewrite <- Hn. }
  destruct (histogram_pointers w !! (t, b_place b)) as [p|] eqn:Ep; [|destruct (FindHistogram (b_name b) (recorder w)) as [p|] eqn:Ef].
  - apply (so_pointer _ _ _ _ _ Hsh) in Ep. rewrite <- Hn in Ep. eexists _, (Some (Fetched b p)), [], []. split; [reflexivity|].
    split; [by apply (shared_local ex us w); try apply Hsh|]. split; [|cbn; lia]. by apply moved_local; auto.
  - eexists _, (Some (Fetched b p)), [], []. split; [reflexivity|].
    split; [by apply (shared_local ex us w); try apply Hpt|]. split; [|cbn; lia]. by apply moved_local; auto.
  - eexists _, (Some (Missing b)), [], []. split; [reflexivity|].
    split; [by apply (shared_local ex us w); try apply Hsh|]. split; [|cbn; lia]. by apply moved_local; auto.
Qed.

(** The steps that only read. *)
Lemma step_read x y : running w !! t = Some x -> STATIC_HISTOGRAM_POINTER_BLOCK t x w = Ok (goto t y w) ->
  (steps_left (Some y) < steps_left (Some x))%nat -> uncounted y = uncounted x -> unsummed y = unsummed x ->
  point_ok w k s y -> exact w y -> (ex = true -> adding y = adding x \/ (adding y = entering x /\ alone x w)) ->
  step_done ex us w k s t x.
Proof.
  intros Hx E Hle Hc Hs Hp He Ha. eexists _, (Some y), [], []. split; [exact E|].
  split; [by apply (shared_local ex us w); try apply Hsh|]. split; [by apply moved_local|done].
Qed.

Lemma step_fetched b p : (ex = true -> alone (Fetched b p) w) -> running w !! t = Some (Fetched b p) ->
  step_done ex us w k s t (Fetched b p).
Proof.
  intros Ha Hx. pose proof (th_points _ _ _ _ _ Hth _ _ Hx) as Hf. cbn in Hf.
  destruct (live _ _ _ _ _ _ _ Hsh Hf) as (h & Hlo & Hh & Hn & Hk).
  destruct (Add_index_ok h (b_sample b) (ke_shape _ _ _ _ Hk)) as (i & Hi & Hin).
  apply (step_read _ (AtCount b p i (clamp (b_sample b)))); [done| |cbn; lia|done|done| |done|by auto].
  - cbn [STATIC_HISTOGRAM_POINTER_BLOCK]. rewrite Hlo. rstep. rewrite bool_decide_eq_true_2 by done. rstep. rewrite Hi. rstep. done.
  - cbn. split; [done|]. split; [done|]. intros z Hz. congruence.
Qed.

Lemma step_at_count b p i v : running w !! t = Some (AtCount b p i v) -> step_done ex us w k s t (AtCount b p i v).
Proof.
  intros Hx. pose proof (th_points _ _ _ _ _ Hth _ _ Hx) as (Hf & -> & Hin).
  destruct (live _ _ _ _ _ _ _ Hsh Hf) as (h & Hlo & Hh & Hn & Hk). pose proof (Hin h Hh) as (a & z & Ha & Hz & _).
  destruct (ke_bucket _ _ _ _ Hk i a z Ha Hz) as (c & Hc & [Hc0 _]).
  apply (step_read _ (HaveCount b p i (clamp (b_sample b)) c)); [done| |cbn; lia|done|done| | |by auto].
  - cbn [STATIC_HISTOGRAM_POINTER_BLOCK]. rewrite Hlo. rstep. rewrite Hc. rstep. done.
  - cbn. do 3 (split; [done|]). split; [lia|]. intros h' lo hi Hh' Hlo' Hhi'. unfold h_range in *. simplify_eq.
    assert (lo = a) as -> by congruence. assert (hi = z) as -> by congruence. lia.
  - cbn. congruence.
Qed.

Lemma step_at_sum b p v : running w !! t = Some (AtSum b p v) -> step_done ex us w k s t (AtSum b p v).
Proof.
  intros Hx. pose proof (th_points _ _ _ _ _ Hth _ _ Hx) as (Hf & ->).
  destruct (live _ _ _ _ _ _ _ Hsh Hf) as (h & Hlo & Hh & Hn & Hk).
  apply (step_read _ (HaveSum b p (clamp (b_sample b)) (sum_ (samples_ h)))); [done| |cbn; lia|done|done| | |by auto].
  - cbn [STATIC_HISTOGRAM_POINTER_BLOCK]. rewrite Hlo. rstep. done.
  - cbn. do 2 (split; [done|]). apply (ke_sum _ _ _ _ Hk).
  - cbn. congruence.
Qed.

Lemma step_have_count b p i v c : running w !! t = Some (HaveCount b p i v c) -> step_done ex us w k s t (HaveCount b p i v c).
Proof.
  intros Hx. pose proof (th_points _ _ _ _ _ Hth _ _ Hx) as (Hf & -> & Hin & Hc0 & Hc).
  destruct (live _ _ _ _ _ _ _ Hsh Hf) as (h & Hlo & Hh & Hn & Hk).
  destruct (kept_store_count ex _ _ h b i c Hk (Hin h Hh)) as (h' & Hst & Hsame & Hk').
  - pose proof (of_name_len (b_name b) k). apply (Z.le_lt_trans _ (Zlen k)); [done|].
    by apply (proj1 (room _ _ _ _ _ _ _ Hth Hx Hlen)).
  - done.
  - intros lo hi. by apply Hc.
  - intros E. exact (th_exact _ _ _ _ _ Hth E _ _ Hx h Hh).
  - eexists _, (Some (AtSum b p (clamp (b_sample b)))), [b], []. cbn [STATIC_HISTOGRAM_POINTER_BLOCK]. rewrite Hlo. rstep. rewrite Hst. rstep.
    split; [reflexivity|]. split; [|split; [|cbn; lia]].
    + apply (shared_store ex us w _ k s [b] [] b p h h'); try done.
      * cbn [app]. by rewrite of_name_eq.
      * intros name Hne. by rewrite of_name_one.
    + eapply (moved_store ex us w _ t _ _ k s [b] [] p h h'); try done. by intros z [= <-].
Qed.

Lemma step_have_sum b p v z : running w !! t = Some (HaveSum b p v z) -> step_done ex us w k s t (HaveSum b p v z).
Proof.
  intros Hx. pose proof (th_points _ _ _ _ _ Hth _ _ Hx) as (Hf & -> & Hz).
  destruct (live _ _ _ _ _ _ _ Hsh Hf) as (h & Hlo & Hh & Hn & Hk).
  set (h' := store_sum (int64 (z + int32 (1 * clamp (b_sample b)))) h).
  assert (Hk' : kept ex (of_name (b_name b) k) (b :: of_name (b_name b) s) h').
  { apply (kept_store_sum ex _ _ h b z Hk); [|done|].
    - pose proof (of_name_len (b_name b) s). apply (Z.le_lt_trans _ (Zlen s)); [done|]. apply (room _ _ _ _ _ _ _ Hth Hx Hlen).
    - intros E. exact (th_exact _ _ _ _ _ Hth E _ _ Hx h Hh). }
  eexists _, None, [], [b]. cbn [STATIC_HISTOGRAM_POINTER_BLOCK]. rewrite Hlo. rstep.
  split; [reflexivity|]. split; [|split; [|cbn; lia]].
  - eapply (shared_store ex us w _ k s [] [b] b p h h'); try done.
    + cbn [app]. by rewrite of_name_eq.
    + intros name Hne. by rewrite of_name_one.
  - eapply (moved_store ex us w _ t _ _ k s [] [b] p h h'); done.
Qed.
End OneStep.

(** Every step of every thread can be taken. *)
Lemma use_step ex us w k s t x : libm_accurate -> Forall use_ok us -> Zlen us <= INT_MAX ->
  shared_ok ex us w k s -> threads_ok ex us w k s -> running w !! t = Some x -> (ex = true -> alone x w) ->
  step_done ex us w k s t x.
Proof.
  intros Hl Hu Hlen Hsh Hth Hx Ha.
  assert (Hin : use_of x ∈ us).
  { rewrite (th_summed _ _ _ _ _ Hth), (todo_delete _ _ t x Hx). cbn. set_solver. }
  pose proof (proj1 (Forall_forall _ _) Hu _ Hin) as Hok. destruct x as [b|b|b p|b p i v|b p i v c|b p v|b p v z]; cbn in Hok, Hin.
  - by apply step_start.
  - destruct (step_missing ex us w k s t b Hl Hok Hin Hsh Hx) as (w' & p & E & H1 & H2).
    exists w', (Some (Fetched b p)), [], []. split; [done|]. split; [done|]. split; [done|cbn; lia].
  - by apply step_fetched.
  - by apply step_at_count.
  - by apply step_have_count.
  - by apply step_at_sum.
  - by apply step_have_sum.
Qed.

(** ** The theorem *)

Lemma init_ok ex : shared_ok ex [] process_init [] [] /\ threads_ok ex [] process_init [] [].
Proof.
  assert (Hno : forall name, find name process_init = None) by (intros; apply lookup_empty).
  split; split; try done; try (intros *; rewrite ?Hno; done); try (intros *; cbn; rewrite lookup_empty; done).
Qed.

Lemma begin_ok ex us w k s t b : shared_ok ex us w k s -> threads_ok ex us w k s -> running w !! t = None ->
  shared_ok ex (us ++ [b]) (goto t (Start b) w) k s /\ threads_ok ex (us ++ [b]) (goto t (Start b) w) k s.
Proof.
  intros [H1 H2 H3 H4 H5] [T1 T2 T3 T4 T5] Ht.
  assert (Hcase : forall t' x, running (goto t (Start b) w) !! t' = Some x -> x = Start b \/ running w !! t' = Some x).
  { intros t' x. cbn. rewrite lookup_insert. case_decide; intros E; simplify_eq; auto. }
  split; split; try done.
  - intros name p h Hf Hh. destruct (H4 name p h Hf Hh) as (c & Hc & Hr). exists c. split; [set_solver|done].
  - cbn. rewrite T1 at 1. rewrite (todo_insert uncounted _ t _ Ht), <- app_assoc. f_equiv. cbn. by rewrite (comm (++) _ [b]).
  - cbn. rewrite T2 at 1. rewrite (todo_insert unsummed _ t _ Ht), <- app_assoc. f_equiv. cbn. by rewrite (comm (++) _ [b]).
  - intros t' x [->|Hx]%Hcase; [done|]. by apply (T3 t' x).
  - intros E t' x [->|Hx]%Hcase; [done|]. by apply (T4 E t' x).
  - intros E t1 t2 x y p. cbn. rewrite !lookup_insert. repeat case_decide; intros; simplify_eq; try done. by eapply T5.
Qed.

Lemma reached_ok ex us w : libm_accurate -> reached ex us w -> Forall use_ok us -> Zlen us <= INT_MAX ->
  exists k s, shared_ok ex us w k s /\ threads_ok ex us w k s.
Proof.
  intros Hl. induction 1 as [|us w t b Hr IH Ht|us w t x w' Hr IH Hx Ha E]; intros Hu Hlen.
  - exists [], []. apply init_ok.
  - apply Forall_app in Hu as [Hu _]. rewrite Zlen_app in Hlen. pose proof (Zlen_nonneg [b]).
    destruct IH as (k & s & Hsh & Hth); [done|lia|]. exists k, s. by apply begin_ok.
  - destruct (IH Hu Hlen) as (k & s & Hsh & Hth).
    destruct (use_step ex us w k s t x Hl Hu Hlen Hsh Hth Hx Ha) as (w1 & y & k' & s' & E1 & Hsh' & Hmo & _).
    rewrite E in E1. injection E1 as <-. exists (k' ++ k), (s' ++ s). split; [done|]. by eapply threads_moved.
Qed.

Lemma reached_any ex us w : reached ex us w -> reached false us w.
Proof. induction 1; [constructor|by constructor|by eapply reached_step; eauto]. Qed.

(** The next step of a thread. *)
Lemma progress ex us w t x : libm_accurate -> reached ex us w -> Forall use_ok us -> Zlen us <= INT_MAX ->
  running w !! t = Some x -> exists w', STATIC_HISTOGRAM_POINTER_BLOCK t x w = Ok w' /\
    (steps_left (running w' !! t) < steps_left (Some x))%nat /\ forall t', t' <> t -> running w' !! t' = running w !! t'.
Proof.
  intros Hl Hr%reached_any Hu Hlen Hx. destruct (reached_ok false us w Hl Hr Hu Hlen) as (k & s & Hsh & Hth).
  destruct (use_step false us w k s t x Hl Hu Hlen Hsh Hth Hx) as (w' & y & k' & s' & E & _ & Hmo & Hle); [done|].
  exists w'. split; [done|]. rewrite (mo_running _ _ _ _ _ _ _ _ _ _ Hmo). destruct y as [y|].
  - rewrite lookup_insert_eq. split; [done|]. intros t' Hne. by apply lookup_insert_ne.
  - rewrite lookup_delete_eq. split; [done|]. intros t' Hne. by apply lookup_delete_ne.
Qed.

Lemma idle_recorded ex us w k s name : shared_ok ex us w k s -> threads_ok ex us w k s -> Zlen us <= INT_MAX ->
  running w = ∅ -> recorded ex name (of_name name us) w.
Proof.
  intros Hsh Hth Hlen Hm.
  assert (Hk : us ≡ₚ k) by (rewrite (th_counted _ _ _ _ _ Hth) at 1; rewrite Hm; by rewrite app_nil_r).
  assert (Hs : us ≡ₚ s) by (rewrite (th_summed _ _ _ _ _ Hth) at 1; rewrite Hm; by rewrite app_nil_r).
  unfold recorded. destruct (FindHistogram name (recorder w)) as [p|] eqn:Ef.
  - destruct (live _ _ _ _ _ _ _ Hsh Ef) as (h & _ & Hh & Hn & Hke).
    destruct (so_args _ _ _ _ _ Hsh name p h Ef Hh) as (b & Hb & Hbn & Hargs).
    assert (Hbl : b ∈ of_name name us) by (apply list_elem_of_filter; done).
    assert (Ht : totals ex (of_name name us) h).
    { eapply kept_totals; [exact Hke| | | |by exists b].
      - unfold of_name. by rewrite <- Hk.
      - unfold of_name. by rewrite <- Hs.
      - pose proof (of_name_len name us). lia. }
    destruct (of_name name us) as [|c l]; [by apply elem_of_nil in Hbl|]. by exists p, h.
  - destruct (so_none _ _ _ _ _ Hsh name Ef) as [Hno _].
    assert (E : of_name name us = []) by (apply Permutation_nil; symmetry; unfold of_name in *; by rewrite Hk, Hno). by rewrite E.
Qed.


(** A use runs to its end if no other thread interferes. *)
Lemma run_out us t : libm_accurate -> Forall use_ok us -> Zlen us <= INT_MAX -> forall n w,
  reached true us w -> (forall t', t' <> t -> running w !! t' = None) -> (steps_left (running w !! t) <= n)%nat ->
  exists w', reached true us w' /\ running w' = ∅.
Proof.
  intros Hl Hu Hlen. induction n as [|n IH]; intros w Hr Hno Hn; destruct (running w !! t) as [x|] eqn:Ex.
  - destruct x; cbn in Hn; lia.
  - exists w. split; [done|]. apply map_empty. intros t'. destruct (decide (t' = t)) as [->|]; auto.
  - destruct (progress true us w t x Hl Hr Hu Hlen Ex) as (w' & E & Hle & Hsame). apply (IH w'); [|by intros; rewrite Hsame; auto|lia].
    eapply reached_step; [done|done| |done]. intros _ p t' x' Hp Hx'.
    destruct (decide (t' = t)) as [->|Hne]; [|rewrite Hno in Hx' by done; done]. assert (x' = x) as -> by congruence. by destruct x.
  - exists w. split; [done|]. apply map_empty. intros t'. destruct (decide (t' = t)) as [->|]; auto.
Qed.

(** Any uses, one after the other, in the threads named. *)
Lemma run_each (l : list (thread * block)) : libm_accurate -> Forall use_ok (map snd l) -> Zlen l <= INT_MAX ->
  exists w, reached true (map snd l) w /\ running w = ∅.
Proof.
  intros Hl. induction l as [|[t b] l IH] using rev_ind; intros Hu Hlen; [exists process_init; split; [constructor|done]|].
  rewrite map_app in *. cbn [map snd] in *. rewrite Zlen_app in Hlen. change (Zlen [(t, b)]) with 1 in Hlen.
  destruct IH as (w & Hr & Hm); [by apply Forall_app in Hu as [Hu _]|lia|].
  apply (run_out _ t Hl Hu) with (n := 7%nat) (w := goto t (Start b) w).
  - rewrite Zlen_app. unfold Zlen in *. rewrite length_map. cbn. lia.
  - constructor; [done|]. by rewrite Hm.
  - intros t' Hne. cbn. rewrite lookup_insert_ne by done. by rewrite Hm.
  - cbn. rewrite lookup_insert_eq. cbn. lia.
Qed.

(** A name that changes from one run of a use to the next fails the DCHECK: the
    thread's pointer is that of the first name. *)
Theorem changed_name_fails w t b p h : histogram_pointers w !! (t, b_place b) = Some p ->
  objs (heap w) !! p = Some h -> histogram_name_ h <> b_name b ->
  exists w', STATIC_HISTOGRAM_POINTER_BLOCK t (Start b) w = Ok w' /\ running w' !! t = Some (Fetched b p) /\
    STATIC_HISTOGRAM_POINTER_BLOCK t (Fetched b p) w' = Err CheckFailed.
Proof.
  intros Hp Hh Hne. cbn [STATIC_HISTOGRAM_POINTER_BLOCK]. rewrite Hp. eexists. split; [reflexivity|].
  split; [apply lookup_insert_eq|]. unfold load. cbn [heap goto]. rewrite Hh. rstep. by rewrite bool_decide_eq_false_2.
Qed.
End Uses.

(** The arguments that the fixed macros pass are ones the constructor takes. *)
Lemma fixed_macros_valid pl name v :
  Forall (fun b => valid_args (b_min b) (b_max b) (b_count b))
    [HISTOGRAM_COUNTS pl name v; HISTOGRAM_COUNTS_100 pl name v; HISTOGRAM_COUNTS_10000 pl name v; HISTOGRAM_MEMORY_KB pl name v].
Proof. repeat constructor; unfold kSampleTypeMax, kBucketCountMax, INT_MAX; cbn; lia. Qed.

(** ** Witnesses *)

Definition demo_names (pl : place) : bytes := if (pl =? 1)%nat then str "b" else str "a".

(** Two threads run one use, and another use has the same name and other bounds. *)
Definition demo_uses : list (thread * block) :=
  [(0%nat, HISTOGRAM_CUSTOM_COUNTS 0 (str "a") 3 1 7 4); (0%nat, HISTOGRAM_CUSTOM_TIMES 1 (str "b") 2 1 5 3);
   (1%nat, HISTOGRAM_CUSTOM_COUNTS 0 (str "a") (-9) 1 7 4); (1%nat, HISTOGRAM_COUNTS_100 2 (str "a") 3000)].

Lemma demo_uses_ok : Forall (use_ok demo_names) (map snd demo_uses).
Proof. repeat constructor; try done; unfold kSampleTypeMax, kBucketCountMax, INT_MAX; cbn; lia. Qed.


(** Runs that are computed: who begins a use or takes the next step, in order. *)
Inductive action := Begin (t : thread) (b : block) | Step (t : thread).

Fixpoint play `{Libm} (l : list action) (us : list block) (w : process) : option (list block * process) :=
  match l with
  | [] => Some (us, w)
  | Begin t b :: l =>
      match running w !! t with None => play l (us ++ [b]) (goto t (Start b) w) | Some _ => None end
  | Step t :: l =>
      match running w !! t with
      | Some x => match STATIC_HISTOGRAM_POINTER_BLOCK t x w with Ok w => play l us w | Err _ => None end
      | None => None
      end
  end.

Lemma play_reached `{Libm} l : forall us w us' w', reached false us w -> play l us w = Some (us', w') -> reached false us' w'.
Proof.
  induction l as [|[t b|t] l IH]; intros us w us' w' Hr E; cbn [play] in E; [by injection E as <- <-| |].
  - destruct (running w !! t) eqn:Et; [done|]. eapply IH; [|exact E]. by constructor.
  - destruct (running w !! t) as [x|] eqn:Et; [|done]. destruct (STATIC_HISTOGRAM_POINTER_BLOCK t x w) as [w1|] eqn:Es; [|done].
    eapply IH; [|exact E]. by eapply reached_step.
Qed.

(** Two threads record the sample 3 in the histogram "a", and both load the count
    before either stores it. *)
Definition racing : list action :=
  let b := HISTOGRAM_CUSTOM_COUNTS 0 (str "a") 3 1 7 4 in
  [Begin 0 b; Begin 1 b; Step 0; Step 1; Step 0; Step 1; Step 0; Step 1; Step 0; Step 1; Step 0; Step 1;
   Step 0; Step 0; Step 1; Step 1].

Definition after (l : list action) : option (nat * nat * option (list Z * Z)) :=
  match @play linear_libm l [] process_init with
  | Some (us, w) =>
      Some (length us, size (running w), (fun h => (counts_ (samples_ h), sum_ (samples_ h))) <$> objs (heap w) !! 0%nat)
  | None => None
  end.

(** One of the samples is missing from the counts, but not from the sum; without the
    overlap both are there. *)
Example lost_sample : after racing = Some (2%nat, 0%nat, Some ([0; 1; 0; 0], 6)).
Proof. vm_compute. reflexivity. Qed.

Definition taking_turns : list action :=
  let b := HISTOGRAM_CUSTOM_COUNTS 0 (str "a") 3 1 7 4 in
  Begin 0 b :: replicate 7 (Step 0) ++ Begin 1 b :: replicate 6 (Step 1) ++ Begin 0 b :: replicate 6 (Step 0).

Example no_lost_sample : after taking_turns = Some (3%nat, 0%nat, Some ([0; 3; 0; 0], 9)).
Proof. vm_compute. reflexivity. Qed.

(** The uncounted sample is within what [uses_recorded] allows. *)
Lemma racing_reached : exists us w, @reached linear_libm false us w /\ @play linear_libm racing [] process_init = Some (us, w).
Proof.
  destruct (@play linear_libm racing [] process_init) as [[us w]|] eqn:E; [|vm_compute in E; done].
  exists us, w. split; [|done]. eapply play_reached; [constructor|exact E].
Qed.

Definition renamed : process :=
  Process (store_empty) HistogramRecorder_init {[ (0%nat, 1%nat) := 0%nat ]} ∅.

Lemma changed_name_fails_witness :
  exists w', @STATIC_HISTOGRAM_POINTER_BLOCK linear_libm 0 (Start (HISTOGRAM_COUNTS 1 (str "c") 5))
      (set_histogram 0 demo renamed) = Ok w' /\
    running w' !! 0%nat = Some (Fetched (HISTOGRAM_COUNTS 1 (str "c") 5) 0) /\
    @STATIC_HISTOGRAM_POINTER_BLOCK linear_libm 0 (Fetched (HISTOGRAM_COUNTS 1 (str "c") 5) 0) w' = Err CheckFailed.
Proof.
  apply (@changed_name_fails linear_libm (set_histogram 0 demo renamed) 0 (HISTOGRAM_COUNTS 1 (str "c") 5) 0 demo); done.
Defined.
