(* ===== verification/Counters.v ===== *)
(** * metrics/Counter, CounterProvider and CounterSampler

    claire/common/metrics/Counter.{h,cc}, CounterProvider.{h,cc} and
    CounterSampler.{h,cc}: a table with one row per counter and one column per
    thread, the counters that write to it, and the sampler that keeps the
    differences between successive snapshots. *)

From S2P Require Import Prelude Bytes Json.

(** ** The table *)

(* @src claire/common/metrics/CounterProvider.cc:124-132 CounterProvider::Impl *)
Record Impl := MkImpl {
  max_threads_ : Z;
  max_counters_ : Z;
  counters_ : gmap bytes Z;
  slots_ : gmap Z Z;
  data_ : list Z;
}.

(** new int[...] does not initialise: [garbage] is what the memory held. *)
(* @src claire/common/metrics/CounterProvider.cc:31-36 CounterProvider::Impl::Impl *)
Definition Impl_new (max_threads max_counters : Z) (garbage : list Z) : Impl :=
  MkImpl max_threads max_counters ∅ ∅ garbage.

(* @src claire/common/metrics/CounterProvider.cc:134-136 CounterProvider::CounterProvider *)
Definition CounterProvider_new (FLAGS_provider_max_threads FLAGS_provider_max_counters : Z)
  (garbage : list Z) : Impl :=
  Impl_new FLAGS_provider_max_threads FLAGS_provider_max_counters garbage.

Definition Zsize {K V} `{Countable K} (m : gmap K V) : Z := Z.of_nat (size m).

(* @src claire/common/metrics/CounterProvider.cc:38-59 CounterProvider::Impl::GetCounterId *)
Definition GetCounterId (name : bytes) (s : Impl) : Z * Impl :=
  match counters_ s !! name with
  | Some id => (id, s)
  | None =>
      if uint64 (max_counters_ s) <=? Zsize (counters_ s) then (0, s)
      else
        let id := int32 (Zsize (counters_ s) + 1) in
        (id, MkImpl (max_threads_ s) (max_counters_ s) (<[name := id]> (counters_ s)) (slots_ s) (data_ s))
  end.

(** The calling thread: its id and its thread-local slot. *)
(* @src claire/common/metrics/CounterProvider.cc:24-24 t_thread_slot *)
Record thread := MkThread { thread_tid : Z; t_thread_slot : Z }.

(* @src claire/common/metrics/CounterProvider.cc:61-90 CounterProvider::Impl::GetSlotId *)
Definition GetSlotId (t : thread) (s : Impl) : Z * thread * Impl :=
  if negb (t_thread_slot t =? 0) then (t_thread_slot t, t, s)
  else if uint64 (max_threads_ s) <=? Zsize (slots_ s) then (0, t, s)
  else
    match slots_ s !! thread_tid t with
    | Some _ => (0, t, s)
    | None =>
        let slots := <[thread_tid t := int32 (Zsize (slots_ s) + 1)]> (slots_ s) in
        let slot := int32 (Zsize slots) in
        (slot, MkThread (thread_tid t) slot,
         MkImpl (max_threads_ s) (max_counters_ s) (counters_ s) slots (data_ s))
    end.

(** An index into data_. *)
(* @src claire/common/metrics/CounterProvider.cc:92-95 CounterProvider::Impl::GetLocation *)
Definition Impl_GetLocation (counter_id slot_id : Z) (s : Impl) : Z :=
  int32 ((counter_id - 1) * max_threads_ s) + slot_id - 1.

(* @src claire/common/metrics/CounterProvider.cc:101-104 CounterProvider::Impl::GetCounterValue *)
Fixpoint sum_row (n : nat) (i value : Z) (data : list Z) : res Z :=
  match n with
  | O => Ok value
  | S n => x ← vget data i; sum_row n (i + 1) (int32 (value + x)) data
  end.

(* @src claire/common/metrics/CounterProvider.cc:97-106 CounterProvider::Impl::GetCounterValue *)
Definition Impl_GetCounterValue (counter_id : Z) (s : Impl) : res Z :=
  let row := int32 ((counter_id - 1) * max_threads_ s) in
  sum_row (Z.to_nat (max_threads_ s)) row 0 (data_ s).

(* @src claire/common/metrics/CounterProvider.cc:145-149 CounterProvider::GetLocation *)
Definition GetLocation (counter_id : Z) (t : thread) (s : Impl) : Z * thread * Impl :=
  let '(slot_id, t, s) := GetSlotId t s in
  (Impl_GetLocation counter_id slot_id s, t, s).

(* @src claire/common/metrics/CounterProvider.cc:151-160 CounterProvider::GetCounterValue *)
Definition GetCounterValue (name : bytes) (s : Impl) : res (Z * Impl) :=
  let '(counter_id, s) := GetCounterId name s in
  if counter_id =? 0 then Ok (0, s)
  else v ← Impl_GetCounterValue counter_id s; Ok (v, s).

(** The snapshot of a row that lies in the table. *)
Fixpoint snapshot_loop (l : list (bytes * Z)) (s : Impl) (snapshot : gmap bytes Z) : res (gmap bytes Z) :=
  match l with
  | [] => Ok snapshot
  | (name, id) :: l => v ← Impl_GetCounterValue id s; snapshot_loop l s (<[name := v]> snapshot)
  end.

(* @src claire/common/metrics/CounterProvider.cc:108-122 CounterProvider::Impl::GetSnapshot *)
Definition GetSnapshot (s : Impl) : res (gmap bytes Z) :=
  snapshot_loop (map_to_list (counters_ s)) s ∅.

(** ** Counters *)

(* @src claire/common/metrics/Counter.h:107-110 Counter *)
Record Counter := MkCounter { name_ : bytes; counter_id_ : Z }.

(* @src claire/common/metrics/Counter.h:60-63 Counter::Counter *)
Definition Counter_new (name : bytes) : Counter := MkCounter name (-1).

(** What a call changes besides its result. *)
Definition world : Type := Counter * thread * Impl.

(** [None] is NULL. *)
(* @src claire/common/metrics/Counter.cc:32-45 Counter::GetPtr *)
Definition GetPtr (w : world) : option Z * world :=
  let '(c, t, s) := w in
  let '(c, s) :=
    if counter_id_ c =? -1
    then let '(id, s) := GetCounterId (name_ c) s in (MkCounter (name_ c) id, s)
    else (c, s) in
  if 0 <? counter_id_ c
  then let '(loc, t, s) := GetLocation (counter_id_ c) t s in (Some loc, (c, t, s))
  else (None, (c, t, s)).

Definition set_data (data : list Z) (s : Impl) : Impl :=
  MkImpl (max_threads_ s) (max_counters_ s) (counters_ s) (slots_ s) data.

(* @src claire/common/metrics/Counter.cc:14-21 Counter::Set *)
Definition Set_ (value : Z) (w : world) : res world :=
  match GetPtr w with
  | (Some loc, (c, t, s)) => data ← vset (data_ s) loc value; Ok (c, t, set_data data s)
  | (None, w) => Ok w
  end.

(* @src claire/common/metrics/Counter.cc:23-30 Counter::Add *)
Definition Add (value : Z) (w : world) : res world :=
  match GetPtr w with
  | (Some loc, (c, t, s)) =>
      x ← vget (data_ s) loc;
      data ← vset (data_ s) loc (int32 (x + value));
      Ok (c, t, set_data data s)
  | (None, w) => Ok w
  end.

(* @src claire/common/metrics/Counter.h:70-73 Counter::Increment *)
Definition Increment : world -> res world := Add 1.
(* @src claire/common/metrics/Counter.h:78-81 Counter::Decrement *)
Definition Decrement : world -> res world := Add (-1).
(* @src claire/common/metrics/Counter.h:83-86 Counter::Subtract *)
Definition Subtract (value : Z) : world -> res world := Add (int32 (- value)).

(* @src claire/common/metrics/Counter.h:89-92 Counter::Valid *)
Definition Valid (w : world) : bool * world :=
  let '(p, w) := GetPtr w in (match p with Some _ => true | None => false end, w).

(* @src claire/common/metrics/Counter.h:94-99 Counter::get *)
Definition get (w : world) : res (Z * world) :=
  match GetPtr w with
  | (Some loc, (c, t, s)) => x ← vget (data_ s) loc; Ok (x, (c, t, s))
  | (None, w) => Ok (0, w)
  end.

(** ** The sampler *)
Section Sampler.

Abbreviation SampleEntry := (gmap bytes Z).
Abbreviation Sample := (Z * SampleEntry)%type.

(** boost::circular_buffer::push_back on the contents, oldest first, for a given
    capacity; rapidjson's writer; and the order an unordered_map is traversed
    in. *)
Variable push_back : Z -> Sample -> list Sample -> list Sample.
Variable render : json -> bytes.
Variable iteration : SampleEntry -> list (bytes * Z).

(* @src claire/common/metrics/CounterSampler.h:32-42 CounterSampler *)
Record CounterSampler := MkSampler {
  capacity : Z;
  samples_ : list (Z * gmap bytes Z);
  last_snapshot_ : gmap bytes Z;
}.

(** The loop calls DoSample every FLAGS_sample_rate*1000 milliseconds. *)
(* @src claire/common/metrics/CounterSampler.cc:21-27 CounterSampler::CounterSampler *)
Definition CounterSampler_new (FLAGS_sample_duration FLAGS_sample_rate : Z) : CounterSampler * Z :=
  (MkSampler (Z.quot (int32 (FLAGS_sample_duration * 60)) FLAGS_sample_rate) [] ∅,
   int32 (FLAGS_sample_rate * 1000)).

(* @src claire/common/metrics/CounterSampler.cc:143-150 CounterSampler::DoSnapshotDiff *)
Definition diff (now before : Z) : Z :=
  if now <? before then int32 (int32 (INT_MAX - before) - now) else int32 (now - before).

(* @src claire/common/metrics/CounterSampler.cc:132-153 CounterSampler::DoSnapshotDiff *)
Definition DoSnapshotDiff (lhs rhs : SampleEntry) : SampleEntry :=
  map_imap (fun name now => (fun before => diff now before) <$> rhs !! name) lhs.

(** [now] is Timestamp::Now().SecondsSinceEpoch(). *)
(* @src claire/common/metrics/CounterSampler.cc:115-130 CounterSampler::DoSample *)
Definition DoSample (now : Z) (snapshot : SampleEntry) (c : CounterSampler) : CounterSampler :=
  let entry := if bool_decide (last_snapshot_ c = ∅) then ∅
               else DoSnapshotDiff snapshot (last_snapshot_ c) in
  MkSampler (capacity c)
    (if bool_decide (entry = ∅) then samples_ c else push_back (capacity c) (now, entry) (samples_ c))
    snapshot.

(** The metric names; the output is left alone when there is no sample. *)
(* @src claire/common/metrics/CounterSampler.cc:29-54 CounterSampler::WriteJson *)
Definition WriteJson (output : bytes) (c : CounterSampler) : bytes :=
  match last (samples_ c) with
  | None => output
  | Some (_, entry) => c_string (render (JArray ((fun x => JStr (c_string x.1)) <$> iteration entry)))
  end.

(* @src claire/common/metrics/CounterSampler.cc:88-106 CounterSampler::WriteJson *)
Definition json_item (metrics : list bytes) (sample : Sample) : json :=
  JArray (JInt (int64 (sample.1 * 1000)) ::
    ((fun m => JInt (match sample.2 !! m with Some v => v | None => 0 end)) <$> metrics)).

(* @src claire/common/metrics/CounterSampler.cc:56-113 CounterSampler::WriteJson *)
Definition WriteJson_since (metrics : list bytes) (since : Z) (c : CounterSampler) : bytes :=
  c_string (render (JObject
    [(str "names", JArray (JRef (str "time") :: (JStr <$> metrics)));
     (str "data", JArray (json_item metrics <$>
        filter (fun sample => since < int64 (1000 * sample.1)) (samples_ c)))])).
End Sampler.

(** ** The table's invariant *)

(** Identifiers in use are 1, 2, ... without repetition. *)
Record numbered {K} `{Countable K} (m : gmap K Z) : Prop := {
  nu_range : forall k i, m !! k = Some i -> 1 <= i <= Zsize m;
  nu_inj : forall k l i, m !! k = Some i -> m !! l = Some i -> k = l;
}.

Record table_ok (s : Impl) : Prop := {
  to_threads : 0 < max_threads_ s;
  to_counters : 0 < max_counters_ s;
  to_fits : max_threads_ s * max_counters_ s < 2 ^ 31;
  to_data : Zlen (data_ s) = max_threads_ s * max_counters_ s;
  to_ids : numbered (counters_ s);
  to_room : Zsize (counters_ s) <= max_counters_ s;
  to_slots : numbered (slots_ s);
  to_seats : Zsize (slots_ s) <= max_threads_ s;
}.

Definition thread_ok (t : thread) (s : Impl) : Prop :=
  t_thread_slot t <> 0 -> slots_ s !! thread_tid t = Some (t_thread_slot t).

Lemma numbered_empty {K} `{Countable K} : numbered (∅ : gmap K Z).
Proof. split; intros *; by rewrite lookup_empty. Qed.

Lemma Zsize_insert {K} `{Countable K} (m : gmap K Z) k i : m !! k = None -> Zsize (<[k := i]> m) = Zsize m + 1.
Proof. intros Hk. unfold Zsize. rewrite map_size_insert_None by done. lia. Qed.

Lemma numbered_insert {K} `{Countable K} (m : gmap K Z) k :
  numbered m -> m !! k = None -> numbered (<[k := Zsize m + 1]> m).
Proof.
  intros [Hr Hi] Hk. split.
  - intros l i. rewrite lookup_insert, Zsize_insert by done. case_decide.
    + intros [= <-]. unfold Zsize. lia.
    + intros Hl. specialize (Hr l i Hl). lia.
  - intros l l' i. rewrite !lookup_insert. repeat case_decide; subst; intros E E'; simplify_eq; try done.
    + specialize (Hr _ _ E'). lia.
    + specialize (Hr _ _ E). lia.
    + by apply (Hi l l' i).
Qed.

Lemma sum_row_spec n : forall i value data, 0 <= i -> i + Z.of_nat n <= Zlen data ->
  sum_row n i (int32 value) data = Ok (int32 (value + zsum (take n (drop (Z.to_nat i) data)))).
Proof.
  induction n as [|n IH]; intros i value data Hi Hn; cbn [sum_row].
  { change (zsum (take 0 _)) with 0. by rewrite Z.add_0_r. }
  destruct (vget_in data i) as [x Hx]; [lia|]. rewrite Hx. rstep. apply vget_ok in Hx as [_ Hx].
  rewrite (drop_S _ x) by done. cbn [take]. rewrite wrap_s_add_l by lia. rewrite IH by lia.
  replace (S (Z.to_nat i)) with (Z.to_nat (i + 1)) by lia.
  change (zsum (x :: ?l)) with (x + zsum l). do 2 f_equal. lia.
Qed.

(** The sum of the cells of one counter. *)
Definition row_total (id : Z) (s : Impl) : Z :=
  zsum (take (Z.to_nat (max_threads_ s)) (drop (Z.to_nat ((id - 1) * max_threads_ s)) (data_ s))).

Lemma row_index s id : table_ok s -> 1 <= id <= max_counters_ s ->
  int32 ((id - 1) * max_threads_ s) = (id - 1) * max_threads_ s /\
  0 <= (id - 1) * max_threads_ s /\ (id - 1) * max_threads_ s + max_threads_ s <= Zlen (data_ s).
Proof.
  intros [Ht Hc Hf Hd _ _ _ _] Hid. rewrite Hd. split; [|nia]. apply wrap_s_id; [lia|]. unfold fits_s. nia.
Qed.

Lemma GetCounterValue_row s id : table_ok s -> 1 <= id <= max_counters_ s ->
  Impl_GetCounterValue id s = Ok (int32 (row_total id s)).
Proof.
  intros Hs Hid. destruct (row_index s id Hs Hid) as (Hi & H0 & H1). pose proof (to_threads s Hs).
  unfold Impl_GetCounterValue. rewrite Hi. change 0 with (int32 0) at 1. rewrite sum_row_spec by lia.
  by rewrite Z.add_0_l.
Qed.

(** Writing one cell changes the total of its row only. *)
Lemma row_total_set s id slot x v k :
  table_ok s -> 1 <= id <= max_counters_ s -> 1 <= slot <= max_threads_ s -> 1 <= k <= max_counters_ s ->
  let loc := (id - 1) * max_threads_ s + slot - 1 in
  data_ s !! Z.to_nat loc = Some x ->
  row_total k (set_data (<[Z.to_nat loc := v]> (data_ s)) s) =
  row_total k s + if k =? id then v - x else 0.
Proof.
  intros Hs Hid Hslot Hk loc Hx. unfold row_total. cbn [data_ max_threads_ set_data].
  set (n := Z.to_nat (max_threads_ s)). set (b := Z.to_nat ((k - 1) * max_threads_ s)).
  destruct (row_index s id Hs Hid) as (_ & H0 & _). destruct (row_index s k Hs Hk) as (_ & Hk0 & _).
  rewrite drop_insert. case_decide as Hb; [rewrite take_insert; case_decide as Hn|].
  - assert (k = id) as ->.
    { unfold n, b, loc in *. pose proof (to_threads s Hs). nia. }
    rewrite Z.eqb_refl, (zsum_insert _ _ x); [lia|]. rewrite lookup_take_lt by done. rewrite lookup_drop.
    by replace (b + (Z.to_nat loc - b))%nat with (Z.to_nat loc) by lia.
  - rewrite (proj2 (Z.eqb_neq k id)); [lia|]. intros ->. unfold n, b, loc in *. lia.
  - rewrite (proj2 (Z.eqb_neq k id)); [lia|]. intros ->. unfold n, b, loc in *. lia.
Qed.

(** ** Finding the cell *)

Lemma table_bounds s : table_ok s ->
  0 <= Zsize (counters_ s) <= max_counters_ s /\ max_counters_ s < 2 ^ 31 /\
  0 <= Zsize (slots_ s) <= max_threads_ s /\ max_threads_ s < 2 ^ 31.
Proof.
  intros [Ht Hc Hf _ _ Hr _ Hs]. assert (max_counters_ s < 2 ^ 31 /\ max_threads_ s < 2 ^ 31) by nia.
  unfold Zsize in *. lia.
Qed.

(** A name that is known, or for which there is room, gets an identifier. *)
Lemma GetCounterId_ok name s :
  table_ok s -> is_Some (counters_ s !! name) \/ Zsize (counters_ s) < max_counters_ s ->
  exists id s', GetCounterId name s = (id, s') /\ table_ok s' /\ counters_ s' !! name = Some id /\
    1 <= id <= max_counters_ s /\ s' = MkImpl (max_threads_ s) (max_counters_ s) (counters_ s') (slots_ s) (data_ s) /\
    (forall n, n <> name -> counters_ s' !! n = counters_ s !! n).
Proof.
  intros Hs Hroom. unfold GetCounterId. pose proof (table_bounds s Hs) as Hf.
  destruct (counters_ s !! name) as [id|] eqn:E.
  - exists id, s. pose proof (nu_range _ (to_ids s Hs) _ _ E). pose proof (to_room s Hs).
    split; [done|]. split; [done|]. split; [done|]. split; [lia|]. split; [by destruct s|done].
  - destruct Hroom as [[? ?]|Hroom]; [done|]. pose proof Hs as [Ht Hc Hfi Hd Hi Hr Hsl Hse].
    rewrite wrap_u_id by (unfold fits_u; lia). rewrite (proj2 (Z.leb_gt _ _)) by done.
    rewrite wrap_s_id by (unfold fits_s; lia).
    eexists _, _. split; [reflexivity|]. cbn [counters_ data_ slots_]. split; [|split; [|split; [|split]]].
    + split; cbn; try done; [by apply numbered_insert|]. rewrite Zsize_insert by done. lia.
    + apply lookup_insert_eq.
    + lia.
    + done.
    + intros n Hn. by apply lookup_insert_ne.
Qed.

(** A thread that has a slot, or for which there is one, writes to it. *)
Definition can_sit (t : thread) (s : Impl) : Prop :=
  t_thread_slot t <> 0 \/ (Zsize (slots_ s) < max_threads_ s /\ slots_ s !! thread_tid t = None).

Lemma GetSlotId_ok t s :
  table_ok s -> thread_ok t s -> can_sit t s ->
  exists slot t' s', GetSlotId t s = (slot, t', s') /\ table_ok s' /\ thread_ok t' s' /\
    t' = MkThread (thread_tid t) slot /\ 1 <= slot <= max_threads_ s /\
    s' = MkImpl (max_threads_ s) (max_counters_ s) (counters_ s) (slots_ s') (data_ s) /\
    (forall u, u <> thread_tid t -> slots_ s' !! u = slots_ s !! u).
Proof.
  intros Hs Ht Hsit. unfold GetSlotId. pose proof (table_bounds s Hs) as Hf.
  destruct (t_thread_slot t =? 0) eqn:E; zify_bool; cbn [negb].
  - destruct Hsit as [?|[Hroom Hnew]]; [done|]. pose proof Hs as [Hth Hc Hfi Hd Hi Hr Hsl Hse].
    rewrite wrap_u_id by (unfold fits_u; lia). rewrite (proj2 (Z.leb_gt _ _)) by done. rewrite Hnew.
    rewrite Zsize_insert by done. rewrite wrap_s_id by (unfold fits_s; lia).
    eexists _, _, _. split; [reflexivity|]. cbn [slots_]. split; [|split; [|split; [done|split; [lia|split; [done|]]]]].
    + split; cbn; try done; [by apply numbered_insert|]. rewrite Zsize_insert by done. lia.
    + intros _. cbn. apply lookup_insert_eq.
    + intros u Hu. by apply lookup_insert_ne.
  - exists (t_thread_slot t), t, s. specialize (Ht E). pose proof (nu_range _ (to_slots s Hs) _ _ Ht).
    pose proof (to_seats s Hs). split; [done|]. split; [done|]. split; [by intros _|].
    split; [by destruct t|]. split; [lia|]. split; [by destruct s|done].
Qed.

(** The identifier a counter has cached is its name's. *)
Definition counter_ok (c : Counter) (s : Impl) : Prop :=
  counter_id_ c = -1 \/ counters_ s !! name_ c = Some (counter_id_ c).

Lemma GetPtr_ok c t s :
  table_ok s -> thread_ok t s -> counter_ok c s -> can_sit t s ->
  is_Some (counters_ s !! name_ c) \/ Zsize (counters_ s) < max_counters_ s ->
  exists id slot s', let loc := (id - 1) * max_threads_ s + slot - 1 in
    GetPtr (c, t, s) = (Some loc, (MkCounter (name_ c) id, MkThread (thread_tid t) slot, s')) /\
    table_ok s' /\ thread_ok (MkThread (thread_tid t) slot) s' /\ counters_ s' !! name_ c = Some id /\
    1 <= id <= max_counters_ s /\ 1 <= slot <= max_threads_ s /\ data_ s' = data_ s /\
    max_threads_ s' = max_threads_ s /\ max_counters_ s' = max_counters_ s /\
    (forall n, n <> name_ c -> counters_ s' !! n = counters_ s !! n) /\
    (forall u, u <> thread_tid t -> slots_ s' !! u = slots_ s !! u).
Proof.
  intros Hs Ht Hc Hsit Hroom.
  assert (exists id s1, (if counter_id_ c =? -1
      then let '(id, s) := GetCounterId (name_ c) s in (MkCounter (name_ c) id, s) else (c, s)) =
      (MkCounter (name_ c) id, s1) /\ table_ok s1 /\ counters_ s1 !! name_ c = Some id /\
      1 <= id <= max_counters_ s /\ s1 = MkImpl (max_threads_ s) (max_counters_ s) (counters_ s1) (slots_ s) (data_ s) /\
      (forall n, n <> name_ c -> counters_ s1 !! n = counters_ s !! n))
    as (id & s1 & E1 & Hs1 & Hid & Hir & Eq1 & Hother).
  { destruct (counter_id_ c =? -1) eqn:E; zify_bool.
    - destruct (GetCounterId_ok (name_ c) s Hs Hroom) as (id & s1 & Eg & H). exists id, s1. by rewrite Eg.
    - destruct Hc as [?|Hc]; [done|]. exists (counter_id_ c), s.
      pose proof (nu_range _ (to_ids s Hs) _ _ Hc). pose proof (to_room s Hs).
      split; [by destruct c|]. split; [done|]. split; [done|]. split; [lia|]. split; [by destruct s|done]. }
  unfold GetPtr. rewrite E1. cbn [counter_id_]. rewrite (proj2 (Z.ltb_lt 0 id)) by lia.
  destruct (GetSlotId_ok t s1 Hs1) as (slot & t' & s2 & E2 & Hs2 & Ht2 & Et & Hsr & Eq2 & Hoth2).
  { rewrite Eq1. exact Ht. }
  { rewrite Eq1. exact Hsit. }
  unfold GetLocation. rewrite E2. subst t'.
  assert (Hmt : max_threads_ s2 = max_threads_ s) by (rewrite Eq2, Eq1; done).
  assert (Hmc : max_counters_ s2 = max_counters_ s) by (rewrite Eq2, Eq1; done).
  assert (Hd : data_ s2 = data_ s) by (rewrite Eq2, Eq1; done).
  exists id, slot, s2. unfold Impl_GetLocation.
  destruct (row_index s2 id Hs2) as (-> & _); [lia|]. rewrite Hmt. split; [done|].
  assert (Hct : counters_ s2 = counters_ s1) by (rewrite Eq2; done). rewrite !Hct.
  assert (Hsl1 : slots_ s1 = slots_ s) by (rewrite Eq1; done). rewrite <- Hsl1.
  assert (Hmt1 : max_threads_ s1 = max_threads_ s) by (rewrite Eq1; done). rewrite Hmt1 in Hsr.
  repeat (split; [done|]). done.
Qed.

(** ** Properties *)

Lemma int32_replace r x v : int32 (r + (int32 (x + v) - x)) = int32 (r + v).
Proof.
  replace (r + (int32 (x + v) - x)) with (int32 (x + v) + (r - x)) by lia.
  rewrite wrap_s_add_l by lia. f_equal. lia.
Qed.

(** C31: a counter adds up. When the calling thread has or gets a slot and the name
    has or gets a row, Add succeeds, and the counter's value, the sum over the
    threads, grows by the amount (at 32 bits) while the value of every other
    counter stays; the table, the thread's slot and the counter's cached
    identifier stay consistent, so that the same holds for the next call. *)
Theorem Add_counts c t s v :
  table_ok s -> thread_ok t s -> counter_ok c s -> can_sit t s ->
  is_Some (counters_ s !! name_ c) \/ Zsize (counters_ s) < max_counters_ s ->
  exists c' t' s' id, Add v (c, t, s) = Ok (c', t', s') /\ table_ok s' /\ thread_ok t' s' /\
    counter_ok c' s' /\ can_sit t' s' /\ name_ c' = name_ c /\ counters_ s' !! name_ c = Some id /\
    forall k, 1 <= k <= max_counters_ s ->
      exists x, Impl_GetCounterValue k s = Ok x /\
        Impl_GetCounterValue k s' = Ok (int32 (x + if k =? id then v else 0)).
Proof.
  intros Hs Ht Hc Hsit Hroom.
  destruct (GetPtr_ok c t s Hs Ht Hc Hsit Hroom) as
    (id & slot & s1 & E & Hs1 & Ht1 & Hid & Hir & Hsr & Hd & Hmt & Hmc & _). cbv zeta in E.
  unfold Add. rewrite E. set (loc := (id - 1) * max_threads_ s + slot - 1) in *.
  destruct (row_index s id Hs Hir) as (_ & H0 & H1).
  destruct (vget_in (data_ s1) loc) as [x Hx]; [rewrite Hd; unfold loc; lia|].
  rewrite Hx. rstep. rewrite vset_ok by (rewrite Hd; unfold loc; lia). rstep.
  eexists _, _, _, id. split; [reflexivity|]. set (s2 := set_data _ s1).
  assert (Hs2 : table_ok s2).
  { destruct Hs1 as [? ? ? Hl ? ? ? ?]. split; try done. cbn. rewrite Zlen_insert. exact Hl. }
  split; [done|]. split; [done|]. split; [by right|]. split; [left; cbn; lia|]. split; [done|]. split; [done|].
  intros k Hk. exists (int32 (row_total k s)). split; [by apply GetCounterValue_row|].
  rewrite GetCounterValue_row by (done || (cbn; lia)). apply vget_ok in Hx as [_ Hx]. f_equal.
  unfold s2, loc. rewrite <- Hmt. rewrite (row_total_set s1 id slot x); [|done|lia|lia|lia|by rewrite Hmt].
  assert (row_total k s1 = row_total k s) as -> by (unfold row_total; by rewrite Hd, Hmt).
  rewrite wrap_s_add_l by lia. destruct (k =? id); [|done].
  by apply int32_replace.
Qed.

(** A thread without a slot counts for somebody else. When every slot is taken
    (or the thread's id is that of a thread that had a slot), Add writes to the
    cell before the counter's row: outside the table for the first counter, into
    the previous counter otherwise, whose value changes in its place. *)
Theorem Add_without_slot c t s v id :
  table_ok s -> t_thread_slot t = 0 -> Zsize (slots_ s) = max_threads_ s \/ is_Some (slots_ s !! thread_tid t) ->
  counters_ s !! name_ c = Some id -> counter_ok c s ->
  (id = 1 -> Add v (c, t, s) = Err OutOfBounds) /\
  (1 < id -> exists s', Add v (c, t, s) = Ok (MkCounter (name_ c) id, t, s') /\
     forall k, 1 <= k <= max_counters_ s ->
       exists x, Impl_GetCounterValue k s = Ok x /\
         Impl_GetCounterValue k s' = Ok (int32 (x + if k =? id - 1 then v else 0))).
Proof.
  intros Hs Ht Hfull Hid Hc. pose proof (table_bounds s Hs) as Hb.
  pose proof (nu_range _ (to_ids s Hs) _ _ Hid) as Hir. pose proof (to_room s Hs) as Hroom.
  pose proof (to_threads s Hs) as Hth.
  assert (Hslot : GetSlotId t s = (0, t, s)).
  { unfold GetSlotId. rewrite Ht. cbn [Z.eqb negb]. rewrite wrap_u_id by (unfold fits_u; lia).
    destruct (max_threads_ s <=? Zsize (slots_ s)) eqn:E; [done|]. zify_bool.
    destruct Hfull as [?|[? ->]]; [lia|done]. }
  assert (Hp : GetPtr (c, t, s) = (Some ((id - 1) * max_threads_ s - 1), (MkCounter (name_ c) id, t, s))).
  { unfold GetPtr. assert ((if counter_id_ c =? -1
      then let '(id, s) := GetCounterId (name_ c) s in (MkCounter (name_ c) id, s) else (c, s)) =
      (MkCounter (name_ c) id, s)) as ->.
    { destruct (counter_id_ c =? -1) eqn:E; zify_bool; [unfold GetCounterId; by rewrite Hid|].
      destruct Hc as [?|Hc]; [done|]. destruct c as [n i]. cbn in *. congruence. }
    cbn [counter_id_]. rewrite (proj2 (Z.ltb_lt 0 id)) by lia. unfold GetLocation. rewrite Hslot.
    unfold Impl_GetLocation. destruct (row_index s id Hs) as (-> & _); [lia|].
    replace (_ + 0 - 1) with ((id - 1) * max_threads_ s - 1) by lia. done. }
  unfold Add. rewrite Hp. split.
  - intros ->. rewrite vget_oob by lia. done.
  - intros Hgt. destruct (row_index s (id - 1) Hs) as (_ & H0 & H1); [lia|].
    set (loc := (id - 1) * max_threads_ s - 1).
    assert (Hloc : loc = (id - 1 - 1) * max_threads_ s + max_threads_ s - 1) by (unfold loc; lia).
    destruct (vget_in (data_ s) loc) as [x Hx]; [lia|]. rewrite Hx. rstep. rewrite vset_ok by lia. rstep.
    eexists. split; [reflexivity|]. intros k Hk. exists (int32 (row_total k s)).
    split; [by apply GetCounterValue_row|]. apply vget_ok in Hx as [_ Hx].
    rewrite GetCounterValue_row; [|destruct Hs as [? ? ? Hl ? ? ? ?]; split; try done; cbn; rewrite Zlen_insert; exact Hl|cbn; lia].
    rewrite Hloc in *. rewrite (row_total_set s (id - 1) (max_threads_ s) x) by (done || lia). f_equal.
    rewrite wrap_s_add_l by lia. destruct (k =? id - 1); [|done].
    by apply int32_replace.
Qed.

(** A name for which there is no row is not counted, and nothing is written. *)
Lemma Add_no_room name t s v :
  table_ok s -> counters_ s !! name = None -> Zsize (counters_ s) = max_counters_ s ->
  Add v (Counter_new name, t, s) = Ok (MkCounter name 0, t, s).
Proof.
  intros Hs Hn Hz. unfold Add, GetPtr, Counter_new. cbn [counter_id_ name_]. change (-1 =? -1) with true. cbn.
  unfold GetCounterId. rewrite Hn. pose proof (table_bounds s Hs). rewrite wrap_u_id by (unfold fits_u; lia).
  rewrite (proj2 (Z.leb_le _ _)) by lia. done.
Qed.

(** ** The sampler *)

(** The last [n] elements. *)
Definition lastn {A} (n : nat) (l : list A) : list A := drop (length l - n) l.

Lemma lastn_snoc {A} n (l : list A) x : (0 < n)%nat -> lastn n (lastn n l ++ [x]) = lastn n (l ++ [x]).
Proof.
  intros Hn. unfold lastn. rewrite !length_app, length_drop. cbn [length].
  rewrite <- (drop_app_le l [x] (length l - n)) by lia. rewrite drop_drop. f_equal. lia.
Qed.

(** The non-empty differences between successive snapshots. *)
Fixpoint diffs (previous : gmap bytes Z) (l : list (Z * gmap bytes Z)) : list (Z * gmap bytes Z) :=
  match l with
  | [] => []
  | (now, snapshot) :: l =>
      let entry := if bool_decide (previous = ∅) then ∅ else DoSnapshotDiff snapshot previous in
      (if bool_decide (entry = ∅) then [] else [(now, entry)]) ++ diffs snapshot l
  end.

Definition run_samples (push_back : Z -> Z * gmap bytes Z -> list (Z * gmap bytes Z) -> list (Z * gmap bytes Z))
  (l : list (Z * gmap bytes Z)) (c : CounterSampler) : CounterSampler :=
  foldl (fun c x => DoSample push_back x.1 x.2 c) c l.

Lemma run_samples_keep push_back cap l : (0 < cap)%nat ->
  (forall x k, (length k <= cap)%nat -> push_back (Z.of_nat cap) x k = lastn cap (k ++ [x])) ->
  forall c pre, capacity c = Z.of_nat cap -> samples_ c = lastn cap pre ->
  samples_ (run_samples push_back l c) = lastn cap (pre ++ diffs (last_snapshot_ c) l).
Proof.
  intros Hcap Hp. induction l as [|[now snap] l IH]; intros c pre Hc Hs; cbn [run_samples foldl diffs].
  { by rewrite app_nil_r. }
  set (entry := if bool_decide (last_snapshot_ c = ∅) then ∅ else DoSnapshotDiff snap (last_snapshot_ c)).
  change (foldl _ ?d l) with (run_samples push_back l d). rewrite app_assoc.
  apply (IH (DoSample push_back now snap c)); [done|]. unfold DoSample. cbn [samples_ fst snd]. fold entry. rewrite Hs, Hc.
  destruct (bool_decide (entry = ∅)); [by rewrite app_nil_r|].
  rewrite Hp by (unfold lastn; rewrite length_drop; lia). by apply lastn_snoc.
Qed.

Lemma DoSnapshotDiff_lookup lhs rhs name :
  DoSnapshotDiff lhs rhs !! name =
  match lhs !! name, rhs !! name with Some now, Some before => Some (diff now before) | _, _ => None end.
Proof.
  unfold DoSnapshotDiff. rewrite map_lookup_imap.
  destruct (lhs !! name) as [a|]; cbn; [|by destruct (rhs !! name)]. by destruct (rhs !! name).
Qed.

(** The sampler keeps the last [capacity] non-empty differences between
    successive snapshots, each with its time, oldest first; a difference has an
    entry for exactly the counters both snapshots know, which for a counter that
    did not decrease is its exact increment. A counter that decreased shows up with
    INT_MAX less both values. *)
Theorem sampler_keeps push_back cap l :
  (0 < cap)%nat ->
  (forall x k, (length k <= cap)%nat -> push_back (Z.of_nat cap) x k = lastn cap (k ++ [x])) ->
  samples_ (run_samples push_back l (MkSampler (Z.of_nat cap) [] ∅)) = lastn cap (diffs ∅ l) /\
  forall lhs rhs name,
    (is_Some (DoSnapshotDiff lhs rhs !! name) <-> is_Some (lhs !! name) /\ is_Some (rhs !! name)) /\
    forall now before, lhs !! name = Some now -> rhs !! name = Some before ->
      (0 <= before <= now -> now <= INT_MAX -> DoSnapshotDiff lhs rhs !! name = Some (now - before)) /\
      (0 <= now < before -> before <= INT_MAX ->
         DoSnapshotDiff lhs rhs !! name = Some (INT_MAX - before - now)).
Proof.
  intros Hcap Hp. split.
  { by apply (run_samples_keep push_back cap l Hcap Hp (MkSampler (Z.of_nat cap) [] ∅) []). }
  intros lhs rhs name. split.
  - rewrite DoSnapshotDiff_lookup, <- !not_eq_None_Some.
    destruct (lhs !! name), (rhs !! name); naive_solver.
  - intros now before Ha Hb. rewrite DoSnapshotDiff_lookup, Ha, Hb. unfold diff, INT_MAX. split; intros H1 H2.
    + rewrite (proj2 (Z.ltb_ge _ _)), wrap_s_id by (unfold fits_s; lia). done.
    + rewrite (proj2 (Z.ltb_lt _ _)) by lia. rewrite (wrap_s_id 32 (2 ^ 31 - 1 - before)) by (unfold fits_s; lia).
      rewrite wrap_s_id by (unfold fits_s; lia). done.
Qed.

(** ** Witnesses *)

Definition demo_table : Impl :=
  MkImpl 2 3 {[str "a" := 1; str "b" := 2]} {[100 := 1; 101 := 2]} [5; 0; 7; 1; 0; 0].

Lemma demo_numbered {K} `{Countable K} (k l : K) : k <> l -> numbered ({[k := 1; l := 2]} : gmap K Z).
Proof.
  intros Hne.
  assert (Hz : Zsize ({[k := 1; l := 2]} : gmap K Z) = 2).
  { rewrite Zsize_insert by (by apply lookup_singleton_ne). unfold Zsize. by rewrite map_size_singleton. }
  split.
  - intros m i. rewrite Hz, lookup_insert, lookup_singleton. repeat case_decide; intros; simplify_eq; lia.
  - intros m m' i. rewrite !lookup_insert, !lookup_singleton. repeat case_decide; intros; simplify_eq; done.
Qed.

Lemma demo_table_ok : table_ok demo_table.
Proof.
  split; cbn; try lia; try reflexivity; try (by apply demo_numbered); vm_compute; congruence.
Qed.

Definition demo_thread : thread := MkThread 101 2.

Lemma Add_counts_witness :
  exists c' t' s' id, Add 4 (Counter_new (str "b"), demo_thread, demo_table) = Ok (c', t', s') /\
    table_ok s' /\ thread_ok t' s' /\ counter_ok c' s' /\ can_sit t' s' /\ name_ c' = str "b" /\
    counters_ s' !! str "b" = Some id /\
    forall k, 1 <= k <= 3 ->
      exists x, Impl_GetCounterValue k demo_table = Ok x /\
        Impl_GetCounterValue k s' = Ok (int32 (x + if k =? id then 4 else 0)).
Proof.
  apply (Add_counts (Counter_new (str "b")) demo_thread demo_table 4 demo_table_ok).
  - intros _. reflexivity.
  - by left.
  - by left.
  - left. by exists 2.
Defined.

Lemma Add_without_slot_witness :
  (2 = 1 -> Add 4 (Counter_new (str "b"), MkThread 102 0, demo_table) = Err OutOfBounds) /\
  (1 < 2 -> exists s', Add 4 (Counter_new (str "b"), MkThread 102 0, demo_table) =
       Ok (MkCounter (str "b") 2, MkThread 102 0, s') /\
     forall k, 1 <= k <= 3 ->
       exists x, Impl_GetCounterValue k demo_table = Ok x /\
         Impl_GetCounterValue k s' = Ok (int32 (x + if k =? 2 - 1 then 4 else 0))).
Proof.
  apply (Add_without_slot (Counter_new (str "b")) (MkThread 102 0) demo_table 4 2 demo_table_ok).
  - reflexivity.
  - left. reflexivity.
  - reflexivity.
  - by left.
Defined.

Definition demo_push (cap : Z) (x : Z * gmap bytes Z) (l : list (Z * gmap bytes Z)) := lastn (Z.to_nat cap) (l ++ [x]).

Lemma sampler_keeps_witness :
  samples_ (run_samples demo_push [(1, {[str "a" := 3]}); (2, {[str "a" := 5]})]
    (MkSampler 4 [] ∅)) = [(2, {[str "a" := 2]})] /\
  (samples_ (run_samples demo_push [(1, {[str "a" := 3]}); (2, {[str "a" := 5]})] (MkSampler 4 [] ∅)) =
     lastn 4 (diffs ∅ [(1, {[str "a" := 3]}); (2, {[str "a" := 5]})]) /\
   forall lhs rhs name,
    (is_Some (DoSnapshotDiff lhs rhs !! name) <-> is_Some (lhs !! name) /\ is_Some (rhs !! name)) /\
    forall now before, lhs !! name = Some now -> rhs !! name = Some before ->
      (0 <= before <= now -> now <= INT_MAX -> DoSnapshotDiff lhs rhs !! name = Some (now - before)) /\
      (0 <= now < before -> before <= INT_MAX ->
         DoSnapshotDiff lhs rhs !! name = Some (INT_MAX - before - now))).
Proof.
  split; [vm_compute; reflexivity|]. apply (sampler_keeps demo_push 4); [lia|]. intros x k Hk. reflexivity.
Defined.
