(* ===== verification/ProtobufIO.v ===== *)
(** * protobuf/ProtobufIO

    claire/common/protobuf/ProtobufIO.{h,cc}: between protobuf messages and JSON
    documents. Protobuf's reflection is the class [Reflection] with its laws, and
    its instance [Tree] shows that they can be met; a rapidjson value is a [Value];
    rapidjson's writer and parser and boost's lexical_cast are parameters. *)

From Stdlib Require Import SpecFloat.
From stdpp Require Import sorting.
From S2P Require Import Prelude Bytes UriEscape StringPiece Double.
Open Scope Z_scope.

(** ** Descriptors and messages *)

(** FieldDescriptor::CppType. *)
Inductive cpp_type := INT32 | INT64 | UINT32 | UINT64 | DOUBLE | FLOAT | BOOL | ENUM | STRING | MESSAGE.

#[export] Instance cpp_type_eq_dec : EqDecision cpp_type.
Proof. solve_decision. Defined.

(** What the code asks of a FieldDescriptor; [is_bytes] tells TYPE_BYTES from
    TYPE_STRING, [enum_type] lists the names and numbers of an enum's values. *)
Record FieldDescriptor (D : Type) := mkField {
  name : bytes; number : Z; is_repeated : bool; is_required : bool; type : cpp_type; is_bytes : bool;
  enum_type : list (bytes * Z); message_type : D }.
Arguments mkField {D}. Arguments name {D}. Arguments number {D}. Arguments is_repeated {D}.
Arguments is_required {D}. Arguments type {D}. Arguments is_bytes {D}. Arguments enum_type {D}.
Arguments message_type {D}.

#[export] Instance FieldDescriptor_eq_dec {D} `{EqDecision D} : EqDecision (FieldDescriptor D).
Proof. solve_decision. Defined.

(** A value of a field that is no message. *)
Inductive Scalar :=
  | Int32 (n : Z) | Int64 (n : Z) | UInt32 (n : Z) | UInt64 (n : Z)
  | Double_ (x : double) | Float_ (x : double) | Bool (b : bool) | Enum (n : Z) | String_ (s : bytes).

Definition kind (x : Scalar) : cpp_type :=
  match x with
  | Int32 _ => INT32 | Int64 _ => INT64 | UInt32 _ => UINT32 | UInt64 _ => UINT64 | Double_ _ => DOUBLE
  | Float_ _ => FLOAT | Bool _ => BOOL | Enum _ => ENUM | String_ _ => STRING
  end.

(** A message holds a sequence of values for each of its fields; a field that is
    not repeated has at most one. [SizeOf] bounds the nesting of messages. *)
Class Reflection (D M : Type) := {
  field_list : D -> list (FieldDescriptor D);
  GetDescriptor : M -> D;
  ListFields : M -> list (FieldDescriptor D);
  content : M -> FieldDescriptor D -> list (Scalar + M);
  set_content : M -> FieldDescriptor D -> list (Scalar + M) -> M;
  New : D -> M;
  SizeOf : M -> nat }.

(** The documented behaviour: ListFields gives the fields that are set. *)
Class ReflectionLaws (D M : Type) `{Reflection D M} := {
  content_set m f l : content (set_content m f l) f = l;
  content_set_ne m f g l : g <> f -> content (set_content m f l) g = content m g;
  descriptor_set m f l : GetDescriptor (set_content m f l) = GetDescriptor m;
  descriptor_new d : GetDescriptor (New d) = d;
  content_new d f : content (New d) f = [];
  ListFields_set m f : f ∈ ListFields m -> content m f <> [];
  ListFields_all m f : f ∈ field_list (GetDescriptor m) -> content m f <> [] -> f ∈ ListFields m;
  ListFields_once m : NoDup (ListFields m);
  fields_once d : NoDup (name <$> field_list d);
  enum_numbers d f : f ∈ field_list d -> Forall (fun e => fits_s 32 (snd e)) (enum_type f);
  content_smaller m f s : inr s ∈ content m f -> (SizeOf s < SizeOf m)%nat }.

(** ** JSON values *)

(** A rapidjson::Value: an integer is stored with the widest of its types and
    answers to each type that holds it. [VString] owns its characters; [VConst] is
    a string set without an allocator, which refers to the characters of a local
    variable that is gone when the document is used. *)
Inductive Value :=
  | VNull | VBool (b : bool) | VInt (n : Z) | VDouble (x : double) | VString (s : bytes) | VConst (s : bytes)
  | VArray (l : list Value) | VObject (l : list (bytes * Value)).

Definition fits_signed (w n : Z) : bool := (- 2 ^ (w - 1) <=? n) && (n <? 2 ^ (w - 1)).
Definition fits_unsigned (w n : Z) : bool := (0 <=? n) && (n <? 2 ^ w).

Definition IsInt (v : Value) : bool := match v with VInt n => fits_signed 32 n | _ => false end.
Definition IsUint (v : Value) : bool := match v with VInt n => fits_unsigned 32 n | _ => false end.
Definition IsInt64 (v : Value) : bool := match v with VInt n => fits_signed 64 n | _ => false end.
Definition IsUint64 (v : Value) : bool := match v with VInt n => fits_unsigned 64 n | _ => false end.
Definition IsDouble (v : Value) : bool := match v with VDouble _ => true | _ => false end.
Definition IsBool (v : Value) : bool := match v with VBool _ => true | _ => false end.
Definition IsString (v : Value) : bool := match v with VString _ | VConst _ => true | _ => false end.
Definition IsArray (v : Value) : bool := match v with VArray _ => true | _ => false end.
Definition IsObject (v : Value) : bool := match v with VObject _ => true | _ => false end.

(** The accessors assert the type; GetDouble takes any number. *)
Definition number_of (v : Value) : Z := match v with VInt n => n | _ => 0 end.
Definition GetInt (v : Value) : res Z := _ ← check (IsInt v); Ok (number_of v).
Definition GetUint (v : Value) : res Z := _ ← check (IsUint v); Ok (number_of v).
Definition GetInt64 (v : Value) : res Z := _ ← check (IsInt64 v); Ok (number_of v).
Definition GetUint64 (v : Value) : res Z := _ ← check (IsUint64 v); Ok (number_of v).
Definition GetBool (v : Value) : res bool := match v with VBool b => Ok b | _ => Err CheckFailed end.
Definition GetDouble (v : Value) : res double :=
  match v with VDouble x => Ok x | VInt n => Ok (of_Z n) | _ => Err CheckFailed end.
(** A char pointer: what the program sees of it ends at the first NUL. *)
Definition GetString (v : Value) : res bytes :=
  match v with VString s => Ok (c_string s) | VConst _ => Err Dangling | _ => Err CheckFailed end.
Definition elements (v : Value) : res (list Value) := match v with VArray l => Ok l | _ => Err CheckFailed end.

Definition member_of (l : list (bytes * Value)) (n : bytes) : option Value :=
  snd <$> List.find (fun e => bool_decide (fst e = n)) l.
(** HasMember and operator[]. *)
Definition FindMember (v : Value) (n : bytes) : res (option Value) :=
  match v with VObject l => Ok (member_of l n) | _ => Err CheckFailed end.

(** The conversions between float and double. *)
Definition to_double (x : double) : double :=
  match x with S754_finite s m e => binary_normalize 53 1024 (cond_Zopp s (Zpos m)) e s | _ => x end.
Definition to_float (x : double) : double :=
  match x with S754_finite s m e => binary_normalize 24 128 (cond_Zopp s (Zpos m)) e s | _ => x end.

(** [f] on the elements of a list, in order, up to the first fault. *)
Definition map_res {A B} (f : A -> res B) (l : list A) : res (list B) := mapM f l.

Section ProtobufIO.
Context {D M : Type} `{Reflection D M}.
Implicit Types (m : M) (f : FieldDescriptor D).

(** ** Reflection, by field *)

Definition HasField m f : bool := match content m f with [] => false | _ => true end.
Definition FieldSize m f : Z := Zlen (content m f).

(** The method must be the one of the field's type. *)
Definition scalar_of f (x : Scalar + M) : res Scalar :=
  match x with inl s => _ ← check (bool_decide (kind s = type f)); Ok s | inr _ => Err CheckFailed end.
Definition message_of (x : Scalar + M) : res M := match x with inr s => Ok s | inl _ => Err CheckFailed end.

Definition Get m f : res Scalar := x ← vget (content m f) 0; scalar_of f x.
Definition GetRepeated m f (i : Z) : res Scalar := x ← vget (content m f) i; scalar_of f x.
Definition GetMessage m f : res M := x ← vget (content m f) 0; message_of x.
Definition GetRepeatedMessage m f (i : Z) : res M := x ← vget (content m f) i; message_of x.

Definition Set_ m f (x : Scalar) : res M :=
  _ ← check (bool_decide (kind x = type f)); Ok (set_content m f [inl x]).
Definition Add m f (x : Scalar) : res M :=
  _ ← check (bool_decide (kind x = type f)); Ok (set_content m f (content m f ++ [inl x])).

(** ** From a message to a value *)

(** The value the setters and PushBack make of a number, a bool or an enum. *)
Definition value_of (x : Scalar) : Value :=
  match x with
  | Int32 n | Int64 n | UInt32 n | UInt64 n | Enum n => VInt n
  | Double_ x => VDouble x
  | Float_ x => VDouble (to_double x)
  | Bool b => VBool b
  | String_ s => VString s
  end.

Definition indices (n : Z) : list Z := seqZ 0 n.

(* @src claire/common/protobuf/ProtobufIO.cc:50-105 HANDLE_CASE_CPP_TYPE, CPPTYPE_ENUM *)
Definition serialize_number m f : res Value :=
  if is_repeated f
  then items ← map_res (fun i => x ← GetRepeated m f i; Ok (value_of x)) (indices (FieldSize m f)); Ok (VArray items)
  else x ← Get m f; Ok (value_of x).

Definition string_of (x : Scalar) : res bytes := match x with String_ s => Ok s | _ => Err CheckFailed end.

(** The repeated strings are copied by the allocator; a singular one is not, and
    the local copy of the field dies at the end of the case. *)
(* @src claire/common/protobuf/ProtobufIO.cc:107-152 CPPTYPE_STRING *)
Definition serialize_string m f : res Value :=
  let data x := s ← string_of x; if is_bytes f then UriEscape s [] ALL else Ok s in
  if is_repeated f
  then items ← map_res (fun i => x ← GetRepeated m f i; s ← data x; Ok (VString s)) (indices (FieldSize m f));
       Ok (VArray items)
  else x ← Get m f; s ← data x; Ok (VConst s).

Section Rec.
Variable rec : M -> res (bool * list (bytes * Value)).

Fixpoint serialize_messages m f (ixs : list Z) (value : list Value) : res (bool * Value) :=
  match ixs with
  | [] => Ok (true, VArray value)
  | i :: ixs =>
      s ← GetRepeatedMessage m f i;
      '(ok, item) ← rec s;
      if ok : bool then serialize_messages m f ixs (value ++ [VObject item]) else Ok (false, VArray value)
  end.

(* @src claire/common/protobuf/ProtobufIO.cc:154-184 CPPTYPE_MESSAGE *)
Definition serialize_message m f : res (bool * Value) :=
  if is_repeated f then serialize_messages m f (indices (FieldSize m f)) []
  else s ← GetMessage m f; '(ok, value) ← rec s; Ok (ok, VObject value).

(** The members added to [root] for the fields, in order. *)
(* @src claire/common/protobuf/ProtobufIO.cc:35-187 SerializeToJsonValue *)
Fixpoint serialize_fields m (fields : list (FieldDescriptor D)) (root : list (bytes * Value))
    : res (bool * list (bytes * Value)) :=
  match fields with
  | [] => Ok (true, root)
  | f :: fields =>
      if negb (is_repeated f) && negb (HasField m f)
      then if is_required f then Ok (false, root) else serialize_fields m fields root
      else
        '(ok, value) ← match type f with
                       | STRING => value ← serialize_string m f; Ok (true, value)
                       | MESSAGE => serialize_message m f
                       | _ => value ← serialize_number m f; Ok (true, value)
                       end;
        if ok : bool then serialize_fields m fields (root ++ [(name f, value)]) else Ok (false, root)
  end.
End Rec.

(* @src claire/common/protobuf/ProtobufIO.cc:25-188 SerializeToJsonValue *)
Fixpoint SerializeToJsonValue (fuel : nat) m : res (bool * list (bytes * Value)) :=
  match fuel with
  | O => Err NoFuel
  | S fuel => serialize_fields (SerializeToJsonValue fuel) m (ListFields m) []
  end.

(** ** From a value to a message *)

Variable lexical_cast : cpp_type -> bytes -> option Z.

(** What a JSON value gives for a field: [None] when its type is rejected. *)
Definition conversion := Value -> res (option Scalar).

(** The values of the first macro: the JSON type is asked for only in an array. *)
(* @src claire/common/protobuf/ProtobufIO.cc:270-274 HANDLE_CASE_CPP_TYPE *)
Definition plain_accessors (t : cpp_type) : (Value -> bool) * (Value -> res Scalar) :=
  match t with
  | INT32 => (IsInt, fun v => n ← GetInt v; Ok (Int32 (int32 n)))
  | UINT32 => (IsUint, fun v => n ← GetUint v; Ok (UInt32 (uint32 n)))
  | FLOAT => (IsDouble, fun v => x ← GetDouble v; Ok (Float_ (to_float x)))
  | DOUBLE => (IsDouble, fun v => x ← GetDouble v; Ok (Double_ x))
  | _ => (IsBool, fun v => b ← GetBool v; Ok (Bool b))
  end.

(** 64-bit integers may also be strings. *)
(* @src claire/common/protobuf/ProtobufIO.cc:286-302 HANDLE_CASE_CPP_TYPE *)
Definition wide_conversion (t : cpp_type) : conversion := fun v =>
  let make n := if bool_decide (t = INT64) then Int64 n else UInt64 n in
  if (if bool_decide (t = INT64) then IsInt64 v else IsUint64 v)
  then n ← (if bool_decide (t = INT64) then GetInt64 v else GetUint64 v); Ok (Some (make n))
  else if IsString v
  then s ← GetString v;
       match lexical_cast t s with Some n => Ok (Some (make n)) | None => Err BadLexicalCast end
  else Ok None.

Section Field.
Variable f : FieldDescriptor D.

(** The elements of an array, one after the other, up to one that is rejected. *)
Fixpoint add_all (conv : conversion) (items : list Value) m : res (bool * M) :=
  match items with
  | [] => Ok (true, m)
  | item :: items =>
      x ← conv item;
      match x with
      | None => Ok (false, m)
      | Some x => m ← Add m f x; add_all conv items m
      end
  end.

Definition set_one (conv : conversion) (value : Value) m : res (bool * M) :=
  x ← conv value;
  match x with None => Ok (false, m) | Some x => m ← Set_ m f x; Ok (true, m) end.

(* @src claire/common/protobuf/ProtobufIO.cc:242-269 HANDLE_CASE_CPP_TYPE *)
Definition parse_plain (value : Value) m : res (bool * M) :=
  let '(Is, Get_) := plain_accessors (type f) in
  if is_repeated f
  then items ← elements value;
       add_all (fun v => if Is v then x ← Get_ v; Ok (Some x) else Ok None) items m
  else x ← Get_ value; m ← Set_ m f x; Ok (true, m).

(* @src claire/common/protobuf/ProtobufIO.cc:277-325 HANDLE_CASE_CPP_TYPE *)
Definition parse_wide (value : Value) m : res (bool * M) :=
  if is_repeated f then items ← elements value; add_all (wide_conversion (type f)) items m
  else set_one (wide_conversion (type f)) value m.

(** FindValueByNumber and FindValueByName. *)
Definition value_by_number (n : Z) : option Z := snd <$> List.find (fun e => snd e =? n) (enum_type f).
Definition value_by_name (s : bytes) : option Z := snd <$> List.find (fun e => bool_decide (fst e = s)) (enum_type f).

(** An enum is its number in an array and its name otherwise. *)
(* @src claire/common/protobuf/ProtobufIO.cc:328-368 CPPTYPE_ENUM *)
Definition parse_enum (value : Value) m : res (bool * M) :=
  if is_repeated f
  then items ← elements value;
       add_all (fun v => if IsInt v then n ← GetInt v; Ok (Enum <$> value_by_number n) else Ok None) items m
  else set_one (fun v => if IsString v then s ← GetString v; Ok (Enum <$> value_by_name s) else Ok None) value m.

(* @src claire/common/protobuf/ProtobufIO.cc:376-390 CPPTYPE_STRING *)
Definition string_conversion : conversion := fun v =>
  if IsString v
  then s ← GetString v; s ← (if is_bytes f then UriUnescape s [] ALL else Ok s); Ok (Some (String_ s))
  else Ok None.

(* @src claire/common/protobuf/ProtobufIO.cc:370-412 CPPTYPE_STRING *)
Definition parse_string (value : Value) m : res (bool * M) :=
  if is_repeated f then items ← elements value; add_all string_conversion items m
  else set_one string_conversion value m.

Variable rec : Value -> M -> res (bool * M).

(** A message is filled where it is, so what was read stays when it fails. *)
Fixpoint parse_messages (items : list Value) m : res (bool * M) :=
  match items with
  | [] => Ok (true, m)
  | item :: items =>
      if negb (IsObject item) then Ok (false, m)
      else
        '(ok, s) ← rec item (New (message_type f));
        let m := set_content m f (content m f ++ [inr s]) in
        if ok : bool then parse_messages items m else Ok (false, m)
  end.

(** MutableMessage: the message of the field, a new one if there is none. *)
Definition mutable_message m : M :=
  match content m f with inr s :: _ => s | _ => New (message_type f) end.

(* @src claire/common/protobuf/ProtobufIO.cc:414-450 CPPTYPE_MESSAGE *)
Definition parse_message (value : Value) m : res (bool * M) :=
  if is_repeated f then items ← elements value; parse_messages items m
  else if negb (IsObject value) then Ok (false, m)
  else '(ok, s) ← rec value (mutable_message m); Ok (ok, set_content m f [inr s]).

(* @src claire/common/protobuf/ProtobufIO.cc:227-451 ParseFromJsonValue *)
Definition parse_field (value : Value) m : res (bool * M) :=
  if is_repeated f && negb (IsArray value) then Ok (false, m)
  else
    match type f with
    | INT32 | UINT32 | FLOAT | DOUBLE | BOOL => parse_plain value m
    | INT64 | UINT64 => parse_wide value m
    | ENUM => parse_enum value m
    | STRING => parse_string value m
    | MESSAGE => parse_message value m
    end.
End Field.

(* @src claire/common/protobuf/ProtobufIO.cc:215-453 ParseFromJsonValue *)
Fixpoint parse_fields (rec : Value -> M -> res (bool * M)) (root : Value) (fields : list (FieldDescriptor D)) m
    : res (bool * M) :=
  match fields with
  | [] => Ok (true, m)
  | f :: fields =>
      value ← FindMember root (name f);
      match value with
      | None => if is_required f then Ok (false, m) else parse_fields rec root fields m
      | Some value =>
          '(ok, m) ← parse_field f rec value m;
          if ok : bool then parse_fields rec root fields m else Ok (false, m)
      end
  end.

(* @src claire/common/protobuf/ProtobufIO.cc:190-454 ParseFromJsonValue *)
Fixpoint ParseFromJsonValue (fuel : nat) (root : Value) m : res (bool * M) :=
  match fuel with
  | O => Err NoFuel
  | S fuel => parse_fields (ParseFromJsonValue fuel) root (field_list (GetDescriptor m)) m
  end.

(** ** The two functions of the header *)

(** No string of the value refers to a dead local. *)
Fixpoint owned (v : Value) : bool :=
  match v with
  | VConst _ => false
  | VArray l => forallb owned l
  | VObject l => forallb (fun e => owned (snd e)) l
  | _ => true
  end.

Fixpoint depth (v : Value) : nat :=
  match v with
  | VArray l => S (list_max (depth <$> l))
  | VObject l => S (list_max ((fun e => depth (snd e)) <$> l))
  | _ => O
  end.

Variable write : Value -> bytes.
Variable parse : bytes -> option Value.

(* @src claire/common/protobuf/ProtobufIO.cc:458-472 SerializeToJson *)
Definition SerializeToJson m (output : bytes) : res (bool * bytes) :=
  '(ok, root) ← SerializeToJsonValue (S (SizeOf m)) m;
  if ok : bool
  then if owned (VObject root) then Ok (true, c_string (write (VObject root))) else Err Dangling
  else Ok (false, output).

(** The document is parsed from the pointer up to a NUL. *)
(* @src claire/common/protobuf/ProtobufIO.cc:474-485 ParseFromJson *)
Definition ParseFromJson (json : StringPiece) m : res (bool * M) :=
  match parse (c_string (ptr_ json)) with
  | None => Ok (false, m)
  | Some root => ParseFromJsonValue (S (depth root)) root m
  end.
End ProtobufIO.

(** ** Typed messages *)

Section Typed.
Context {D M : Type} `{EqDecision D} `{RL : ReflectionLaws D M}.
Implicit Types (m : M) (f g : FieldDescriptor D).

Definition scalar_ok f (x : Scalar) : Prop :=
  kind x = type f /\
  match x with
  | Int32 n => fits_s 32 n | Int64 n => fits_s 64 n | UInt32 n => fits_u 32 n | UInt64 n => fits_u 64 n
  | Enum n => n ∈ snd <$> enum_type f /\ fits_s 32 n
  | String_ s => Forall is_byte s
  | _ => True
  end.

(** Every value has its field's type and range, messages likewise, and only
    repeated fields have more than one. *)
Inductive typed : M -> Prop :=
  typed_intro m :
    (forall f x, inl x ∈ content m f -> scalar_ok f x) ->
    (forall f s, inr s ∈ content m f -> type f = MESSAGE /\ GetDescriptor s = message_type f /\ typed s) ->
    (forall f, is_repeated f = false -> (length (content m f) <= 1)%nat) -> typed m.

Definition item_ok f (x : Scalar + M) : Prop :=
  match x with
  | inl x => scalar_ok f x
  | inr s => type f = MESSAGE /\ GetDescriptor s = message_type f /\ typed s
  end.

Lemma typed_item m f x : typed m -> x ∈ content m f -> item_ok f x.
Proof. intros [m' Hs Hm _] Hx. destruct x; [by apply Hs|by apply Hm]. Qed.

Lemma typed_single m f : typed m -> is_repeated f = false -> (length (content m f) <= 1)%nat.
Proof. intros [m' _ _ Hl]. apply Hl. Qed.

Lemma typed_set m f l : typed m -> Forall (item_ok f) l -> (is_repeated f = false -> (length l <= 1)%nat) ->
  typed (set_content m f l).
Proof.
  intros Hm Hl H1. constructor.
  - intros g x. destruct (decide (g = f)) as [->|Hg]; [rewrite content_set|rewrite content_set_ne by done].
    + intros Hx. by apply (proj1 (Forall_forall _ _) Hl) in Hx.
    + intros Hx. by apply (typed_item m g (inl x)).
  - intros g x. destruct (decide (g = f)) as [->|Hg]; [rewrite content_set|rewrite content_set_ne by done].
    + intros Hx. by apply (proj1 (Forall_forall _ _) Hl) in Hx.
    + intros Hx. by apply (typed_item m g (inr x)).
  - intros g Hr. destruct (decide (g = f)) as [->|Hg]; [rewrite content_set|rewrite content_set_ne by done]; [by apply H1|].
    by apply typed_single.
Qed.

Lemma typed_new d : typed (New d).
Proof. constructor; intros f; rewrite content_new; [intros x Hx; by apply elem_of_nil in Hx..|cbn; lia]. Qed.

Lemma typed_append m f x : typed m -> item_ok f x -> is_repeated f = true -> typed (set_content m f (content m f ++ [x])).
Proof.
  intros Hm Hx Hr. apply typed_set; [done| |congruence]. apply Forall_app. split; [|by constructor].
  apply Forall_forall. intros y Hy. by apply (typed_item m).
Qed.

Lemma typed_one m f x : typed m -> item_ok f x -> typed (set_content m f [x]).
Proof. intros Hm Hx. apply typed_set; [done|by constructor|cbn; lia]. Qed.

(** ** What a message is represented by *)

Definition escaped f (s : bytes) : bytes := if is_bytes f then concat (enc ALL <$> s) else s.

Definition scalar_json f (x : Scalar) : Value :=
  match x with
  | String_ s => if is_repeated f then VString (escaped f s) else VConst (escaped f s)
  | _ => value_of x
  end.

(** The members are the fields that are set, in their order; an array for a
    repeated field. *)
Inductive represents : M -> list (bytes * Value) -> Prop :=
  represents_intro m l :
    Forall2 (fun f e => fst e = name f /\ exists vs,
        snd e = (if is_repeated f then VArray vs else default VNull (head vs)) /\
        Forall2 (fun x v => (exists y, x = inl y /\ v = scalar_json f y) \/
                            (exists s l', x = inr s /\ v = VObject l' /\ represents s l')) (content m f) vs)
      (ListFields m) l ->
    represents m l.

Definition item_json f (x : Scalar + M) (v : Value) : Prop :=
  (exists y, x = inl y /\ v = scalar_json f y) \/ (exists s l, x = inr s /\ v = VObject l /\ represents s l).

Definition field_json m f (v : Value) : Prop := exists vs,
  v = (if is_repeated f then VArray vs else default VNull (head vs)) /\ Forall2 (item_json f) (content m f) vs.

(** The items, read one by one by their index. *)
Lemma map_res_indices {A B} (g : Z -> res B) (h : A -> B -> Prop) (l : list A) :
  (forall i x, vget l i = Ok x -> exists y, g i = Ok y /\ h x y) ->
  exists ys, map_res g (indices (Zlen l)) = Ok ys /\ Forall2 h l ys.
Proof.
  intros Hg. unfold map_res, indices.
  assert (Hgen : forall k pre, pre ++ k = l -> exists ys, mapM g (seqZ (Zlen pre) (Zlen k)) = Ok ys /\ Forall2 h k ys).
  { induction k as [|x k IH]; intros pre Hl; [exists []; rewrite Zlen_nil; by split; [|constructor]|].
    rewrite Zlen_cons. pose proof (Zlen_nonneg k). rewrite seqZ_cons by lia. cbn [mapM].
    destruct (Hg (Zlen pre) x) as (y & -> & Hy).
    { subst l. apply vget_lookup; [apply Zlen_nonneg|]. unfold Zlen. rewrite Nat2Z.id. by rewrite list_lookup_middle. }
    destruct (IH (pre ++ [x])) as (ys & Hys & HF); [by rewrite <- app_assoc|].
    rewrite Zlen_app, Zlen_cons, Zlen_nil in Hys.
    replace (Z.succ (Zlen pre)) with (Zlen pre + (1 + 0)) by lia. replace (Z.pred (1 + Zlen k)) with (Zlen k) by lia.
    rstep. rewrite Hys. rstep. exists (y :: ys). by split; [|constructor]. }
  apply (Hgen l []). done.
Qed.

Lemma get_scalar m f i x : typed m -> type f <> MESSAGE -> vget (content m f) i = Ok x ->
  exists y, x = inl y /\ scalar_ok f y /\ (z ← vget (content m f) i; scalar_of f z) = Ok y.
Proof.
  intros Hm Ht Hx. assert (x ∈ content m f) as Hin by (apply vget_ok in Hx as [_ Hx]; by eapply list_elem_of_lookup_2).
  pose proof (typed_item m f x Hm Hin) as Hok. clear Hin. destruct x as [y|s]; [|by destruct Hok]. exists y. split; [done|]. split; [done|].
  rewrite Hx. rstep. cbn [scalar_of]. destruct Hok as [Hk _]. by rewrite bool_decide_eq_true_2.
Qed.

Lemma get_message m f i x : typed m -> type f = MESSAGE -> vget (content m f) i = Ok x ->
  exists s, x = inr s /\ typed s /\ (SizeOf s < SizeOf m)%nat /\ (z ← vget (content m f) i; message_of z) = Ok s.
Proof.
  intros Hm Ht Hx. assert (x ∈ content m f) as Hin by (apply vget_ok in Hx as [_ Hx]; by eapply list_elem_of_lookup_2).
  pose proof (typed_item m f x Hm Hin) as Hok. destruct x as [y|s].
  - destruct Hok as [Hk _]. rewrite Ht in Hk. by destruct y.
  - exists s. destruct Hok as (_ & _ & Hs). split; [done|]. split; [done|]. split; [by eapply content_smaller|]. by rewrite Hx.
Qed.

(** A field of one value. *)
Lemma single_content m f : typed m -> is_repeated f = false -> content m f <> [] -> exists x, content m f = [x].
Proof.
  intros Hm Hr Hne. pose proof (typed_single m f Hm Hr). destruct (content m f) as [|x [|y l]]; [done|by exists x|cbn in *; lia].
Qed.

Lemma plain_json f y : type f <> STRING -> scalar_ok f y -> value_of y = scalar_json f y.
Proof. intros Ht [Hk _]. by destruct y. Qed.

Lemma serialize_number_json m f : typed m -> type f <> MESSAGE -> type f <> STRING -> content m f <> [] ->
  exists v, serialize_number m f = Ok v /\ field_json m f v.
Proof.
  intros Hm Ht Hs Hne. unfold serialize_number. destruct (is_repeated f) eqn:Hr.
  - destruct (map_res_indices (fun i => x ← GetRepeated m f i; Ok (value_of x)) (item_json f) (content m f)) as (vs & Hv & HF).
    { intros i x Hx. destruct (get_scalar m f i x Hm Ht Hx) as (y & -> & Hy & Hg). exists (value_of y). unfold GetRepeated.
      rewrite Hg. split; [done|]. left. exists y. by rewrite (plain_json f). }
    exists (VArray vs). unfold FieldSize. rewrite Hv. split; [done|]. exists vs. by rewrite Hr.
  - destruct (single_content m f Hm Hr Hne) as [x Hc].
    destruct (get_scalar m f 0 x Hm Ht) as (y & -> & Hy & Hg); [by rewrite Hc|]. unfold Get. rewrite Hg. rstep.
    exists (value_of y). split; [done|]. exists [value_of y]. rewrite Hr, Hc. split; [done|]. constructor; [|done].
    left. exists y. by rewrite (plain_json f).
Qed.

Lemma string_data f y : type f = STRING -> scalar_ok f y -> exists s, y = String_ s /\
  (s' ← string_of y; if is_bytes f then UriEscape s' [] ALL else Ok s') = Ok (escaped f s).
Proof.
  intros Ht [Hk Hb]. rewrite Ht in Hk. destruct y; try done. exists s. split; [done|]. cbn [string_of]. rstep.
  unfold escaped, UriEscape. destruct (is_bytes f); [|done]. by rewrite escape_loop_enc.
Qed.

Lemma serialize_string_json m f : typed m -> type f = STRING -> content m f <> [] ->
  exists v, serialize_string m f = Ok v /\ field_json m f v.
Proof.
  intros Hm Ht Hne. assert (type f <> MESSAGE) as Hmsg by congruence. unfold serialize_string. destruct (is_repeated f) eqn:Hr.
  - destruct (map_res_indices (fun i => x ← GetRepeated m f i;
       s ← (s ← string_of x; if is_bytes f then UriEscape s [] ALL else Ok s); Ok (VString s)) (item_json f) (content m f))
      as (vs & Hv & HF).
    { intros i x Hx. destruct (get_scalar m f i x Hm Hmsg Hx) as (y & -> & Hy & Hg). unfold GetRepeated. rewrite Hg. rstep.
      destruct (string_data f y Ht Hy) as (s & -> & Hs). rewrite Hs. rstep. eexists. split; [done|]. left.
      exists (String_ s). cbn [scalar_json]. by rewrite Hr. }
    exists (VArray vs). unfold FieldSize. cbv zeta. rewrite Hv. split; [done|]. exists vs. by rewrite Hr.
  - destruct (single_content m f Hm Hr Hne) as [x Hc].
    destruct (get_scalar m f 0 x Hm Hmsg) as (y & -> & Hy & Hg); [by rewrite Hc|]. unfold Get. rewrite Hg. rstep.
    destruct (string_data f y Ht Hy) as (s & -> & Hs). rewrite Hs. rstep. eexists. split; [done|].
    exists [VConst (escaped f s)]. rewrite Hr, Hc. split; [done|]. constructor; [|done].
    left. exists (String_ s). cbn [scalar_json]. by rewrite Hr.
Qed.

Section Messages.
Variables (rec : M -> res (bool * list (bytes * Value))) (bound : nat).
Hypothesis rec_ok : forall s, typed s -> (SizeOf s < bound)%nat -> exists l, rec s = Ok (true, l) /\ represents s l.

Lemma serialize_messages_json m f : typed m -> (SizeOf m <= bound)%nat -> type f = MESSAGE ->
  forall k pre vs, pre ++ k = content m f ->
  exists ws, serialize_messages rec m f (seqZ (Zlen pre) (Zlen k)) vs = Ok (true, VArray (vs ++ ws)) /\ Forall2 (item_json f) k ws.
Proof.
  intros Hm Hb Ht. induction k as [|x k IH]; intros pre vs Hl.
  { exists []. rewrite Zlen_nil, app_nil_r. by split; [|constructor]. }
  rewrite Zlen_cons. pose proof (Zlen_nonneg k). rewrite seqZ_cons by lia. cbn [serialize_messages].
  destruct (get_message m f (Zlen pre) x Hm Ht) as (s & -> & Hs & Hlt & Hg).
  { rewrite <- Hl. apply vget_lookup; [apply Zlen_nonneg|]. unfold Zlen. rewrite Nat2Z.id. by rewrite list_lookup_middle. }
  unfold GetRepeatedMessage. rewrite Hg. rstep. destruct (rec_ok s Hs) as (l & -> & Hr); [lia|]. rstep.
  destruct (IH (pre ++ [inr s]) (vs ++ [VObject l])) as (ws & Hws & HF); [by rewrite <- app_assoc|].
  rewrite Zlen_app, Zlen_cons, Zlen_nil in Hws. replace (Z.succ (Zlen pre)) with (Zlen pre + (1 + 0)) by lia.
  replace (Z.pred (1 + Zlen k)) with (Zlen k) by lia. rewrite Hws. exists (VObject l :: ws). rewrite <- app_assoc.
  split; [done|]. constructor; [|done]. right. eauto.
Qed.

Lemma serialize_message_json m f : typed m -> (SizeOf m <= bound)%nat -> type f = MESSAGE -> content m f <> [] ->
  exists v, serialize_message rec m f = Ok (true, v) /\ field_json m f v.
Proof.
  intros Hm Hb Ht Hne. unfold serialize_message. destruct (is_repeated f) eqn:Hr.
  - destruct (serialize_messages_json m f Hm Hb Ht (content m f) [] []) as (vs & Hv & HF); [done|].
    exists (VArray vs). split; [exact Hv|]. exists vs. by rewrite Hr.
  - destruct (single_content m f Hm Hr Hne) as [x Hc].
    destruct (get_message m f 0 x Hm Ht) as (s & -> & Hs & Hlt & Hg); [by rewrite Hc|]. unfold GetMessage. rewrite Hg. rstep.
    destruct (rec_ok s Hs) as (l & -> & Hl); [lia|]. rstep. eexists. split; [done|]. exists [VObject l]. rewrite Hr, Hc.
    split; [done|]. constructor; [|done]. right. eauto.
Qed.

Lemma serialize_fields_json m : typed m -> (SizeOf m <= bound)%nat ->
  forall fields root, Forall (fun f => content m f <> []) fields ->
  exists l, serialize_fields rec m fields root = Ok (true, root ++ l) /\
    Forall2 (fun f e => fst e = name f /\ field_json m f (snd e)) fields l.
Proof.
  intros Hm Hb. induction fields as [|f fields IH]; intros root Hf; [exists []; rewrite app_nil_r; by split; [|constructor]|].
  apply Forall_cons in Hf as [Hne Hf]. cbn [serialize_fields].
  assert (HasField m f = true) as -> by (unfold HasField; by destruct (content m f)). rewrite andb_false_r.
  assert (Hv : exists v, match type f with
            | STRING => v ← serialize_string m f; Ok (true, v)
            | MESSAGE => serialize_message rec m f
            | _ => v ← serialize_number m f; Ok (true, v)
            end = Ok (true, v) /\ field_json m f v).
  { destruct (type f) eqn:Ht;
      try (destruct (serialize_number_json m f Hm) as (v & -> & Hv); [congruence|congruence|done|by exists v]).
    - destruct (serialize_string_json m f Hm Ht Hne) as (v & -> & Hv). by exists v.
    - by apply serialize_message_json. }
  destruct Hv as (v & -> & Hv). rstep. destruct (IH (root ++ [(name f, v)]) Hf) as (l & -> & HF).
  exists ((name f, v) :: l). rewrite <- app_assoc. split; [done|]. by constructor.
Qed.
End Messages.

Lemma serialized m : typed m -> forall fuel, (SizeOf m < fuel)%nat ->
  exists l, SerializeToJsonValue fuel m = Ok (true, l) /\ represents m l.
Proof.
  intros Hm fuel. revert m Hm. induction fuel as [|fuel IH]; intros m Hm Hlt; [lia|]. cbn [SerializeToJsonValue].
  destruct (serialize_fields_json (SerializeToJsonValue fuel) fuel) with (m := m) (fields := ListFields m) (root := @nil (bytes * Value))
    as (l & Hl & HF).
  - intros s Hs Hslt. by apply IH.
  - done.
  - lia.
  - apply Forall_forall. intros f Hf. by apply ListFields_set.
  - exists l. split; [exact Hl|]. by constructor.
Qed.

(** ** Reading a document back *)

Variable lexical_cast : cpp_type -> bytes -> option Z.

(** What reads back what it writes: no singular string, which is gone when the
    document is used, and no singular enum, which is written as its number and read
    as its name; strings end at a NUL unless they are escaped. *)
Definition scalar_portable f (x : Scalar) : Prop :=
  match x with
  | String_ s => is_repeated f = true /\ (is_bytes f = true \/ Forall (fun c => c <> 0) s)
  | Enum _ => is_repeated f = true
  | Float_ x => to_float (to_double x) = x
  | _ => True
  end.

(** No extension is set, every required field is, and the values are portable. *)
Inductive portable : M -> Prop :=
  portable_intro m :
    (forall f, f ∈ ListFields m -> f ∈ field_list (GetDescriptor m)) ->
    (forall f, f ∈ field_list (GetDescriptor m) -> is_required f = true -> content m f <> []) ->
    (forall f x, inl x ∈ content m f -> scalar_portable f x) ->
    (forall f s, inr s ∈ content m f -> portable s) -> portable m.

(** The declared fields hold the same values, in the same order. *)
Inductive same : M -> M -> Prop :=
  same_intro m m' :
    GetDescriptor m = GetDescriptor m' ->
    (forall f, f ∈ field_list (GetDescriptor m) ->
       Forall2 (fun x y => (exists z, x = inl z /\ y = inl z) \/ (exists s s', x = inr s /\ y = inr s' /\ same s s'))
         (content m f) (content m' f)) ->
    same m m'.

Definition same_item (x y : Scalar + M) : Prop :=
  (exists z, x = inl z /\ y = inl z) \/ (exists s s', x = inr s /\ y = inr s' /\ same s s').

(** Only the field [f] has changed, to [l]. *)
Definition changes f m m' (l : list (Scalar + M)) : Prop :=
  GetDescriptor m' = GetDescriptor m /\ content m' f = l /\ forall g, g <> f -> content m' g = content m g.

Lemma changes_set m f l : changes f m (set_content m f l) l.
Proof. split; [apply descriptor_set|]. split; [apply content_set|]. intros g Hg. by apply content_set_ne. Qed.

Lemma changes_trans f m1 m2 m3 l2 l3 : changes f m1 m2 l2 -> changes f m2 m3 l3 -> changes f m1 m3 l3.
Proof.
  intros (Hd & _ & Hg) (Hd' & Hc' & Hg'). split; [congruence|]. split; [done|]. intros g Hne. rewrite Hg', Hg by done. done.
Qed.

(** How a JSON value is converted when the field is repeated. *)
Definition conversion_of f : conversion :=
  match type f with
  | INT32 | UINT32 | FLOAT | DOUBLE | BOOL =>
      fun v => if fst (plain_accessors (type f)) v then x ← snd (plain_accessors (type f)) v; Ok (Some x) else Ok None
  | INT64 | UINT64 => wide_conversion lexical_cast (type f)
  | ENUM => fun v => if IsInt v then n ← GetInt v; Ok (Enum <$> value_by_number f n) else Ok None
  | STRING | MESSAGE => string_conversion f
  end.

Lemma parse_repeated f rec vs m : is_repeated f = true -> type f <> MESSAGE ->
  parse_field lexical_cast f rec (VArray vs) m = add_all f (conversion_of f) vs m.
Proof.
  intros Hr Ht. unfold parse_field, parse_plain, parse_wide, parse_enum, parse_string, conversion_of. rewrite Hr.
  by destruct (type f).
Qed.

Lemma fits_signed_ok w n : fits_s w n -> fits_signed w n = true.
Proof. unfold fits_s, fits_signed. intros. apply andb_true_iff. rewrite Z.leb_le, Z.ltb_lt. lia. Qed.

Lemma fits_unsigned_ok w n : fits_u w n -> fits_unsigned w n = true.
Proof. unfold fits_u, fits_unsigned. intros. apply andb_true_iff. rewrite Z.leb_le, Z.ltb_lt. lia. Qed.

Lemma escaped_no_nul (s : bytes) : Forall is_byte s -> Forall (fun c => c <> 0) (concat (enc ALL <$> s)).
Proof.
  induction 1 as [|v s Hv _ IH]; [constructor|]. rewrite fmap_cons. cbn [concat]. apply Forall_app. split; [|done].
  unfold enc. destruct (_ <=? _) eqn:E.
  - constructor; [|done]. intros ->. discriminate E.
  - cbn [bool_decide andb]. destruct (nibbles v Hv) as (_ & _ & H1 & H2).
    repeat constructor; unfold HEX_char; [done|destruct (_ <? _) eqn:?; zify_bool; lia..].
Qed.

Lemma string_back f s : Forall is_byte s -> is_bytes f = true \/ Forall (fun c => c <> 0) s ->
  string_conversion f (VString (escaped f s)) = Ok (Some (String_ s)).
Proof.
  intros Hb Hn. unfold string_conversion, escaped. cbn [IsString GetString]. rstep. destruct (is_bytes f) eqn:E.
  - rewrite c_string_id by (by apply escaped_no_nul). unfold UriUnescape. rewrite unescape_all by done. done.
  - destruct Hn as [|Hn]; [done|]. by rewrite c_string_id.
Qed.

Lemma enum_back f n : n ∈ snd <$> enum_type f -> value_by_number f n = Some n.
Proof.
  unfold value_by_number. induction (enum_type f) as [|[b k] l IH]; [by intros ?%elem_of_nil|].
  rewrite fmap_cons, elem_of_cons. cbn [List.find snd]. intros Hn. destruct (k =? n) eqn:E; zify_bool; [by subst|].
  apply IH. naive_solver.
Qed.

(** A fitting number passes the test of its type and is read as it is. *)
Lemma conversion_back f x : scalar_ok f x -> scalar_portable f x -> is_repeated f = true ->
  conversion_of f (scalar_json f x) = Ok (Some x).
Proof.
  intros [Hk Hx] Hp Hr. unfold conversion_of, scalar_json. rewrite Hr. rewrite <- Hk.
  destruct x; cbn [kind value_of plain_accessors fst snd scalar_portable] in *.
  - unfold GetInt, IsInt. rewrite fits_signed_ok by done. rstep. cbn [number_of]. by rewrite wrap_s_id.
  - unfold wide_conversion, GetInt64, IsInt64. rewrite bool_decide_eq_true_2, fits_signed_ok by done. done.
  - unfold GetUint, IsUint. rewrite fits_unsigned_ok by done. rstep. cbn [number_of]. by rewrite wrap_u_id.
  - unfold wide_conversion, GetUint64, IsUint64. rewrite bool_decide_eq_false_2, fits_unsigned_ok by done. done.
  - done.
  - cbn [IsDouble GetDouble]. rstep. by rewrite Hp.
  - done.
  - unfold GetInt, IsInt. rewrite fits_signed_ok by apply Hx. rstep. cbn [number_of]. rewrite enum_back by apply Hx. done.
  - destruct Hp. by apply string_back.
Qed.

Lemma single_back f rec x m : scalar_ok f x -> scalar_portable f x -> is_repeated f = false ->
  parse_field lexical_cast f rec (scalar_json f x) m = Ok (true, set_content m f [inl x]).
Proof.
  intros [Hk Hx] Hp Hr. unfold parse_field, scalar_json, parse_plain, parse_wide, set_one, Set_. rewrite Hr. rewrite <- Hk.
  destruct x; cbn [kind value_of plain_accessors scalar_portable andb] in *.
  - unfold GetInt, IsInt. rewrite fits_signed_ok by done. rstep. cbn [number_of kind]. by rewrite wrap_s_id.
  - unfold wide_conversion, GetInt64, IsInt64. rewrite (bool_decide_eq_true_2 (INT64 = INT64)), fits_signed_ok by done. done.
  - unfold GetUint, IsUint. rewrite fits_unsigned_ok by done. rstep. cbn [number_of kind]. by rewrite wrap_u_id.
  - unfold wide_conversion, GetUint64, IsUint64. rewrite (bool_decide_eq_false_2 (UINT64 = INT64)), fits_unsigned_ok by done. done.
  - done.
  - cbn [GetDouble]. rstep. by rewrite Hp.
  - done.
  - congruence.
  - destruct Hp. congruence.
Qed.

Lemma add_all_back f conv vs xs : Forall2 (fun v x => conv v = Ok (Some x) /\ kind x = type f) vs xs ->
  forall m, exists m', add_all f conv vs m = Ok (true, m') /\ changes f m m' (content m f ++ (inl <$> xs)).
Proof.
  induction 1 as [|v x vs xs [Hc Hk] _ IH]; intros m; cbn [add_all].
  { exists m. split; [done|]. split; [done|]. by rewrite app_nil_r. }
  rewrite Hc. rstep. unfold Add. rewrite bool_decide_eq_true_2 by done. rstep.
  destruct (IH (set_content m f (content m f ++ [inl x]))) as (m' & -> & Hch). exists m'. split; [done|].
  rewrite content_set in Hch. rewrite fmap_cons. rewrite <- app_assoc in Hch. eapply changes_trans; [apply changes_set|exact Hch].
Qed.

(** The values of a field that holds no messages. *)
Lemma scalar_contents m f vs : typed m -> portable m -> type f <> MESSAGE -> Forall2 (item_json f) (content m f) vs ->
  exists xs, content m f = inl <$> xs /\ vs = scalar_json f <$> xs /\ Forall (fun x => scalar_ok f x /\ scalar_portable f x) xs.
Proof.
  intros Hm Hp Ht. assert (Hall : forall x, x ∈ content m f -> x ∈ content m f) by done. revert Hall.
  generalize (content m f) at 1 3 4 as xs. intros xs Hall HF. induction HF as [|x v xs vs Hx HF IH]; [by exists []|].
  destruct IH as (ys & -> & -> & Hys); [intros z Hz; apply Hall; by right|].
  pose proof (typed_item m f x Hm (Hall x ltac:(left))) as Hok.
  destruct Hx as [(y & -> & ->)|(s & l & -> & -> & _)]; [|by destruct Hok].
  exists (y :: ys). split; [done|]. split; [done|]. constructor; [|done]. split; [done|].
  destruct Hp as [? _ _ Hsp _]. apply Hsp. apply Hall. left.
Qed.

(** A message in a field, and what represents it. *)
Lemma message_content m f x v : typed m -> portable m -> type f = MESSAGE -> x ∈ content m f -> item_json f x v ->
  exists s l, x = inr s /\ v = VObject l /\ represents s l /\ message_type f = GetDescriptor s /\ typed s /\ portable s.
Proof.
  intros Hm Hp Ht Hx Hv. pose proof (typed_item m f x Hm Hx) as Hok. destruct Hv as [(y & -> & ->)|(s & l & -> & -> & Hrep)].
  - destruct Hok as [Hk _]. rewrite Ht in Hk. by destruct y.
  - destruct Hok as (_ & Hd & Hs). exists s, l. destruct Hp as [? _ _ _ Hsub]. split_and!; eauto.
Qed.

Section Back.
Variables (rec : Value -> M -> res (bool * M)) (P : Value -> Prop).

(** The messages below the one at hand are read back. *)
Hypothesis rec_back : forall s l, typed s -> portable s -> P (VObject l) -> represents s l ->
  exists s', rec (VObject l) (New (GetDescriptor s)) = Ok (true, s') /\ same s s'.

Lemma parse_messages_back f m0 xs vs : typed m0 -> portable m0 -> type f = MESSAGE ->
  (forall x, x ∈ xs -> x ∈ content m0 f) -> Forall P vs -> Forall2 (item_json f) xs vs ->
  forall m, exists m' ys, parse_messages f rec vs m = Ok (true, m') /\ changes f m m' (content m f ++ ys) /\ Forall2 same_item xs ys.
Proof.
  intros Hm0 Hp0 Ht Hin HP HF. revert Hin HP. induction HF as [|x v xs vs Hx HF IH]; intros Hin HP m; cbn [parse_messages].
  { exists m, []. split; [done|]. split; [by rewrite app_nil_r|constructor]. }
  apply Forall_cons in HP as [HPv HP].
  destruct (message_content m0 f x v) as (s & l & -> & -> & Hrep & -> & Hs & Hps); [done..|apply Hin; left|done|].
  cbn [IsObject negb]. destruct (rec_back s l) as (s' & -> & Hsame); [done..|]. rstep.
  destruct (IH (fun z Hz => Hin z ltac:(by right)) HP (set_content m f (content m f ++ [inr s']))) as (m' & ys & -> & Hch & HFs).
  exists m', (inr s' :: ys). split; [done|]. rewrite content_set, <- app_assoc in Hch.
  split; [eapply changes_trans; [apply changes_set|exact Hch]|]. constructor; [|done]. right. eauto.
Qed.

(** A field is read back from the value that represents it. *)
Lemma parse_field_back f m0 v m : typed m0 -> portable m0 -> P v -> (forall vs, v = VArray vs -> Forall P vs) ->
  content m0 f <> [] -> field_json m0 f v -> content m f = [] ->
  exists m' ys, parse_field lexical_cast f rec v m = Ok (true, m') /\ changes f m m' ys /\ Forall2 same_item (content m0 f) ys.
Proof.
  intros Hm0 Hp0 HPv HPs Hne (vs & -> & HF) Hc.
  destruct (is_repeated f) eqn:Hr; destruct (decide (type f = MESSAGE)) as [Ht|Ht].
  - unfold parse_field, parse_message. rewrite Hr, Ht. cbn [IsArray negb andb elements]. rstep.
    destruct (parse_messages_back f m0 (content m0 f) vs Hm0 Hp0 Ht) with (m := m) as (m' & ys & -> & Hch & HFs); [done|by apply HPs|done|].
    rewrite Hc in Hch. eauto.
  - destruct (scalar_contents m0 f vs) as (xs & -> & -> & Hxs); [done..|]. rewrite parse_repeated by done.
    destruct (add_all_back f (conversion_of f) (scalar_json f <$> xs) xs) with (m := m) as (m' & -> & Hch).
    { apply Forall2_fmap_l, Forall_Forall2_diag. eapply Forall_impl; [exact Hxs|]. intros x [Ho Hp].
      split; [by apply conversion_back|apply Ho]. }
    rewrite Hc in Hch. exists m', (inl <$> xs). split; [done|]. split; [done|]. apply Forall2_fmap, Forall_Forall2_diag.
    apply Forall_forall. intros x _. left. eauto.
  - destruct (single_content m0 f Hm0 Hr Hne) as [x Hx].
    assert (Hxin : x ∈ content m0 f) by (rewrite Hx; left). rewrite Hx in HF |- *.
    apply Forall2_cons_inv_l in HF as (v & vs' & Hv & HF & ->). apply Forall2_nil_inv_l in HF as ->.
    change (default VNull (head [v])) with v in *.
    destruct (message_content m0 f x v) as (s & l & -> & -> & Hrep & Hd & Hs & Hps); [done..|].
    unfold parse_field, parse_message, mutable_message. rewrite Hr, Ht, Hc, Hd. cbn [IsObject negb andb].
    destruct (rec_back s l) as (s' & -> & Hsame); [done..|]. rstep. exists (set_content m f [inr s']), [inr s'].
    split; [done|]. split; [apply changes_set|]. constructor; [|done]. right. eauto.
  - destruct (single_content m0 f Hm0 Hr Hne) as [x Hx]. destruct (scalar_contents m0 f vs) as (xs & Hxs & -> & Hok); [done..|].
    rewrite Hx in Hxs |- *. destruct xs as [|y [|]]; [done| |done].
    injection Hxs as ->. apply Forall_singleton in Hok as [Ho Hp].
    change (default VNull (head (scalar_json f <$> [y]))) with (scalar_json f y). rewrite single_back by done.
    exists (set_content m f [inl y]), [inl y]. split; [done|]. split; [apply changes_set|]. constructor; [|done]. left. eauto.
Qed.

Lemma name_inj d f g : f ∈ field_list d -> g ∈ field_list d -> name f = name g -> f = g.
Proof.
  intros Hf Hg Hn. apply list_elem_of_lookup in Hf as [i Hi]. apply list_elem_of_lookup in Hg as [j Hj].
  pose proof (fields_once (M := M) d) as Hnd. assert (i = j) as ->; [|congruence].
  eapply NoDup_lookup; [exact Hnd|rewrite list_lookup_fmap, Hi; reflexivity|rewrite list_lookup_fmap, Hj; cbn; by rewrite Hn].
Qed.

(** Members are found by the names of their fields. *)
Lemma member_of_field (Q : FieldDescriptor D -> Value -> Prop) d f fs l : f ∈ field_list d -> (forall g, g ∈ fs -> g ∈ field_list d) ->
  Forall2 (fun g e => fst e = name g /\ Q g (snd e)) fs l ->
  match member_of l (name f) with Some v => f ∈ fs /\ Q f v /\ (exists n, (n, v) ∈ l) | None => f ∉ fs end.
Proof.
  intros Hf Hfs HF. unfold member_of. induction HF as [|g [n v] fs l [Hn Hq] _ IH]; [by apply not_elem_of_nil|].
  cbn [List.find fst snd] in *. subst n. case_bool_decide as E.
  - assert (g = f) as -> by (apply (name_inj d); [apply Hfs; left|done|done]). cbn.
    split; [left|]. split; [done|]. eexists. left.
  - specialize (IH (fun h Hh => Hfs h ltac:(by right))). destruct (List.find _ _) as [[k w]|]; cbn in *.
    + destruct IH as (? & ? & k' & ?). split; [by right|]. split; [done|]. exists k'. by right.
    + apply not_elem_of_cons. split; [congruence|done].
Qed.

Lemma parse_fields_back m0 l : typed m0 -> portable m0 ->
  Forall2 (fun f e => fst e = name f /\ field_json m0 f (snd e)) (ListFields m0) l ->
  (forall n v, (n, v) ∈ l -> P v /\ forall vs, v = VArray vs -> Forall P vs) ->
  forall fields m, NoDup fields -> (forall f, f ∈ fields -> f ∈ field_list (GetDescriptor m0) /\ content m f = []) ->
  exists m', parse_fields lexical_cast rec (VObject l) fields m = Ok (true, m') /\ GetDescriptor m' = GetDescriptor m /\
    (forall f, f ∈ fields -> Forall2 same_item (content m0 f) (content m' f)) /\
    (forall g, g ∉ fields -> content m' g = content m g).
Proof.
  intros Hm0 Hp0 HF HP. induction fields as [|f fields IH]; intros m Hnd Hfs; cbn [parse_fields].
  { exists m. split; [done|]. split; [done|]. split; [intros f Hf; by apply elem_of_nil in Hf|done]. }
  apply NoDup_cons in Hnd as [Hnotin Hnd]. destruct (Hfs f ltac:(left)) as [Hf Hc].
  assert (Hlist : forall g, g ∈ ListFields m0 -> g ∈ field_list (GetDescriptor m0)) by (by destruct Hp0).
  pose proof (member_of_field (field_json m0) _ f _ l Hf Hlist HF) as Hmem. cbn [FindMember]. rstep.
  destruct (member_of l (name f)) as [v|].
  - destruct Hmem as (Hset & Hv & n & Hin). destruct (HP n v Hin) as [HPv HPs].
    destruct (parse_field_back f m0 v m) as (m1 & ys & -> & (Hd1 & Hc1 & Hg1) & HF1); [done..|by apply ListFields_set|done|done|].
    rstep. destruct (IH m1 Hnd) as (m' & -> & Hd & Hall & Hother).
    { intros g Hg. destruct (Hfs g ltac:(by right)) as [? Hcg]. split; [done|]. rewrite Hg1; [done|]. by intros ->. }
    exists m'. split; [done|]. split; [congruence|]. split.
    + intros g Hg. destruct (decide (g = f)) as [->|Hne]; [by rewrite Hother, Hc1|]. apply Hall. by apply elem_of_cons in Hg as [?|].
    + intros g [Hne Hg]%not_elem_of_cons. by rewrite Hother, Hg1.
  - assert (Hempty : content m0 f = []).
    { destruct (content m0 f) as [|x xs] eqn:E; [done|]. destruct Hmem. apply ListFields_all; [done|by rewrite E]. }
    destruct (is_required f) eqn:Hreq; [destruct Hp0 as [? _ Hr _ _]; by destruct (Hr f Hf Hreq)|].
    destruct (IH m Hnd (fun g Hg => Hfs g ltac:(by right))) as (m' & -> & Hd & Hall & Hother).
    exists m'. split; [done|]. split; [done|]. split.
    + intros g Hg. destruct (decide (g = f)) as [->|Hne]; [rewrite Hother, Hempty, Hc by done; constructor|].
      apply Hall. by apply elem_of_cons in Hg as [?|].
    + intros g [Hne Hg]%not_elem_of_cons. by apply Hother.
Qed.
End Back.

Lemma depth_element v vs : v ∈ vs -> (depth v < depth (VArray vs))%nat.
Proof.
  intros Hv. cbn [depth]. apply Nat.lt_succ_r. pose proof (proj1 (list_max_le (depth <$> vs) _) (Nat.le_refl _)) as Hm.
  rewrite List.Forall_forall in Hm. apply Hm. apply list_elem_of_In. by apply list_elem_of_fmap_2.
Qed.

Lemma depth_member n v l : (n, v) ∈ l -> (depth v < depth (VObject l))%nat.
Proof.
  intros Hv. cbn [depth]. apply Nat.lt_succ_r.
  pose proof (proj1 (list_max_le ((fun e => depth (snd e)) <$> l) _) (Nat.le_refl _)) as Hm.
  rewrite List.Forall_forall in Hm. apply Hm. apply list_elem_of_In. by apply (list_elem_of_fmap_2 (fun e => depth (snd e)) l (n, v)).
Qed.

Lemma read_back fuel : forall m l, typed m -> portable m -> represents m l -> (depth (VObject l) < fuel)%nat ->
  exists m', ParseFromJsonValue lexical_cast fuel (VObject l) (New (GetDescriptor m)) = Ok (true, m') /\ same m m'.
Proof.
  induction fuel as [|fuel IH]; intros m l Hm Hp Hrep Hlt; [lia|]. cbn [ParseFromJsonValue]. rewrite descriptor_new.
  inversion Hrep as [? ? HF]; subst.
  destruct (parse_fields_back (ParseFromJsonValue lexical_cast fuel) (fun v => (depth v < fuel)%nat)) with
    (m0 := m) (l := l) (fields := field_list (GetDescriptor m)) (m := New (M := M) (GetDescriptor m)) as (m' & -> & Hd & Hall & _).
  - intros s l' Hs Hps Hl Hr. by apply IH.
  - done.
  - done.
  - exact HF.
  - intros n v Hin. pose proof (depth_member n v l Hin). split; [lia|]. intros vs ->. apply Forall_forall. intros w Hw.
    pose proof (depth_element w vs Hw). lia.
  - pose proof (fields_once (M := M) (GetDescriptor m)) as Hn. by apply NoDup_fmap_1 in Hn.
  - intros f Hf. split; [done|apply content_new].
  - exists m'. split; [done|]. constructor; [by rewrite Hd, descriptor_new|exact Hall].
Qed.

Lemma portable_owned fuel : forall m l, (SizeOf m < fuel)%nat -> typed m -> portable m -> represents m l -> owned (VObject l) = true.
Proof.
  induction fuel as [|fuel IH]; intros m l Hlt Hm Hp Hrep; [lia|]. inversion Hrep as [? ? HF]; subst.
  cbn [owned]. apply forallb_forall. intros [n v] Hin. apply list_elem_of_In in Hin. cbn [snd].
  apply list_elem_of_lookup in Hin as [i Hi]. destruct (Forall2_lookup_r _ _ _ _ _ HF Hi) as (f & Hf & Hn & vs & Hv & HFv).
  cbn [fst snd] in *. assert (Hvs : Forall (fun w => owned w = true) vs).
  { apply Forall_forall. intros w Hw. apply list_elem_of_lookup in Hw as [j Hj].
    destruct (Forall2_lookup_r _ _ _ _ _ HFv Hj) as (x & Hx & Hxw). apply list_elem_of_lookup_2 in Hx.
    destruct Hp as [? _ _ Hsp Hsub]. destruct Hxw as [(y & -> & ->)|(s & l' & -> & -> & Hrep')].
    - apply Hsp in Hx. destruct y; try done. cbn in *. destruct Hx as [-> _]. done.
    - destruct (typed_item m f (inr s) Hm Hx) as (_ & _ & Hs). apply (IH s); [|done|by apply (Hsub f)|done].
      pose proof (content_smaller m f s Hx). lia. }
  subst v. destruct (is_repeated f).
  - cbn [owned]. apply forallb_forall. intros w Hw. apply list_elem_of_In in Hw. by apply (proj1 (Forall_forall _ _) Hvs).
  - destruct Hvs; [done|]. done.
Qed.

Variable write : Value -> bytes.
Variable parse : bytes -> option Value.

(** C8: A message without the forms that are lost is written as a document that
    represents it, and any text that parses to that document is read back, into a
    new message of the same type, as a message with the same fields. *)
Theorem json_roundtrip m output : typed m -> portable m ->
  exists l, SerializeToJsonValue (S (SizeOf m)) m = Ok (true, l) /\ represents m l /\
    SerializeToJson write m output = Ok (true, c_string (write (VObject l))) /\
    forall json, parse (c_string (ptr_ json)) = Some (VObject l) ->
    exists m', ParseFromJson lexical_cast parse json (New (GetDescriptor m)) = Ok (true, m') /\ same m m'.
Proof.
  intros Hm Hp. destruct (serialized m Hm (S (SizeOf m))) as (l & Hl & Hrep); [lia|]. exists l. split; [done|]. split; [done|].
  unfold SerializeToJson. rewrite Hl. rstep. rewrite (portable_owned (S (SizeOf m)) m) by (done || lia). split; [done|].
  intros json Hj. unfold ParseFromJson. rewrite Hj. apply read_back; [done..|lia].
Qed.

(** Serializing never fails, but a singular string or bytes field that is set makes
    the document refer to a dead local variable when it is written. *)
Theorem singular_string_dangles m f output : typed m -> f ∈ ListFields m -> type f = STRING -> is_repeated f = false ->
  SerializeToJson write m output = Err Dangling.
Proof.
  intros Hm Hf Ht Hr. destruct (serialized m Hm (S (SizeOf m))) as (l & Hl & Hrep); [lia|].
  unfold SerializeToJson. rewrite Hl. rstep. inversion Hrep as [? ? HF]; subst.
  assert (owned (VObject l) = false) as ->; [|done]. apply list_elem_of_lookup in Hf as [i Hi].
  destruct (Forall2_lookup_l _ _ _ _ _ HF Hi) as ([n v] & He & _ & vs & Hv & HFv). cbn [snd] in Hv. rewrite Hr in Hv.
  destruct (single_content m f Hm Hr) as [x Hx]; [apply ListFields_set; by eapply list_elem_of_lookup_2|]. rewrite Hx in HFv.
  apply Forall2_cons_inv_l in HFv as (w & vs' & Hw & _ & ->). cbn in Hv. subst v.
  assert (x ∈ content m f) as Hin by (rewrite Hx; left). pose proof (typed_item m f x Hm Hin) as Hok.
  destruct Hw as [(y & -> & ->)|(s & l' & -> & -> & _)]; [|destruct Hok; congruence].
  destruct (string_data f y Ht Hok) as (s & -> & _). cbn [scalar_json] in He. rewrite Hr in He.
  apply not_true_iff_false. intros Ho. cbn [owned] in Ho. rewrite forallb_forall in Ho.
  apply list_elem_of_lookup_2, list_elem_of_In in He. by apply Ho in He.
Qed.

(** A singular enum is written as its number, and what was written is rejected. *)
Theorem singular_enum_rejected f rec n m : type f = ENUM -> is_repeated f = false ->
  parse_field lexical_cast f rec (scalar_json f (Enum n)) m = Ok (false, m).
Proof. intros Ht Hr. unfold parse_field, parse_enum. rewrite Hr, Ht. done. Qed.

(** ** Types *)

(** The strings of a value are bytes. *)
Fixpoint value_ok (v : Value) : Prop :=
  match v with
  | VString s | VConst s => Forall is_byte s
  | VArray l => foldr (fun v P => value_ok v /\ P) True l
  | VObject l => foldr (fun e P => value_ok (snd e) /\ P) True l
  | _ => True
  end.

Lemma value_ok_elements l v : value_ok (VArray l) -> v ∈ l -> value_ok v.
Proof.
  cbn [value_ok]. induction l as [|w l IH]; [by intros _ ?%elem_of_nil|]. cbn [foldr]. intros [Hw Hl] [->|Hv]%elem_of_cons; [done|].
  by apply IH.
Qed.

Lemma value_ok_member l n v : value_ok (VObject l) -> member_of l n = Some v -> value_ok v.
Proof.
  cbn [value_ok]. unfold member_of. induction l as [|[k w] l IH]; [done|]. cbn [foldr List.find fst snd]. intros [Hw Hl].
  case_bool_decide; [by intros [= <-]|]. by apply IH.
Qed.

Section ParseTyped.
(** lexical_cast<int64_t> and lexical_cast<uint64_t> give values of their types. *)
Hypothesis cast_fits : forall s n, (lexical_cast INT64 s = Some n -> fits_s 64 n) /\ (lexical_cast UINT64 s = Some n -> fits_u 64 n).

(** [m'] is a message of the type of [m]. *)
Definition keeps m m' : Prop := typed m' /\ GetDescriptor m' = GetDescriptor m.

Lemma keeps_set m f l : typed m -> typed (set_content m f l) -> keeps m (set_content m f l).
Proof. intros _ Ht. split; [done|apply descriptor_set]. Qed.

Lemma keeps_trans m1 m2 m3 : keeps m1 m2 -> keeps m2 m3 -> keeps m1 m3.
Proof. intros [_ H1] [? H2]. split; [done|congruence]. Qed.

Lemma add_all_typed f conv items : is_repeated f = true ->
  (forall v x, v ∈ items -> conv v = Ok (Some x) -> kind x = type f -> scalar_ok f x) ->
  forall m b m', typed m -> add_all f conv items m = Ok (b, m') -> keeps m m'.
Proof.
  intros Hr. induction items as [|v items IH]; intros Hc m b m' Hm Ha; cbn [add_all] in Ha; [by injection Ha as <- <-|].
  res_inv. destruct a as [x|]; [|by res_inv]. res_inv. unfold Add in E0. res_inv. apply bool_decide_eq_true in E1.
  assert (scalar_ok f x) as Hx by (apply (Hc v); [left|done|done]).
  pose proof (typed_append m f (inl x) Hm Hx Hr) as Ht. eapply keeps_trans; [by apply keeps_set|].
  eapply IH; [intros w y Hw; apply Hc; by right|exact Ht|exact Ha].
Qed.

Lemma set_one_typed f conv v m b m' :
  (forall x, conv v = Ok (Some x) -> kind x = type f -> scalar_ok f x) ->
  typed m -> set_one f conv v m = Ok (b, m') -> keeps m m'.
Proof.
  intros Hc Hm Ha. unfold set_one in Ha. res_inv. destruct a as [x|]; [|by res_inv]. res_inv. unfold Set_ in E0. res_inv.
  apply bool_decide_eq_true in E1. apply keeps_set; [done|]. by apply typed_one, Hc.
Qed.

Lemma signed_fits w n : fits_signed w n = true -> fits_s w n.
Proof. unfold fits_s, fits_signed. rewrite andb_true_iff, Z.leb_le, Z.ltb_lt. lia. Qed.

Lemma unsigned_fits w n : fits_unsigned w n = true -> fits_u w n.
Proof. unfold fits_u, fits_unsigned. rewrite andb_true_iff, Z.leb_le, Z.ltb_lt. lia. Qed.

Lemma plain_ok f v x : snd (plain_accessors (type f)) v = Ok x -> kind x = type f -> scalar_ok f x.
Proof.
  intros Ha Hk. split; [done|]. destruct (type f); cbn [plain_accessors snd] in Ha; res_inv; try done;
    [apply wrap_s_fits|apply wrap_u_fits]; lia.
Qed.

Lemma GetString_ok v (s : bytes) : value_ok v -> GetString v = Ok s -> Forall is_byte s.
Proof.
  destruct v; try done. cbn [value_ok GetString]. intros Hb [= <-]. induction Hb as [|c s Hc _ IH]; [constructor|].
  cbn [c_string]. destruct (c =? 0); [constructor|by constructor].
Qed.

Lemma wide_ok f v x : wide_conversion lexical_cast (type f) v = Ok (Some x) -> kind x = type f -> type f = INT64 \/ type f = UINT64 ->
  scalar_ok f x.
Proof.
  intros Ha Hk Ht. split; [done|]. unfold wide_conversion in Ha.
  destruct Ht as [Ht|Ht]; rewrite Ht in Ha;
    [rewrite bool_decide_eq_true_2 in Ha by done|rewrite bool_decide_eq_false_2 in Ha by done].
  - destruct (IsInt64 v) eqn:E.
    + unfold GetInt64 in Ha. res_inv. destruct v; try done. by apply signed_fits.
    + destruct (IsString v); [|done]. res_inv. destruct (lexical_cast INT64 _) as [n|] eqn:El; [|done]. injection Ha as <-.
      by eapply cast_fits.
  - destruct (IsUint64 v) eqn:E.
    + unfold GetUint64 in Ha. res_inv. destruct v; try done. by apply unsigned_fits.
    + destruct (IsString v); [|done]. res_inv. destruct (lexical_cast UINT64 _) as [n|] eqn:El; [|done]. injection Ha as <-.
      by eapply cast_fits.
Qed.

Lemma find_enum f (p : bytes * Z -> bool) n : Forall (fun e => fits_s 32 (snd e)) (enum_type f) ->
  snd <$> List.find p (enum_type f) = Some n -> n ∈ snd <$> enum_type f /\ fits_s 32 n.
Proof.
  intros Hf He. destruct (List.find p (enum_type f)) as [e|] eqn:E; [|done]. injection He as <-.
  apply List.find_some in E as [Hin _]. apply list_elem_of_In in Hin. split; [by apply list_elem_of_fmap_2|].
  by apply (proj1 (Forall_forall _ _) Hf).
Qed.

Lemma string_ok f v x : value_ok v -> string_conversion f v = Ok (Some x) -> kind x = type f -> scalar_ok f x.
Proof.
  intros Hv Ha Hk. split; [done|]. unfold string_conversion in Ha. destruct (IsString v); [|done]. res_inv.
  pose proof (GetString_ok v _ Hv E) as Hb. destruct (is_bytes f); [|by injection E0 as <-].
  eapply unescape_bytes; [reflexivity|exact Hb|constructor|constructor|exact E0].
Qed.

Variable rec : Value -> M -> res (bool * M).
Hypothesis rec_typed : forall v s b s', value_ok v -> typed s -> rec v s = Ok (b, s') -> keeps s s'.

Lemma parse_messages_typed f items : is_repeated f = true -> type f = MESSAGE -> (forall v, v ∈ items -> value_ok v) ->
  forall m b m', typed m -> parse_messages f rec items m = Ok (b, m') -> keeps m m'.
Proof.
  intros Hr Ht. induction items as [|v items IH]; intros Hv m b m' Hm Ha; cbn [parse_messages] in Ha; [by injection Ha as <- <-|].
  destruct (IsObject v); cbn [negb] in Ha; [|by injection Ha as <- <-]. res_inv. destruct a as [ok s].
  apply rec_typed in E as [Hs Hd]; [|apply Hv; left|apply typed_new]. rewrite descriptor_new in Hd.
  assert (Hs' : typed (set_content m f (content m f ++ [inr s]))) by (by apply typed_append).
  destruct ok; [|injection Ha as <- <-; by apply keeps_set].
  eapply keeps_trans; [by apply keeps_set|]. eapply IH; [intros w Hw; apply Hv; by right|exact Hs'|exact Ha].
Qed.

Lemma mutable_typed m f : typed m -> type f = MESSAGE ->
  typed (mutable_message f m) /\ GetDescriptor (mutable_message f m) = message_type f.
Proof.
  intros Hm Ht. unfold mutable_message. destruct (content m f) as [|[y|s] l] eqn:E.
  - split; [apply typed_new|apply descriptor_new].
  - split; [apply typed_new|apply descriptor_new].
  - assert (inr s ∈ content m f) as Hin by (rewrite E; left). destruct (typed_item m f (inr s) Hm Hin) as (_ & ? & ?). done.
Qed.

Lemma conversion_ok f v x : Forall (fun e => fits_s 32 (snd e)) (enum_type f) -> value_ok v ->
  conversion_of f v = Ok (Some x) -> kind x = type f -> type f <> MESSAGE -> scalar_ok f x.
Proof.
  intros He Hv Hc Hk Hm. unfold conversion_of in Hc.
  assert (Hplain : (if fst (plain_accessors (type f)) v then x ← snd (plain_accessors (type f)) v; Ok (Some x) else Ok None) =
    Ok (Some x) -> scalar_ok f x).
  { destruct (fst _ _); [|done]. intros Ha. apply bind_ok_inv in Ha as (y & Hy & [= ->]). by apply (plain_ok f v). }
  assert (Hwide : wide_conversion lexical_cast (type f) v = Ok (Some x) -> type f = INT64 \/ type f = UINT64 -> scalar_ok f x)
    by (intros; by apply (wide_ok f v)).
  revert Hc Hplain Hwide Hk Hm. destruct (type f) eqn:Ht; intros; try (by apply Hplain); try (apply Hwide; by auto).
  - destruct (IsInt v); [|done]. apply bind_ok_inv in Hc as (n & _ & Hn). split; [by rewrite Ht|].
    destruct (value_by_number f n) as [k|] eqn:Ek; [|done]. injection Hn as <-. by apply (find_enum f _ k He) in Ek.
  - apply (string_ok f v x Hv Hc). by rewrite Ht.
Qed.

Lemma enum_name_ok f v x : Forall (fun e => fits_s 32 (snd e)) (enum_type f) -> type f = ENUM ->
  (if IsString v then s ← GetString v; Ok (Enum <$> value_by_name f s) else Ok None) = Ok (Some x) -> scalar_ok f x.
Proof.
  intros He Ht. destruct (IsString v); [|done]. intros Ha. apply bind_ok_inv in Ha as (s & _ & Hn).
  destruct (value_by_name f s) as [k|] eqn:Ek; [|done]. injection Hn as <-. split; [done|]. by apply (find_enum f _ k He) in Ek.
Qed.

Lemma parse_plain_typed f v m b m' : is_repeated f = false -> typed m -> parse_plain f v m = Ok (b, m') -> keeps m m'.
Proof.
  intros Hr Hm Ha. unfold parse_plain in Ha. destruct (plain_accessors (type f)) as [Is Get_] eqn:Ep. rewrite Hr in Ha.
  apply bind_ok_inv in Ha as (x & Hx & Ha). apply bind_ok_inv in Ha as (m1 & Hs & [= <- <-]).
  unfold Set_ in Hs. apply bind_ok_inv in Hs as (u & Hk & [= <-]). apply check_ok_inv in Hk. apply bool_decide_eq_true_1 in Hk.
  apply keeps_set; [done|]. apply typed_one; [done|]. apply (plain_ok f v); [by rewrite Ep|done].
Qed.

Lemma parse_message_typed f v m b m' : type f = MESSAGE -> value_ok v -> typed m ->
  parse_message f rec v m = Ok (b, m') -> keeps m m'.
Proof.
  intros Ht Hv Hm Ha. unfold parse_message in Ha. destruct (is_repeated f) eqn:Hr.
  - apply bind_ok_inv in Ha as (vs & Hvs & Ha). destruct v; try discriminate Hvs. injection Hvs as ->.
    eapply parse_messages_typed; [done|done| |done|exact Ha]. intros w Hw. by apply (value_ok_elements vs).
  - destruct (IsObject v); cbn [negb] in Ha; [|by injection Ha as <- <-]. apply bind_ok_inv in Ha as ([ok s] & Hs & [= <- <-]).
    destruct (mutable_typed m f Hm Ht) as [Hmt Hmd]. apply rec_typed in Hs as [Hs Hd]; [|done..].
    apply keeps_set; [done|]. apply typed_one; [done|]. split; [done|]. split; [congruence|done].
Qed.

Lemma parse_field_typed f v m b m' : Forall (fun e => fits_s 32 (snd e)) (enum_type f) -> value_ok v -> typed m ->
  parse_field lexical_cast f rec v m = Ok (b, m') -> keeps m m'.
Proof.
  intros He Hv Hm Ha. destruct (decide (type f = MESSAGE)) as [Ht|Ht].
  { unfold parse_field in Ha. rewrite Ht in Ha. destruct (_ && _); [by injection Ha as <- <-|]. by eapply parse_message_typed. }
  destruct (is_repeated f) eqn:Hr.
  - destruct (IsArray v) eqn:Harr; [|unfold parse_field in Ha; rewrite Hr, Harr in Ha; by injection Ha as <- <-].
    destruct v as [| | | | | |vs|]; try discriminate Harr. rewrite parse_repeated in Ha by done.
    eapply add_all_typed; [done| |done|exact Ha]. intros w x Hw Hc Hk. eapply conversion_ok; [done| |exact Hc|done|done].
    by apply (value_ok_elements vs).
  - unfold parse_field in Ha. rewrite Hr in Ha. cbn [andb] in Ha. unfold parse_wide, parse_enum, parse_string in Ha.
    rewrite Hr in Ha. assert (Hone : forall conv, set_one f conv v m = Ok (b, m') ->
      (forall x, conv v = Ok (Some x) -> kind x = type f -> scalar_ok f x) -> keeps m m')
      by (intros; eapply set_one_typed; eassumption).
    assert (Hplain : parse_plain f v m = Ok (b, m') -> keeps m m') by (intros; eapply parse_plain_typed; eassumption).
    revert Ha Hone Ht. destruct (type f) eqn:Et; intros; try exact (Hplain Ha); try congruence;
      (eapply Hone; [exact Ha|]); intros x Hc Hk; rewrite <- Et in Hk.
    + rewrite <- Et in Hc. by eapply wide_ok; [exact Hc| |auto].
    + rewrite <- Et in Hc. by eapply wide_ok; [exact Hc| |auto].
    + eapply enum_name_ok; [exact He|exact Et|exact Hc].
    + eapply string_ok; [exact Hv|exact Hc|exact Hk].
Qed.

Lemma parse_fields_typed root : value_ok root -> forall fields m b m', typed m ->
  (forall f, f ∈ fields -> Forall (fun e => fits_s 32 (snd e)) (enum_type f)) ->
  parse_fields lexical_cast rec root fields m = Ok (b, m') -> keeps m m'.
Proof.
  intros Hroot. induction fields as [|f fields IH]; intros m b m' Hm He Ha; cbn [parse_fields] in Ha; [by injection Ha as <- <-|].
  apply bind_ok_inv in Ha as (v & Hv & Ha). destruct v as [v|].
  - apply bind_ok_inv in Ha as ([ok m1] & Hf & Ha).
    assert (value_ok v) as Hvok.
    { destruct root; try discriminate Hv. injection Hv as Hv. by eapply value_ok_member. }
    apply parse_field_typed in Hf as Hk; [|apply He; left|done|done]. destruct ok; [|by injection Ha as <- <-].
    eapply keeps_trans; [exact Hk|]. eapply IH; [apply Hk|intros g Hg; apply He; by right|exact Ha].
  - destruct (is_required f); [by injection Ha as <- <-|]. eapply IH; [done|intros g Hg; apply He; by right|exact Ha].
Qed.
End ParseTyped.

Lemma parse_keeps : (forall s n, (lexical_cast INT64 s = Some n -> fits_s 64 n) /\ (lexical_cast UINT64 s = Some n -> fits_u 64 n)) ->
  forall fuel root m b m', value_ok root -> typed m -> ParseFromJsonValue lexical_cast fuel root m = Ok (b, m') -> keeps m m'.
Proof.
  intros Hcast. induction fuel as [|fuel IH]; intros root m b m' Hr Hm Ha; [done|]. cbn [ParseFromJsonValue] in Ha.
  eapply parse_fields_typed; [exact Hcast| |exact Hr|exact Hm| |exact Ha]; [exact IH|]. intros f Hf. by apply (enum_numbers (M := M) (GetDescriptor m)).
Qed.

(** C9: Whatever a document holds, parsing it into a well-typed message leaves a
    well-typed message of the same type, also when it is rejected half way: no
    value of another type or outside the range of its field is stored. *)
Theorem ParseFromJson_typed json m b m' :
  (forall s n, (lexical_cast INT64 s = Some n -> fits_s 64 n) /\ (lexical_cast UINT64 s = Some n -> fits_u 64 n)) ->
  (forall text root, parse text = Some root -> value_ok root) -> typed m ->
  ParseFromJson lexical_cast parse json m = Ok (b, m') -> typed m' /\ GetDescriptor m' = GetDescriptor m.
Proof.
  intros Hcast Hp Hm Ha. unfold ParseFromJson in Ha. destruct (parse _) as [root|] eqn:E; [|by injection Ha as <- <-].
  by eapply parse_keeps; [exact Hcast|by eapply Hp|exact Hm|exact Ha].
Qed.

(** ** Documents that abort *)

(** A member of a singular number or bool field is read without a test, so one of
    another type fails an assertion instead of being rejected; an element of an
    array is rejected. *)
Theorem unchecked_number_aborts f rec v m : type f = INT32 \/ type f = UINT32 \/ type f = BOOL -> fst (plain_accessors (type f)) v = false ->
  if is_repeated f
  then parse_field lexical_cast f rec (VArray [v]) m = Ok (false, m)
  else parse_field lexical_cast f rec v m = Err CheckFailed.
Proof.
  intros Ht Hv. destruct (is_repeated f) eqn:Hr.
  - rewrite parse_repeated by (try done; destruct Ht as [-> | [-> | ->]]; done). unfold conversion_of.
    destruct Ht as [Ht|[Ht|Ht]]; rewrite Ht in *; cbn [add_all]; by rewrite Hv.
  - unfold parse_field, parse_plain. rewrite Hr. destruct Ht as [Ht|[Ht|Ht]]; rewrite Ht in *; cbn [plain_accessors fst andb] in *.
    + unfold GetInt. by rewrite Hv.
    + unfold GetUint. by rewrite Hv.
    + by destruct v.
Qed.

(** So does a document that is no object, for every message type with a field. *)
Theorem no_object_aborts fuel root m : IsObject root = false -> field_list (GetDescriptor m) <> [] ->
  ParseFromJsonValue lexical_cast (S fuel) root m = Err CheckFailed.
Proof. intros Hr Hf. cbn [ParseFromJsonValue]. destruct (field_list _) as [|f fs]; [done|]. by destruct root. Qed.

(** ** Termination *)

Lemma escape_returns s : forall run output, returns (escape_loop s run output ALL).
Proof.
  induction s as [|v s IH]; intros run output; [done|]. cbn [escape_loop]. destruct (_ <=? _); [apply IH|]. destruct (_ && _); [apply IH|].
  eapply ends_bind; [apply vget_ends|]. intros h1 _. eapply ends_bind; [apply vget_ends|]. intros h2 _. apply IH.
Qed.

Lemma unescape_returns n : forall s run output, (length s <= n)%nat -> returns (unescape_loop s run output ALL).
Proof.
  induction n as [|n IH]; intros s run output Hn; (destruct s as [|c s]; [done|]); cbn [length] in Hn; [lia|]. cbn [unescape_loop].
  destruct (c =? 37).
  - destruct s as [|a [|b s]]; [done..|]. destruct (_ || _); [done|]. apply IH. cbn [length] in Hn. lia.
  - destruct (_ && _); apply IH; lia.
Qed.

Lemma map_res_returns {A B} (g : A -> res B) l : (forall x, returns (g x)) -> returns (map_res g l).
Proof.
  intros Hg. unfold map_res. induction l as [|x l IH]; [done|]. cbn [mapM].
  eapply ends_bind; [apply Hg|]. intros y _. eapply ends_bind; [exact IH|]. done.
Qed.

Lemma scalar_of_returns f (x : Scalar + M) : returns (scalar_of f x).
Proof. destruct x; [|done]. eapply ends_bind; [apply ends_check|]. done. Qed.

Lemma Get_returns m f i : returns (x ← vget (content m f) i; scalar_of f x).
Proof. eapply ends_bind; [apply vget_ends|]. intros x _. apply scalar_of_returns. Qed.

Lemma serialize_number_returns m f : returns (serialize_number m f).
Proof.
  unfold serialize_number. destruct (is_repeated f).
  - eapply ends_bind; [apply map_res_returns|done]. intros i. eapply ends_bind; [apply Get_returns|done].
  - eapply ends_bind; [apply Get_returns|done].
Qed.

Lemma serialize_string_returns m f : returns (serialize_string m f).
Proof.
  unfold serialize_string.
  assert (Hd : forall x, returns (s ← string_of x; if is_bytes f then UriEscape s [] ALL else Ok s)).
  { intros x. eapply (ends_bind (fun _ => True)); [by destruct x|]. intros s _. destruct (is_bytes f); [apply escape_returns|done]. }
  destruct (is_repeated f).
  - eapply ends_bind; [apply map_res_returns|done]. intros i. eapply ends_bind; [apply Get_returns|]. intros x _.
    eapply ends_bind; [apply Hd|done].
  - eapply ends_bind; [apply Get_returns|]. intros x _. eapply ends_bind; [apply Hd|done].
Qed.

(** The message got by an accessor is a smaller one. *)
Lemma message_smaller m f i : ends (fun s => (SizeOf s < SizeOf m)%nat) (x ← vget (content m f) i; message_of x).
Proof.
  destruct (vget (content m f) i) as [x|] eqn:E; [|pose proof (vget_ends (content m f) i) as Hv; by rewrite E in Hv].
  apply vget_ok in E as [_ E]. apply list_elem_of_lookup_2 in E. destruct x as [y|s]; [done|]. cbn. by eapply content_smaller.
Qed.

Lemma serialize_returns fuel : forall m, (SizeOf m < fuel)%nat -> returns (SerializeToJsonValue fuel m).
Proof.
  induction fuel as [|fuel IH]; intros m Hlt; [lia|]. cbn [SerializeToJsonValue]. generalize (@nil (bytes * Value)) as root.
  induction (ListFields m) as [|f fields IHf]; intros root; [done|]. cbn [serialize_fields].
  destruct (_ && _); [destruct (is_required f); [done|apply IHf]|].
  eapply (ends_bind (fun _ => True)); [|intros [[] v] _; [apply IHf|done]].
  destruct (type f); try (eapply ends_bind; [apply serialize_number_returns|done]).
  - eapply ends_bind; [apply serialize_string_returns|done].
  - unfold serialize_message. destruct (is_repeated f).
    + generalize (@nil Value) as vs. induction (indices _) as [|i ixs IHi]; intros vs; [done|]. cbn [serialize_messages].
      eapply ends_bind; [apply message_smaller|]. intros s Hs. cbv beta in Hs. eapply ends_bind; [apply IH; lia|].
      intros [[] l] _; [apply IHi|done].
    + eapply ends_bind; [apply message_smaller|]. intros s Hs. cbv beta in Hs. eapply ends_bind; [apply IH; lia|]. by intros [ok l] _.
Qed.

Lemma GetString_returns v : returns (GetString v).
Proof. by destruct v. Qed.

Lemma checked_returns (b : bool) (n : Z) : returns (_ ← check b; Ok n).
Proof. by destruct b. Qed.

(** The steps of a conversion. *)
Local Ltac returns_step :=
  lazymatch goal with
  | |- ends _ (if ?b then _ else _) => destruct b
  | |- ends _ (match ?x with _ => _ end) => destruct x
  | |- ends _ (mbind _ (GetString _)) => eapply ends_bind; [apply GetString_returns|intros ? _]
  | |- ends _ (UriUnescape _ _ _) => by eapply unescape_returns
  | |- ends _ (mbind _ (check _)) => eapply ends_bind; [apply ends_check|intros ? _]
  | |- ends _ (mbind _ _) => eapply (ends_bind (fun _ => True)); [|intros ? _]
  | |- _ => done
  end.

Lemma plain_returns t v : returns (snd (plain_accessors t) v).
Proof. unfold plain_accessors, GetInt, GetUint, GetDouble, GetBool. destruct t; cbn [snd]; repeat returns_step. Qed.

Lemma wide_returns t v : returns (wide_conversion lexical_cast t v).
Proof. unfold wide_conversion, GetInt64, GetUint64. cbv zeta. repeat returns_step. Qed.

Lemma string_returns f v : returns (string_conversion f v).
Proof. unfold string_conversion. repeat returns_step. Qed.

Lemma enum_returns f v : returns (if IsInt v then n ← GetInt v; Ok (Enum <$> value_by_number f n) else Ok None).
Proof. unfold GetInt. repeat returns_step. Qed.

Lemma conversion_returns f v : returns (conversion_of f v).
Proof.
  pose proof (plain_returns (type f) v) as Hp. unfold conversion_of. revert Hp.
  destruct (type f); intros Hp; first [apply wide_returns | apply string_returns | apply enum_returns | idtac];
    (destruct (fst _ _); [|done]); apply (ends_bind (fun _ => True)); done.
Qed.

Lemma add_all_returns f conv items : (forall v, returns (conv v)) -> forall m, returns (add_all f conv items m).
Proof.
  intros Hc. induction items as [|v items IH]; intros m; [done|]. cbn [add_all]. eapply ends_bind; [apply Hc|]. intros [x|] _; [|done].
  eapply (ends_bind (fun _ => True)); [unfold Add; by destruct (bool_decide _)|]. intros m' _. apply IH.
Qed.

Lemma set_one_returns f conv v m : (forall v, returns (conv v)) -> returns (set_one f conv v m).
Proof.
  intros Hc. unfold set_one. eapply ends_bind; [apply Hc|]. intros [x|] _; [|done]. unfold Set_. by destruct (bool_decide _).
Qed.

Lemma enum_name_returns f v : returns (if IsString v then s ← GetString v; Ok (Enum <$> value_by_name f s) else Ok None).
Proof. repeat returns_step. Qed.

Section ParseReturns.
Variables (rec : Value -> M -> res (bool * M)) (bound : nat).
Hypothesis rec_returns : forall v m, (depth v < bound)%nat -> returns (rec v m).

Lemma parse_message_returns f v m : (depth v < bound)%nat -> returns (parse_message f rec v m).
Proof.
  intros Hv. unfold parse_message. destruct (is_repeated f).
  - destruct v as [| | | | | |vs|]; try done. cbn [elements]. rstep.
    assert (Hvs : forall v, v ∈ vs -> (depth v < bound)%nat) by (intros w Hw; pose proof (depth_element w vs Hw); lia). clear Hv.
    revert m. induction vs as [|w vs IH]; intros m; [done|]. cbn [parse_messages]. destruct (IsObject w); cbn [negb]; [|done].
    eapply ends_bind; [apply rec_returns, Hvs; left|]. intros [[] s] _; [|done]. apply IH. intros u Hu. apply Hvs. by right.
  - destruct (IsObject v); cbn [negb]; [|done]. eapply ends_bind; [by apply rec_returns|]. by intros [ok s] _.
Qed.

Lemma parse_field_returns f v m : (depth v < bound)%nat -> returns (parse_field lexical_cast f rec v m).
Proof.
  intros Hv. destruct (decide (type f = MESSAGE)) as [Ht|Ht].
  { unfold parse_field. rewrite Ht. destruct (_ && _); [done|]. by apply parse_message_returns. }
  destruct (is_repeated f) eqn:Hr.
  - destruct (IsArray v) eqn:Ha; [|unfold parse_field; by rewrite Hr, Ha]. destruct v as [| | | | | |vs|]; try discriminate Ha.
    rewrite parse_repeated by done. apply add_all_returns, conversion_returns.
  - unfold parse_field, parse_plain, parse_wide, parse_enum, parse_string. rewrite Hr. cbn [andb].
    destruct (type f); try (apply set_one_returns; intros w;
      first [apply wide_returns | apply enum_name_returns | apply string_returns]); try congruence;
      cbn [plain_accessors]; unfold GetInt, GetUint, GetDouble, GetBool, Set_; repeat returns_step.
Qed.
End ParseReturns.

Lemma parse_returns fuel : forall root m, (depth root < fuel)%nat -> returns (ParseFromJsonValue lexical_cast fuel root m).
Proof.
  induction fuel as [|fuel IH]; intros root m Hlt; [lia|]. cbn [ParseFromJsonValue].
  destruct root as [| | | | | | |l]; try (by destruct (field_list _)). generalize (field_list (GetDescriptor m)) as fields.
  intros fields. revert m. induction fields as [|f fields IHf]; intros m; [done|]. cbn [parse_fields FindMember]. rstep.
  destruct (member_of l (name f)) as [v|] eqn:E; [|destruct (is_required f); [done|apply IHf]].
  assert (Hv : (depth v < fuel)%nat).
  { unfold member_of in E. destruct (List.find _ l) as [[n w]|] eqn:Ef; [|done]. injection E as ->.
    apply List.find_some in Ef as [Hin _]. apply list_elem_of_In in Hin. pose proof (depth_member n v l Hin). lia. }
  eapply ends_bind; [by apply (parse_field_returns _ fuel)|]. intros [[] m'] _; [apply IHf|done].
Qed.

(** Both functions end for every message and every text, whether the values are
    well typed or not. *)
Theorem json_functions_end m json output :
  SerializeToJson write m output <> Err NoFuel /\ ParseFromJson lexical_cast parse json m <> Err NoFuel.
Proof.
  split; intros E.
  - enough (returns (SerializeToJson write m output)) as HE by (by rewrite E in HE).
    unfold SerializeToJson. eapply ends_bind; [apply serialize_returns; lia|]. intros [[] l] _; [|done]. by destruct (owned _).
  - enough (returns (ParseFromJson lexical_cast parse json m)) as HE by (by rewrite E in HE).
    unfold ParseFromJson. destruct (parse _) as [root|]; [|done]. apply parse_returns. lia.
Qed.
End Typed.

(** ** An implementation of the messages *)

Module Tree.

(** A message of a type with the values of its fields. *)
Inductive Msg := mkMsg (d : nat) (fields : list (FieldDescriptor nat * list (Scalar + Msg))).

Fixpoint values (f : FieldDescriptor nat) (l : list (FieldDescriptor nat * list (Scalar + Msg))) : list (Scalar + Msg) :=
  match l with
  | [] => []
  | (g, vs) :: l => if decide (g = f) then vs else values f l
  end.

Fixpoint msg_size (m : Msg) : nat :=
  match m with
  | mkMsg _ l =>
      S (list_max ((fun e => list_max ((fun x => match x with inl _ => O | inr s => msg_size s end) <$> snd e)) <$> l))
  end.

Definition msg_type (m : Msg) : nat := let '(mkMsg d _) := m in d.
Definition msg_values (m : Msg) (f : FieldDescriptor nat) : list (Scalar + Msg) := let '(mkMsg _ l) := m in values f l.
Definition msg_set (m : Msg) (f : FieldDescriptor nat) (vs : list (Scalar + Msg)) : Msg :=
  let '(mkMsg d l) := m in mkMsg d ((f, vs) :: filter (fun e => fst e <> f) l).

Definition by_number (f g : FieldDescriptor nat) : Prop := number f <= number g.
#[export] Instance by_number_dec f g : Decision (by_number f g).
Proof. unfold by_number. apply _. Defined.

(** The fields with a value, ordered by number. *)
Definition msg_fields (m : Msg) : list (FieldDescriptor nat) :=
  let '(mkMsg _ l) := m in
  merge_sort by_number (filter (fun f => negb (match values f l with [] => true | _ => false end)) (remove_dups (fst <$> l))).

Section Schema.
Variable schema : nat -> list (FieldDescriptor nat).

#[export] Instance tree : Reflection nat Msg := {
  field_list := schema; GetDescriptor := msg_type; ListFields := msg_fields; content := msg_values; set_content := msg_set;
  New d := mkMsg d []; SizeOf := msg_size }.

Hypothesis names_once : forall d, NoDup (name <$> schema d).
Hypothesis numbers_fit : forall d f, f ∈ schema d -> Forall (fun e => fits_s 32 (snd e)) (enum_type f).

Lemma values_in f l x : x ∈ values f l -> exists vs, (f, vs) ∈ l /\ x ∈ vs.
Proof.
  induction l as [|[g vs] l IH]; cbn [values]; [by intros ?%elem_of_nil|]. destruct (decide (g = f)) as [->|]; intros Hx.
  - exists vs. split; [left|done].
  - destruct (IH Hx) as (ws & ? & ?). exists ws. split; [by right|done].
Qed.

Lemma values_filter f g l : g <> f -> values g (filter (fun e => fst e <> f) l) = values g l.
Proof.
  intros Hg. induction l as [|[k vs] l IH]; [done|]. cbn [values]. destruct (decide (k = g)) as [->|Hk].
  - rewrite filter_cons_True by done. cbn [values]. by rewrite decide_True.
  - destruct (decide (k = f)) as [->|Hf].
    + rewrite filter_cons_False by (cbn; naive_solver). exact IH.
    + rewrite filter_cons_True by done. cbn [values]. by rewrite decide_False.
Qed.

Lemma values_key f l : values f l <> [] -> f ∈ fst <$> l.
Proof.
  intros Hv. destruct (values f l) as [|x vs] eqn:E; [done|]. destruct (values_in f l x) as (ws & Hin & _); [rewrite E; left|].
  by apply (list_elem_of_fmap_2 fst l (f, ws)).
Qed.

Lemma values_smaller f l s d : inr s ∈ values f l -> (msg_size s < msg_size (mkMsg d l))%nat.
Proof.
  intros (vs & Hin & Hs)%values_in. cbn [msg_size]. apply Nat.lt_succ_r.
  pose proof (proj1 (list_max_le ((fun e => list_max ((fun x => match x with inl _ => O | inr s => msg_size s end) <$> snd e)) <$> l) _)
    (Nat.le_refl _)) as Hm.
  rewrite List.Forall_forall in Hm. etrans; [|apply Hm, list_elem_of_In;
    exact (list_elem_of_fmap_2 (fun e => list_max ((fun x => match x with inl _ => O | inr s => msg_size s end) <$> snd e)) l (f, vs) Hin)].
  cbn [snd]. pose proof (proj1 (list_max_le ((fun x : Scalar + Msg => match x with inl _ => O | inr s => msg_size s end) <$> vs) _)
    (Nat.le_refl _)) as Hm2.
  rewrite List.Forall_forall in Hm2. apply Hm2, list_elem_of_In.
  exact (list_elem_of_fmap_2 (fun x : Scalar + Msg => match x with inl _ => O | inr s => msg_size s end) vs (inr s) Hs).
Qed.

Lemma msg_fields_spec m f : f ∈ msg_fields m <-> msg_values m f <> [].
Proof.
  destruct m as [d l]. unfold msg_fields, msg_values. rewrite merge_sort_Permutation, list_elem_of_filter, elem_of_remove_dups.
  split.
  - intros [Hn _]. by destruct (values f l).
  - intros Hn. split; [by destruct (values f l)|by apply values_key].
Qed.

#[export] Instance tree_laws : ReflectionLaws nat Msg.
Proof.
  constructor.
  - intros [d l] f vs. cbn. by rewrite decide_True.
  - intros [d l] f g vs Hg. cbn. rewrite decide_False by done. by apply values_filter.
  - by intros [d l] f vs.
  - done.
  - done.
  - intros m f Hf. by apply msg_fields_spec.
  - intros m f _ Hf. by apply msg_fields_spec.
  - intros [d l]. cbn. rewrite merge_sort_Permutation. apply NoDup_filter, NoDup_remove_dups.
  - exact names_once.
  - exact numbers_fit.
  - intros [d l] f s. apply values_smaller.
Qed.

(** A message is well typed, and portable, if the values written down are. *)
Lemma typed_tree d l : Forall (fun e => Forall (item_ok (fst e)) (snd e) /\ (is_repeated (fst e) = false -> (length (snd e) <= 1)%nat)) l ->
  typed (mkMsg d l).
Proof.
  intros Hl. rewrite Forall_forall in Hl. constructor.
  - intros f x (vs & Hin & Hx)%values_in. destruct (Hl _ Hin) as [Hv _]. exact (proj1 (Forall_forall _ _) Hv (inl x) Hx).
  - intros f s (vs & Hin & Hx)%values_in. destruct (Hl _ Hin) as [Hv _]. exact (proj1 (Forall_forall _ _) Hv (inr s) Hx).
  - intros f Hr. cbn. clear - Hl Hr. induction l as [|[g vs] l IH]; cbn [values length]; [lia|].
    destruct (decide (g = f)) as [->|]; [by apply (Hl (f, vs)); [left|]|]. apply IH. intros e He. apply Hl. by right.
Qed.

Definition item_portable (f : FieldDescriptor nat) (x : Scalar + Msg) : Prop :=
  match x with inl x => scalar_portable f x | inr s => portable s end.

Lemma portable_tree d l : Forall (fun e => fst e ∈ schema d) l -> Forall (fun e => Forall (item_portable (fst e)) (snd e)) l ->
  Forall (fun f => is_required f = true -> values f l <> []) (schema d) -> portable (mkMsg d l).
Proof.
  intros Hd Hl Hr. rewrite Forall_forall in Hd. rewrite Forall_forall in Hl. rewrite Forall_forall in Hr. constructor.
  - intros f Hf%msg_fields_spec. cbn in Hf. apply values_key, list_elem_of_fmap in Hf as ([g vs] & -> & Hin). by apply (Hd _ Hin).
  - exact Hr.
  - intros f x (vs & Hin & Hx)%values_in. pose proof (Hl _ Hin) as Hv. exact (proj1 (Forall_forall _ _) Hv (inl x) Hx).
  - intros f s (vs & Hin & Hx)%values_in. pose proof (Hl _ Hin) as Hv. exact (proj1 (Forall_forall _ _) Hv (inr s) Hx).
Qed.
End Schema.
End Tree.

(** ** A message type with a field of each kind *)

Module Demo.
Import Tree.

Definition demo_enum : list (bytes * Z) := [(str "LOW", 0); (str "HIGH", -5)].

Definition id_field := mkField (str "id") 1 false true INT32 false [] 0%nat.
Definition name_field := mkField (str "name") 2 false false STRING false [] 0%nat.
Definition tags_field := mkField (str "tags") 3 true false STRING false [] 0%nat.
Definition blobs_field := mkField (str "blobs") 4 true false STRING true [] 0%nat.
Definition child_field := mkField (str "child") 5 false false MESSAGE false [] 0%nat.
Definition levels_field := mkField (str "levels") 6 true false ENUM false demo_enum 0%nat.
Definition ratio_field := mkField (str "ratio") 7 false false FLOAT false [] 0%nat.
Definition total_field := mkField (str "total") 8 false false UINT64 false [] 0%nat.
Definition level_field := mkField (str "level") 9 false false ENUM false demo_enum 0%nat.

Definition demo_schema (d : nat) : list (FieldDescriptor nat) :=
  match d with
  | O => [id_field; name_field; tags_field; blobs_field; child_field; levels_field; ratio_field; total_field; level_field]
  | _ => []
  end.

Lemma demo_names d : NoDup (name <$> demo_schema d).
Proof. destruct d; [|constructor]. apply (bool_decide_unpack _). vm_compute. exact I. Defined.

Lemma demo_numbers d f : f ∈ demo_schema d -> Forall (fun e => fits_s 32 (snd e)) (enum_type f).
Proof.
  destruct d; [|by intros ?%elem_of_nil]. cbn [demo_schema]. rewrite !elem_of_cons.
  intros Hf. repeat destruct Hf as [-> | Hf]; try (constructor; fail); [..|by apply elem_of_nil in Hf];
    repeat constructor; vm_compute; congruence.
Defined.

#[export] Instance demo_tree : Reflection nat Msg := tree demo_schema.
#[export] Instance demo_laws : ReflectionLaws nat Msg := tree_laws demo_schema demo_names demo_numbers.

Definition one : double := S754_finite false 8388608 (-23).

Definition demo_child : Msg := mkMsg 0 [(id_field, [inl (Int32 (-7))])].
Definition demo_message : Msg :=
  mkMsg 0 [(total_field, [inl (UInt64 (2 ^ 64 - 1))]); (id_field, [inl (Int32 42)]);
           (tags_field, [inl (String_ (str "a")); inl (String_ (str "b c"))]); (blobs_field, [inl (String_ [0; 255; 37])]);
           (child_field, [inr demo_child]); (levels_field, [inl (Enum (-5))]); (ratio_field, [inl (Float_ one)])].

Lemma demo_child_typed : typed demo_child.
Proof.
  apply (typed_tree demo_schema). repeat constructor; vm_compute; congruence.
Defined.

Lemma demo_typed : typed demo_message.
Proof.
  apply (typed_tree demo_schema).
  repeat (constructor; [split; [|intros Hr; vm_compute in Hr |- *; first [discriminate Hr | lia]]|]); [..|constructor];
    cbn [fst snd]; repeat (apply Forall_cons; split); try apply Forall_nil_2; cbn [item_ok].
  all: try (split; [reflexivity|]); try (vm_compute; split; congruence); try exact I.
  - repeat constructor; vm_compute; congruence.
  - repeat constructor; vm_compute; congruence.
  - repeat constructor; vm_compute; congruence.
  - split; [reflexivity|exact demo_child_typed].
  - split; [cbn; right; left|vm_compute; split; congruence].
Defined.

Lemma demo_child_portable : portable demo_child.
Proof.
  apply (portable_tree demo_schema).
  - apply (bool_decide_unpack _). vm_compute. exact I.
  - repeat constructor.
  - cbn [demo_schema]. repeat (constructor; [first [discriminate | intros _; vm_compute; discriminate]|]). constructor.
Defined.

Lemma demo_portable : portable demo_message.
Proof.
  apply (portable_tree demo_schema).
  - apply (bool_decide_unpack _). vm_compute. exact I.
  - repeat (apply Forall_cons; split); try apply Forall_nil_2; cbn [fst snd];
      repeat (apply Forall_cons; split); try apply Forall_nil_2; cbn [item_portable scalar_portable].
    all: try exact I.
    + split; [reflexivity|]. right. repeat constructor; discriminate.
    + split; [reflexivity|]. right. repeat constructor; discriminate.
    + split; [reflexivity|]. left. reflexivity.
    + exact demo_child_portable.
    + reflexivity.
    + vm_compute. reflexivity.
  - cbn [demo_schema]. repeat (constructor; [first [discriminate | intros _; vm_compute; discriminate]|]). constructor.
Defined.

Definition demo_cast (t : cpp_type) (s : bytes) : option Z := None.
Definition demo_write (v : Value) : bytes := str "{}".

(** The document of the message. *)
Definition demo_members : list (bytes * Value) :=
  [(str "id", VInt 42); (str "tags", VArray [VString (str "a"); VString (str "b c")]);
   (str "blobs", VArray [VString (str "%00%FF%25")]); (str "child", VObject [(str "id", VInt (-7))]);
   (str "levels", VArray [VInt (-5)]); (str "ratio", VDouble (of_Z 1)); (str "total", VInt (2 ^ 64 - 1))].

Example demo_document : SerializeToJsonValue (S (SizeOf demo_message)) demo_message = Ok (true, demo_members).
Proof. vm_compute. reflexivity. Qed.

Lemma json_roundtrip_witness : exists m', SerializeToJson demo_write demo_message [] = Ok (true, str "{}") /\
  ParseFromJson demo_cast (fun _ => Some (VObject demo_members)) (of_string []) (mkMsg 0 []) = Ok (true, m') /\ same demo_message m'.
Proof.
  destruct (json_roundtrip demo_cast demo_write (fun _ => Some (VObject demo_members)) demo_message [] demo_typed demo_portable)
    as (l & Hl & _ & Hs & Hp).
  assert (Ok (true, l) = Ok (true, demo_members)) as El by (rewrite <- Hl; vm_compute; reflexivity). injection El as ->.
  destruct (Hp (of_string []) eq_refl) as (m' & Hm' & Hsame). exists m'. split; [exact Hs|]. split; [exact Hm'|exact Hsame].
Defined.

(** With its name set the message cannot be written. *)
Lemma singular_string_dangles_witness :
  SerializeToJson demo_write (mkMsg 0 [(id_field, [inl (Int32 1)]); (name_field, [inl (String_ (str "x"))])]) [] = Err Dangling.
Proof.
  apply (singular_string_dangles demo_write (mkMsg 0 [(id_field, [inl (Int32 1)]); (name_field, [inl (String_ (str "x"))])]) name_field []).
  - apply (typed_tree demo_schema). repeat constructor; vm_compute; congruence.
  - vm_compute. right. left.
  - reflexivity.
  - reflexivity.
Defined.

(** A rejected document leaves what was read before the field at fault. *)
Lemma ParseFromJson_typed_witness : exists m',
  ParseFromJson demo_cast (fun _ => Some (VObject [(str "id", VInt 3); (str "tags", VArray [VString (str "x"); VNull])]))
    (of_string []) (mkMsg 0 []) = Ok (false, m') /\ msg_values m' tags_field = [inl (String_ (str "x"))] /\ typed m'.
Proof.
  eexists. split; [vm_compute; reflexivity|]. split; [vm_compute; reflexivity|].
  refine (proj1 (ParseFromJson_typed demo_cast
    (fun _ => Some (VObject [(str "id", VInt 3); (str "tags", VArray [VString (str "x"); VNull])]))
    (of_string []) (mkMsg 0 []) false _ _ _ _ _)).
  - split; discriminate.
  - intros text root [= <-]. cbn. split; [exact I|]. split; [|exact I]. split; [|done]. repeat constructor; vm_compute; congruence.
  - apply (typed_tree demo_schema). constructor.
  - vm_compute. reflexivity.
Defined.

Lemma unchecked_number_aborts_witness :
  parse_field demo_cast id_field (fun _ m => Ok (true, m)) (VString (str "1")) (mkMsg 0 []) = Err CheckFailed.
Proof. exact (unchecked_number_aborts demo_cast id_field _ (VString (str "1")) (mkMsg 0 []) (or_introl eq_refl) eq_refl). Defined.

Lemma singular_enum_rejected_witness :
  parse_field demo_cast level_field (fun _ m => Ok (true, m)) (VInt 0) (mkMsg 0 []) = Ok (false, mkMsg 0 []).
Proof. exact (singular_enum_rejected demo_cast level_field _ 0 (mkMsg 0 []) eq_refl eq_refl). Defined.

Lemma no_object_aborts_witness : ParseFromJsonValue demo_cast 1 (VArray []) (mkMsg 0 []) = Err CheckFailed.
Proof. apply (no_object_aborts demo_cast 0 (VArray []) (mkMsg 0 [])); [reflexivity|discriminate]. Defined.
End Demo.
