(* ===== verification/LogStream.v ===== *)
(** * logging/LogBuffer, LogStream and LogMessage

    claire/common/logging/LogBuffer.{h,cc}, LogStream.{h,cc} and
    LogMessage.{h,cc}: the fixed-size buffer a message is formatted into, the
    stream operators, and the construction and emission of one log line. Writes
    and reads outside their objects are faults. *)

From S2P Require Import Prelude Bytes Double StringPiece StringUtil Timestamp Threading.
Open Scope Z_scope.

(** ** LogBuffer *)

(* @src claire/common/logging/LogBuffer.h:17-17 kSmallBuffer *)
Definition kSmallBuffer : Z := 4096.
(* @src claire/common/logging/LogBuffer.h:18-18 kLargeBuffer *)
Definition kLargeBuffer : Z := 4096 * 1000.

(** [data_] is the array of SIZE bytes, [current_] the offset of the pointer. *)
(* @src claire/common/logging/LogBuffer.h:97-101 LogBuffer *)
Record LogBuffer := MkBuffer { data_ : bytes; current_ : Z }.

(** [garbage] is what the memory of the array held. *)
(* @src claire/common/logging/LogBuffer.h:24-28 LogBuffer::LogBuffer *)
Definition LogBuffer_new (garbage : bytes) : LogBuffer := MkBuffer garbage 0.

(** memcpy of a text to an offset of an object. *)
Definition write_at (obj : bytes) (off : Z) (text : bytes) : res bytes :=
  if (0 <=? off) && (off + Zlen text <=? Zlen obj)
  then Ok (take (Z.to_nat off) obj ++ text ++ drop (Z.to_nat (off + Zlen text)) obj)
  else Err OutOfBounds.

(* @src claire/common/logging/LogBuffer.h:55-55 LogBuffer::length *)
Definition length_of (b : LogBuffer) : Z := uint64 (current_ b).
(* @src claire/common/logging/LogBuffer.h:56-56 LogBuffer::avail *)
Definition avail (b : LogBuffer) : Z := uint64 (Zlen (data_ b) - current_ b).

(* @src claire/common/logging/LogBuffer.h:35-51 LogBuffer::Append *)
Definition buffer_Append (d : bytes) (l : Z) (b : LogBuffer) : res LogBuffer :=
  if l <? avail b then
    src ← range d l;
    data ← write_at (data_ b) (current_ b) src;
    Ok (MkBuffer data (current_ b + l))
  else if 0 <? avail b then
    src ← range d (avail b);
    data ← write_at (data_ b) (current_ b) src;
    Ok (MkBuffer data (current_ b + avail b))
  else Ok b.

(* @src claire/common/logging/LogBuffer.h:58-61 LogBuffer::Add *)
Definition buffer_Add (l : Z) (b : LogBuffer) : LogBuffer := MkBuffer (data_ b) (current_ b + l).
(* @src claire/common/logging/LogBuffer.h:63-66 LogBuffer::Reset *)
Definition Reset (b : LogBuffer) : LogBuffer := MkBuffer (data_ b) 0.
(* @src claire/common/logging/LogBuffer.h:68-71 LogBuffer::bzero *)
Definition bzero (b : LogBuffer) : LogBuffer := MkBuffer (replicate (length (data_ b)) 0) (current_ b).
(* @src claire/common/logging/LogBuffer.h:82-85 LogBuffer::ToString *)
Definition buffer_ToString (b : LogBuffer) : res bytes := range (data_ b) (length_of b).
(* @src claire/common/logging/LogBuffer.cc:9-14 LogBuffer::DebugString *)
Definition DebugString (b : LogBuffer) : res LogBuffer :=
  data ← write_at (data_ b) (current_ b) [0]; Ok (MkBuffer data (current_ b)).

(** ** LogStream *)

(* @src claire/common/logging/LogStream.h:16-20 LogFormat *)
Inductive LogFormat := kNormal | kHex.

(* @src claire/common/logging/LogStream.h:136-138 LogStream *)
Record LogStream := MkStream { buffer_ : LogBuffer; format_ : LogFormat; ctr_ : Z }.

(** ctr_ is not initialised. *)
(* @src claire/common/logging/LogStream.h:28-30 LogStream::LogStream *)
Definition LogStream_new (garbage : bytes) (ctr : Z) : LogStream :=
  MkStream (LogBuffer_new garbage) kNormal ctr.

(* @src claire/common/logging/LogStream.h:99-102 LogStream::set_ctr *)
Definition set_ctr (v : Z) (s : LogStream) : LogStream := MkStream (buffer_ s) (format_ s) v.
(* @src claire/common/logging/LogStream.h:114-118 LogStream::ResetBuffer *)
Definition ResetBuffer (s : LogStream) : LogStream := MkStream (Reset (buffer_ s)) kNormal (ctr_ s).
(* @src claire/common/logging/LogStream.h:93-97 LogStream::operator<< *)
Definition put_format (f : LogFormat) (s : LogStream) : LogStream := MkStream (buffer_ s) f (ctr_ s).

Definition with_buffer (s : LogStream) (b : LogBuffer) : LogStream := MkStream b (format_ s) (ctr_ s).

(* @src claire/common/logging/LogStream.h:120-130 LogStream::Append *)
Definition stream_Append (msg : bytes) (len : Z) (s : LogStream) : res LogStream :=
  match format_ s with
  | kNormal => b ← buffer_Append msg len (buffer_ s); Ok (with_buffer s b)
  | kHex =>
      let b := buffer_ s in
      d ← range msg len;
      let '(dump, n) := HexString (drop (Z.to_nat (current_ b)) (data_ b)) d in
      Ok (with_buffer s (buffer_Add n (MkBuffer (take (Z.to_nat (current_ b)) (data_ b) ++ dump) (current_ b))))
  end.

(* @src claire/common/logging/LogStream.cc:9-9 kMaxNumericSize *)
Definition kMaxNumericSize : Z := 32.

(** IntToBuffer terminates the numeral with a NUL that is not counted. *)
(* @src claire/common/logging/LogStream.cc:22-30 LogStream::FormatInteger *)
Definition FormatInteger (v : Z) (s : LogStream) : res LogStream :=
  let b := buffer_ s in
  if kMaxNumericSize <=? avail b then
    text ← IntToBuffer v;
    data ← write_at (data_ b) (current_ b) (text ++ [0]);
    Ok (with_buffer s (buffer_Add (Zlen text) (MkBuffer data (current_ b))))
  else Ok s.

(** short, int, long, long long and their unsigned forms. *)
(* @src claire/common/logging/LogStream.cc:32-78 LogStream::operator<< *)
Definition put_int (v : Z) (s : LogStream) : res LogStream := FormatInteger v s.

(* @src claire/common/logging/LogStream.h:32-36 LogStream::operator<< *)
Definition put_bool (v : bool) (s : LogStream) : res LogStream :=
  b ← buffer_Append (if v then str "1" else str "0") 1 (buffer_ s); Ok (with_buffer s b).
(* @src claire/common/logging/LogStream.h:38-42 LogStream::operator<< *)
Definition put_char (v : Z) (s : LogStream) : res LogStream :=
  b ← buffer_Append [v] 1 (buffer_ s); Ok (with_buffer s b).
(* @src claire/common/logging/LogStream.h:63-67 LogStream::operator<< *)
Definition put_cstr (v : bytes) (s : LogStream) : res LogStream := stream_Append v (strlen v) s.
(* @src claire/common/logging/LogStream.h:69-79 LogStream::operator<< *)
Definition put_piece (p : StringPiece) (s : LogStream) : res LogStream := stream_Append (ptr_ p) (size p) s.
(* @src claire/common/logging/LogStream.h:81-91 LogStream::operator<< *)
Definition put_string (v : bytes) (s : LogStream) : res LogStream := stream_Append v (Zlen v) s.

(** [g12] is printf's "%.12g". *)
(* @src claire/common/logging/LogStream.cc:80-89 LogStream::operator<< *)
Definition put_double (g12 : double -> bytes) (v : double) (s : LogStream) : res LogStream :=
  if kMaxNumericSize <=? avail (buffer_ s) then
    let buf := stored 32 (g12 v) in stream_Append buf (strlen buf) s
  else Ok s.

(* @src claire/common/logging/LogStream.cc:91-103 LogStream::operator<< *)
Definition put_pointer (v : Z) (s : LogStream) : res LogStream :=
  let b := buffer_ s in
  if kMaxNumericSize <=? avail b then
    data ← write_at (data_ b) (current_ b) (str "0x");
    text ← HexToBuffer v;
    data ← write_at data (current_ b + 2) (text ++ [0]);
    Ok (with_buffer s (buffer_Add (Zlen text + 2) (MkBuffer data (current_ b))))
  else Ok s.

(** ** Messages *)

(* @src claire/common/logging/LogMessage.h:44-53 LogSeverity *)
Inductive LogSeverity := TRACE | DEBUG | INFO | WARNING | ERROR | FATAL.

(* @src claire/common/logging/LogMessage.cc:144-152 LogSeverityName *)
Definition LogSeverityName (s : LogSeverity) : bytes :=
  match s with
  | TRACE => str "TRACE " | DEBUG => str "DEBUG " | INFO => str "INFO "
  | WARNING => str "WARNING " | ERROR => str "ERROR " | FATAL => str "FATAL "
  end.

(** The text after the last slash. *)
Fixpoint after_slash (file : bytes) : option bytes :=
  match file with
  | [] => None
  | c :: file =>
      match after_slash file with
      | Some r => Some r
      | None => if c =? 47 then Some file else None
      end
  end.

(* @src claire/common/logging/LogMessage.h:76-85 LogMessage::SourceFile::SourceFile *)
Definition SourceFile (file : bytes) : bytes :=
  let file := c_string file in
  match after_slash file with Some r => r | None => file end.

(** The thread-local time text and the second it stands for. *)
(* @src claire/common/logging/LogMessage.cc:127-128 t_time, t_last_second *)
Record time_cache := MkCache { t_time : bytes; t_last_second : Z }.

Section Message.
Variable gmtime : Z -> tm.

(** "%4d%02d%02d %02d:%02d:%02d" *)
(* @src claire/common/logging/LogMessage.cc:193-195 LogMessage::Impl::FormatTime *)
Definition time_text (seconds : Z) : bytes :=
  let m := gmtime seconds in
  pad 32 4 (sdec (tm_year m + 1900)) ++ zero_padded 2 (tm_mon m + 1) ++ zero_padded 2 (tm_mday m) ++ str " " ++
  zero_padded 2 (tm_hour m) ++ str ":" ++ zero_padded 2 (tm_min m) ++ str ":" ++ zero_padded 2 (tm_sec m).

(* @src claire/common/logging/LogMessage.cc:182-204 LogMessage::Impl::FormatTime *)
Definition FormatTime (time : Timestamp) (c : time_cache) (s : LogStream) : res (time_cache * LogStream) :=
  let seconds := SecondsSinceEpoch time in
  let microseconds := int32 (Z.rem (MicroSecondsSinceEpoch time) 1000000) in
  c ← (if negb (seconds =? t_last_second c) then
         let text := time_text seconds in
         _ ← check (Zlen text =? 17);
         Ok (MkCache (stored 32 text) seconds)
       else Ok c);
  let buf := stored 32 (str "." ++ zero_padded 6 microseconds ++ str "Z ") in
  s ← put_piece (Piece (t_time c) 17) s;
  s ← put_cstr buf s;
  Ok (c, s).

(** [tid_string] is ThisThread::tid_string(), set by ThisThread::tid(). *)
(* @src claire/common/logging/LogMessage.cc:168-180 LogMessage::Impl::Impl *)
Definition Impl_new (file : bytes) (line : Z) (severity : LogSeverity) (time : Timestamp) (tid_string : bytes)
  (c : time_cache) (garbage : bytes) (ctr : Z) : res (time_cache * LogStream) :=
  '(c, s) ← FormatTime time c (LogStream_new garbage ctr);
  s ← put_piece (Piece tid_string 6) s;
  s ← put_piece (Piece (LogSeverityName severity) 5) s;
  s ← put_cstr (str "- ") s;
  s ← put_string (SourceFile file) s;
  s ← put_char 58 s;
  s ← put_int line s;
  s ← put_cstr (str " : ") s;
  Ok (c, s).
End Message.

(* @src claire/common/logging/LogMessage.cc:206-209 LogMessage::Impl::Finish *)
Definition Finish (s : LogStream) : res LogStream := put_char 10 s.

(* @src claire/common/logging/LogMessage.cc:45-51 LogColor *)
Inductive LogColor := COLOR_DEFAULT | COLOR_RED | COLOR_GREEN | COLOR_YELLOW.

(* @src claire/common/logging/LogMessage.cc:53-75 SeverityToColor *)
Definition SeverityToColor (severity : LogSeverity) : LogColor :=
  match severity with
  | TRACE | DEBUG | INFO => COLOR_DEFAULT
  | WARNING => COLOR_YELLOW
  | ERROR | FATAL => COLOR_RED
  end.

(** [term] is getenv("TERM"). *)
(* @src claire/common/logging/LogMessage.cc:77-93 TerminalSupportsColor *)
Definition TerminalSupportsColor (term : option bytes) : bool :=
  match term with
  | Some (c :: t) =>
      negb (c =? 0) &&
      bool_decide (c_string (c :: t) ∈
        [str "xterm"; str "xterm-color"; str "xterm-256color"; str "screen"; str "linux"; str "cygwin"])
  | _ => false
  end.

(* @src claire/common/logging/LogMessage.cc:96-106 GetAnsiColorCode *)
Definition GetAnsiColorCode (color : LogColor) : bytes :=
  match color with
  | COLOR_RED => str "1" | COLOR_GREEN => str "2" | COLOR_YELLOW => str "3" | COLOR_DEFAULT => []
  end.

(** The bytes written to stderr. *)
(* @src claire/common/logging/LogMessage.cc:108-125 ColoredWriteToStderr *)
Definition ColoredWriteToStderr (term : option bytes) (FLAGS_colorlogtostderr : bool) (severity : LogSeverity)
  (message : bytes) : bytes :=
  let color := if TerminalSupportsColor term && FLAGS_colorlogtostderr then SeverityToColor severity
               else COLOR_DEFAULT in
  match color with
  | COLOR_DEFAULT => message
  | _ => [27] ++ str "[0;3" ++ GetAnsiColorCode color ++ str "m" ++ message ++ [27] ++ str "[m"
  end.

(** What ~LogMessage writes to stderr and to g_output, and whether it aborts. *)
(* @src claire/common/logging/LogMessage.cc:238-255 LogMessage::~LogMessage *)
Definition LogMessage_destroy (term : option bytes) (FLAGS_colorlogtostderr FLAGS_alsologtostderr : bool)
  (severity : LogSeverity) (s : LogStream) : res (bytes * bytes * bool) :=
  s ← Finish s;
  buf ← buffer_ToString (buffer_ s);
  Ok (if FLAGS_alsologtostderr then ColoredWriteToStderr term FLAGS_colorlogtostderr severity buf else [],
      buf, match severity with FATAL => true | _ => false end).

(** ** The buffer's contents *)

Record buffer_ok (b : LogBuffer) : Prop := {
  bo_cur : 0 <= current_ b <= Zlen (data_ b);
  bo_size : Zlen (data_ b) < 2 ^ 31;
}.

(** The bytes before current_. *)
Definition text_of (b : LogBuffer) : bytes := take (Z.to_nat (current_ b)) (data_ b).

Lemma Zlen_text b : buffer_ok b -> Zlen (text_of b) = current_ b.
Proof. intros [H _]. unfold text_of, Zlen in *. rewrite length_take. lia. Qed.

Lemma avail_eq b : buffer_ok b -> avail b = Zlen (data_ b) - current_ b.
Proof. intros [H1 H2]. unfold avail. apply wrap_u_id. unfold fits_u. lia. Qed.

Lemma range_in d n : 0 <= n <= Zlen d -> range d n = Ok (take (Z.to_nat n) d).
Proof. intros. unfold range. by rewrite (proj2 (Z.leb_le 0 n)), (proj2 (Z.leb_le n _)) by lia. Qed.

Lemma range_all d : range d (Zlen d) = Ok d.
Proof. rewrite range_in by (pose proof (Zlen_nonneg d); lia). unfold Zlen. by rewrite Nat2Z.id, take_ge. Qed.

Lemma ToString_buffer b : buffer_ok b -> buffer_ToString b = Ok (text_of b).
Proof.
  intros H. pose proof H as [H1 H2]. unfold buffer_ToString, length_of.
  rewrite wrap_u_id by (unfold fits_u; lia). by apply range_in.
Qed.

(** Writing at the end of the text and advancing over [n] bytes of it. *)
Lemma write_advance b text n :
  buffer_ok b -> current_ b + Zlen text <= Zlen (data_ b) -> 0 <= n <= Zlen text ->
  exists data, write_at (data_ b) (current_ b) text = Ok data /\
    buffer_ok (MkBuffer data (current_ b + n)) /\ Zlen data = Zlen (data_ b) /\
    text_of (MkBuffer data (current_ b + n)) = text_of b ++ take (Z.to_nat n) text.
Proof.
  intros H Hfit Hn. pose proof H as [H1 H2]. unfold write_at.
  rewrite (proj2 (Z.leb_le 0 _)), (proj2 (Z.leb_le _ (Zlen _))) by lia. eexists. split; [reflexivity|].
  assert (Hl : Zlen (take (Z.to_nat (current_ b)) (data_ b) ++ text ++ drop (Z.to_nat (current_ b + Zlen text)) (data_ b))
    = Zlen (data_ b)).
  { unfold Zlen in *. rewrite !length_app, length_take, length_drop. lia. }
  split; [split; cbn; lia|]. split; [done|]. unfold text_of. cbn [current_ data_].
  rewrite take_app. rewrite take_ge by (rewrite length_take; unfold Zlen in *; lia). f_equal.
  rewrite length_take. rewrite take_app_le by (unfold Zlen in *; lia). f_equal. unfold Zlen in *. lia.
Qed.

Definition same_size (b b' : LogBuffer) : Prop := Zlen (data_ b') = Zlen (data_ b).

(** Append adds what fits. *)
Lemma buffer_Append_ok d l b : buffer_ok b -> 0 <= l <= Zlen d ->
  exists b', buffer_Append d l b = Ok b' /\ buffer_ok b' /\ same_size b b' /\
    text_of b' = take (length (data_ b)) (text_of b ++ take (Z.to_nat l) d).
Proof.
  intros H Hl. pose proof H as [H1 H2]. pose proof (Zlen_text b H) as Ht. pose proof (avail_eq b H) as Ha.
  unfold buffer_Append, same_size. destruct (l <? avail b) eqn:E; zify_bool.
  - rewrite range_in by done. rstep. set (src := take (Z.to_nat l) d).
    assert (Hs : Zlen src = l) by (unfold src, Zlen in *; rewrite length_take; lia).
    destruct (write_advance b src l H) as (data & Hw & Hok & Hsz & Htx); [lia|lia|].
    rewrite Hw. rstep. eexists. split; [reflexivity|]. split; [done|]. split; [done|]. rewrite Htx.
    rewrite (take_ge src) by (unfold Zlen in Hs; lia). rewrite take_ge; [done|].
    rewrite length_app. unfold Zlen in *. lia.
  - destruct (0 <? avail b) eqn:E2; zify_bool.
    + rewrite range_in by lia. rstep. set (src := take (Z.to_nat (avail b)) d).
      assert (Hs : Zlen src = avail b) by (unfold src, Zlen in *; rewrite length_take; lia).
      destruct (write_advance b src (avail b) H) as (data & Hw & Hok & Hsz & Htx); [lia|lia|].
      rewrite Hw. rstep. eexists. split; [reflexivity|]. split; [done|]. split; [done|]. rewrite Htx.
      rewrite (take_ge src) by (unfold Zlen in Hs; lia). rewrite take_app.
      rewrite (take_ge (text_of b)) by (unfold Zlen in *; lia). f_equal.
      rewrite take_take. unfold src. f_equal. unfold Zlen in *. lia.
    + exists b. split; [done|]. split; [done|]. split; [done|]. rewrite take_app_le by (unfold Zlen in *; lia).
      rewrite take_ge; [done|]. unfold Zlen in *. lia.
Qed.

(** ** The stream operators *)

Definition stream_ok (s : LogStream) : Prop := buffer_ok (buffer_ s).
Definition text (s : LogStream) : bytes := text_of (buffer_ s).
Definition room (s : LogStream) : Z := Zlen (data_ (buffer_ s)) - Zlen (text s).

(** What every operator keeps: the buffer's bounds and size, the format, and the
    text already there. *)
Record extends (s s' : LogStream) : Prop := {
  ex_ok : stream_ok s';
  ex_size : same_size (buffer_ s) (buffer_ s');
  ex_prefix : text s `prefix_of` text s';
}.

Lemma extends_refl s : stream_ok s -> extends s s.
Proof. by split. Qed.

Lemma extends_trans s1 s2 s3 : extends s1 s2 -> extends s2 s3 -> extends s1 s3.
Proof.
  intros [A B C] [D E F]. split; [done| |by etrans]. unfold same_size in *. congruence.
Qed.

Lemma text_fits s : stream_ok s -> Zlen (text s) <= Zlen (data_ (buffer_ s)).
Proof. intros H. unfold text. rewrite Zlen_text by done. apply (bo_cur _ H). Qed.

(** Appending in the normal format. *)
Lemma append_normal d l s : stream_ok s -> format_ s = kNormal -> 0 <= l <= Zlen d ->
  exists s', stream_Append d l s = Ok s' /\ extends s s' /\ format_ s' = kNormal /\
    text s' = take (length (data_ (buffer_ s))) (text s ++ take (Z.to_nat l) d).
Proof.
  intros H Hf Hl. unfold stream_Append. rewrite Hf.
  destruct (buffer_Append_ok d l (buffer_ s) H Hl) as (b & Hb & Hok & Hsz & Ht). rewrite Hb. rstep.
  eexists. split; [reflexivity|]. split; [|by split]. split; [done|done|]. unfold text, with_buffer. cbn [buffer_].
  rewrite Ht. rewrite take_app. pose proof (text_fits s H) as Hfit. unfold text in *.
  rewrite take_ge by (unfold Zlen in *; lia). by apply prefix_app_r.
Qed.

Lemma append_hex d l s : stream_ok s -> format_ s = kHex -> 0 <= l <= Zlen d ->
  exists s', stream_Append d l s = Ok s' /\ extends s s'.
Proof.
  intros H Hf Hl. pose proof H as [H1 H2]. unfold stream_Append. rewrite Hf. rewrite range_in by done. rstep.
  set (buf := drop _ (data_ (buffer_ s))).
  assert (Hbuf : Zlen buf = Zlen (data_ (buffer_ s)) - current_ (buffer_ s))
    by (unfold buf, Zlen in *; rewrite length_drop; lia).
  destruct (HexString_bounded buf (take (Z.to_nat l) d)) as (dump & n & E & Hn & Hd); [lia|]. rewrite E.
  eexists. split; [reflexivity|]. unfold buffer_Add. cbn [data_ current_].
  assert (Hsz : Zlen (take (Z.to_nat (current_ (buffer_ s))) (data_ (buffer_ s)) ++ dump) = Zlen (data_ (buffer_ s))).
  { unfold Zlen in *. rewrite length_app, length_take. lia. }
  split; [split; cbn; lia|done|]. unfold text, text_of, with_buffer. cbn [buffer_ current_ data_].
  rewrite take_app, take_take. replace (_ `min` _)%nat with (Z.to_nat (current_ (buffer_ s))) by lia.
  by apply prefix_app_r.
Qed.

Lemma append_ok d l s : stream_ok s -> 0 <= l <= Zlen d ->
  exists s', stream_Append d l s = Ok s' /\ extends s s'.
Proof.
  intros H Hl. destruct (format_ s) eqn:Hf; [|by apply append_hex].
  destruct (append_normal d l s H Hf Hl) as (s' & E & He & _). eauto.
Qed.

Lemma strlen_bound d : 0 <= strlen d <= Zlen d.
Proof.
  unfold strlen. induction d as [|c d IH]; cbn [c_string]; [done|].
  pose proof (Zlen_nonneg d). destruct (c =? 0); rewrite !Zlen_cons; [change (Zlen (@nil Z)) with 0; lia|lia].
Qed.

(** An integer needs 32 bytes of room, of which it uses at most 21. *)
Lemma put_int_ok v s : stream_ok s -> - 2 ^ 63 <= v < 2 ^ 64 ->
  exists s', put_int v s = Ok s' /\ extends s s' /\ format_ s' = format_ s /\
    text s' = if kMaxNumericSize <=? room s then text s ++ sdec v else text s.
Proof.
  intros H Hv. unfold put_int, FormatInteger, room. rewrite avail_eq by done.
  assert (Ht : Zlen (text s) = current_ (buffer_ s)) by by apply Zlen_text.
  rewrite Ht. destruct (kMaxNumericSize <=? _) eqn:E; zify_bool.
  2: { exists s. split; [done|]. split; [by apply extends_refl|done]. }
  destruct (IntToBuffer_sdec v) as [Hi Hlen]. rewrite Hi. rstep. specialize (Hlen Hv). unfold kMaxNumericSize in E.
  assert (Hz : Zlen (sdec v ++ [0]) = Zlen (sdec v) + 1) by (rewrite Zlen_app; done).
  destruct (write_advance (buffer_ s) (sdec v ++ [0]) (Zlen (sdec v)) H) as (data & Hw & Hok & Hsz & Htx);
    [unfold Zlen in *; lia|unfold Zlen in *; lia|].
  rewrite Hw. rstep. eexists. split; [reflexivity|].
  assert (Hte : take (Z.to_nat (Zlen (sdec v))) (sdec v ++ [0]) = sdec v)
    by (unfold Zlen; by rewrite Nat2Z.id, take_app_length).
  unfold buffer_Add. cbn [data_ current_]. split; [|split; [done|]].
  - split; [exact Hok|exact Hsz|]. unfold text, with_buffer. cbn [buffer_]. rewrite Htx. by apply prefix_app_r.
  - unfold text, with_buffer. cbn [buffer_]. by rewrite Htx, Hte.
Qed.

Lemma put_pointer_ok v s : stream_ok s -> 0 <= v < 2 ^ 64 ->
  exists s', put_pointer v s = Ok s' /\ extends s s' /\ format_ s' = format_ s /\
    text s' = if kMaxNumericSize <=? room s then text s ++ str "0x" ++ HEX v else text s.
Proof.
  intros H Hv. unfold put_pointer, room. rewrite avail_eq by done.
  assert (Ht : Zlen (text s) = current_ (buffer_ s)) by by apply Zlen_text.
  rewrite Ht. destruct (kMaxNumericSize <=? _) eqn:E; zify_bool.
  2: { exists s. split; [done|]. split; [by apply extends_refl|done]. }
  destruct (HexToBuffer_hexadecimal v Hv) as [Hi Hlen]. unfold kMaxNumericSize in E.
  destruct (write_advance (buffer_ s) (str "0x") 2 H) as (d1 & Hw1 & Hok1 & Hsz1 & Htx1);
    [change (Zlen (str "0x")) with 2; lia|change (Zlen (str "0x")) with 2; lia|].
  rewrite Hw1. rstep. rewrite Hi. rstep.
  set (b1 := MkBuffer d1 (current_ (buffer_ s) + 2)) in *.
  destruct (write_advance b1 (HEX v ++ [0]) (Zlen (HEX v)) Hok1) as (d2 & Hw2 & Hok2 & Hsz2 & Htx2);
    [change (current_ b1) with (current_ (buffer_ s) + 2); change (data_ b1) with d1; rewrite Hsz1, Zlen_app;
       change (Zlen [0]) with 1; unfold Zlen in *; lia
    |rewrite Zlen_app; change (Zlen [0]) with 1; unfold Zlen in *; lia|].
  cbn [data_ current_ b1] in Hw2, Hok2, Hsz2, Htx2. rewrite Hw2. rstep. eexists. split; [reflexivity|].
  unfold buffer_Add. cbn [data_ current_].
  replace (current_ (buffer_ s) + (Zlen (HEX v) + 2)) with (current_ (buffer_ s) + 2 + Zlen (HEX v)) by lia.
  assert (Hte : take (Z.to_nat (Zlen (HEX v))) (HEX v ++ [0]) = HEX v)
    by (unfold Zlen; by rewrite Nat2Z.id, take_app_length).
  assert (Hfin : text_of (MkBuffer d2 (current_ (buffer_ s) + 2 + Zlen (HEX v))) = text s ++ str "0x" ++ HEX v).
  { etrans; [exact Htx2|]. rewrite Hte. change (text_of b1 ++ HEX v = text s ++ str "0x" ++ HEX v).
    rewrite Htx1. by rewrite <- app_assoc. }
  split; [|split; [done|exact Hfin]].
  split; [exact Hok2|unfold same_size; cbn; congruence|].
  change (text s `prefix_of` text_of (MkBuffer d2 (current_ (buffer_ s) + 2 + Zlen (HEX v)))).
  rewrite Hfin. by apply prefix_app_r.
Qed.

(** ** Any sequence of operators *)

Inductive item :=
  | IBool (v : bool)
  | IChar (v : Z)
  | IInt (v : Z)
  | IDouble (v : double)
  | IPointer (v : Z)
  | IText (v : bytes)        (** a string or a piece *)
  | ICstr (v : bytes)
  | IFormat (f : LogFormat).

Definition put (g12 : double -> bytes) (i : item) (s : LogStream) : res LogStream :=
  match i with
  | IBool v => put_bool v s
  | IChar v => put_char v s
  | IInt v => put_int v s
  | IDouble v => put_double g12 v s
  | IPointer v => put_pointer v s
  | IText v => put_string v s
  | ICstr v => put_cstr v s
  | IFormat f => Ok (put_format f s)
  end.

Fixpoint put_all (g12 : double -> bytes) (l : list item) (s : LogStream) : res LogStream :=
  match l with
  | [] => Ok s
  | i :: l => s ← put g12 i s; put_all g12 l s
  end.

(** The integers are 64-bit ones. *)
Definition item_ok (i : item) : Prop :=
  match i with
  | IInt v => - 2 ^ 63 <= v < 2 ^ 64
  | IPointer v => 0 <= v < 2 ^ 64
  | _ => True
  end.

Lemma put_one v s : stream_ok s -> length v = 1%nat ->
  exists s', (b ← buffer_Append v 1 (buffer_ s); Ok (with_buffer s b)) = Ok s' /\ extends s s' /\
    format_ s' = format_ s /\ text s' = take (length (data_ (buffer_ s))) (text s ++ v).
Proof.
  intros H Hv. destruct (buffer_Append_ok v 1 (buffer_ s) H) as (b & Hb & Hok & Hsz & Ht); [unfold Zlen; lia|].
  rewrite Hb. rstep. eexists. split; [reflexivity|]. change (Z.to_nat 1) with 1%nat in Ht.
  rewrite (take_ge v) in Ht by lia.
  split; [|split; [done|exact Ht]]. split; [done|done|]. unfold text, with_buffer. cbn [buffer_]. rewrite Ht.
  rewrite take_app. pose proof (text_fits s H) as Hfit. unfold text in *.
  rewrite take_ge by (unfold Zlen in *; lia). by apply prefix_app_r.
Qed.

Lemma put_ok g12 i s : stream_ok s -> item_ok i -> exists s', put g12 i s = Ok s' /\ extends s s'.
Proof.
  intros H Hi. destruct i as [v|v|v|v|v|v|v|f]; cbn [put item_ok] in *.
  - destruct (put_one (if v then str "1" else str "0") s H) as (s' & E & He & _); [by destruct v|]. eauto.
  - destruct (put_one [v] s H) as (s' & E & He & _); [done|]. eauto.
  - destruct (put_int_ok v s H Hi) as (s' & E & He & _). eauto.
  - unfold put_double. destruct (_ <=? _); [|eauto using extends_refl].
    apply append_ok; [done|]. apply strlen_bound.
  - destruct (put_pointer_ok v s H Hi) as (s' & E & He & _). eauto.
  - apply append_ok; [done|]. pose proof (Zlen_nonneg v). lia.
  - apply append_ok; [done|]. apply strlen_bound.
  - eexists. split; [reflexivity|]. by split.
Qed.

(** C34: no sequence of stream operators writes outside the message buffer,
    whatever is logged, in either format, and however much of it: every operator
    succeeds, and what is already in the buffer stays. *)
Theorem stream_never_overflows g12 items s :
  stream_ok s -> Forall item_ok items ->
  exists s', put_all g12 items s = Ok s' /\ stream_ok s' /\
    Zlen (data_ (buffer_ s')) = Zlen (data_ (buffer_ s)) /\ text s `prefix_of` text s' /\
    Zlen (text s') <= Zlen (data_ (buffer_ s)).
Proof.
  intros H Hitems.
  assert (exists s', put_all g12 items s = Ok s' /\ extends s s') as (s' & E & [Hok Hsz Hpre]).
  { revert s H. induction Hitems as [|i l Hi _ IH]; intros s H; cbn [put_all]; [eauto using extends_refl|].
    destruct (put_ok g12 i s H Hi) as (s1 & E1 & He1). rewrite E1. rstep.
    destruct (IH s1 (ex_ok _ _ He1)) as (s2 & E2 & He2). eauto using extends_trans. }
  exists s'. unfold same_size in Hsz. pose proof (text_fits s' Hok). rewrite <- Hsz. auto.
Qed.

(** ** One log line *)

(** The operation appends [t] to a stream in the normal format that has room for
    it, 32 bytes included that a number asks for. *)
Definition writes (op : LogStream -> res LogStream) (t : bytes) : Prop :=
  forall s, stream_ok s -> format_ s = kNormal -> Zlen t + 32 <= room s ->
    exists s', op s = Ok s' /\ extends s s' /\ format_ s' = kNormal /\ text s' = text s ++ t.

Lemma writes_append d l : 0 <= l <= Zlen d -> writes (stream_Append d l) (take (Z.to_nat l) d).
Proof.
  intros Hl s H Hf Hr. destruct (append_normal d l s H Hf Hl) as (s' & E & He & Hf' & Ht).
  exists s'. split; [done|]. split; [done|]. split; [done|]. rewrite Ht, take_ge; [done|].
  unfold room, Zlen in *. rewrite length_app. lia.
Qed.

Lemma writes_string t : writes (put_string t) t.
Proof.
  pose proof (writes_append t (Zlen t)) as W. rewrite take_ge in W by (unfold Zlen; lia).
  apply W. pose proof (Zlen_nonneg t). lia.
Qed.

Lemma writes_cstr t : Forall (fun c => c <> 0) t -> writes (put_cstr t) t.
Proof.
  intros Ht. assert (Hs : strlen t = Zlen t).
  { unfold strlen. f_equal. induction Ht as [|c t Hc _ IH]; [done|]. cbn [c_string].
    rewrite (proj2 (Z.eqb_neq _ _)) by done. by rewrite IH. }
  unfold put_cstr. rewrite Hs. apply writes_string.
Qed.

Lemma writes_piece d l : 0 <= l <= Zlen d -> writes (put_piece (Piece d l)) (take (Z.to_nat l) d).
Proof. apply writes_append. Qed.

Lemma writes_char c : writes (put_char c) [c].
Proof.
  intros s H Hf Hr. destruct (put_one [c] s H) as (s' & E & He & Hf' & Ht); [done|].
  exists s'. split; [done|]. split; [done|]. split; [congruence|]. rewrite Ht, take_ge; [done|].
  unfold room, Zlen in *. rewrite length_app. lia.
Qed.

Lemma writes_int v : - 2 ^ 63 <= v < 2 ^ 64 -> writes (put_int v) (sdec v).
Proof.
  intros Hv s H Hf Hr. destruct (put_int_ok v s H Hv) as (s' & E & He & Hf' & Ht).
  exists s'. split; [done|]. split; [done|]. split; [congruence|]. rewrite Ht.
  rewrite (proj2 (Z.leb_le _ _)); [done|]. pose proof (Zlen_nonneg (sdec v)). unfold kMaxNumericSize. lia.
Qed.

Lemma room_after s s' t : extends s s' -> text s' = text s ++ t -> room s' = room s - Zlen t.
Proof. intros [_ Hsz _] Ht. unfold room. unfold same_size in Hsz. rewrite Hsz, Ht, Zlen_app. lia. Qed.

Lemma writes_bind op1 op2 t1 t2 : writes op1 t1 -> writes op2 t2 ->
  writes (fun s => s ← op1 s; op2 s) (t1 ++ t2).
Proof.
  intros W1 W2 s H Hf Hr. rewrite Zlen_app in Hr. pose proof (Zlen_nonneg t1). pose proof (Zlen_nonneg t2).
  destruct (W1 s H Hf) as (s1 & E1 & He1 & Hf1 & Ht1); [lia|]. rewrite E1. rstep.
  destruct (W2 s1 (ex_ok _ _ He1) Hf1) as (s2 & E2 & He2 & Hf2 & Ht2); [rewrite (room_after s s1 t1) by done; lia|].
  exists s2. split; [done|]. split; [by eapply extends_trans|]. split; [done|]. by rewrite Ht2, Ht1, app_assoc.
Qed.

Lemma dec_nonzero n : 0 <= n -> Forall (fun c => c <> 0) (dec n).
Proof. intros. eapply Forall_impl; [by apply dec_chars|]. intros c Hc. cbv beta in Hc. lia. Qed.

Section LogLine.
Variable gmtime : Z -> tm.

(** The thread's time text stands for the second it is cached for. *)
Definition cache_ok (c : time_cache) : Prop :=
  t_last_second c = 0 \/ take 17 (t_time c) = time_text gmtime (t_last_second c).

Definition micros_text (micros : Z) : bytes := str "." ++ pad 48 6 (dec micros) ++ str "Z ".

Lemma micros_text_ok micros : 0 <= micros < 10 ^ 6 ->
  length (micros_text micros) = 9%nat /\ Forall (fun c => c <> 0) (micros_text micros).
Proof.
  intros Hm. unfold micros_text. split.
  - rewrite !length_app, length_pad.
    pose proof (dec_length micros 6 ltac:(change (10 ^ Z.of_nat 6) with (10 ^ 6); lia) ltac:(lia)).
    change (length (str ".")) with 1%nat. change (length (str "Z ")) with 2%nat. lia.
  - apply Forall_app_2; [repeat constructor; done|]. apply Forall_app_2; [|repeat constructor; done].
    unfold pad. apply Forall_app_2; [by apply Forall_replicate|]. apply dec_nonzero. lia.
Qed.

(** The line's prefix. *)
Definition header (time : Timestamp) (tid : bytes) (severity : LogSeverity) (file : bytes) (line : Z) : bytes :=
  (time_text gmtime (SecondsSinceEpoch time) ++ micros_text (Z.rem (MicroSecondsSinceEpoch time) 1000000)) ++
  tid ++ take 5 (LogSeverityName severity) ++ str "- " ++ SourceFile file ++ [58] ++ sdec line ++ str " : ".

Lemma FormatTime_writes time c s :
  10 ^ 6 <= MicroSecondsSinceEpoch time < 2 ^ 63 -> Zlen (time_text gmtime (SecondsSinceEpoch time)) = 17 ->
  cache_ok c -> stream_ok s -> format_ s = kNormal -> 17 + 9 + 32 <= room s ->
  exists c' s', FormatTime gmtime time c s = Ok (c', s') /\ cache_ok c' /\ extends s s' /\ format_ s' = kNormal /\
    text s' = text s ++ time_text gmtime (SecondsSinceEpoch time) ++
              micros_text (Z.rem (MicroSecondsSinceEpoch time) 1000000).
Proof.
  intros Ht Hlen Hc Hs Hf Hr. unfold FormatTime.
  set (sec := SecondsSinceEpoch time) in *. set (us := Z.rem (MicroSecondsSinceEpoch time) 1000000).
  assert (Hus : 0 <= us < 10 ^ 6) by (apply Z.rem_bound_pos; lia).
  assert (Hsec : 0 < sec).
  { unfold sec, SecondsSinceEpoch. apply Z.quot_str_pos. unfold MicroSecondsSinceEpoch, kMicroSecondsPerSecond in *. lia. }
  rewrite wrap_s_id by (unfold fits_s; lia). rewrite zero_padded_nonneg by lia. fold (micros_text us).
  destruct (micros_text_ok us Hus) as [Hml Hmz].
  assert (Hst : stored 32 (micros_text us) = micros_text us) by (unfold stored; apply take_ge; lia).
  assert (exists c', (if negb (sec =? t_last_second c) then
      (_ ← check (Zlen (time_text gmtime sec) =? 17); Ok (MkCache (stored 32 (time_text gmtime sec)) sec))
      else Ok c) = Ok c' /\ cache_ok c' /\ take 17 (t_time c') = time_text gmtime sec) as (c' & E & Hc' & Hct).
  { destruct (sec =? t_last_second c) eqn:E; zify_bool; cbn [negb].
    - exists c. split; [done|]. split; [done|]. destruct Hc as [Hc|Hc]; [lia|]. by rewrite E.
    - rewrite Hlen. change (17 =? 17) with true. rstep. eexists. split; [reflexivity|].
      assert (Htake : take 17 (stored 32 (time_text gmtime sec)) = time_text gmtime sec).
      { unfold stored. rewrite take_take. apply take_ge. unfold Zlen in Hlen. cbn. lia. }
      split; [by right|done]. }
  rewrite E. rstep. rewrite Hst.
  assert (Hz : 17 <= Zlen (t_time c')).
  { rewrite <- Hct in Hlen. unfold Zlen in *. rewrite length_take in Hlen. lia. }
  pose proof (writes_piece (t_time c') 17 ltac:(lia)) as W1. change (Z.to_nat 17) with 17%nat in W1. rewrite Hct in W1.
  destruct (W1 s Hs Hf) as (s1 & E1 & He1 & Hf1 & Ht1); [lia|]. rewrite E1. rstep.
  destruct (writes_cstr (micros_text us) Hmz s1 (ex_ok _ _ He1) Hf1) as (s2 & E2 & He2 & Hf2 & Ht2).
  { rewrite (room_after s s1 _ He1 Ht1), Hlen. unfold Zlen. lia. }
  rewrite E2. rstep. exists c', s2. split; [done|]. split; [done|]. split; [by eapply extends_trans|].
  split; [done|]. by rewrite Ht2, Ht1, app_assoc.
Qed.

Lemma take_app_take {A} n (l k : list A) : take n (take n l ++ k) = take n (l ++ k).
Proof.
  rewrite !take_app, take_take, Nat.min_id, length_take. f_equal.
  destruct (decide (n <= length l)%nat); f_equal; lia.
Qed.

(** Text appended in the normal format. *)
Lemma put_texts g12 l : forall s, stream_ok s -> format_ s = kNormal ->
  exists s', put_all g12 (IText <$> l) s = Ok s' /\ extends s s' /\ format_ s' = kNormal /\
    text s' = take (length (data_ (buffer_ s))) (text s ++ concat l).
Proof.
  induction l as [|v l IH]; intros s H Hf; cbn [fmap list_fmap put_all concat].
  { exists s. split; [done|]. split; [by apply extends_refl|]. split; [done|]. rewrite app_nil_r, take_ge; [done|].
    pose proof (text_fits s H). unfold Zlen in *. lia. }
  destruct (append_normal v (Zlen v) s H Hf) as (s1 & E1 & He1 & Hf1 & Ht1); [pose proof (Zlen_nonneg v); lia|].
  cbn [put]. unfold put_string. rewrite E1. rstep.
  destruct (IH s1 (ex_ok _ _ He1) Hf1) as (s2 & E2 & He2 & Hf2 & Ht2).
  exists s2. split; [done|]. split; [by eapply extends_trans|]. split; [done|]. rewrite Ht2, Ht1.
  pose proof (ex_size _ _ He1) as Hsz. unfold same_size, Zlen in Hsz.
  replace (length (data_ (buffer_ s1))) with (length (data_ (buffer_ s))) by lia.
  rewrite take_app_take. rewrite (take_ge v) by (unfold Zlen; lia). by rewrite app_assoc.
Qed.

Lemma zlen_severity severity : Zlen (take 5 (LogSeverityName severity)) = 5.
Proof. by destruct severity. Qed.

(** The prefix after the time. *)
Lemma writes_where tid severity file line : Zlen tid = 6 -> - 2 ^ 31 <= line < 2 ^ 31 ->
  writes (fun s =>
      s ← put_piece (Piece tid 6) s; s ← put_piece (Piece (LogSeverityName severity) 5) s;
      s ← put_cstr (str "- ") s; s ← put_string (SourceFile file) s; s ← put_char 58 s;
      s ← put_int line s; put_cstr (str " : ") s)
    (tid ++ take 5 (LogSeverityName severity) ++ str "- " ++ SourceFile file ++ [58] ++ sdec line ++ str " : ").
Proof.
  intros Htid Hline. pose proof (writes_piece tid 6 ltac:(lia)) as W1.
  rewrite take_ge in W1 by (unfold Zlen in Htid; lia).
  assert (W2 : writes (put_piece (Piece (LogSeverityName severity) 5)) (take 5 (LogSeverityName severity)))
    by (apply (writes_piece (LogSeverityName severity) 5); destruct severity; split; vm_compute; congruence).
  apply (writes_bind _ _ _ _ W1), (writes_bind _ _ _ _ W2).
  apply (writes_bind (put_cstr (str "- "))); [apply writes_cstr; repeat constructor; done|].
  apply (writes_bind _ _ _ _ (writes_string _)), (writes_bind _ _ _ _ (writes_char 58)).
  apply (writes_bind _ _ _ _ (writes_int line ltac:(lia))). apply writes_cstr. repeat constructor; done.
Qed.

(** A message as its constructor leaves it: the prefix is in the buffer. *)
Record message_ready (s : LogStream) (t : bytes) : Prop := {
  mr_ok : stream_ok s;
  mr_format : format_ s = kNormal;
  mr_size : Zlen (data_ (buffer_ s)) = kSmallBuffer;
  mr_text : text s = t;
}.

Lemma Impl_new_ready file line severity time tid c garbage ctr :
  10 ^ 6 <= MicroSecondsSinceEpoch time < 2 ^ 63 -> Zlen (time_text gmtime (SecondsSinceEpoch time)) = 17 ->
  Zlen tid = 6 -> - 2 ^ 31 <= line < 2 ^ 31 -> cache_ok c -> Zlen garbage = kSmallBuffer ->
  Zlen (SourceFile file) <= 3900 ->
  exists c' s, Impl_new gmtime file line severity time tid c garbage ctr = Ok (c', s) /\ cache_ok c' /\
    message_ready s (header time tid severity file line).
Proof.
  intros Ht Hlen Htid Hline Hc Hg Hfile. unfold Impl_new. set (s0 := LogStream_new garbage ctr).
  unfold kSmallBuffer in Hg.
  assert (Hs0 : stream_ok s0) by (split; cbn; lia).
  assert (Hr0 : room s0 = 4096) by (unfold room; cbn; rewrite Hg; done).
  destruct (FormatTime_writes time c s0 Ht Hlen Hc Hs0 eq_refl) as (c' & s1 & E1 & Hc' & He1 & Hf1 & Ht1); [lia|].
  rewrite E1. rstep.
  assert (Hus : 0 <= Z.rem (MicroSecondsSinceEpoch time) 1000000 < 10 ^ 6) by (apply Z.rem_bound_pos; lia).
  destruct (micros_text_ok _ Hus) as [Hml _]. destruct (IntToBuffer_sdec line) as [_ Hll].
  destruct (writes_where tid severity file line Htid Hline s1 (ex_ok _ _ He1) Hf1) as (s2 & E2 & He2 & Hf2 & Ht2).
  { rewrite (room_after s0 s1 _ He1 Ht1), Hr0, !Zlen_app, Hlen, Htid, zlen_severity.
    change (Zlen (str "- ")) with 2. change (Zlen (str " : ")) with 3. change (Zlen [58]) with 1.
    specialize (Hll ltac:(lia)). unfold Zlen in *. lia. }
  exists c', s2. split; [|split; [done|split; [apply He2|done| |]]].
  - clear - E2. res_inv. repeat match goal with H : ?op = Ok _ |- context [?op] => rewrite H; rstep end. done.
  - pose proof (ex_size _ _ He1). pose proof (ex_size _ _ He2). unfold same_size, kSmallBuffer in *.
    cbn [s0 buffer_ LogStream_new LogBuffer_new data_] in *. congruence.
  - rewrite Ht2, Ht1. done.
Qed.

(** The newline, cut off when the buffer is full, and the output. *)
Lemma destroy_writes term color also severity s :
  stream_ok s -> exists err, LogMessage_destroy term color also severity s =
    Ok (err, take (length (data_ (buffer_ s))) (text s ++ [10]), match severity with FATAL => true | _ => false end).
Proof.
  intros Hs. destruct (put_one [10] s Hs eq_refl) as (s' & E & He & _ & Ht).
  unfold LogMessage_destroy, Finish, put_char. rewrite E. rstep. rewrite ToString_buffer by apply He. rstep.
  fold (text s'). rewrite Ht. by eexists.
Qed.

(** C35: a log line is what it should be: the time with microseconds, the thread,
    the severity, the file without its directories and the line number, then the
    texts logged and a newline, cut off after 4096 bytes (the newline first); the
    second's text cached per thread is the right one. The message goes to the
    output once; FATAL aborts. *)
Theorem log_line g12 file line severity time tid c garbage ctr texts term color also :
  10 ^ 6 <= MicroSecondsSinceEpoch time < 2 ^ 63 -> Zlen (time_text gmtime (SecondsSinceEpoch time)) = 17 ->
  Zlen tid = 6 -> - 2 ^ 31 <= line < 2 ^ 31 -> cache_ok c -> Zlen garbage = kSmallBuffer ->
  Zlen (SourceFile file) <= 3900 ->
  exists c' s s' err, Impl_new gmtime file line severity time tid c garbage ctr = Ok (c', s) /\ cache_ok c' /\
    put_all g12 (IText <$> texts) s = Ok s' /\
    LogMessage_destroy term color also severity s' =
      Ok (err, take 4096 (header time tid severity file line ++ concat texts ++ [10]),
          match severity with FATAL => true | _ => false end).
Proof.
  intros Ht Hlen Htid Hline Hc Hg Hfile.
  destruct (Impl_new_ready file line severity time tid c garbage ctr) as (c' & s & E & Hc' & [Hok Hf Hsz Htx]);
    [done..|].
  destruct (put_texts g12 texts s Hok Hf) as (s' & E' & He' & _ & Ht').
  destruct (destroy_writes term color also severity s' (ex_ok _ _ He')) as [err Hd].
  exists c', s, s', err. split; [done|]. split; [done|]. split; [done|]. rewrite Hd.
  pose proof (ex_size _ _ He') as Hsz'. unfold same_size, kSmallBuffer in *.
  assert (length (data_ (buffer_ s)) = 4096%nat) as L1 by (unfold Zlen in *; lia).
  assert (length (data_ (buffer_ s')) = 4096%nat) as L2 by (unfold Zlen in *; lia).
  by rewrite L2, Ht', L1, take_app_take, Htx, <- app_assoc.
Qed.
End LogLine.

(** ** Witnesses *)

Definition demo_gmtime (s : Z) : tm := MkTm 113 5 1 (s / 3600) (s / 60 mod 60) (s mod 60).

Lemma stream_never_overflows_witness :
  exists s', put_all (fun _ => str "1.5") [IInt (-7); IFormat kHex; IText (str "abc"); IPointer 255; IDouble dzero]
      (LogStream_new (replicate 40 0) 0) = Ok s' /\ stream_ok s' /\
    Zlen (data_ (buffer_ s')) = 40 /\ [] `prefix_of` text s' /\ Zlen (text s') <= 40.
Proof.
  apply (stream_never_overflows (fun _ => str "1.5")
    [IInt (-7); IFormat kHex; IText (str "abc"); IPointer 255; IDouble dzero] (LogStream_new (replicate 40 0) 0)).
  - split; vm_compute; [split; congruence|congruence].
  - repeat constructor; vm_compute; congruence.
Defined.

Lemma log_line_witness :
  exists c' s s' err, Impl_new demo_gmtime (str "src/a.cc") 12 INFO (MkTimestamp 3600000042) (str " 4711 ")
      (MkCache (replicate 32 0) 0) (replicate 4096 0) 0 = Ok (c', s) /\ cache_ok demo_gmtime c' /\
    put_all (fun _ => []) (IText <$> [str "hello"; str " world"]) s = Ok s' /\
    LogMessage_destroy None false false INFO s' =
      Ok (err, take 4096 (header demo_gmtime (MkTimestamp 3600000042) (str " 4711 ") INFO (str "src/a.cc") 12 ++
          concat [str "hello"; str " world"] ++ [10]), false).
Proof.
  apply (log_line demo_gmtime (fun _ => []) (str "src/a.cc") 12 INFO (MkTimestamp 3600000042) (str " 4711 ")
    (MkCache (replicate 32 0) 0) (replicate 4096 0) 0 [str "hello"; str " world"] None false false).
  - split; vm_compute; congruence.
  - reflexivity.
  - reflexivity.
  - lia.
  - by left.
  - reflexivity.
  - vm_compute. congruence.
Defined.

Example log_line_text :
  header demo_gmtime (MkTimestamp 3600000042) (str " 4711 ") INFO (str "src/a.cc") 12 =
  str "20130601 01:00:00.000042Z  4711 INFO - a.cc:12 : ".
Proof. vm_compute. reflexivity. Qed.

(** A full buffer leaves no room for DebugString's NUL. *)
Example DebugString_full : DebugString (MkBuffer (replicate 4 65) 4) = Err OutOfBounds.
Proof. reflexivity. Qed.
