(* ===== verification/LogMessage.v ===== *)
(** * logging/LogMessage: constructors, check failures and errno messages

    claire/common/logging/LogMessage.{h,cc}: the public constructors over the
    message of file LogStream, LogMessageFatal and ErrnoLogMessage, and the output
    and flush functions a program may install. CheckOpString is glog's; a result
    is given by the text its str_ points to. *)

From S2P Require Import Prelude Bytes Double StringPiece StringUtil Timestamp LogStream.
Open Scope Z_scope.

(** ** Source files *)

(** The members of SourceFile: the characters from data_ on, and size_. *)
(* @src claire/common/logging/LogMessage.h:87-88 LogMessage::SourceFile *)
Record source_file := MkSource { file_data : bytes; file_size : Z }.

(** [arr] is the array, its NUL included. *)
(* @src claire/common/logging/LogMessage.h:63-74 LogMessage::SourceFile::SourceFile *)
Definition SourceFile_array (arr : bytes) : source_file :=
  let size := int32 (Zlen arr - 1) in
  match after_slash (c_string arr) with
  | Some r =>
      let slash := Zlen (c_string arr) - Zlen r in
      MkSource (drop (Z.to_nat slash) arr) (int32 (size - int32 slash))
  | None => MkSource arr size
  end.

(** size_ is converted to size_t. *)
(* @src claire/common/logging/LogMessage.cc:159-163 operator<< *)
Definition put_source (v : source_file) (s : LogStream) : res LogStream :=
  stream_Append (file_data v) (uint64 (file_size v)) s.

(** ** The output functions *)

Section Output.
Context {W : Type}.

(** g_output and g_flush, and the world they act on. *)
(* @src claire/common/logging/LogMessage.cc:165-166 g_output, g_flush *)
Record Outputs := MkOutputs { g_output : bytes -> W -> W; g_flush : W -> W }.

(* @src claire/common/logging/LogMessage.cc:257-260 LogMessage::SetOutput *)
Definition SetOutput (out : bytes -> W -> W) (o : Outputs) : Outputs := MkOutputs out (g_flush o).
(* @src claire/common/logging/LogMessage.cc:262-265 LogMessage::SetFlush *)
Definition SetFlush (flush : W -> W) (o : Outputs) : Outputs := MkOutputs (g_output o) flush.

(** What a finished message leaves behind: stderr's text, the world, and whether
    the program aborts. *)
Record ended := MkEnded { to_stderr : bytes; world : W; aborts : bool }.

(* @src claire/common/logging/LogMessage.cc:238-255 LogMessage::~LogMessage *)
Definition end_message (o : Outputs) (term : option bytes) (color also : bool) (severity : LogSeverity)
  (s : LogStream) (w : W) : res ended :=
  '(err, msg, fatal) ← LogMessage_destroy term color also severity s;
  Ok (MkEnded err (g_output o msg w) fatal).

End Output.
Arguments Outputs : clear implicits.
Arguments ended : clear implicits.

(** stdout: what stdio holds in its buffer, and what it has written. *)
Record Stdout := MkStdout { buffered : bytes; flushed : bytes }.

(* @src claire/common/logging/LogMessage.cc:131-135 DefaultOutput *)
Definition DefaultOutput (msg : bytes) (o : Stdout) : Stdout := MkStdout (buffered o ++ msg) (flushed o).
(* @src claire/common/logging/LogMessage.cc:137-140 DefaultFlush *)
Definition DefaultFlush (o : Stdout) : Stdout := MkStdout [] (flushed o ++ buffered o).

(* @src claire/common/logging/LogMessage.cc:165-166 g_output, g_flush *)
Definition default_outputs : Outputs Stdout := MkOutputs DefaultOutput DefaultFlush.

(** ** The constructors *)

(** [strerror_r e n] is the text strerror_r gives for error [e] and a buffer of [n]
    bytes. *)
(* @src claire/common/logging/LogMessage.cc:154-157 strerror_tl *)
Definition strerror_tl (strerror_r : Z -> Z -> bytes) (saved_errno : Z) : bytes := strerror_r saved_errno 512.

Section Constructors.
Variable gmtime : Z -> tm.
Variable strerror_r : Z -> Z -> bytes.

(** What a message finds where it is constructed: the clock, the thread's id text
    and cached time text, and the memory of the stream. *)
Record place := MkPlace {
  now : Timestamp;
  tid_string : bytes;
  cache : time_cache;
  memory : bytes;
  old_ctr : Z;
}.

Definition construct (p : place) (file : bytes) (line : Z) (severity : LogSeverity)
  : res (time_cache * LogStream) :=
  Impl_new gmtime file line severity (now p) (tid_string p) (cache p) (memory p) (old_ctr p).

(* @src claire/common/logging/LogMessage.cc:211-218 LogMessage::LogMessage *)
Definition LogMessage_ctr (p : place) (file : bytes) (line : Z) (severity : LogSeverity) (ctr : Z)
  : res (time_cache * LogStream) :=
  '(c, s) ← construct p file line severity; Ok (c, set_ctr ctr s).

(* @src claire/common/logging/LogMessage.cc:220-224 LogMessage::LogMessage *)
Definition LogMessage_func (p : place) (file : bytes) (line : Z) (severity : LogSeverity) (func : bytes)
  : res (time_cache * LogStream) :=
  '(c, s) ← construct p file line severity;
  s ← put_cstr func s; s ← put_char 32 s; Ok (c, s).

(* @src claire/common/logging/LogMessage.cc:226-227 LogMessage::LogMessage *)
Definition LogMessage_info (p : place) (file : bytes) (line : Z) : res (time_cache * LogStream) :=
  construct p file line INFO.

(* @src claire/common/logging/LogMessage.cc:229-230 LogMessage::LogMessage *)
Definition LogMessage_severity (p : place) (file : bytes) (line : Z) (severity : LogSeverity)
  : res (time_cache * LogStream) := construct p file line severity.

(** [result] is the text result.str_ points to. *)
(* @src claire/common/logging/LogMessage.cc:232-236 LogMessage::LogMessage *)
Definition LogMessage_check (p : place) (file : bytes) (line : Z) (result : bytes)
  : res (time_cache * LogStream) :=
  '(c, s) ← construct p file line FATAL;
  s ← put_cstr (str "Check failed: ") s; s ← put_string result s; s ← put_cstr (str " ") s;
  Ok (c, s).

(* @src claire/common/logging/LogMessage.h:155-156 LogMessageFatal::LogMessageFatal *)
Definition LogMessageFatal (p : place) (file : bytes) (line : Z) : res (time_cache * LogStream) :=
  LogMessage_severity p file line FATAL.
(* @src claire/common/logging/LogMessage.h:158-159 LogMessageFatal::LogMessageFatal *)
Definition LogMessageFatal_check (p : place) (file : bytes) (line : Z) (result : bytes)
  : res (time_cache * LogStream) := LogMessage_check p file line result.

(* @src claire/common/logging/LogMessage.h:181-182 ErrnoLogMessage *)
Record ErrnoLogMessage := MkErrno { message_ : LogStream; preserved_errno_ : Z }.

(** [errno] is the value after message_ has been constructed: the members are
    initialised in their order. *)
(* @src claire/common/logging/LogMessage.h:170-173 ErrnoLogMessage::ErrnoLogMessage *)
Definition ErrnoLogMessage_new (p : place) (file : bytes) (line : Z) (severity : LogSeverity) (ctr errno : Z)
  : res (time_cache * ErrnoLogMessage) :=
  '(c, s) ← LogMessage_ctr p file line severity ctr; Ok (c, MkErrno s errno).

(** The destructor's body; ~LogMessage follows on the stream it leaves. *)
(* @src claire/common/logging/LogMessage.cc:267-270 ErrnoLogMessage::~ErrnoLogMessage *)
Definition put_errno (m : ErrnoLogMessage) : res LogStream :=
  s ← put_cstr (str " : ") (message_ m);
  s ← put_cstr (strerror_tl strerror_r (preserved_errno_ m)) s;
  s ← put_cstr (str " [") s;
  s ← put_int (preserved_errno_ m) s;
  put_cstr (str "] ") s.

Definition ErrnoLogMessage_destroy {W} (o : Outputs W) (term : option bytes) (color also : bool)
  (severity : LogSeverity) (m : ErrnoLogMessage) (w : W) : res (ended W) :=
  s ← put_errno m; end_message o term color also severity s w.

End Constructors.

(** ** Literal file names *)

Lemma after_slash_split t r : after_slash t = Some r -> exists d, t = d ++ r.
Proof.
  revert r. induction t as [|c t IH]; intros r; cbn [after_slash]; [done|].
  destruct (after_slash t) as [r'|].
  - intros [= ->]. destruct (IH r eq_refl) as [d ->]. by exists (c :: d).
  - destruct (c =? 47); [|done]. intros [= ->]. by exists [c].
Qed.

Lemma range_app_l d e n : n <= Zlen d -> range (d ++ e) n = range d n.
Proof.
  intros Hn. unfold range. rewrite Zlen_app. pose proof (Zlen_nonneg e).
  destruct (0 <=? n) eqn:E; [|done]. zify_bool.
  rewrite !(proj2 (Z.leb_le _ _)) by lia. cbn [andb]. rewrite take_app_le by (unfold Zlen in *; lia). done.
Qed.

Lemma stream_Append_app d e s : stream_Append (d ++ e) (Zlen d) s = stream_Append d (Zlen d) s.
Proof.
  unfold stream_Append. destruct (format_ s); [|by rewrite range_app_l by lia].
  unfold buffer_Append. destruct (Zlen d <? avail (buffer_ s)) eqn:E; [by rewrite range_app_l by lia|].
  zify_bool. destruct (0 <? avail (buffer_ s)); [|done]. by rewrite range_app_l by lia.
Qed.

(** A string literal gives the same file name as a pointer to its text. *)
Theorem put_source_literal file s :
  Forall (fun c => c <> 0) file -> Zlen file < 2 ^ 31 - 1 ->
  put_source (SourceFile_array (file ++ [0])) s = put_string (SourceFile file) s.
Proof.
  intros Hz Hlen. unfold SourceFile_array, SourceFile, put_source, put_string.
  assert (c_string (file ++ [0]) = file) as ->.
  { clear Hlen. induction Hz as [|c t Hc _ IH]; [done|]. cbn. by rewrite (proj2 (Z.eqb_neq _ _)), IH by done. }
  rewrite (c_string_id file) by done. rewrite Zlen_app. change (Zlen [0]) with 1.
  replace (Zlen file + 1 - 1) with (Zlen file) by lia. pose proof (Zlen_nonneg file).
  destruct (after_slash file) as [r|] eqn:E; cbn [file_data file_size].
  - destruct (after_slash_split _ _ E) as [d ->]. rewrite Zlen_app in *.
    pose proof (Zlen_nonneg d). pose proof (Zlen_nonneg r).
    rewrite (wrap_s_id 32 (Zlen d + Zlen r)) by (unfold fits_s; lia).
    replace (Zlen d + Zlen r - Zlen r) with (Zlen d) by lia.
    rewrite (wrap_s_id 32 (Zlen d)) by (unfold fits_s; lia).
    replace (Zlen d + Zlen r - Zlen d) with (Zlen r) by lia.
    rewrite (wrap_s_id 32 (Zlen r)), (wrap_u_id 64 (Zlen r)) by (unfold fits_s, fits_u; lia).
    rewrite <- app_assoc. unfold Zlen at 1. rewrite Nat2Z.id, drop_app_length. apply stream_Append_app.
  - rewrite (wrap_s_id 32 (Zlen file)), (wrap_u_id 64 (Zlen file)) by (unfold fits_s, fits_u; lia). apply stream_Append_app.
Qed.

(** ** Text cut off at the end of the buffer *)

(** The stream of a message to which [t] has been logged so far. *)
Definition holds (s : LogStream) (t : bytes) : Prop := message_ready s (take 4096 t).

(** The operation logs [t]. *)
Definition appends (op : LogStream -> res LogStream) (t : bytes) : Prop :=
  forall s t0, holds s t0 -> exists s', op s = Ok s' /\ holds s' (t0 ++ t).

Lemma appends_bind op1 op2 t1 t2 : appends op1 t1 -> appends op2 t2 ->
  appends (fun s => s ← op1 s; op2 s) (t1 ++ t2).
Proof.
  intros A1 A2 s t0 H. destruct (A1 s t0 H) as (s1 & E1 & H1). destruct (A2 s1 _ H1) as (s2 & E2 & H2).
  exists s2. rewrite E1. rstep. split; [done|]. by rewrite app_assoc.
Qed.

Lemma holds_extends s s' t t0 : holds s t0 -> extends s s' -> format_ s' = kNormal ->
  text s' = take (length (data_ (buffer_ s))) (text s ++ t) -> holds s' (t0 ++ t).
Proof.
  intros [_ _ Hs Ht0] [Hok Hsz _] Hf Ht. unfold same_size in Hsz.
  split; [done|done|congruence|]. rewrite Ht, Ht0. unfold kSmallBuffer in Hs.
  assert (length (data_ (buffer_ s)) = 4096%nat) as -> by (unfold Zlen in *; lia). apply take_app_take.
Qed.

Lemma appends_string t : appends (put_string t) t.
Proof.
  intros s t0 H. pose proof (Zlen_nonneg t).
  destruct (append_normal t (Zlen t) s (mr_ok _ _ H) (mr_format _ _ H)) as (s' & E & He & Hf & Ht); [lia|].
  rewrite (take_ge t) in Ht by (unfold Zlen; lia). exists s'. split; [done|]. by eapply holds_extends.
Qed.

Lemma appends_cstr t : Forall (fun c => c <> 0) t -> appends (put_cstr t) t.
Proof.
  intros Ht. unfold put_cstr, strlen. rewrite c_string_id by done. apply appends_string.
Qed.

Lemma appends_char c : appends (put_char c) [c].
Proof.
  intros s t0 H. destruct (put_one [c] s (mr_ok _ _ H) eq_refl) as (s' & E & He & Hf & Ht).
  exists s'. split; [done|]. eapply holds_extends; [done..| |done]. rewrite Hf. apply (mr_format _ _ H).
Qed.

Lemma appends_texts g12 l : appends (put_all g12 (IText <$> l)) (concat l).
Proof.
  intros s t0 H. destruct (put_texts g12 l s (mr_ok _ _ H) (mr_format _ _ H)) as (s' & E & He & Hf & Ht).
  exists s'. split; [done|]. by eapply holds_extends.
Qed.

(** A number is left out when fewer than 32 bytes remain. *)
Lemma holds_int v s t0 : - 2 ^ 63 <= v < 2 ^ 64 -> holds s t0 ->
  exists s', put_int v s = Ok s' /\ holds s' (t0 ++ if Zlen t0 <=? 4064 then sdec v else []).
Proof.
  intros Hv [Hok Hf Hs Ht0]. destruct (put_int_ok v s Hok Hv) as (s' & E & He & Hf' & Ht).
  exists s'. split; [done|]. assert (Hs' := ex_size _ _ He). unfold same_size in Hs'.
  split; [apply He|congruence|congruence|]. rewrite Ht, Ht0. unfold room. rewrite Hs, Ht0.
  unfold kSmallBuffer, kMaxNumericSize. destruct (IntToBuffer_sdec v) as [_ Hl]. specialize (Hl Hv).
  destruct (Zlen t0 <=? 4064) eqn:E1; zify_bool.
  - rewrite (take_ge t0) by (unfold Zlen in *; lia). rewrite (proj2 (Z.leb_le _ _)) by (unfold Zlen in *; lia).
    rewrite take_ge; [done|]. rewrite length_app. unfold Zlen in *. lia.
  - rewrite (proj2 (Z.leb_gt _ _)), app_nil_r; [done|]. unfold Zlen in *. rewrite length_take. lia.
Qed.

(** The destructor emits what has been logged and a newline. *)
Lemma end_message_holds {W} (o : Outputs W) term color also severity s t w : holds s t ->
  exists err, end_message o term color also severity s w =
    Ok (MkEnded err (g_output o (take 4096 (t ++ [10])) w) match severity with FATAL => true | _ => false end).
Proof.
  intros [Hok Hf Hs Ht]. destruct (destroy_writes term color also severity s Hok) as [err E].
  unfold end_message. rewrite E. rstep. exists err. unfold kSmallBuffer in Hs.
  assert (length (data_ (buffer_ s)) = 4096%nat) as -> by (unfold Zlen in *; lia). by rewrite Ht, take_app_take.
Qed.

(** ** Whole messages *)

Section Messages.
Variable gmtime : Z -> tm.
Variable strerror_r : Z -> Z -> bytes.
Context {W : Type} (o : Outputs W) (g12 : double -> bytes).

(** Where a message can be constructed: after 1970, with a thread id of five
    digits and a cached time text that is right. *)
Record place_ok (p : place) : Prop := {
  po_time : 10 ^ 6 <= MicroSecondsSinceEpoch (now p) < 2 ^ 63;
  po_text : Zlen (time_text gmtime (SecondsSinceEpoch (now p))) = 17;
  po_tid : Zlen (tid_string p) = 6;
  po_cache : cache_ok gmtime (cache p);
  po_memory : Zlen (memory p) = kSmallBuffer;
}.

Definition prefix_of (p : place) : LogSeverity -> bytes -> Z -> bytes := header gmtime (now p) (tid_string p).

Lemma header_short p severity file line : place_ok p -> - 2 ^ 31 <= line < 2 ^ 31 -> Zlen (SourceFile file) <= 3900 ->
  Zlen (prefix_of p severity file line) <= 4096.
Proof.
  intros [Ht Hl Htid _ _] Hline Hfile. unfold prefix_of, header. rewrite !Zlen_app, Hl, Htid, zlen_severity.
  destruct (micros_text_ok (Z.rem (MicroSecondsSinceEpoch (now p)) 1000000)) as [Hm _]; [apply Z.rem_bound_pos; lia|].
  destruct (IntToBuffer_sdec line) as [_ Hd]. specialize (Hd ltac:(lia)).
  change (Zlen (str "- ")) with 2. change (Zlen (str " : ")) with 3. change (Zlen [58]) with 1.
  unfold Zlen in *. lia.
Qed.

Lemma construct_holds p severity file line :
  place_ok p -> - 2 ^ 31 <= line < 2 ^ 31 -> Zlen (SourceFile file) <= 3900 ->
  exists c s, construct gmtime p file line severity = Ok (c, s) /\ cache_ok gmtime c /\
    holds s (prefix_of p severity file line).
Proof.
  intros Hp Hline Hfile. destruct Hp as [H1 H2 H3 H4 H5] eqn:E. clear E.
  destruct (Impl_new_ready gmtime file line severity (now p) (tid_string p) (cache p) (memory p) (old_ctr p))
    as (c & s & E & Hc & Hs); [done..|].
  exists c, s. split; [exact E|]. split; [done|]. unfold holds. by rewrite take_ge; [|apply Nat2Z.inj_le, header_short].
Qed.

(** A message with the name of the function: the name and a blank come first. *)
Theorem func_line p file line severity func :
  place_ok p -> - 2 ^ 31 <= line < 2 ^ 31 -> Zlen (SourceFile file) <= 3900 -> Forall (fun c => c <> 0) func ->
  exists c s, LogMessage_func gmtime p file line severity func = Ok (c, s) /\
    holds s (prefix_of p severity file line ++ func ++ str " ").
Proof.
  intros Hp Hline Hfile Hfunc. destruct (construct_holds p severity file line Hp Hline Hfile) as (c & s & E & _ & Hs).
  unfold LogMessage_func. rewrite E. rstep.
  destruct (appends_cstr func Hfunc s _ Hs) as (s1 & E1 & H1). rewrite E1. rstep.
  destruct (appends_char 32 s1 _ H1) as (s2 & E2 & H2). rewrite E2. rstep.
  exists c, s2. split; [done|]. by rewrite <- app_assoc in H2.
Qed.

(** A failed check: the line says "Check failed:" and the result, is cut off at the
    buffer's end, goes to the output function once, and the program aborts. *)
Theorem check_line p file line result texts term color also w :
  place_ok p -> - 2 ^ 31 <= line < 2 ^ 31 -> Zlen (SourceFile file) <= 3900 ->
  exists c s s' err, LogMessage_check gmtime p file line result = Ok (c, s) /\
    put_all g12 (IText <$> texts) s = Ok s' /\
    end_message o term color also FATAL s' w =
      Ok (MkEnded err (g_output o (take 4096 (prefix_of p FATAL file line ++ str "Check failed: " ++ result ++
            str " " ++ concat texts ++ [10])) w) true).
Proof.
  intros Hp Hline Hfile. destruct (construct_holds p FATAL file line Hp Hline Hfile) as (c & s & E & _ & Hs).
  unfold LogMessage_check. rewrite E. rstep.
  assert (A1 : appends (put_cstr (str "Check failed: ")) (str "Check failed: "))
    by (apply appends_cstr; repeat constructor; done).
  assert (A3 : appends (put_cstr (str " ")) (str " ")) by (apply appends_cstr; repeat constructor; done).
  destruct (A1 s _ Hs) as (s1 & E1 & H1). destruct (appends_string result s1 _ H1) as (s2 & E2 & H2).
  destruct (A3 s2 _ H2) as (s3 & E3 & H3). destruct (appends_texts g12 texts s3 _ H3) as (s4 & E4 & H4).
  destruct (end_message_holds o term color also FATAL s4 _ w H4) as [err Ee].
  exists c, s3, s4, err. rewrite E1. rstep. rewrite E2. rstep. rewrite E3. rstep.
  split; [done|]. split; [done|]. rewrite Ee. by rewrite <- !app_assoc.
Qed.

(** An errno message ends with the error's text and number; the number is left out
    when fewer than 32 bytes of the buffer remain. *)
Theorem errno_line p file line severity ctr errno texts term color also w :
  place_ok p -> - 2 ^ 31 <= line < 2 ^ 31 -> Zlen (SourceFile file) <= 3900 -> - 2 ^ 31 <= errno < 2 ^ 31 ->
  Forall (fun c => c <> 0) (strerror_r errno 512) ->
  exists c m s err, ErrnoLogMessage_new gmtime p file line severity ctr errno = Ok (c, m) /\
    put_all g12 (IText <$> texts) (message_ m) = Ok s /\
    let before := prefix_of p severity file line ++ concat texts ++ str " : " ++ strerror_r errno 512 ++ str " [" in
    let number := if Zlen before <=? 4064 then sdec errno else [] in
    ErrnoLogMessage_destroy strerror_r o term color also severity (MkErrno s (preserved_errno_ m)) w =
      Ok (MkEnded err (g_output o (take 4096 (before ++ number ++ str "] " ++ [10])) w)
            match severity with FATAL => true | _ => false end).
Proof.
  intros Hp Hline Hfile Herr Hz. destruct (construct_holds p severity file line Hp Hline Hfile) as (c & s & E & _ & Hs).
  unfold ErrnoLogMessage_new, LogMessage_ctr. rewrite E. rstep.
  assert (Hs' : holds (set_ctr ctr s) (prefix_of p severity file line)) by (destruct Hs; by split).
  destruct (appends_texts g12 texts _ _ Hs') as (s1 & E1 & H1).
  exists c, (MkErrno (set_ctr ctr s) errno), s1. cbn [message_ preserved_errno_].
  unfold ErrnoLogMessage_destroy, put_errno, strerror_tl. cbn [message_ preserved_errno_].
  assert (A1 : appends (put_cstr (str " : ")) (str " : ")) by (apply appends_cstr; repeat constructor; done).
  assert (A3 : appends (put_cstr (str " [")) (str " [")) by (apply appends_cstr; repeat constructor; done).
  assert (A5 : appends (put_cstr (str "] ")) (str "] ")) by (apply appends_cstr; repeat constructor; done).
  destruct (A1 s1 _ H1) as (s2 & E2 & H2). destruct (appends_cstr _ Hz s2 _ H2) as (s3 & E3 & H3).
  destruct (A3 s3 _ H3) as (s4 & E4 & H4). destruct (holds_int errno s4 _ ltac:(lia) H4) as (s5 & E5 & H5).
  destruct (A5 s5 _ H5) as (s6 & E6 & H6). destruct (end_message_holds o term color also severity s6 _ w H6) as [err Ee].
  exists err. split; [done|]. split; [done|]. rewrite E2. rstep. rewrite E3. rstep. rewrite E4. rstep. rewrite E5. rstep.
  rewrite E6. rstep. rewrite Ee. by rewrite <- !app_assoc.
Qed.
End Messages.

(** A fatal message ends the program with its line still in the buffer of stdout:
    no path calls the flush function, whatever it is. *)
Theorem fatal_line_not_flushed flush term color also s w : stream_ok s ->
  exists err line, end_message (SetFlush flush default_outputs) term color also FATAL s w =
    Ok (MkEnded err (MkStdout (buffered w ++ line) (flushed w)) true) /\
    line = take (length (data_ (buffer_ s))) (text s ++ [10]).
Proof.
  intros Hs. destruct (destroy_writes term color also FATAL s Hs) as [err E].
  exists err. eexists. unfold end_message. rewrite E. by split.
Qed.

(** ** Witnesses *)

Definition demo_place : place :=
  MkPlace (MkTimestamp 3600000042) (str " 4711 ") (MkCache (replicate 32 0) 0) (replicate 4096 0) 0.
Definition demo_strerror (e n : Z) : bytes := str "Permission denied".
Definition demo_outputs : Outputs (list bytes) := MkOutputs (fun msg w => w ++ [msg]) (fun w => w).

Lemma demo_place_ok : place_ok demo_gmtime demo_place.
Proof. split; [vm_compute; split; congruence|reflexivity|reflexivity|by left|reflexivity]. Qed.

Example errno_line_text :
  ('(_, m) ← ErrnoLogMessage_new demo_gmtime demo_place (str "src/a.cc") 12 ERROR 0 13;
   s ← put_all (fun _ => []) [IText (str "open")] (message_ m);
   e ← ErrnoLogMessage_destroy demo_strerror demo_outputs None false false ERROR (MkErrno s (preserved_errno_ m)) [];
   Ok (world e)) =
  Ok [str "20130601 01:00:00.000042Z  4711 ERROR- a.cc:12 : open : Permission denied [13] " ++ [10]].
Proof. vm_compute. reflexivity. Qed.

Lemma put_source_literal_witness :
  put_source (SourceFile_array (str "src/a.cc" ++ [0])) (LogStream_new (replicate 16 0) 0) =
  put_string (SourceFile (str "src/a.cc")) (LogStream_new (replicate 16 0) 0).
Proof. apply (put_source_literal (str "src/a.cc")); [repeat constructor; done|reflexivity]. Defined.

Lemma func_line_witness :
  exists c s, LogMessage_func demo_gmtime demo_place (str "a.cc") 1 DEBUG (str "main") = Ok (c, s) /\
    holds s (prefix_of demo_gmtime demo_place DEBUG (str "a.cc") 1 ++ str "main" ++ str " ").
Proof.
  apply (func_line demo_gmtime demo_place (str "a.cc") 1 DEBUG (str "main"));
    [apply demo_place_ok|lia|vm_compute; congruence|repeat constructor; done].
Defined.

Lemma check_line_witness :
  exists c s s' err, LogMessage_check demo_gmtime demo_place (str "a.cc") 1 (str "x == y") = Ok (c, s) /\
    put_all (fun _ => []) (IText <$> [str "why"]) s = Ok s' /\
    end_message demo_outputs None false false FATAL s' [] =
      Ok (MkEnded err ([] ++ [take 4096 (prefix_of demo_gmtime demo_place FATAL (str "a.cc") 1 ++
            str "Check failed: " ++ str "x == y" ++ str " " ++ concat [str "why"] ++ [10])]) true).
Proof.
  apply (check_line demo_gmtime demo_outputs (fun _ => []) demo_place (str "a.cc") 1 (str "x == y") [str "why"]);
    [apply demo_place_ok|lia|vm_compute; congruence].
Defined.

Lemma fatal_line_not_flushed_witness :
  exists err line, end_message (SetFlush DefaultFlush default_outputs) None false false FATAL
      (LogStream_new (replicate 8 0) 0) (MkStdout [] []) =
    Ok (MkEnded err (MkStdout ([] ++ line) []) true) /\ line = take 8 ([] ++ [10]).
Proof.
  apply (fatal_line_not_flushed DefaultFlush None false false (LogStream_new (replicate 8 0) 0) (MkStdout [] [])).
  split; vm_compute; [split; congruence|reflexivity].
Defined.

Lemma errno_line_witness :
  exists c m s err, ErrnoLogMessage_new demo_gmtime demo_place (str "a.cc") 1 ERROR 0 13 = Ok (c, m) /\
    put_all (fun _ => []) (IText <$> [str "open"]) (message_ m) = Ok s /\
    let before := prefix_of demo_gmtime demo_place ERROR (str "a.cc") 1 ++ concat [str "open"] ++ str " : " ++
      demo_strerror 13 512 ++ str " [" in
    let number := if Zlen before <=? 4064 then sdec 13 else [] in
    ErrnoLogMessage_destroy demo_strerror demo_outputs None false false ERROR (MkErrno s (preserved_errno_ m)) [] =
      Ok (MkEnded err ([] ++ [take 4096 (before ++ number ++ str "] " ++ [10])]) false).
Proof.
  apply (errno_line demo_gmtime demo_strerror demo_outputs (fun _ => []) demo_place (str "a.cc") 1 ERROR 0 13
    [str "open"]); [apply demo_place_ok|lia|vm_compute; congruence|lia|repeat constructor; done].
Defined.
