(* ===== verification/Logger.v ===== *)
(** * logging/LogFile and Logger

    claire/common/logging/LogFile.{h,cc}: the file a log goes to and when it is
    rolled, as effects on the file system; and Logger.{h,cc}: the writer thread
    and the double buffering that hands it what other threads append, as a
    transition system with one step per critical section. *)

From S2P Require Import Prelude Bytes Timestamp LogStream.
Open Scope Z_scope.

(** ** LogFile *)
Module LogFile.
Section LogFile.

(** What LogFile asks of the file system, in order. *)
Inductive effect :=
  | OpenAppend (name : bytes)
  | WriteData (data : bytes)
  | FlushFile
  | DropPages (length : Z)
  | DeleteFile (name : bytes)
  | SymLink (old new : bytes).

(** The answers of FileUtil::FileExists, ReadLink and GetFileSize. *)
Record filesystem := FS {
  FileExists : bytes -> bool;
  ReadLink : bytes -> option bytes;
  GetFileSize : bytes -> option Z;
}.

Variables (FLAGS_max_log_size FLAGS_logbufsecs : Z) (FLAGS_log_dir base_name : bytes)
  (FLAGS_drop_log_memory : bool) (getpagesize : Z).

(* @src claire/common/logging/LogFile.cc:25-26 kCheckTimeRoll, kSecondsPerDay *)
Definition kCheckTimeRoll : Z := 1024.
Definition kSecondsPerDay : Z := 60 * 60 * 24.

(** [written] is file_->WrittenBytes(), [None] while file_ is NULL. *)
(* @src claire/common/logging/LogFile.h:36-42 LogFile *)
Record LogFile := MkLogFile {
  count_ : Z;
  written : option Z;
  last_period_ : Z;
  last_roll_ : Z;
  last_flush_ : Z;
}.

Definition directory : bytes :=
  match last FLAGS_log_dir with
  | Some c => if c =? 47 then FLAGS_log_dir else FLAGS_log_dir ++ str "/"
  | None => FLAGS_log_dir
  end.

(** [now] is the formatted time; the rest comes from ThisProcess. *)
(* @src claire/common/logging/LogFile.cc:144-163 LogFile::GetLogFileName *)
Definition GetLogFileName (now host pid user : bytes) : bytes :=
  directory ++ base_name ++ str "." ++ now ++ str "." ++ host ++ str "." ++ pid ++ str "." ++ user ++ str ".log".

(* @src claire/common/logging/LogFile.cc:165-176 LogFile::GetLinkLogFileName *)
Definition GetLinkLogFileName : bytes := directory ++ base_name ++ str ".log".

(** [now] is the second of the call, [name] GetLogFileName() in it. *)
(* @src claire/common/logging/LogFile.cc:101-131 LogFile::RollFile *)
Definition RollFile (fs : filesystem) (now : Z) (name : bytes) (f : LogFile) : LogFile * list effect :=
  let start := Z.quot now kSecondsPerDay * kSecondsPerDay in
  if last_roll_ f <? now then
    let link_name := GetLinkLogFileName in
    (MkLogFile (count_ f) (Some 0) start now now,
     [OpenAppend name] ++
     (if FileExists fs link_name then
        match ReadLink fs link_name with
        | Some fname =>
            match GetFileSize fs fname with
            | Some length => if length =? 0 then [DeleteFile fname] else []
            | None => []
            end
        | None => []
        end ++ [DeleteFile link_name]
      else []) ++
     [SymLink name link_name])
  else (f, []).

(* @src claire/common/logging/LogFile.cc:30-40 LogFile::LogFile *)
Definition LogFile_new (fs : filesystem) (now : Z) (name : bytes) : res (LogFile * list effect) :=
  _ ← check (negb (bool_decide (47 ∈ base_name)));
  Ok (RollFile fs now name (MkLogFile 0 None 0 0 0)).

(** The product of the flag in megabytes is computed in 32 bits. *)
(* @src claire/common/logging/LogFile.cc:70-99 LogFile::AppendUnLocked *)
Definition AppendUnLocked (fs : filesystem) (now : Z) (name : bytes) (data : bytes) (f : LogFile)
  : res (LogFile * list effect) :=
  match written f with
  | None => Err NullDeref
  | Some w =>
      let w := w + Zlen data in
      let f := MkLogFile (count_ f) (Some w) (last_period_ f) (last_roll_ f) (last_flush_ f) in
      if uint32 (uint32 (uint32 FLAGS_max_log_size * 1024) * 1024) <? w then
        let '(f, effs) := RollFile fs now name f in Ok (f, WriteData data :: effs)
      else if kCheckTimeRoll <? count_ f then
        let f := MkLogFile 0 (written f) (last_period_ f) (last_roll_ f) (last_flush_ f) in
        let this_period := Z.quot now kSecondsPerDay * kSecondsPerDay in
        if negb (this_period =? last_period_ f) then
          let '(f, effs) := RollFile fs now name f in Ok (f, WriteData data :: effs)
        else if FLAGS_logbufsecs <? now - last_flush_ f then
          Ok (MkLogFile (count_ f) (written f) (last_period_ f) (last_roll_ f) now, [WriteData data; FlushFile])
        else Ok (f, [WriteData data])
      else
        Ok (MkLogFile (count_ f + 1) (written f) (last_period_ f) (last_roll_ f) (last_flush_ f), [WriteData data])
  end.

(** With the mutex, if there is one, held throughout. *)
(* @src claire/common/logging/LogFile.cc:42-53 LogFile::Append *)
Definition Append (fs : filesystem) (now : Z) (name : bytes) (data : bytes) (f : LogFile)
  : res (LogFile * list effect) := AppendUnLocked fs now name data f.

(* @src claire/common/logging/LogFile.cc:133-142 LogFile::DropFileMemory *)
Definition DropFileMemory (f : LogFile) : res (list effect) :=
  match written f with
  | None => Err NullDeref
  | Some length =>
      Ok (if FLAGS_drop_log_memory && (getpagesize <=? int32 length)
          then [DropPages (Z.land length (Z.lnot (getpagesize - 1)))] else [])
  end.

(* @src claire/common/logging/LogFile.cc:55-68 LogFile::Flush *)
Definition Flush (f : LogFile) : res (list effect) :=
  match written f with
  | None => Err NullDeref
  | Some _ => effs ← DropFileMemory f; Ok (FlushFile :: effs)
  end.

(** A sequence of appends, each with the state of the file system, the second
    and the file name at the time. *)
Fixpoint append_all (l : list (filesystem * Z * bytes * bytes)) (f : LogFile) : res (LogFile * list effect) :=
  match l with
  | [] => Ok (f, [])
  | (fs, now, name, data) :: l =>
      '(f, effs) ← Append fs now name data f;
      '(f, rest) ← append_all l f;
      Ok (f, effs ++ rest)
  end.

(** ** Properties *)

(** The bytes written, and the number of files opened. *)
Definition data_of (effs : list effect) : bytes :=
  concat ((fun e => match e with WriteData d => d | _ => [] end) <$> effs).

Fixpoint opens (effs : list effect) : nat :=
  match effs with
  | [] => 0
  | OpenAppend _ :: effs => S (opens effs)
  | _ :: effs => opens effs
  end.

Lemma data_of_app a b : data_of (a ++ b) = data_of a ++ data_of b.
Proof. unfold data_of. by rewrite fmap_app, concat_app. Qed.

Lemma opens_app a b : opens (a ++ b) = (opens a + opens b)%nat.
Proof. induction a as [|[] a IH]; cbn [opens app]; lia. Qed.

(** A roll opens one file, or does nothing when the second is the last roll's. *)
Lemma RollFile_effects fs now name f : is_Some (written f) ->
  let '(f', effs) := RollFile fs now name f in
  data_of effs = [] /\ is_Some (written f') /\ Z.of_nat (opens effs) <= last_roll_ f' - last_roll_ f.
Proof.
  intros Hw. unfold RollFile. destruct (last_roll_ f <? now) eqn:E; zify_bool.
  2: { split; [done|]. split; [done|]. cbn. lia. }
  rewrite !data_of_app, !opens_app. cbn [last_roll_ written]. split; [|split; [done|]].
  all: destruct (FileExists fs _); [|cbn; try done; lia].
  all: rewrite ?data_of_app, ?opens_app; destruct (ReadLink fs _) as [n|]; [|cbn; try done; lia].
  all: destruct (GetFileSize fs n) as [len|]; [|cbn; try done; lia].
  all: destruct (len =? 0); cbn; try done; lia.
Qed.

Lemma Append_effects fs now name data f : is_Some (written f) ->
  exists f' effs, Append fs now name data f = Ok (f', effs) /\ is_Some (written f') /\
    data_of effs = data /\ Z.of_nat (opens effs) <= last_roll_ f' - last_roll_ f.
Proof.
  intros [w Hw]. unfold Append, AppendUnLocked. rewrite Hw.
  assert (Hroll : forall g, is_Some (written g) -> last_roll_ g = last_roll_ f ->
    exists f' effs, (let '(h, effs) := RollFile fs now name g in Ok (h, WriteData data :: effs)) = Ok (f', effs) /\
      is_Some (written f') /\ data_of effs = data /\ Z.of_nat (opens effs) <= last_roll_ f' - last_roll_ f).
  { intros g Hg Hl. pose proof (RollFile_effects fs now name g Hg) as H.
    destruct (RollFile fs now name g) as [h effs]. destruct H as (Hd & Hh & Ho). exists h, (WriteData data :: effs).
    split; [done|]. split; [done|]. split; [|by rewrite <- Hl].
    change (WriteData data :: effs) with ([WriteData data] ++ effs). rewrite data_of_app, Hd. cbn.
    by rewrite !app_nil_r. }
  destruct (_ <? w + Zlen data); [by apply Hroll|].
  destruct (kCheckTimeRoll <? _); [destruct (negb _); [by apply Hroll|destruct (_ <? _)]|];
    eexists _, _; (split; [reflexivity|]); cbn; rewrite ?app_nil_r; (split; [done|]); (split; [done|lia]).
Qed.

(** Nothing appended is lost or reordered, whatever the clock does: the bytes
    written to the files, in order, are the bytes appended; and at most one file
    is opened per second that has passed since the last roll. *)
Theorem appends_complete l f : is_Some (written f) ->
  exists f' effs, append_all l f = Ok (f', effs) /\ is_Some (written f') /\
    data_of effs = concat (snd <$> l) /\ Z.of_nat (opens effs) <= last_roll_ f' - last_roll_ f.
Proof.
  revert f. induction l as [|[[[fs now] name] data] l IH]; intros f Hw; cbn [append_all].
  { exists f, []. cbn. split; [done|]. split; [done|]. split; [done|lia]. }
  destruct (Append_effects fs now name data f Hw) as (f1 & e1 & -> & Hw1 & Hd1 & Ho1). rstep.
  destruct (IH f1 Hw1) as (f2 & e2 & -> & Hw2 & Hd2 & Ho2). rstep.
  exists f2, (e1 ++ e2). rewrite data_of_app, opens_app, Hd1, Hd2.
  split; [done|]. split; [done|]. split; [done|lia].
Qed.
End LogFile.

(** With a limit of 4096 megabytes or a multiple of it the limit is zero. *)
Example limit_wraps : uint32 (uint32 (uint32 4096 * 1024) * 1024) = 0.
Proof. reflexivity. Qed.
End LogFile.

(** ** Logger *)
Module Logger.
Section Logger.

(** The size of a buffer, kLargeBuffer in the program. A buffer is the text in it;
    LogStream shows that Append keeps what fits. *)
Variable SIZE : nat.

Definition Buffer : Type := bytes.

(* @src claire/common/logging/LogBuffer.h:35-51 LogBuffer::Append *)
Definition buffer_add (d : bytes) (b : Buffer) : Buffer := take SIZE (b ++ d).

(** Where the writer thread is in ThreadMain: at while (running_), before the
    critical section, in WaitForSeconds, after the critical section, or done. *)
Inductive location := AtTest | AtLock | InWait | Writing | Exited.

(** What the writer did with the buffers it took, in order. *)
Inductive event := Written (b : Buffer) | Dropped (b : Buffer) | Notice (text : bytes).

(** buffer1, buffer2 and buffers_to_write are locals of ThreadMain; NULL is
    [None]. [appended] is the history of the bytes accepted, [output] that of the
    writer. *)
(* @src claire/common/logging/Logger.h:72-85 Logger *)
Record Logger := MkLogger {
  running_ : bool;
  current_buffer_ : option Buffer;
  next_buffer_ : option Buffer;
  buffers_ : list Buffer;
  buffer1 : option Buffer;
  buffer2 : option Buffer;
  buffers_to_write : list Buffer;
  at_ : location;
  appended : bytes;
  output : list event;
}.

(** A logger that was started. *)
(* @src claire/common/logging/Logger.cc:16-29 Logger::Logger *)
Definition init : Logger := MkLogger true (Some []) (Some []) [] (Some []) (Some []) [] AtTest [] [].

(** What a buffer of the given contents takes of [d]. *)
Definition taken (d : bytes) (b : Buffer) : bytes := take (SIZE - length b) d.

(* @src claire/common/logging/Logger.cc:31-53 Logger::Append *)
Definition Append (d : bytes) (l : Logger) : res Logger :=
  match current_buffer_ l with
  | None => Err NullDeref
  | Some cur =>
      if (length d <? SIZE - length cur)%nat then
        Ok (MkLogger (running_ l) (Some (buffer_add d cur)) (next_buffer_ l) (buffers_ l) (buffer1 l) (buffer2 l)
              (buffers_to_write l) (at_ l) (appended l ++ taken d cur) (output l))
      else
        let buffers := buffers_ l ++ [cur] in
        let '(fresh, next) := match next_buffer_ l with Some b => (b, None) | None => ([], None) end in
        Ok (MkLogger (running_ l) (Some (buffer_add d fresh)) next buffers (buffer1 l) (buffer2 l)
              (buffers_to_write l) (at_ l) (appended l ++ taken d fresh) (output l))
  end.

(** The writer's critical section after the wait: it takes all buffers. *)
(* @src claire/common/logging/Logger.cc:94-101 Logger::ThreadMain *)
Definition swap_buffers (l : Logger) : res Logger :=
  match current_buffer_ l with
  | None => Err NullDeref
  | Some cur =>
      let '(next, b2) := match next_buffer_ l with Some b => (Some b, buffer2 l) | None => (buffer2 l, None) end in
      Ok (MkLogger (running_ l) (buffer1 l) next (buffers_to_write l) None b2
            (buffers_ l ++ [cur]) Writing (appended l) (output l))
  end.

Definition goto (a : location) (l : Logger) : Logger :=
  MkLogger (running_ l) (current_buffer_ l) (next_buffer_ l) (buffers_ l) (buffer1 l) (buffer2 l)
    (buffers_to_write l) a (appended l) (output l).

(** assert(buffer && buffer->length() == 0). *)
Definition is_clean (b : option Buffer) : bool := match b with Some [] => true | _ => false end.

(** Refill a NULL buffer from the written ones: pop_back, then Reset. *)
(* @src claire/common/logging/Logger.cc:130-142 Logger::ThreadMain *)
Definition refill (b : option Buffer) (w : list Buffer) : res (option Buffer * list Buffer) :=
  match b with
  | Some b => Ok (Some b, w)
  | None => _ ← check (negb (bool_decide (w = []))); Ok (Some [], removelast w)
  end.

(** The rest of the loop's body; [notice] formats the overload message. *)
(* @src claire/common/logging/Logger.cc:104-145 Logger::ThreadMain *)
Definition write_buffers (notice : nat -> bytes) (l : Logger) : res Logger :=
  let w := buffers_to_write l in
  _ ← check (negb (bool_decide (w = [])));
  let '(w, dropped) :=
    if (25 <? length w)%nat
    then (take 2 w, Notice (notice (length w - 2)%nat) :: (Written <$> take 2 w) ++ (Dropped <$> drop 2 w))
    else (w, Written <$> w) in
  let out := output l ++ dropped in
  let w := if (2 <? length w)%nat then take 2 w else w in
  '(b1, w) ← refill (buffer1 l) w;
  '(b2, w) ← refill (buffer2 l) w;
  Ok (MkLogger (running_ l) (current_buffer_ l) (next_buffer_ l) (buffers_ l) b1 b2 [] AtTest (appended l) out).

Inductive action :=
  | CallAppend (d : bytes)           (** any thread *)
  | CallStop                         (** Stop(): running_ = false, Notify() *)
  | TestRunning
  | TakeLock
  | WakeUp                           (** notified, timed out or spurious *)
  | Write (notice : nat -> bytes).

(* @src claire/common/logging/Logger.cc:82-148 Logger::ThreadMain *)
Definition step (a : action) (l : Logger) : option (res Logger) :=
  match a with
  | CallAppend d => Some (Append d l)
  | CallStop =>
      if running_ l
      then Some (Ok (MkLogger false (current_buffer_ l) (next_buffer_ l) (buffers_ l) (buffer1 l) (buffer2 l)
                       (buffers_to_write l) (at_ l) (appended l) (output l)))
      else None
  | TestRunning =>
      match at_ l with
      | AtTest =>
          if running_ l then
            Some (_ ← check (is_clean (buffer1 l)); _ ← check (is_clean (buffer2 l));
                  _ ← check (bool_decide (buffers_to_write l = [])); Ok (goto AtLock l))
          else Some (Ok (goto Exited l))
      | _ => None
      end
  | TakeLock =>
      match at_ l with
      | AtLock => if bool_decide (buffers_ l = []) then Some (Ok (goto InWait l)) else Some (swap_buffers l)
      | _ => None
      end
  | WakeUp => match at_ l with InWait => Some (swap_buffers l) | _ => None end
  | Write notice => match at_ l with Writing => Some (write_buffers notice l) | _ => None end
  end.

Fixpoint run (acts : list action) (l : Logger) : option (res Logger) :=
  match acts with
  | [] => Some (Ok l)
  | a :: acts => match step a l with Some (Ok l) => run acts l | r => r end
  end.

Lemma logger_run_app acts acts' l l' r : run acts l = Some (Ok l') -> run acts' l' = r -> run (acts ++ acts') l = r.
Proof.
  revert l. induction acts as [|a acts IH]; intros l; cbn [run app]; [by intros [= ->]|].
  destruct (step a l) as [[l1|]|]; [apply IH|done..].
Qed.

(** ** The invariant *)

(** The bytes the writer has dealt with, whether it wrote or dropped them. *)
Definition bytes_of (e : event) : bytes := match e with Written b | Dropped b => b | Notice _ => [] end.

Definition held (b : option Buffer) : bytes := match b with Some b => b | None => [] end.

Record inv (l : Logger) : Prop := {
  i_flow : appended l = concat (bytes_of <$> output l) ++ concat (buffers_to_write l) ++ concat (buffers_ l) ++
                        held (current_buffer_ l);
  i_current : is_Some (current_buffer_ l);
  i_next : next_buffer_ l = Some [] \/ (next_buffer_ l = None /\ buffers_ l <> []);
  i_clean : match at_ l with
    | Writing =>
        buffer1 l = None /\ (buffer2 l = Some [] /\ buffers_to_write l <> [] \/
                             buffer2 l = None /\ (2 <= length (buffers_to_write l))%nat)
    | _ => buffer1 l = Some [] /\ buffer2 l = Some [] /\ buffers_to_write l = []
    end;
  i_size : forall b, current_buffer_ l = Some b -> (length b <= SIZE)%nat;
}.

Lemma logger_inv_init : inv init.
Proof. split; cbn; try done; [by left|]. intros b [= <-]. cbn. lia. Qed.

Lemma buffer_add_taken d b : (length b <= SIZE)%nat -> buffer_add d b = b ++ taken d b.
Proof. intros Hb. unfold buffer_add, taken. rewrite take_app, (take_ge b) by lia. done. Qed.

Lemma logger_inv_Append d l : inv l -> exists l', Append d l = Ok l' /\ inv l'.
Proof.
  intros [F [cur Hc] N C S]. unfold Append. rewrite Hc in *. cbn [held] in F. specialize (S cur eq_refl).
  destruct (_ <? _)%nat eqn:E.
  - eexists. split; [reflexivity|]. split; cbn; [|by eexists|done|done|].
    + rewrite buffer_add_taken by done. rewrite F. by rewrite !app_assoc.
    + intros b [= <-]. unfold buffer_add. rewrite length_take. lia.
  - assert (exists next, match next_buffer_ l with Some b => (b, None) | None => ([], None) end = ([] : Buffer, next) /\
      next = @None Buffer) as (next & -> & ->) by (destruct N as [->|[-> _]]; by eexists).
    eexists. split; [reflexivity|]. split; cbn; [|by eexists|right; split; [done|by destruct (buffers_ l)]|done|].
    + rewrite buffer_add_taken by (cbn; lia). rewrite F, concat_app. cbn. by rewrite app_nil_r, <- !app_assoc.
    + intros b [= <-]. unfold buffer_add. rewrite length_take. lia.
Qed.

Lemma logger_inv_swap l : inv l -> at_ l <> Writing -> exists l', swap_buffers l = Ok l' /\ inv l'.
Proof.
  intros [F [cur Hc] N C S] Hat. unfold swap_buffers. rewrite Hc in *. cbn [held] in F.
  assert (Hb : buffer1 l = Some [] /\ buffer2 l = Some [] /\ buffers_to_write l = []) by (destruct (at_ l); done).
  destruct Hb as (H1 & H2 & Hw). rewrite H1, H2, Hw in *. cbn in F.
  destruct N as [Hn|[Hn Hne]]; rewrite Hn; eexists; (split; [reflexivity|]); split; cbn; try done;
    try (by eexists); try (by left); try (intros b [= <-]; cbn; lia).
  - rewrite concat_app. cbn. by rewrite !app_nil_r, F, !app_assoc.
  - split; [done|]. left. split; [done|]. by destruct (buffers_ l).
  - rewrite concat_app. cbn. by rewrite !app_nil_r, F, !app_assoc.
  - split; [done|]. right. split; [done|]. rewrite length_app. cbn.
    destruct (buffers_ l); [done|cbn; lia].
Qed.

Lemma bytes_of_written w : concat (bytes_of <$> (Written <$> w)) = concat w.
Proof. induction w as [|b w IH]; [done|]. cbn. by rewrite IH. Qed.

Lemma bytes_of_dropped w : concat (bytes_of <$> (Dropped <$> w)) = concat w.
Proof. induction w as [|b w IH]; [done|]. cbn. by rewrite IH. Qed.

Lemma refill_ok w1 b2 : w1 <> [] -> (b2 = Some [] \/ b2 = None /\ (2 <= length w1)%nat) ->
  exists w2 w3, refill None w1 = Ok (Some [], w2) /\ refill b2 w2 = Ok (Some [], w3).
Proof.
  intros Hne Hb. unfold refill. rewrite bool_decide_eq_false_2 by done. rstep.
  destruct Hb as [->|[-> Hl]]; [by eexists _, _|].
  destruct w1 as [|a [|b w1]]; cbn in Hl; try lia. change (removelast (a :: b :: w1)) with (a :: removelast (b :: w1)).
  eexists _, _. split; [reflexivity|]. rewrite bool_decide_eq_false_2 by done. reflexivity.
Qed.

Lemma logger_inv_write notice l : inv l -> at_ l = Writing -> exists l', write_buffers notice l = Ok l' /\ inv l'.
Proof.
  intros [F Hc N C S] Hat. rewrite Hat in C. destruct C as (H1 & C). unfold write_buffers.
  set (w := buffers_to_write l) in *.
  assert (Hne : w <> []) by (destruct C as [[_ ?]|[_ ?]]; [done|intros E; rewrite E in *; cbn in *; lia]).
  rewrite bool_decide_eq_false_2 by done. rstep.
  assert (exists w1 evs, (if (25 <? length w)%nat
      then (take 2 w, Notice (notice (length w - 2)%nat) :: (Written <$> take 2 w) ++ (Dropped <$> drop 2 w))
      else (w, Written <$> w)) = (w1, evs) /\ concat (bytes_of <$> evs) = concat w /\
      (length (if (2 <? length w1)%nat then take 2 w1 else w1) = Nat.min 2 (length w)))
    as (w1 & evs & -> & Hev & Hl).
  { destruct (25 <? length w)%nat eqn:E.
    - apply Nat.ltb_lt in E. eexists _, _. split; [reflexivity|]. split.
      + cbn [fmap list_fmap bytes_of concat app]. rewrite fmap_app, concat_app, bytes_of_written, bytes_of_dropped.
        by rewrite <- concat_app, take_drop.
      + destruct (2 <? _)%nat; rewrite ?length_take; lia.
    - eexists _, _. split; [reflexivity|]. split; [apply bytes_of_written|].
      destruct (2 <? length w)%nat eqn:E2; [apply Nat.ltb_lt in E2|apply Nat.ltb_ge in E2]; rewrite ?length_take; lia. }
  set (w2 := if (2 <? length w1)%nat then take 2 w1 else w1) in *.
  assert (Hlw : (1 <= length w)%nat) by (destruct w; [done|cbn; lia]).
  destruct (refill_ok w2 (buffer2 l)) as (w3 & w4 & E1 & E2).
  { intros E. assert (length w2 = 0%nat) by (by rewrite E). lia. }
  { destruct C as [[-> _]|[-> Hl2]]; [by left|]. right. split; [done|lia]. }
  rewrite H1, E1. rstep. rewrite E2. rstep. eexists. split; [reflexivity|]. split; cbn; try done.
  rewrite fmap_app, concat_app, Hev, F. by rewrite <- !app_assoc.
Qed.

Lemma logger_inv_step a l r : inv l -> step a l = Some r -> exists l', r = Ok l' /\ inv l'.
Proof.
  intros I. pose proof I as [F Hc N C S]. destruct a; cbn [step].
  - intros [= <-]. by apply logger_inv_Append.
  - destruct (running_ l); [|done]. intros [= <-]. eexists. split; [reflexivity|]. by split.
  - destruct (at_ l) eqn:Ha; try done. destruct C as (H1 & H2 & H3). destruct (running_ l).
    + rewrite H1, H2, H3. intros [= <-].
      eexists. split; [reflexivity|]. by split.
    + intros [= <-]. eexists. split; [reflexivity|]. by split.
  - destruct (at_ l) eqn:Ha; try done. case_bool_decide.
    + intros [= <-]. eexists. split; [reflexivity|]. by split.
    + intros [= <-]. apply logger_inv_swap; [done|by rewrite Ha].
  - destruct (at_ l) eqn:Ha; try done. intros [= <-]. apply logger_inv_swap; [done|by rewrite Ha].
  - destruct (at_ l) eqn:Ha; try done. intros [= <-]. by apply logger_inv_write.
Qed.

Lemma logger_run_inv acts : forall l r, inv l -> run acts l = Some r -> exists l', r = Ok l' /\ inv l'.
Proof.
  induction acts as [|a acts IH]; intros l r I; cbn [run]; [intros [= <-]; eauto|].
  destruct (step a l) as [r1|] eqn:E; [|done].
  destruct (logger_inv_step a l r1 I E) as (l1 & -> & I1). by apply IH.
Qed.

(** The double buffering is sound. Whatever threads append, and whenever the
    writer is scheduled, woken or stopped, no assertion of ThreadMain fails and no
    NULL buffer is used; and every byte accepted is, in order, in a buffer the
    writer has written or has dropped under overload, in one it is about to
    write, or in one of the front buffers. *)
Theorem logger_conserves acts r :
  run acts init = Some r ->
  exists l, r = Ok l /\
    appended l = concat (bytes_of <$> output l) ++ concat (buffers_to_write l) ++ concat (buffers_ l) ++
                 held (current_buffer_ l).
Proof.
  intros Hr. destruct (logger_run_inv acts init r logger_inv_init Hr) as (l & -> & I).
  exists l. split; [done|]. apply I.
Qed.
End Logger.

(** ** Witnesses *)

Definition demo_actions : list action :=
  [TestRunning; TakeLock; CallAppend [1; 2; 3]; CallAppend [4; 5]; WakeUp; CallAppend [6]; Write (fun _ => [])].

Lemma logger_conserves_witness :
  exists l, run 4 demo_actions init =
    Some (Ok (MkLogger true (Some [6]) (Some []) [] (Some []) (Some []) [] AtTest [1; 2; 3; 4; 5; 6]
               [Written [1; 2; 3]; Written [4; 5]])) /\
  match run 4 demo_actions init with Some r => r = Ok l /\
    appended l = concat (bytes_of <$> output l) ++ concat (buffers_to_write l) ++ concat (buffers_ l) ++
                 held (current_buffer_ l) | None => False end.
Proof.
  destruct (logger_conserves 4 demo_actions (Ok (MkLogger true (Some [6]) (Some []) [] (Some []) (Some []) [] AtTest
    [1; 2; 3; 4; 5; 6] [Written [1; 2; 3]; Written [4; 5]])) eq_refl) as (l & E & H).
  exists l. split; [reflexivity|]. split; [exact E|exact H].
Defined.

(** A message appended after the writer's last critical section and before Stop()
    is in a front buffer when the writer is done: it is never written. *)
Example stop_loses_messages :
  run 4 [TestRunning; TakeLock; WakeUp; CallAppend [7]; CallStop; Write (fun _ => []); TestRunning] init =
  Some (Ok (MkLogger false (Some [7]) (Some []) [] (Some []) (Some []) [] Exited [7] [Written []])).
Proof. reflexivity. Qed.
End Logger.
