(* ===== verification/LoggerMonitor.v ===== *)
(** * The threads of a Logger

    What the appending threads, the writer and Stop() of
    claire/common/logging/Logger.{h,cc} do, statement by statement: the bodies under
    mutex_ and, without it, the writer's tests, its output and the write of running_.
    The Logger of Logger.v, with one step per critical section, is shown to have
    every behaviour of these threads. The notification of Stop, which is made
    without the mutex, and the end of the time given to WaitForSeconds are among the
    wake-ups that may come at any time. *)

From S2P Require Import Prelude Bytes Threading Monitor Logger.
Open Scope Z_scope.

Section LoggerMonitor.
Variable SIZE : nat.
(** The thread that runs ThreadMain. *)
Variable writer : Z.

Notation Buffer := Logger.Buffer.

(** [fault] tells that a thread has used a NULL buffer or failed an assertion. *)
Record state := St { lg : Logger.Logger; fault : bool }.

(** A statement of a body. *)
Definition stmt (f : Logger.Logger -> res Logger.Logger) (s : state) : state :=
  match f (lg s) with Ok l => St l (fault s) | Err _ => St (lg s) true end.

(** The members that are used under the mutex. *)
Definition with_shared (c n : option Buffer) (b : list Buffer) (ap : bytes) (l : Logger.Logger) : Logger.Logger :=
  Logger.MkLogger (Logger.running_ l) c n b (Logger.buffer1 l) (Logger.buffer2 l) (Logger.buffers_to_write l)
    (Logger.at_ l) ap (Logger.output l).

(** *** The statements under the mutex *)

(** current_buffer_->Append(data, length); *)
(* @src claire/common/logging/Logger.cc:50-50 Logger::Append *)
Definition append_current (d : bytes) (l : Logger.Logger) : res Logger.Logger :=
  match Logger.current_buffer_ l with
  | None => Err NullDeref
  | Some cur => Ok (with_shared (Some (Logger.buffer_add SIZE d cur)) (Logger.next_buffer_ l) (Logger.buffers_ l)
                     (Logger.appended l ++ Logger.taken SIZE d cur) l)
  end.

(** buffers_.push_back(current_buffer_.release()); also in Append. *)
(* @src claire/common/logging/Logger.cc:94-94 Logger::ThreadMain *)
Definition push_current (l : Logger.Logger) : res Logger.Logger :=
  match Logger.current_buffer_ l with
  | None => Err NullDeref
  | Some cur => Ok (with_shared None (Logger.next_buffer_ l) (Logger.buffers_ l ++ [cur]) (Logger.appended l) l)
  end.

(** current_buffer_ = move(next_buffer_), or a new buffer. *)
(* @src claire/common/logging/Logger.cc:41-48 Logger::Append *)
Definition take_next (l : Logger.Logger) : res Logger.Logger :=
  Ok (match Logger.next_buffer_ l with
      | Some b => with_shared (Some b) None (Logger.buffers_ l) (Logger.appended l) l
      | None => with_shared (Some []) None (Logger.buffers_ l) (Logger.appended l) l
      end).

(** buffers_to_write.swap(buffers_); *)
(* @src claire/common/logging/Logger.cc:95-95 Logger::ThreadMain *)
Definition swap_lists (l : Logger.Logger) : res Logger.Logger :=
  Ok (Logger.MkLogger (Logger.running_ l) (Logger.current_buffer_ l) (Logger.next_buffer_ l) (Logger.buffers_to_write l)
        (Logger.buffer1 l) (Logger.buffer2 l) (Logger.buffers_ l) (Logger.at_ l) (Logger.appended l) (Logger.output l)).

(** current_buffer_ = move(buffer1); *)
(* @src claire/common/logging/Logger.cc:97-97 Logger::ThreadMain *)
Definition give_buffer1 (l : Logger.Logger) : res Logger.Logger :=
  Ok (Logger.MkLogger (Logger.running_ l) (Logger.buffer1 l) (Logger.next_buffer_ l) (Logger.buffers_ l)
        None (Logger.buffer2 l) (Logger.buffers_to_write l) (Logger.at_ l) (Logger.appended l) (Logger.output l)).

(** if (!next_buffer_) next_buffer_ = move(buffer2); *)
(* @src claire/common/logging/Logger.cc:98-101 Logger::ThreadMain *)
Definition give_buffer2 (l : Logger.Logger) : res Logger.Logger :=
  Ok (match Logger.next_buffer_ l with
      | Some _ => l
      | None => Logger.MkLogger (Logger.running_ l) (Logger.current_buffer_ l) (Logger.buffer2 l) (Logger.buffers_ l)
                  (Logger.buffer1 l) None (Logger.buffers_to_write l) (Logger.at_ l) (Logger.appended l) (Logger.output l)
      end).

(** The writer goes on after the block. *)
Definition after_block (l : Logger.Logger) : res Logger.Logger := Ok (Logger.goto Logger.Writing l).

(** Append(), and the block of ThreadMain: from its start, or from the return of
    WaitForSeconds, after which the code does not test again. The writer may also
    come to the second directly: that is a wait that returns at once. *)
Inductive op := Append (d : bytes) | Collect | CollectAgain.

Definition resume (o : op) : op := match o with Collect => CollectAgain | _ => o end.

(* @src claire/common/logging/Logger.cc:94-101 Logger::ThreadMain *)
Definition swap_body : list (state -> state) :=
  [stmt push_current; stmt swap_lists; stmt give_buffer1; stmt give_buffer2; stmt after_block].

(* @src claire/common/logging/Logger.cc:31-53 Logger::Append *)
Definition enter_append (d : bytes) (s : state) : @decision state unit :=
  match Logger.current_buffer_ (lg s) with
  | None => Go [stmt (fun _ => Err NullDeref)] Silent
  | Some cur =>
      if (length d <? SIZE - length cur)%nat then Go [stmt (append_current d)] Silent
      else Go [stmt push_current; stmt take_next; stmt (append_current d)] (One tt)
  end.

(* @src claire/common/logging/Logger.cc:88-102 Logger::ThreadMain *)
Definition enter (t : Z) (o : op) (s : state) : decision :=
  match o with
  | Append d => enter_append d s
  | Collect => if bool_decide (Logger.buffers_ (lg s) = []) then Block tt else Go swap_body Silent
  | CollectAgain => Go swap_body Silent
  end.

Definition may (t : Z) (o : op) (s : state) : Prop :=
  match o with
  | Append _ => True
  | Collect | CollectAgain => t = writer /\ Logger.at_ (lg s) = Logger.AtLock
  end.

(** *** Without the mutex: Stop(), and the rest of the writer's loop *)
Inductive outside := CallStop | TestRunning | Write (notice : nat -> bytes).

Definition action_of (x : outside) : Logger.action :=
  match x with
  | CallStop => Logger.CallStop
  | TestRunning => Logger.TestRunning
  | Write notice => Logger.Write notice
  end.

Definition lift (r : option (res Logger.Logger)) (s : state) : option state :=
  match r with
  | None => None
  | Some (Ok l) => Some (St l (fault s))
  | Some (Err _) => Some (St (lg s) true)
  end.

(** Any thread stops the logger; the rest is the writer's. *)
Definition permitted (t : Z) (x : outside) : bool :=
  match x with CallStop => true | TestRunning | Write _ => bool_decide (t = writer) end.

(** Stop() and the parts of ThreadMain outside the block, as steps of Logger. *)
(* @src claire/common/logging/Logger.cc:82-148 Logger::ThreadMain *)
Definition ext (t : Z) (x : outside) (s : state) : option state :=
  if permitted t x then lift (Logger.step SIZE (action_of x) (lg s)) s else None.

(** ** The accesses without the mutex *)

(** The statements that use only the members under the mutex. *)
Definition on_shared (f : Logger.Logger -> res Logger.Logger) : Prop :=
  exists g, forall l, f l =
    match g (Logger.current_buffer_ l) (Logger.next_buffer_ l) (Logger.buffers_ l) (Logger.appended l) with
    | Some (c, n, b, ap) => Ok (with_shared c n b ap l)
    | None => Err NullDeref
    end.

Lemma on_shared_append_current d : on_shared (append_current d).
Proof.
  exists (fun c n b ap => cur ← c; Some (Some (Logger.buffer_add SIZE d cur), n, b, ap ++ Logger.taken SIZE d cur)).
  intros l. unfold append_current. by destruct (Logger.current_buffer_ l).
Qed.

Lemma on_shared_push_current : on_shared push_current.
Proof.
  exists (fun c n b ap => cur ← c; Some (None, n, b ++ [cur], ap)). intros l. unfold push_current.
  by destruct (Logger.current_buffer_ l).
Qed.

Lemma on_shared_take_next : on_shared take_next.
Proof.
  exists (fun c n b ap => Some (match n with Some x => Some x | None => Some [] end, None, b, ap)).
  intros l. unfold take_next. by destruct (Logger.next_buffer_ l).
Qed.

Lemma on_shared_null : on_shared (fun _ => Err NullDeref).
Proof. by exists (fun _ _ _ _ => None). Qed.

(** What is done without the mutex neither reads nor writes those members. *)
Lemma step_with_shared x c n b ap l :
  Logger.step SIZE (action_of x) (with_shared c n b ap l) =
  match Logger.step SIZE (action_of x) l with
  | None => None
  | Some (Ok l') => Some (Ok (with_shared c n b ap l'))
  | Some (Err e) => Some (Err e)
  end.
Proof.
  destruct l as [r cu ne bu b1 b2 w a app out]. destruct x as [| |notice]; cbn.
  - by destruct r.
  - destruct a, r; try done. destruct (Logger.is_clean b1), (Logger.is_clean b2), (bool_decide (w = [])); done.
  - destruct a; try done. unfold Logger.write_buffers. cbn. destruct (negb _); [|done]. cbn.
    destruct (if (25 <? length w)%nat then _ else _) as [w1 evs].
    destruct (Logger.refill b1 _) as [[b1' w2]|]; [|done]. cbn. by destruct (Logger.refill b2 w2) as [[b2' w3]|].
Qed.

Lemma step_keeps_shared x l l' : Logger.step SIZE (action_of x) l = Some (Ok l') ->
  Logger.current_buffer_ l' = Logger.current_buffer_ l /\ Logger.next_buffer_ l' = Logger.next_buffer_ l /\
  Logger.buffers_ l' = Logger.buffers_ l /\ Logger.appended l' = Logger.appended l.
Proof.
  intros Hs. pose proof (step_with_shared x (Logger.current_buffer_ l) (Logger.next_buffer_ l) (Logger.buffers_ l)
    (Logger.appended l) l) as H.
  assert (E : with_shared (Logger.current_buffer_ l) (Logger.next_buffer_ l) (Logger.buffers_ l) (Logger.appended l) l = l)
    by by destruct l.
  rewrite E, Hs in H. injection H as ->. done.
Qed.

(** ... and so commutes with the statements of Append. *)
Lemma ext_on_shared u x f s : on_shared f -> ext u x (stmt f s) = stmt f <$> ext u x s.
Proof.
  intros (g & Hg). unfold ext. destruct (permitted u x); [|done]. destruct s as [l ft].
  assert (Hs : forall l ft, stmt f (St l ft) =
    match g (Logger.current_buffer_ l) (Logger.next_buffer_ l) (Logger.buffers_ l) (Logger.appended l) with
    | Some (c, n, b, ap) => St (with_shared c n b ap l) ft
    | None => St l true
    end) by (intros k fk; unfold stmt; cbn; rewrite Hg; by destruct (g _ _ _ _) as [[[[? ?] ?] ?]|]).
  rewrite Hs. destruct (g _ _ _ _) as [[[[c n] b] ap]|] eqn:E; cbn; [rewrite step_with_shared|].
  all: destruct (Logger.step SIZE (action_of x) l) as [[l'|e]|] eqn:Es; cbn; [| |done]; rewrite Hs; [|by rewrite E].
  all: destruct (step_keeps_shared _ _ _ Es) as (H1 & H2 & H3 & H4); by rewrite H1, H2, H3, H4, E.
Qed.

Definition same_place (f : state -> state) : Prop := forall s, Logger.at_ (lg (f s)) = Logger.at_ (lg s).

Lemma same_place_on_shared f : on_shared f -> same_place (stmt f).
Proof. intros (g & Hg) s. unfold stmt. rewrite Hg. by destruct (g _ _ _ _) as [[[[? ?] ?] ?]|]. Qed.

(** The statements of the writer commute with Stop. *)
Lemma ext_swap_body u x f s : u <> writer -> f ∈ swap_body -> ext u x (f s) = f <$> ext u x s.
Proof.
  intros Hu Hf. unfold ext. destruct x; cbn [permitted]; [|by rewrite bool_decide_eq_false_2..].
  destruct s as [[r cu ne bu b1 b2 w a app out] ft]. unfold swap_body in Hf.
  repeat (apply elem_of_cons in Hf as [->|Hf]); [..|by apply elem_of_nil in Hf];
    unfold stmt; cbn; try destruct cu; try destruct ne; by destruct r.
Qed.

(** What a statement of thread [t] is to the others. *)
Definition local_to (t : Z) (f : state -> state) : Prop :=
  (forall u x s, u <> t -> ext u x (f s) = f <$> ext u x s) /\ (t <> writer -> same_place f).

Lemma local_on_shared t f : on_shared f -> local_to t (stmt f).
Proof. intros H. split; [intros u x s _; by apply ext_on_shared|intros _; by apply same_place_on_shared]. Qed.

Lemma local_swap_body : Forall (local_to writer) swap_body.
Proof. apply Forall_forall. intros f Hf. split; [|done]. intros u x s Hu. by apply ext_swap_body. Qed.

Lemma logger_local_body t o s body sig : may t o s -> enter t o s = Go body sig -> Forall (local_to t) body.
Proof.
  intros Hm He. destruct o as [d| |]; cbn in *.
  - unfold enter_append in He. repeat case_match; simplify_eq; repeat apply Forall_cons_2; try apply Forall_nil_2;
      apply local_on_shared; [apply on_shared_append_current|apply on_shared_push_current|apply on_shared_take_next
        |apply on_shared_append_current|apply on_shared_null].
  - destruct Hm as [-> _]. case_bool_decide; simplify_eq. apply local_swap_body.
  - destruct Hm as [-> _]. simplify_eq. apply local_swap_body.
Qed.

Lemma logger_local_all t u fs s : u <> t -> Forall (local_to t) fs ->
  (t <> writer -> Logger.at_ (lg (apply_all fs s)) = Logger.at_ (lg s)) /\
  forall x, ext u x (apply_all fs s) = apply_all fs <$> ext u x s.
Proof.
  intros Hu Hf. revert s. induction Hf as [|f fs [Hx Hp] _ IH]; intros s.
  { split; [done|]. intros x. cbn. by destruct (ext u x s). }
  destruct (IH (f s)) as (Hp' & Hx'). change (apply_all (f :: fs) s) with (apply_all fs (f s)). split.
  - intros Ht. by rewrite Hp', (Hp Ht).
  - intros x. rewrite Hx', Hx by done. by destruct (ext u x s).
Qed.

Lemma logger_ext_keeps u x s s' : ext u x s = Some s' ->
  Logger.current_buffer_ (lg s') = Logger.current_buffer_ (lg s) /\ Logger.buffers_ (lg s') = Logger.buffers_ (lg s) /\
  (u <> writer -> Logger.at_ (lg s') = Logger.at_ (lg s)).
Proof.
  unfold ext. destruct (permitted u x) eqn:Ep; [|done]. unfold lift.
  destruct (Logger.step SIZE (action_of x) (lg s)) as [[l'|]|] eqn:Es; [| |done]; intros [= <-]; [|done]. cbn.
  destruct (step_keeps_shared _ _ _ Es) as (H1 & _ & H3 & _). split; [done|]. split; [done|]. intros Hu.
  destruct x; cbn in Ep; [|by rewrite bool_decide_eq_false_2 in Ep..]. cbn in Es. by destruct (Logger.running_ _); simplify_eq.
Qed.

Lemma logger_ext_enter t u o x s s' body sig : u <> t -> may t o s -> enter t o s = Go body sig ->
  ext u x s = Some s' -> enter t o s' = Go body sig.
Proof.
  intros _ _ Hen He. destruct (logger_ext_keeps _ _ _ _ He) as (Hc & Hb & _). destruct o as [d| |]; cbn in *; [|by rewrite Hb|done].
  unfold enter_append in *. by rewrite Hc.
Qed.

Lemma logger_ext_commutes t u o x s before rest sig : u <> t -> may t o s -> enter t o s = Go (before ++ rest) sig ->
  ext u x (apply_all before s) = apply_all before <$> ext u x s.
Proof.
  intros Hu Hm He. pose proof (logger_local_body _ _ _ _ _ Hm He) as [Hl _]%Forall_app. by apply (logger_local_all t u before s Hu Hl).
Qed.

Lemma logger_ext_may t u o x s s' : u <> t -> may t o s -> ext u x s = Some s' -> may t o s'.
Proof.
  intros Hu Hm He. destruct (logger_ext_keeps _ _ _ _ He) as (_ & _ & Ha). destruct o; cbn in *; [done|..];
    destruct Hm as [-> Hm]; by rewrite Ha.
Qed.

Lemma resume_may t o s : may t o s -> may t (resume o) s.
Proof. by destruct o. Qed.

Lemma logger_body_may t u o o' s before rest sig : u <> t -> may u o' s -> enter u o' s = Go (before ++ rest) sig ->
  may t o (apply_all before s) <-> may t o s.
Proof.
  intros Hu Hm He. pose proof (logger_local_body _ _ _ _ _ Hm He) as [Hl _]%Forall_app.
  destruct (logger_local_all u t before s (not_eq_sym Hu) Hl) as (Hp & _). destruct o; cbn; [done|..];
    (split; intros [-> H]; (split; [done|]); [rewrite <- Hp by done|rewrite Hp by done]; done).
Qed.

(** ** The bodies as a whole *)

(** A thread that has failed is never forgotten. *)
Definition keeps_fault (f : state -> state) : Prop := forall s, fault s = true -> fault (f s) = true.

Lemma keeps_fault_stmt f : keeps_fault (stmt f).
Proof. intros s Hs. unfold stmt. by destruct (f (lg s)). Qed.

Lemma keeps_fault_body t o s body sig : enter t o s = Go body sig -> Forall keeps_fault body.
Proof.
  intros He. destruct o as [d| |]; cbn in He; [unfold enter_append in He|..]; repeat case_match; simplify_eq;
    repeat apply Forall_cons_2; try apply Forall_nil_2; apply keeps_fault_stmt.
Qed.

Lemma keeps_fault_all fs s : Forall keeps_fault fs -> fault (apply_all fs s) = false -> fault s = false.
Proof.
  intros Hf. revert s. induction Hf as [|f fs Hf _ IH]; intros s; [done|].
  change (apply_all (f :: fs) s) with (apply_all fs (f s)). intros H%IH. destruct (fault s) eqn:E; [|done].
  by rewrite Hf in H.
Qed.

Lemma append_body d s body sig l : enter_append d s = Go body sig -> Logger.Append SIZE d (lg s) = Ok l ->
  apply_all body s = St l (fault s).
Proof.
  destruct s as [[r cu ne bu b1 b2 w a app out] ft]. unfold enter_append, Logger.Append. cbn -[Nat.ltb].
  destruct cu as [cur|]; [|done]. destruct (length d <? SIZE - length cur)%nat; [by intros [= <- <-] [= <-]|].
  destruct ne as [n|]; by intros [= <- <-] [= <-].
Qed.

Lemma swap_body_all s l : Logger.swap_buffers (lg s) = Ok l -> apply_all swap_body s = St l (fault s).
Proof.
  destruct s as [[r cu ne bu b1 b2 w a app out] ft]. unfold Logger.swap_buffers. cbn.
  destruct cu as [cur|]; [|done]. by destruct ne as [n|]; intros [= <-].
Qed.

(** ** The Logger *)

Notation status := (@status op unit).
Implicit Types (a : @atom state op unit).

(** The threads' Logger has the writer at the critical section while it sleeps. *)
Definition placed (st : status) (l : Logger.Logger) : Logger.Logger :=
  match st with AIdle => l | _ => Logger.goto Logger.InWait l end.

Definition sound (t : Z) (st : status) : Prop :=
  match st with
  | AIdle => True
  | ASleeping o _ => t = writer /\ o = Collect
  | AWoken o => t = writer /\ o = CollectAgain
  end.

Record matches (a : @atom state op unit) (l : Logger.Logger) : Prop := {
  m_fault : fault (ashared a) = false;
  m_logger : l = placed (astat a writer) (lg (ashared a));
  m_inv : Logger.inv SIZE l;
  m_sound : forall t, sound t (astat a t);
}.

Lemma logger_matches_init : matches (ainit (St Logger.init false)) Logger.init.
Proof. split; try done. apply Logger.logger_inv_init. Qed.

(** Waking changes neither. *)
Lemma placed_wake ws (st : Z -> status) l : placed (wake_stat resume ws st writer) l = placed (st writer) l.
Proof. unfold wake_stat. destruct (st writer); try done. by case_bool_decide. Qed.

Lemma sound_wake ws (st : Z -> status) : (forall t, sound t (st t)) -> forall t, sound t (wake_stat resume ws st t).
Proof. intros H t. specialize (H t). unfold wake_stat. destruct (st t); try done. case_bool_decide; [|done]. by destruct H as [-> ->]. Qed.

Lemma sound_upd (st : Z -> status) t x : (forall u, sound u (st u)) -> sound t x -> forall u, sound u (upd st t x u).
Proof. intros H Hx u. destruct (decide (u = t)) as [->|Hu]; [by rewrite upd_eq|by rewrite upd_ne]. Qed.

Lemma placed_append d st l l' : Logger.Append SIZE d (placed st l) = Ok l' ->
  exists k, Logger.Append SIZE d l = Ok k /\ l' = placed st k.
Proof.
  destruct st as [|o c|o]; cbn [placed]; [by eexists|..]; unfold Logger.Append; destruct l as [r cu ne bu b1 b2 w a app out];
    cbn -[Nat.ltb];
    (destruct cu as [cur|]; [|done]); destruct (length d <? SIZE - length cur)%nat; try destruct ne; intros [= <-]; by eexists.
Qed.

(** What a thread does without the mutex is the Logger's step. *)
Lemma logger_matches_ext a t x s l : astat a t = AIdle -> ext t x (ashared a) = Some s -> matches a l ->
  exists l', Logger.step SIZE (action_of x) l = Some (Ok l') /\ matches (MkAtom s (acond a) (astat a)) l'.
Proof.
  intros Hst He [Mf Ml Mi Ms]. unfold ext in He. destruct (permitted t x) eqn:Ep; [|done].
  assert (exists k, Logger.step SIZE (action_of x) (lg (ashared a)) = Some k /\
    Logger.step SIZE (action_of x) l = Some (match k with Ok k => Ok (placed (astat a writer) k) | Err e => Err e end))
    as (k & Hk & Hl).
  { subst l. destruct x; cbn [permitted] in Ep.
    - cbn in *. destruct (Logger.running_ (lg (ashared a))) eqn:Er; [|done]. eexists. split; [reflexivity|].
      destruct (astat a writer); cbn; by rewrite Er.
    - apply bool_decide_eq_true_1 in Ep as ->. rewrite Hst. cbn [placed].
      destruct (Logger.step _ _ _) as [[k|e]|]; [by eexists..|done].
    - apply bool_decide_eq_true_1 in Ep as ->. rewrite Hst. cbn [placed].
      destruct (Logger.step _ _ _) as [[k|e]|]; [by eexists..|done]. }
  destruct (Logger.logger_inv_step SIZE _ _ _ Mi Hl) as (l' & El & Il). rewrite Hk in He. destruct k as [k|e]; [|done].
  injection He as <-. injection El as <-. eexists. split; [exact Hl|]. by split.
Qed.

(** A critical section after which its thread is out of the monitor. *)
Lemma matches_leave a t o s l w ws : ready (astat a t) o -> (t = writer -> l = lg s) ->
  (t <> writer -> l = placed (astat a writer) (lg s)) -> fault s = false -> Logger.inv SIZE l ->
  (forall u, sound u (astat a u)) -> matches (MkAtom s w (wake_stat resume ws (upd (astat a) t AIdle))) l.
Proof.
  intros Hr Hw Ho Hf Hi Hs. split; cbn; [done| |done|by apply sound_wake, sound_upd]. rewrite placed_wake.
  destruct (decide (t = writer)) as [->|Ht]; [by rewrite upd_eq; apply Hw|by rewrite upd_ne; auto].
Qed.

Lemma matches_append a t d body sig l w ws : ready (astat a t) (Append d) -> enter_append d (ashared a) = Go body sig ->
  matches a l -> exists l', Logger.step SIZE (Logger.CallAppend d) l = Some (Ok l') /\
    matches (MkAtom (apply_all body (ashared a)) w (wake_stat resume ws (upd (astat a) t AIdle))) l'.
Proof.
  intros Hr He [Mf Ml Mi Ms]. destruct (Logger.logger_inv_Append SIZE d l Mi) as (l' & Ha & Hi).
  exists l'. split; [by rewrite <- Ha|]. rewrite Ml in Ha. destruct (placed_append _ _ _ _ Ha) as (k & Hk & Hl).
  rewrite (append_body _ _ _ _ _ He Hk). apply (matches_leave a t (Append d)); try done. intros ->.
  destruct Hr as [Hr|Hr]; [by rewrite Hl, Hr|]. pose proof (Ms writer) as H. rewrite Hr in H. by destruct H.
Qed.

(** The writer's block, from its start or after the wait. *)
Lemma matches_swap a o l w ws : ready (astat a writer) o -> Logger.at_ (lg (ashared a)) = Logger.AtLock ->
  (o = Collect /\ Logger.buffers_ (lg (ashared a)) <> [] \/ o = CollectAgain) -> matches a l ->
  exists acts l', Logger.run SIZE acts l = Some (Ok l') /\
    matches (MkAtom (apply_all swap_body (ashared a)) w (wake_stat resume ws (upd (astat a) writer AIdle))) l'.
Proof.
  intros Hr Hat Ho M. destruct M as [Mf Ml Mi Ms].
  assert (Hn : Logger.at_ l <> Logger.Writing) by (rewrite Ml; destruct (astat a writer); cbn; congruence).
  destruct (Logger.logger_inv_swap SIZE l Mi Hn) as (l' & Hsw & Hi).
  assert (Hsw' : Logger.swap_buffers (lg (ashared a)) = Ok l') by (rewrite <- Hsw, Ml; by destruct (astat a writer)).
  assert (exists acts, Logger.run SIZE acts l = Some (Ok l')) as (acts & Hrun).
  { destruct Hr as [Hr|Hr]; rewrite Hr in Ml; cbn [placed] in Ml; subst l.
    - destruct (decide (Logger.buffers_ (lg (ashared a)) = [])) as [Hb|Hb].
      + exists [Logger.TakeLock; Logger.WakeUp]. cbn. rewrite Hat, bool_decide_eq_true_2 by done. cbn.
        change (Logger.swap_buffers (Logger.goto Logger.InWait ?k)) with (Logger.swap_buffers k). by rewrite Hsw'.
      + exists [Logger.TakeLock]. cbn. rewrite Hat, bool_decide_eq_false_2 by done. by rewrite Hsw'.
    - exists [Logger.WakeUp]. cbn. cbn in Hsw. by rewrite Hsw. }
  exists acts, l'. split; [done|]. rewrite (swap_body_all _ _ Hsw'). by apply (matches_leave a writer o).
Qed.

Lemma logger_matches_block a l w : ready (astat a writer) Collect -> Logger.at_ (lg (ashared a)) = Logger.AtLock ->
  Logger.buffers_ (lg (ashared a)) = [] -> matches a l ->
  exists l', Logger.step SIZE Logger.TakeLock l = Some (Ok l') /\
    matches (MkAtom (ashared a) w (upd (astat a) writer (ASleeping Collect tt))) l'.
Proof.
  intros Hr Hat Hb [Mf Ml Mi Ms]. assert (Hi : astat a writer = AIdle).
  { destruct Hr as [Hr|Hr]; [done|]. pose proof (Ms writer) as H. rewrite Hr in H. by destruct H. }
  rewrite Hi in Ml. cbn in Ml. subst l.
  assert (Hs : Logger.step SIZE Logger.TakeLock (lg (ashared a)) = Some (Ok (Logger.goto Logger.InWait (lg (ashared a)))))
    by (cbn; by rewrite Hat, bool_decide_eq_true_2).
  destruct (Logger.logger_inv_step SIZE _ _ _ Mi Hs) as (l' & El & Il). injection El as <-.
  eexists. split; [exact Hs|]. split; cbn; [done|by rewrite upd_eq|done|by apply sound_upd].
Qed.

(** Every step of the atomic monitor is none or some of the Logger. *)
Lemma logger_matches_step a a' l : astep enter may ext resume a a' -> matches a l ->
  exists acts l', Logger.run SIZE acts l = Some (Ok l') /\ matches a' l'.
Proof.
  intros Hs M. destruct Hs as [t x s s' w st Hst He|t o body sig u w' ws s w st Hr Hm Hen He
    |t o [] s w st Hr Hm Hen|t o [] s w st Hst].
  - destruct (logger_matches_ext (MkAtom s w st) t x s' l Hst He M) as (l' & Hl & M'). exists [action_of x], l'. cbn. by rewrite Hl.
  - destruct o as [d| |]; cbn in Hen.
    + destruct (matches_append (MkAtom s w st) t d body sig l w' ws Hr Hen M) as (l' & Hl & M').
      exists [Logger.CallAppend d], l'. cbn -[Logger.Append] in *. split; [by injection Hl as ->|done].
    + destruct Hm as [-> Hat]. case_bool_decide; simplify_eq.
      apply (matches_swap (MkAtom s w st) Collect l w' ws Hr Hat); [by left|done].
    + destruct Hm as [-> Hat]. simplify_eq. apply (matches_swap (MkAtom s w st) CollectAgain l w' ws Hr Hat); [by right|done].
  - destruct o as [d| |]; cbn in Hen; [unfold enter_append in Hen; by repeat case_match| |done].
    destruct Hm as [-> Hat]. case_bool_decide; [|done].
    destruct (logger_matches_block (MkAtom s w st) l (upd w tt (writer :: w tt)) Hr Hat) as (l' & Hl & M'); [done..|].
    exists [Logger.TakeLock], l'. split; [|done]. cbn [Logger.run]. by rewrite Hl.
  - exists [], l. split; [done|]. destruct M as [Mf Ml Mi Ms]. cbn in *. pose proof (Ms t) as Ht. rewrite Hst in Ht.
    destruct Ht as [-> ->]. split; cbn; [done|by rewrite upd_eq, Ml, Hst|done|by apply sound_upd].
Qed.

Lemma logger_matches_run a a' : rtc (astep enter may ext resume) a a' -> forall l, matches a l ->
  exists acts l', Logger.run SIZE acts l = Some (Ok l') /\ matches a' l'.
Proof.
  induction 1 as [a|a1 a2 a3 H12 _ IH]; intros l M; [by exists [], l|].
  destruct (logger_matches_step _ _ _ H12 M) as (acts & l1 & H1 & M1). destruct (IH _ M1) as (acts' & l2 & H2 & M2).
  exists (acts ++ acts'), l2. split; [|done]. by apply (Logger.logger_run_app SIZE acts acts' l l1 _ H1).
Qed.

(** No statement of a body fails. *)
Lemma body_no_fault a t o body sig l : may t o (ashared a) -> enter t o (ashared a) = Go body sig -> matches a l ->
  fault (apply_all body (ashared a)) = false.
Proof.
  intros Hm He [Mf Ml Mi Ms].
  assert (Hsw : t = writer /\ Logger.at_ (lg (ashared a)) = Logger.AtLock ->
    fault (apply_all swap_body (ashared a)) = false).
  { intros [_ Hat]. destruct (Logger.logger_inv_swap SIZE l Mi) as (k & Hk & _).
    - rewrite Ml. destruct (astat a writer); cbn; congruence.
    - rewrite (swap_body_all _ k); [done|]. rewrite <- Hk, Ml. by destruct (astat a writer). }
  destruct o as [d| |]; cbn in Hm, He; [|case_bool_decide; [done|]|]; [|by injection He as <- <-; apply Hsw..].
  destruct (Logger.logger_inv_Append SIZE d l Mi) as (k & Hk & _). rewrite Ml in Hk.
  destruct (placed_append _ _ _ _ Hk) as (k' & Hk' & _). by rewrite (append_body _ _ _ _ _ He Hk').
Qed.

Lemma refined_no_fault (c : @conf state op unit) a l : refines enter may c a -> matches a l -> fault (shared c) = false.
Proof.
  intros R M. pose proof (r_data _ _ _ _ R) as Hd. unfold data_ok in Hd.
  destruct (Mutex.owner (mtx c)) as [t|]; [|rewrite Hd; apply M].
  pose proof (r_may _ _ _ _ R t) as Hm. destruct (pcs c t) as [| |o before rest sig| | | |]; try (rewrite Hd; apply M).
  destruct Hd as [He Hs]. pose proof (body_no_fault _ _ _ _ _ _ (Hm _ eq_refl) He M) as Hf.
  pose proof (keeps_fault_body _ _ _ _ _ He) as [_ Hk]%Forall_app. apply (keeps_fault_all rest); [done|].
  rewrite Hs. unfold apply_all in *. by rewrite foldl_app in Hf.
Qed.

(** C32: the threads of a Logger, in any interleaving of their steps on the mutex,
    on the condition variable and on the members, statement by statement, with
    running_ reset and the buffers written outside the mutex, use no NULL buffer
    and fail no assertion, and reach only states of Logger: when no thread is amid
    its statements, the Logger is one that is reached with one step per critical
    section, in its wait while the writer sleeps. There every byte accepted is, in
    order, in a buffer the writer has written or has dropped under overload, in
    one it is about to write, or in one of the front buffers. *)
Theorem logger_threads_refine CHECK_ERR c : Mutex.fails_on_minus_one CHECK_ERR ->
  rtc (sched enter may ext resume CHECK_ERR) (cinit (St Logger.init false)) c ->
  fault (shared c) = false /\
  exists acts l, Logger.run SIZE acts Logger.init = Some (Ok l) /\
    Logger.appended l = concat (Logger.bytes_of <$> Logger.output l) ++ concat (Logger.buffers_to_write l) ++
      concat (Logger.buffers_ l) ++ Logger.held (Logger.current_buffer_ l) /\
    (settled c -> l = match pcs c writer with
                      | Sleeping _ _ | Woken _ => Logger.goto Logger.InWait (lg (shared c))
                      | _ => lg (shared c)
                      end).
Proof.
  intros glog Hr.
  destruct (reaches_refines enter may ext resume CHECK_ERR glog logger_ext_enter logger_ext_commutes logger_ext_may resume_may logger_body_may _ c Hr)
    as (a & Ha & R).
  destruct (logger_matches_run _ _ Ha _ logger_matches_init) as (acts & l & Hl & M).
  split; [by apply (refined_no_fault c a l)|]. exists acts, l. split; [done|]. split; [apply M|].
  intros Hs. destruct (refines_settled _ _ _ _ R Hs) as [-> _]. rewrite (m_logger _ _ M).
  pose proof (r_threads _ _ _ _ R writer) as Hok. specialize (Hs writer).
  destruct (pcs c writer); cbn in Hok; try done; by destruct Hok as [-> _].
Qed.
End LoggerMonitor.

(** ** Witness *)

(** Thread [t] makes the next step of a concrete run. *)
Local Tactic Notation "next" constr(t) uconstr(step) :=
  eapply rtc_l; [exists t; split; [lia|eapply step; try reflexivity; try (left; reflexivity); try (right; reflexivity); try reflexivity]|].

Local Tactic Notation "outside" constr(t) uconstr(y) :=
  eapply rtc_l; [exists t; split; [lia|eapply c_ext with (x := y); reflexivity]|].

Local Tactic Notation "call" constr(t) uconstr(o) tactic3(tac) :=
  eapply rtc_l; [exists t; split; [lia|eapply c_call with (op := o); [reflexivity|tac]]|].

(** Thread 2 writes. It waits; thread 1 fills the buffer of four bytes, takes the
    next and wakes it, and stops the logger while the writer is amid its statements. *)
Lemma logger_threads_refine_witness : exists c : @conf state op unit,
  rtc (sched (enter 4) (may 2) (ext 4 2) resume Mutex.glog_check_err) (cinit (St Logger.init false)) c /\
  Logger.output (lg (shared c)) = [Logger.Written [1; 2; 3]; Logger.Written [4; 5]] /\
  Logger.at_ (lg (shared c)) = Logger.Exited /\
  fault (shared c) = false /\
  exists acts l, Logger.run 4 acts Logger.init = Some (Ok l) /\
    Logger.appended l = concat (Logger.bytes_of <$> Logger.output l) ++ concat (Logger.buffers_to_write l) ++
      concat (Logger.buffers_ l) ++ Logger.held (Logger.current_buffer_ l) /\
    (settled c -> l = match pcs c 2 with
                      | Sleeping _ _ | Woken _ => Logger.goto Logger.InWait (lg (shared c))
                      | _ => lg (shared c)
                      end).
Proof.
  assert (H : exists c : @conf state op unit,
    rtc (sched (enter 4) (may 2) (ext 4 2) resume Mutex.glog_check_err) (cinit (St Logger.init false)) c /\
    Logger.output (lg (shared c)) = [Logger.Written [1; 2; 3]; Logger.Written [4; 5]] /\
    Logger.at_ (lg (shared c)) = Logger.Exited).
  { eexists. split.
    - call 1 (Append [1; 2; 3]) (exact Logic.I). next 1 c_lock. next 1 c_assign. next 1 c_enter. next 1 c_update.
      eapply rtc_l; [exists 1; split; [lia|eapply c_signal with (u := 2); reflexivity]|]. next 1 c_unassign. next 1 c_unlock.
      outside 2 TestRunning. call 2 Collect (split; reflexivity). next 2 c_lock. next 2 c_assign. next 2 c_block. next 2 c_sleep.
      call 1 (Append [4; 5]) (exact Logic.I). next 1 c_lock. next 1 c_assign. next 1 c_enter.
      next 1 c_update. next 1 c_update. next 1 c_update.
      eapply rtc_l; [exists 1; split; [lia|eapply c_signal with (u := 2); reflexivity]|]. next 1 c_unassign. next 1 c_unlock.
      next 2 c_reacquire. next 2 c_assign. next 2 c_enter. next 2 c_update. next 2 c_update. outside 1 CallStop.
      next 2 c_update. next 2 c_update. next 2 c_update.
      eapply rtc_l; [exists 2; split; [lia|eapply c_signal with (u := 2); reflexivity]|]. next 2 c_unassign. next 2 c_unlock.
      outside 2 (Write (fun _ => [])). outside 2 TestRunning. apply rtc_refl.
    - split; reflexivity. }
  destruct H as (c & Hr & Ho & Ht). exists c. split; [exact Hr|]. split; [exact Ho|]. split; [exact Ht|].
  apply (logger_threads_refine 4 2 Mutex.glog_check_err c (fun v => eq_refl) Hr).
Defined.
