(* ===== verification/LoggerOwner.v ===== *)
(** * Starting and stopping a Logger

    Start, Stop and the destructor of claire/common/logging/Logger.h, composed from
    Thread and CountDownLatch, with the beginning and the end of the writer's
    ThreadMain. What the writer does in its loop is in Logger and LoggerMonitor. *)

From S2P Require Import Prelude Bytes Threading.
Open Scope Z_scope.

(** Where the writer is in ThreadMain, up to the loop and after it. *)
Inductive writer_at := NotCreated | AtAssert | AtCountDown | InLoop | Exited.

(** Where the thread that starts and stops the logger is. *)
Inductive owner_at := Outside | InStart | InStop.

Record state := St {
  running_ : bool;
  thread_ : Thread.Thread;
  latch_ : Latch.CountDownLatch;
  writer : writer_at;
  owner : owner_at;
}.

(** The id of the owner. *)
Definition me : Z := 1.

(* @src claire/common/logging/Logger.cc:16-24 Logger::Logger *)
Definition new : state := St false (Thread.new (str "Logger")) (Latch.init 1) NotCreated Outside.

(** The thread runs ThreadMain when Thread::Start creates it. *)
(* @src claire/common/logging/Logger.h:45-53 Logger::Start *)
Definition Start (created : bool) (s : state) : res state :=
  if running_ s then Ok s
  else
    th ← Thread.Start created (thread_ s);
    let w := if Thread.started_ (thread_ s) then writer s else AtAssert in
    Ok (St true th (Latch.Wait me (latch_ s)) w InStart).

(** Up to the wait of Join for the thread; the notification is in LoggerMonitor. *)
(* @src claire/common/logging/Logger.h:55-63 Logger::Stop *)
Definition Stop (s : state) : res state :=
  if running_ s then
    th ← Thread.Join (thread_ s);
    Ok (St false th (latch_ s) (writer s) InStop)
  else Ok s.

(* @src claire/common/logging/Logger.h:31-34 Logger::~Logger *)
Definition destroy (s : state) : res state := Stop s.

Definition with_latch (l : Latch.CountDownLatch) (o : owner_at) (s : state) : state :=
  St (running_ s) (thread_ s) l (writer s) o.

Inductive action :=
  | CallStart
  | ResumeWait | SpuriousWait | StartReturns
  | CallStop                     (** Stop(), or the destructor *)
  | StopReturns
  | WriterAssert | WriterCountDown | WriterExits.

Section Steps.
(** Whether pthread_create succeeds. *)
Variable created : bool.

(** The assertion assigns. The writer leaves the loop at the test of running_. *)
(* @src claire/common/logging/Logger.cc:67-82 Logger::ThreadMain *)
Definition step (a : action) (s : state) : option (res state) :=
  match a, owner s, writer s with
  | CallStart, Outside, _ => Some (Start created s)
  | ResumeWait, InStart, _ =>
      if bool_decide (me ∈ Latch.woken (latch_ s))
      then Some (Ok (with_latch (Latch.Resume me (latch_ s)) InStart s)) else None
  | SpuriousWait, InStart, _ =>
      if bool_decide (me ∈ Latch.waiting (latch_ s))
      then Some (Ok (with_latch (Latch.Spurious me (latch_ s)) InStart s)) else None
  | StartReturns, InStart, _ =>
      if bool_decide (me ∈ Latch.returned (latch_ s)) then Some (Ok (with_latch (latch_ s) Outside s)) else None
  | CallStop, Outside, _ => Some (Stop s)
  | StopReturns, InStop, Exited => Some (Ok (with_latch (latch_ s) Outside s))
  | WriterAssert, o, AtAssert => Some (Ok (St true (thread_ s) (latch_ s) AtCountDown o))
  | WriterCountDown, o, AtCountDown => Some (Ok (St (running_ s) (thread_ s) (Latch.CountDown (latch_ s)) InLoop o))
  | WriterExits, o, InLoop =>
      if running_ s then None else Some (Ok (St false (thread_ s) (latch_ s) Exited o))
  | _, _, _ => None
  end.

Fixpoint run (acts : list action) (s : state) : option (res state) :=
  match acts with
  | [] => Some (Ok s)
  | a :: acts => match step a s with Some (Ok s) => run acts s | r => r end
  end.

(** ** The invariant *)

Definition counted (w : writer_at) : bool := match w with InLoop | Exited => true | _ => false end.

Record inv (s : state) : Prop := {
  i_count : Latch.count_ (latch_ s) = if counted (writer s) then 0 else 1;
  i_returned : me ∈ Latch.returned (latch_ s) -> counted (writer s) = true;
  i_waits : owner s = InStart ->
    me ∈ Latch.returned (latch_ s) \/ me ∈ Latch.woken (latch_ s) \/
    (me ∈ Latch.waiting (latch_ s) /\ counted (writer s) = false);
  i_outside : owner s <> InStart -> counted (writer s) = false -> writer s = NotCreated;
  i_created : Thread.started_ (thread_ s) = false <-> writer s = NotCreated;
  i_start : owner s = InStart -> writer s <> NotCreated /\ running_ s = true;
  i_stop : owner s = InStop -> running_ s = false /\ Thread.joined_ (thread_ s) = true;
  i_joined : Thread.joined_ (thread_ s) = true -> counted (writer s) = true;
  i_running : writer s = NotCreated -> running_ s = false;
}.

Lemma owner_inv_new : inv new.
Proof. split; cbn; try done. by intros ?%elem_of_nil. Qed.

(** The wait of Start, at its beginning and after a wake-up. *)
Lemma latch_test (l : Latch.CountDownLatch) w : Latch.count_ l = (if counted w then 0 else 1) ->
  (me ∈ Latch.returned l -> counted w = true) ->
  let l' := Latch.test me l in
  Latch.count_ l' = Latch.count_ l /\ (me ∈ Latch.returned l' -> counted w = true) /\
  (me ∈ Latch.returned l' \/ (me ∈ Latch.waiting l' /\ counted w = false)).
Proof.
  intros Hc Hr. unfold Latch.test. rewrite Hc. destruct (counted w); cbn; (split; [done|]); (split; [done|]).
  - left. by left.
  - right. by split; [left|].
Qed.

Lemma owner_inv_Start s s' : owner s = Outside -> inv s -> Start created s = Ok s' -> inv s'.
Proof.
  intros Ho I. pose proof I as [Hc Hr Hw Hout Hcr Hst Hsp Hj Hrun]. unfold Start.
  destruct (running_ s) eqn:Er; [by intros [= <-]|]. unfold Thread.Start.
  destruct (Thread.started_ (thread_ s)) eqn:Es.
  - rstep. intros [= <-]. assert (Hn : writer s <> NotCreated) by (intros E; apply Hcr in E; congruence).
    assert (Hco : counted (writer s) = true) by (destruct (counted (writer s)) eqn:E; [done|]; by destruct Hn; apply Hout; [by rewrite Ho|]).
    destruct (latch_test (latch_ s) (writer s) Hc Hr) as (H1 & H2 & H3).
    split; cbn [latch_ writer owner thread_ running_]; try done.
    + by rewrite <- Hc.
    + intros _. by destruct H3 as [?|[? ?]]; [left|right; right].
    + by rewrite Es.
  - destruct created; [|done]. rstep. intros [= <-]. assert (Hn : writer s = NotCreated) by by apply Hcr.
    rewrite Hn in Hc, Hr. destruct (latch_test (latch_ s) AtAssert Hc Hr) as (H1 & H2 & H3).
    split; cbn [latch_ writer owner thread_ running_ Thread.started_ Thread.joined_]; try done.
    + unfold Latch.Wait. by rewrite H1, Hc.
    + intros _. by destruct H3 as [?|[? ?]]; [left|right; right].
    + rewrite Hn in Hj. done.
Qed.

(** A thread that can be stopped has come to its loop; Stop fails only when it was
    joined before. *)
Lemma owner_inv_Stop s r : owner s = Outside -> inv s -> Stop s = r ->
  match r with
  | Ok s' => inv s'
  | Err _ => running_ s = true /\ Thread.joined_ (thread_ s) = true
  end.
Proof.
  intros Ho I <-. pose proof I as [Hc Hr Hw Hout Hcr Hst Hsp Hj Hrun]. unfold Stop.
  destruct (running_ s) eqn:Er; [|done].
  assert (Hn : writer s <> NotCreated) by (intros E; specialize (Hrun E); congruence).
  assert (Hs : Thread.started_ (thread_ s) = true) by (destruct (Thread.started_ (thread_ s)) eqn:E; [done|by destruct Hn; apply Hcr]).
  unfold Thread.Join. rewrite Hs. rstep. destruct (Thread.joined_ (thread_ s)) eqn:Ej; cbn; [done|].
  assert (Hco : counted (writer s) = true) by (destruct (counted (writer s)) eqn:E; [done|]; by destruct Hn; apply Hout; [by rewrite Ho|]).
  split; cbn; try done. by rewrite Hco.
Qed.

Lemma owner_inv_step a s r : inv s -> step a s = Some r -> match r with Ok s' => inv s' | Err _ => True end.
Proof.
  intros I Hs. pose proof I as [Hc Hr Hw Hout Hcr Hst Hsp Hj Hrun]. destruct a; cbn in Hs.
  - destruct (owner s) eqn:Ho; simplify_eq. destruct (Start created s) as [s'|] eqn:E; [|done]. by apply (owner_inv_Start s).
  - destruct (owner s) eqn:Ho; try done. case_bool_decide as Hb; simplify_eq. destruct (Hst eq_refl).
    destruct (latch_test (Latch.MkLatch (Latch.count_ (latch_ s)) (Latch.waiting (latch_ s))
      (remove_elem me (Latch.woken (latch_ s))) (Latch.returned (latch_ s))) (writer s) Hc Hr) as (H1 & H2 & H3).
    split; cbn [latch_ writer owner thread_ running_ with_latch]; try done; [by rewrite <- Hc|].
    intros _. by destruct H3 as [?|[? ?]]; [left|right; right].
  - destruct (owner s) eqn:Ho; try done. case_bool_decide as Hb; simplify_eq. destruct (Hst eq_refl).
    split; cbn; try done. intros _. right. left. by left.
  - destruct (owner s) eqn:Ho; try done. case_bool_decide as Hb; simplify_eq. destruct (Hst eq_refl).
    split; cbn; try done. by rewrite Hr.
  - destruct (owner s) eqn:Ho; simplify_eq. pose proof (owner_inv_Stop s _ Ho I eq_refl) as H.
    by destruct (Stop s).
  - destruct (owner s) eqn:Ho; try done. destruct (writer s) eqn:Ew; simplify_eq. split; cbn; rewrite ?Ew; done.
  - destruct (writer s) eqn:Ew; simplify_eq; [].
    assert (Ho : owner s = InStart) by (destruct (owner s); try done; by specialize (Hout ltac:(done) eq_refl)).
    rewrite Ho in *. split; cbn; try done. by rewrite Hcr.
  - destruct (writer s) eqn:Ew; simplify_eq; [].
    assert (Ho : owner s = InStart) by (destruct (owner s); try done; by specialize (Hout ltac:(done) eq_refl)).
    rewrite Ho in *. unfold Latch.CountDown. rewrite Hc. cbn. destruct (Hst eq_refl). split; cbn; try done.
    + intros _. destruct (Hw eq_refl) as [?|[?|[? _]]]; [by left|right; left; apply elem_of_app; by right|].
      right. left. apply elem_of_app. by left.
    + by rewrite Hcr.
  - destruct (writer s) eqn:Ew; simplify_eq; []. destruct (running_ s) eqn:Er; simplify_eq.
    split; cbn; try done; [by rewrite Hcr|]. intros Ho. by destruct (Hst Ho).
Qed.

Lemma owner_run_inv acts s s' : inv s -> run acts s = Some (Ok s') -> inv s'.
Proof.
  revert s. induction acts as [|a acts IH]; intros s I; cbn [run]; [by intros [= <-]|].
  destruct (step a s) as [[s1|]|] eqn:E; try done. apply IH. exact (owner_inv_step a s _ I E).
Qed.

Lemma owner_run_app acts acts' s s' : run acts s = Some (Ok s') -> run (acts ++ acts') s = run acts' s'.
Proof.
  revert s. induction acts as [|a acts IH]; intros s; cbn [run app]; [by intros [= ->]|].
  destruct (step a s) as [[s1|]|]; [apply IH|done..].
Qed.

(** The writer does not go back. *)
Lemma counted_step a s s' : inv s -> step a s = Some (Ok s') -> counted (writer s) = true -> counted (writer s') = true.
Proof.
  intros I Hs Hw. assert (Hst : Thread.started_ (thread_ s) = true).
  { destruct (Thread.started_ (thread_ s)) eqn:E; [done|]. apply (i_created _ I) in E. by rewrite E in Hw. }
  destruct a; cbn in Hs; unfold Start, Stop, Thread.Start in Hs; rewrite ?Hst in Hs; repeat case_match; simplify_eq; cbn; try done; try congruence.
  all: destruct (Thread.Join (thread_ s)); cbn in *; by simplify_eq.
Qed.

Lemma counted_run acts s s' : inv s -> run acts s = Some (Ok s') -> counted (writer s) = true -> counted (writer s') = true.
Proof.
  revert s. induction acts as [|a acts IH]; intros s I; cbn [run]; [by intros [= ->]|].
  destruct (step a s) as [[s1|]|] eqn:E; try done. intros Hr Hw.
  apply (IH s1); [exact (owner_inv_step a s _ I E)|done|by apply (counted_step a s)].
Qed.

(** The writer, once created, comes to its loop by itself. *)
Lemma writer_arrives s : inv s -> owner s = InStart -> counted (writer s) = false ->
  exists acts s', run acts s = Some (Ok s') /\ owner s' = InStart /\ counted (writer s') = true.
Proof.
  intros I Ho Hw. destruct (i_start _ I Ho) as [Hn _]. destruct (writer s) eqn:Ew; try done.
  - exists [WriterAssert; WriterCountDown]. cbn. rewrite Ew. cbn. by eexists.
  - exists [WriterCountDown]. cbn. rewrite Ew. cbn. by eexists.
Qed.

(** Once it is there the wait of Start ends. *)
Lemma wait_ends s : inv s -> owner s = InStart -> counted (writer s) = true ->
  exists acts s', run acts s = Some (Ok s') /\ owner s' = Outside.
Proof.
  intros I Ho Hw. pose proof (i_count _ I) as Hc. rewrite Hw in Hc.
  destruct (i_waits _ I Ho) as [Hr|[Hr|[_ Hr]]]; [| |congruence].
  - exists [StartReturns]. cbn. rewrite Ho, bool_decide_eq_true_2 by done. by eexists.
  - exists [ResumeWait; StartReturns]. cbn. rewrite Ho, bool_decide_eq_true_2 by done. cbn.
    unfold Latch.Resume, Latch.test. cbn. rewrite Hc. cbn. rewrite bool_decide_eq_true_2 by by left. by eexists.
Qed.

(** A Logger that is started and stopped by one thread: whatever that thread and
    the writer do, Start can always go on to return, and then the writer is past
    the assertion that would set running_ again; Stop has reset running_ for good,
    so that the writer can leave its loop and Stop returns; and the only check that
    fails, if the system creates the thread, is that of a Stop or a destructor after
    the writer was joined before. *)
Theorem logger_starts_and_stops acts s : created = true -> run acts new = Some (Ok s) ->
  (owner s = InStart -> exists more s', run more s = Some (Ok s') /\ owner s' = Outside /\ counted (writer s') = true) /\
  (owner s = InStop -> running_ s = false /\
     exists more s', (length more <= 2)%nat /\ run more s = Some (Ok s') /\ owner s' = Outside /\ writer s' = Exited) /\
  (forall a e, step a s = Some (Err e) -> a = CallStop /\ running_ s = true /\ Thread.joined_ (thread_ s) = true).
Proof.
  intros Hcr Hr. pose proof (owner_run_inv _ _ _ owner_inv_new Hr) as I. split; [|split].
  - intros Ho. assert (exists pre s1, run pre s = Some (Ok s1) /\ owner s1 = InStart /\ counted (writer s1) = true)
      as (pre & s1 & Hp & Ho1 & Hw1).
    { destruct (counted (writer s)) eqn:Hw; [by exists [], s|by apply writer_arrives]. }
    pose proof (owner_run_inv _ _ _ I Hp) as I1. destruct (wait_ends s1 I1 Ho1 Hw1) as (post & s2 & Hp2 & Ho2).
    exists (pre ++ post), s2. assert (Hrun : run (pre ++ post) s = Some (Ok s2)) by by rewrite (owner_run_app _ _ _ _ Hp).
    pose proof (owner_run_inv _ _ _ I Hrun) as I2. split; [done|]. split; [done|]. by apply (counted_run post s1).
  - intros Ho. destruct (i_stop _ I Ho) as [Hf Hj]. split; [done|]. pose proof (i_joined _ I Hj) as Hw.
    destruct (writer s) eqn:Ew; try done.
    + exists [WriterExits; StopReturns]. cbn. rewrite Ew, Hf, Ho. cbn. eexists. split; [lia|]. by split.
    + exists [StopReturns]. cbn. rewrite Ew, Ho. cbn. eexists. split; [lia|]. by split.
  - intros a e Ha. destruct a; cbn in Ha; repeat case_match; simplify_eq.
    + unfold Start, Thread.Start in *. rewrite Hcr in *. by repeat case_match.
    + pose proof (owner_inv_Stop s _ ltac:(eassumption) I eq_refl) as Hst. by rewrite Ha in Hst.
Qed.
End Steps.

Lemma logger_starts_and_stops_witness :
  exists s, run true [CallStart; SpuriousWait; WriterAssert; WriterCountDown; ResumeWait; StartReturns; CallStop] new = Some (Ok s) /\
    owner s = InStop /\ running_ s = false /\
    exists more s', (length more <= 2)%nat /\ run true more s = Some (Ok s') /\ owner s' = Outside /\ writer s' = Exited.
Proof.
  eexists. split; [vm_compute; reflexivity|]. split; [reflexivity|].
  apply (logger_starts_and_stops true
    [CallStart; SpuriousWait; WriterAssert; WriterCountDown; ResumeWait; StartReturns; CallStop] _ eq_refl eq_refl). reflexivity.
Defined.

(** A logger that is started again has no writer: the thread that was joined is not
    created again, Start returns at once, and the next Stop aborts. *)
Example restart_has_no_writer : exists s,
  run true [CallStart; WriterAssert; WriterCountDown; ResumeWait; StartReturns; CallStop; WriterExits; StopReturns;
            CallStart; StartReturns] new = Some (Ok s) /\
  running_ s = true /\ owner s = Outside /\ writer s = Exited /\ destroy s = Err CheckFailed.
Proof. eexists. split; [vm_compute; reflexivity|]. by repeat split. Qed.

(** The assertion assigns: a Stop from another thread, between the store of Start
    and the writer's, is lost, and the join of the writer does not end. *)
Example assert_restarts s : writer s = AtAssert -> running_ s = false ->
  exists s', run true [WriterAssert; WriterCountDown] s = Some (Ok s') /\ running_ s' = true /\
    step true WriterExits s' = None.
Proof. intros Hw _. cbn. rewrite Hw. cbn. eexists. by split. Qed.
