(* ===== verification/LogFiles.v ===== *)
(** * logging: from the logger to the files

    What the effects of logging/LogFile.cc do to a directory, and with it the way
    of a message from Logger::Append to the files: where each byte ends up, which
    files a roll deletes, and what becomes of the link to the current log. The
    system calls do what open(2), write(2), unlink(2), symlink(2), access(2),
    readlink(2) and stat(2) document, and succeed when their arguments allow it. *)

From S2P Require Import Prelude Bytes LogStream Logger.
Import Logger.LogFile.
Open Scope Z_scope.

(** ** A directory *)

Inductive node := Regular (i : nat) | Link (target : bytes).

#[export] Instance node_eq_dec : EqDecision node.
Proof. solve_decision. Defined.

(** [inodes] are the contents of the files in the order of their creation, deleted
    ones included; [current] is the file LogFile has open. *)
Record disk := Disk { inodes : list bytes; names : gmap bytes node; current : option nat }.

(** The file a name leads to, through one symbolic link. *)
Definition resolve (d : disk) (n : bytes) : option nat :=
  match names d !! n with
  | Some (Regular i) => Some i
  | Some (Link t) => match names d !! t with Some (Regular i) => Some i | _ => None end
  | None => None
  end.

Definition perform (e : effect) (d : disk) : disk :=
  match e with
  | OpenAppend n =>
      match resolve d n with
      | Some i => Disk (inodes d) (names d) (Some i)
      | None =>
          let n := match names d !! n with Some (Link t) => t | _ => n end in
          Disk (inodes d ++ [[]]) (<[n := Regular (length (inodes d))]> (names d)) (Some (length (inodes d)))
      end
  | WriteData x =>
      match current d with
      | Some i => Disk (alter (fun c => c ++ x) i (inodes d)) (names d) (current d)
      | None => d
      end
  | DeleteFile n => Disk (inodes d) (delete n (names d)) (current d)
  | SymLink old new =>
      match names d !! new with
      | None => Disk (inodes d) (<[new := Link old]> (names d)) (current d)
      | Some _ => d
      end
  | FlushFile | DropPages _ => d
  end.

Definition replay (effs : list effect) (d : disk) : disk := foldl (fun d e => perform e d) d effs.

Lemma replay_app a b d : replay (a ++ b) d = replay b (replay a d).
Proof. unfold replay. by rewrite foldl_app. Qed.

(** What FileExists, ReadLink and GetFileSize answer. *)
Definition answers (d : disk) : filesystem :=
  FS (fun n => match resolve d n with Some _ => true | None => false end)
     (fun n => match names d !! n with Some (Link t) => Some t | _ => None end)
     (fun n => (fun i => Zlen (default [] (inodes d !! i))) <$> resolve d n).

Section LogFiles.
Variables (FLAGS_max_log_size FLAGS_logbufsecs : Z) (FLAGS_log_dir base_name : bytes).

Abbreviation link := (GetLinkLogFileName FLAGS_log_dir base_name).
Abbreviation roll := (RollFile FLAGS_log_dir base_name).
Abbreviation append := (Logger.LogFile.Append FLAGS_max_log_size FLAGS_logbufsecs FLAGS_log_dir base_name).

(** The file system RollFile asks: the new file is open already, and the old one is
    closed. *)
Definition at_roll (name : bytes) (d : disk) : filesystem := answers (perform (OpenAppend name) d).

(** The constructor, then the appends, each at its second, with the file name of the
    time. *)
Fixpoint appends (l : list (Z * bytes * bytes)) (f : LogFile) (d : disk) : res (LogFile * disk) :=
  match l with
  | [] => Ok (f, d)
  | (now, name, data) :: l =>
      '(f, effs) ← append (at_roll name (perform (WriteData data) d)) now name data f;
      appends l f (replay effs d)
  end.

Definition session (now : Z) (name : bytes) (l : list (Z * bytes * bytes)) (d : disk) : res (LogFile * disk) :=
  '(f, effs) ← LogFile_new FLAGS_log_dir base_name (at_roll name d) now name;
  appends l f (replay effs d).

(** A file name nobody has used. *)
Definition fresh (name : bytes) (d : disk) : Prop :=
  names d !! name = None /\ (forall n, names d !! n <> Some (Link name)) /\ name <> link.

#[export] Instance fresh_dec name d : Decision (fresh name d).
Proof.
  destruct (decide (names d !! name = None /\ map_Forall (fun _ x => x <> Link name) (names d) /\ name <> link)) as [Hx|Hx].
  - left. destruct Hx as (Hn & Hf & Hl). split; [done|]. split; [|done]. intros n Hx. by apply (Hf n _ Hx).
  - right. intros (Hn & Hf & Hl). apply Hx. split; [done|]. split; [|done]. intros n x Hm ->. by apply (Hf n).
Defined.

(** Every roll of the session uses a fresh name. *)
Fixpoint fresh_names (l : list (Z * bytes * bytes)) (f : LogFile) (d : disk) : Prop :=
  match l with
  | [] => True
  | (now, name, data) :: l =>
      match append (at_roll name (perform (WriteData data) d)) now name data f with
      | Ok (f, effs) => (OpenAppend name ∈ effs -> fresh name (perform (WriteData data) d)) /\ fresh_names l f (replay effs d)
      | Err _ => True
      end
  end.

(** ** What a roll does *)

(** No text in a file without a name; the link is not a file. *)
Record sound (d : disk) : Prop := {
  s_named : forall i c, inodes d !! i = Some c -> c <> [] -> exists n, names d !! n = Some (Regular i);
  s_range : forall n i, names d !! n = Some (Regular i) -> (i < length (inodes d))%nat;
  s_link : forall i, names d !! link <> Some (Regular i);
}.

(** The open file is the last one created, and it has a name. *)
Definition writing (d : disk) : Prop :=
  exists i n, current d = Some i /\ Datatypes.S i = length (inodes d) /\ names d !! n = Some (Regular i).

Lemma sound_delete n d : sound d ->
  (forall i c, names d !! n = Some (Regular i) -> inodes d !! i = Some c -> c = []) -> sound (perform (DeleteFile n) d).
Proof.
  intros [N R Li] He. split; cbn.
  - intros i c Hc Hne. destruct (N i c Hc Hne) as (m & Hm). exists m. rewrite lookup_delete_ne; [done|].
    intros <-. by apply Hne, (He i).
  - intros m i [_ Hm]%lookup_delete_Some. by apply (R m).
  - intros i [_ Hm]%lookup_delete_Some. by apply (Li i).
Qed.

Lemma sound_symlink old new d : sound d -> sound (perform (SymLink old new) d).
Proof.
  intros I. pose proof I as [N R Li]. cbn. destruct (names d !! new) as [x|] eqn:E; [done|]. split; cbn.
  - intros i c Hc Hne. destruct (N i c Hc Hne) as (m & Hm). exists m. rewrite lookup_insert_ne; [done|]. intros <-. congruence.
  - intros m i [[_ ?]|[_ Hm]]%lookup_insert_Some; [done|by apply (R m)].
  - intros i [[_ ?]|[_ Hm]]%lookup_insert_Some; [done|by apply (Li i)].
Qed.

Lemma open_fresh name d : fresh name d ->
  perform (OpenAppend name) d =
    Disk (inodes d ++ [[]]) (<[name := Regular (length (inodes d))]> (names d)) (Some (length (inodes d))).
Proof. intros (Hn & _). cbn. unfold resolve. by rewrite Hn. Qed.

Lemma sound_open name d : sound d -> fresh name d -> sound (perform (OpenAppend name) d).
Proof.
  intros [N R Li] Hf. rewrite (open_fresh name d Hf). destruct Hf as (Hn & _ & Hl). split; cbn.
  - intros i c Hc Hne. apply lookup_app_Some in Hc as [Hc|[_ Hc]].
    + destruct (N i c Hc Hne) as (m & Hm). exists m. rewrite lookup_insert_ne; [done|]. intros <-. congruence.
    + destruct (i - length (inodes d))%nat; cbn in Hc; simplify_eq.
  - intros m i. rewrite length_app. cbn. intros [[_ [= <-]]|[_ Hm]]%lookup_insert_Some; [lia|]. apply R in Hm. lia.
  - intros i [[? _]|[_ Hm]]%lookup_insert_Some; [done|by apply (Li i)].
Qed.

(** Where the link leads after a roll: to the new file, unless it led nowhere before,
    which FileExists takes for no link at all. *)
Definition link_after (name : bytes) (d : disk) : bytes :=
  match names d !! link, resolve d link with
  | Some (Link t), None => t
  | _, _ => name
  end.

(** Opening a fresh name resolves nothing that did not resolve before, and keeps
    what did. *)
Lemma resolve_open name n d : fresh name d -> n <> name -> resolve (perform (OpenAppend name) d) n = resolve d n.
Proof.
  intros Hf Hn. rewrite (open_fresh name d Hf). destruct Hf as (Hno & Hl & _). unfold resolve. cbn.
  rewrite lookup_insert_ne by done. destruct (names d !! n) as [[i|t]|] eqn:E; try done.
  destruct (decide (t = name)) as [->|Ht]; [by apply Hl in E|]. by rewrite lookup_insert_ne.
Qed.

(** Removing the old link, and the file it leads to when it is empty. *)
Lemma roll_deletes name d t j : sound d -> fresh name d -> names d !! link = Some (Link t) -> names d !! t = Some (Regular j) ->
  let effs := (if Zlen (default [] (inodes (perform (OpenAppend name) d) !! j)) =? 0 then [DeleteFile t] else []) ++ [DeleteFile link] in
  let d' := replay effs (perform (OpenAppend name) d) in
  sound d' /\ inodes d' = inodes d ++ [[]] /\ current d' = Some (length (inodes d)) /\
  names d' !! name = Some (Regular (length (inodes d))) /\ names d' !! link = None.
Proof.
  intros I Hf Hl Ht. pose proof (sound_open name d I Hf) as I1. pose proof (s_range _ I t j Ht) as Hj.
  assert (Htn : t <> name) by (intros ->; destruct Hf as [Hn _]; congruence).
  rewrite (open_fresh name d Hf) in *. destruct Hf as (Hn & _ & Hnl). cbn zeta.
  assert (Hdel : forall d1, sound d1 -> names d1 !! link = Some (Link t) -> sound (perform (DeleteFile link) d1)).
  { intros d1 I' Hl'. apply sound_delete; [done|]. intros i c Hc. congruence. }
  destruct (Zlen _ =? 0) eqn:Ez; cbn [app replay foldl]; zify_bool.
  - split; [apply Hdel|].
    + apply sound_delete; [done|]. cbn. intros i c. rewrite lookup_insert_ne by done. intros Hi Hc. simplify_eq.
      cbn in Ez. rewrite Hc in Ez. cbn in Ez. destruct c; [done|]. unfold Zlen in Ez. cbn in Ez. lia.
    + cbn. rewrite lookup_delete_ne, lookup_insert_ne; [done|done|]. intros ->. congruence.
    + cbn. do 2 (split; [done|]). rewrite !lookup_delete_ne by done. split; [apply lookup_insert_eq|apply lookup_delete_eq].
  - split; [apply Hdel; [done|cbn; by rewrite lookup_insert_ne]|]. cbn. do 2 (split; [done|]).
    rewrite lookup_delete_ne by done. split; [apply lookup_insert_eq|apply lookup_delete_eq].
Qed.

(** What a roll asks for, from the directory it finds. *)
Lemma roll_effects now name f d : sound d -> fresh name d -> last_roll_ f < now ->
  (roll (at_roll name d) now name f).2 = [OpenAppend name] ++
    match names d !! link with
    | Some (Link t) =>
        match names d !! t with
        | Some (Regular j) =>
            (if Zlen (default [] (inodes (perform (OpenAppend name) d) !! j)) =? 0 then [DeleteFile t] else []) ++ [DeleteFile link]
        | _ => []
        end
    | _ => []
    end ++ [SymLink name link].
Proof.
  intros I Hf Hnow. unfold RollFile. rewrite (proj2 (Z.ltb_lt _ _) Hnow). cbn zeta. cbn [snd].
  assert (Hnl : link <> name) by (by destruct Hf as (_ & _ & ?); intros ?).
  assert (Hd1 : names (perform (OpenAppend name) d) !! link = names d !! link)
    by (rewrite (open_fresh name d Hf); cbn; by rewrite lookup_insert_ne).
  unfold at_roll. set (d1 := perform (OpenAppend name) d) in *. unfold answers. cbn [FileExists ReadLink GetFileSize].
  rewrite Hd1. pose proof (resolve_open name link d Hf Hnl) as Hr. fold d1 in Hr. rewrite Hr. unfold resolve at 1.
  destruct (names d !! link) as [[i|t]|] eqn:El; [by destruct (s_link _ I i)| |done].
  destruct (names d !! t) as [[j|t']|] eqn:Et; [|done|done].
  assert (Htn : t <> name) by (intros ->; destruct Hf as [Hn _]; congruence).
  pose proof (resolve_open name t d Hf Htn) as Hrt. fold d1 in Hrt. rewrite Hrt. unfold resolve. by rewrite Et.
Qed.

(** The state after a roll: a new empty file is open, and nothing that holds text has
    lost its name. *)
Lemma roll_disk now name f d : sound d -> fresh name d -> last_roll_ f < now ->
  let d' := replay (roll (at_roll name d) now name f).2 d in
  sound d' /\ writing d' /\ inodes d' = inodes d ++ [[]] /\ names d' !! link = Some (Link (link_after name d)).
Proof.
  intros I Hf Hnow. cbn zeta. rewrite (roll_effects now name f d I Hf Hnow), !replay_app. cbn [replay foldl].
  change (foldl (fun d e => perform e d) d [OpenAppend name]) with (perform (OpenAppend name) d).
  assert (Hlast : forall d2, sound d2 -> inodes d2 = inodes d ++ [[]] -> current d2 = Some (length (inodes d)) ->
    names d2 !! name = Some (Regular (length (inodes d))) -> let d3 := perform (SymLink name link) d2 in
    sound d3 /\ writing d3 /\ inodes d3 = inodes d ++ [[]] /\
    names d3 !! link = Some (match names d2 !! link with None => Link name | Some x => x end)).
  { intros d2 I2 Hi Hc Hn d3. split; [by apply sound_symlink|]. unfold d3. cbn. destruct (names d2 !! link) as [x|] eqn:El.
    - split; [|done]. exists (length (inodes d)), name. rewrite Hi, length_app. cbn. split; [done|]. split; [lia|done].
    - split; [|split; [done|apply lookup_insert_eq]]. exists (length (inodes d)), name. cbn. rewrite Hi, length_app, lookup_insert_ne.
      + cbn. split; [done|]. split; [lia|done].
      + by destruct Hf as (_ & _ & ?). }
  assert (Hopen : let d3 := perform (SymLink name link) (perform (OpenAppend name) d) in
    sound d3 /\ writing d3 /\ inodes d3 = inodes d ++ [[]] /\
    names d3 !! link = Some (match names d !! link with None => Link name | Some x => x end)).
  { assert (names (perform (OpenAppend name) d) !! link = names d !! link) as <-
      by (rewrite (open_fresh name d Hf); cbn; rewrite lookup_insert_ne; [done|by destruct Hf as (_ & _ & ?)]).
    apply Hlast; [by apply sound_open|rewrite (open_fresh name d Hf); done..|rewrite (open_fresh name d Hf); apply lookup_insert_eq]. }
  unfold link_after, resolve. destruct (names d !! link) as [[i|t]|] eqn:El; [by destruct (s_link _ I i)| |exact Hopen].
  destruct (names d !! t) as [[j|t']|] eqn:Et; [|exact Hopen|exact Hopen].
  destruct (roll_deletes name d t j I Hf El Et) as (I2 & Hi & Hc & Hn & Hl).
  pose proof (Hlast _ I2 Hi Hc Hn) as H3. rewrite Hl in H3. exact H3.
Qed.

(** ** What the appends do *)

(** The text in the files created since there were [n] of them. *)
Definition text_since (n : nat) (d : disk) : bytes := concat (drop n (inodes d)).

Lemma write_disk x n d : sound d -> writing d -> (n < length (inodes d))%nat ->
  let d' := perform (WriteData x) d in
  sound d' /\ writing d' /\ length (inodes d') = length (inodes d) /\ names d' = names d /\
  take n (inodes d') = take n (inodes d) /\ text_since n d' = text_since n d ++ x.
Proof.
  intros [N R Li] (i & m & Hc & Hi & Hm) Hn. unfold text_since. cbn. rewrite Hc. cbn.
  destruct (inodes d) as [|y l0 _] eqn:E using rev_ind; [cbn in Hn; lia|]. rewrite length_app in Hi, Hn. cbn in Hi, Hn.
  assert (i = length l0) as -> by lia.
  assert (Ha : alter (fun c => c ++ x) (length l0) (l0 ++ [y]) = l0 ++ [y ++ x])
    by (rewrite alter_app_r_alt by lia; by replace (length l0 - length l0)%nat with 0%nat by lia).
  rewrite Ha. split; [|split; [|split; [by rewrite !length_app|split; [done|split]]]].
  - split; cbn; rewrite ?Ha.
    + intros j c Hj Hne. destruct (decide (j = length l0)) as [->|Hjl]; [by exists m|]. apply (N j c); [|done].
      rewrite lookup_app in Hj |- *. destruct (l0 !! j) eqn:El; [done|]. apply lookup_ge_None in El.
      destruct (j - length l0)%nat eqn:Ej; [lia|]. by destruct n0.
    + intros k j Hk. apply R in Hk. by rewrite length_app in Hk |- *.
    + done.
  - exists (length l0), m. cbn. rewrite length_app. cbn. split; [done|]. split; [lia|done].
  - rewrite !take_app_le by lia. done.
  - rewrite !drop_app_le, !concat_app by lia. cbn. by rewrite !app_nil_r, app_assoc.
Qed.

(** A roll or none, after some text was written. *)
Lemma roll_text now name f n d : sound d -> writing d -> (n < length (inodes d))%nat ->
  (last_roll_ f < now -> fresh name d) ->
  let d' := replay (roll (at_roll name d) now name f).2 d in
  sound d' /\ writing d' /\ (n < length (inodes d'))%nat /\ take n (inodes d') = take n (inodes d) /\ text_since n d' = text_since n d.
Proof.
  intros I W Hn Hf. destruct (decide (last_roll_ f < now)) as [Hr|Hr].
  - destruct (roll_disk now name f d I (Hf Hr) Hr) as (I' & W' & Hi & _). cbn zeta in *. unfold text_since. rewrite Hi.
    split; [done|]. split; [done|]. rewrite length_app. split; [lia|]. rewrite take_app_le, drop_app_le, concat_app by lia.
    cbn. by rewrite app_nil_r.
  - unfold RollFile. rewrite (proj2 (Z.ltb_ge _ _)) by lia. done.
Qed.

Lemma roll_opens now name f d : last_roll_ f < now -> OpenAppend name ∈ (roll (at_roll name d) now name f).2.
Proof. intros Hr. unfold RollFile. rewrite (proj2 (Z.ltb_lt _ _) Hr). cbn [snd app]. by left. Qed.

Lemma append_disk now name data f n d : is_Some (written f) -> sound d -> writing d -> (n < length (inodes d))%nat ->
  let d1 := perform (WriteData data) d in
  exists f' effs, append (at_roll name d1) now name data f = Ok (f', effs) /\ is_Some (written f') /\
    ((OpenAppend name ∈ effs -> fresh name d1) ->
     let d' := replay effs d in
     sound d' /\ writing d' /\ (n < length (inodes d'))%nat /\ take n (inodes d') = take n (inodes d) /\
     text_since n d' = text_since n d ++ data).
Proof.
  intros Hw I W Hn. cbn zeta. set (d1 := perform (WriteData data) d).
  destruct (write_disk data n d I W Hn) as (I1 & W1 & Hl1 & _ & Ht1 & Hx1). fold d1 in I1, W1, Hl1, Ht1, Hx1.
  assert (Hn1 : (n < length (inodes d1))%nat) by lia.
  assert (Hroll : forall g, is_Some (written g) -> exists f' effs,
    (let '(h, effs) := roll (at_roll name d1) now name g in Ok (h, WriteData data :: effs)) = Ok (f', effs) /\ is_Some (written f') /\
    ((OpenAppend name ∈ effs -> fresh name d1) -> let d' := replay effs d in
     sound d' /\ writing d' /\ (n < length (inodes d'))%nat /\ take n (inodes d') = take n (inodes d) /\
     text_since n d' = text_since n d ++ data)).
  { intros g Hg. pose proof (RollFile_effects FLAGS_log_dir base_name (at_roll name d1) now name g Hg) as HR.
    pose proof (roll_opens now name g d1) as Ho. pose proof (roll_text now name g n d1 I1 W1 Hn1) as HT.
    destruct (roll (at_roll name d1) now name g) as [h effs]. destruct HR as (_ & Hh & _). cbn [snd] in *.
    exists h, (WriteData data :: effs). split; [done|]. split; [done|]. intros Hf. cbn zeta. change (replay (WriteData data :: effs) d) with (replay effs d1).
    destruct HT as (I2 & W2 & Hn2 & Ht2 & Hx2); [intros Hr; apply Hf; right; by apply Ho|].
    split; [done|]. split; [done|]. split; [done|]. split; [by rewrite Ht2|by rewrite Hx2]. }
  assert (Hplain : forall g effs, is_Some (written g) -> replay effs d1 = d1 -> exists f' effs',
    Ok (g, WriteData data :: effs) = Ok (f', effs') /\ is_Some (written f') /\
    ((OpenAppend name ∈ effs' -> fresh name d1) -> let d' := replay effs' d in
     sound d' /\ writing d' /\ (n < length (inodes d'))%nat /\ take n (inodes d') = take n (inodes d) /\
     text_since n d' = text_since n d ++ data)).
  { intros g effs Hg He. exists g, (WriteData data :: effs). split; [done|]. split; [done|]. intros _. cbn zeta.
    change (replay (WriteData data :: effs) d) with (replay effs d1). by rewrite He. }
  destruct Hw as [w Hw]. unfold Logger.LogFile.Append, AppendUnLocked. rewrite Hw.
  destruct (_ <? w + Zlen data); [by apply Hroll|].
  destruct (kCheckTimeRoll <? _); [destruct (negb _); [by apply Hroll|destruct (_ <? _)]|]; by apply Hplain.
Qed.

Lemma appends_disk l n : forall f d, is_Some (written f) -> sound d -> writing d -> (n < length (inodes d))%nat ->
  fresh_names l f d ->
  exists f' d', appends l f d = Ok (f', d') /\
    sound d' /\ writing d' /\ take n (inodes d') = take n (inodes d) /\ text_since n d' = text_since n d ++ concat (snd <$> l).
Proof.
  induction l as [|[[now name] data] l IH]; intros f d Hw I W Hn Hf; cbn [appends].
  { exists f, d. cbn. by rewrite app_nil_r. }
  destruct (append_disk now name data f n d Hw I W Hn) as (f1 & effs & Hr & Hw1 & Hd1).
  cbn [fresh_names] in Hf. rewrite Hr in Hf |- *. rstep. destruct Hf as [Hf1 Hf].
  destruct (Hd1 Hf1) as (I1 & W1 & Hn1 & Ht1 & Hx1).
  destruct (IH f1 (replay effs d) Hw1 I1 W1 Hn1 Hf) as (f2 & d2 & H2 & I2 & W2 & Ht2 & Hx2). exists f2, d2.
  split; [done|]. split; [done|]. split; [done|]. split; [by rewrite Ht2|]. rewrite Hx2, Hx1. cbn. by rewrite <- app_assoc.
Qed.

(** Every roll of a session uses a fresh name. *)
Definition fresh_session (now : Z) (name : bytes) (l : list (Z * bytes * bytes)) (d : disk) : Prop :=
  fresh name d /\
  match LogFile_new FLAGS_log_dir base_name (at_roll name d) now name with
  | Ok (f, effs) => fresh_names l f (replay effs d)
  | Err _ => True
  end.

Lemma session_disk now name l d : sound d -> 0 < now -> 47 ∉ base_name -> fresh_session now name l d ->
  exists f' d', session now name l d = Ok (f', d') /\ sound d' /\
    take (length (inodes d)) (inodes d') = inodes d /\ text_since (length (inodes d)) d' = concat (snd <$> l).
Proof.
  intros I Hnow Hb [Hf Hl]. unfold session. unfold LogFile_new in *. rewrite (bool_decide_eq_false_2 _ Hb) in *.
  cbn [negb check mbind res_bind] in *. set (f0 := MkLogFile 0 None 0 0 0) in *.
  pose proof (roll_disk now name f0 d I Hf Hnow) as H. 
  destruct (roll (at_roll name d) now name f0) as [f1 effs] eqn:E. cbn zeta in H. cbn [snd fst] in *. destruct H as (I1 & W1 & Hi1 & _).
  assert (Hw : is_Some (written f1)).
  { unfold RollFile in E. rewrite (proj2 (Z.ltb_lt _ _)) in E by exact Hnow. injection E as <- _. by eexists. }
  destruct (appends_disk l (length (inodes d)) f1 (replay effs d) Hw I1 W1) as (f2 & d2 & H2 & I2 & _ & Ht2 & Hx2); [|done|].
  { rewrite Hi1, length_app. cbn. lia. }
  exists f2, d2. split; [done|]. split; [done|]. rewrite Ht2, Hx2, Hi1. split; [by rewrite take_app_length|].
  unfold text_since. rewrite Hi1, drop_app_length. done.
Qed.

(** What a LogFile is given is in its files. From its construction on, however often
    the log is rolled and the clock moves, when the file names are fresh the files
    created hold exactly the bytes appended, in order; the files that were there hold
    what they held; and no file that holds anything has lost its name. *)
Theorem log_text_in_files now name l d : sound d -> 0 < now -> 47 ∉ base_name -> fresh_session now name l d ->
  exists f' d', session now name l d = Ok (f', d') /\
    take (length (inodes d)) (inodes d') = inodes d /\ text_since (length (inodes d)) d' = concat (snd <$> l) /\
    forall i c, inodes d' !! i = Some c -> c <> [] -> exists n, names d' !! n = Some (Regular i).
Proof.
  intros I Hnow Hb Hf. destruct (session_disk now name l d I Hnow Hb Hf) as (f' & d' & Hs & I' & Ht & Hx).
  exists f', d'. split; [done|]. split; [done|]. split; [done|]. apply (s_named _ I').
Qed.

(** The link to the current log follows the rolls, but a link that leads nowhere,
    because its log was removed, is kept as it is for ever: FileExists follows it
    and takes it for absent, and the symlink call that follows fails. *)
Theorem roll_links now name f d : sound d -> fresh name d -> last_roll_ f < now ->
  let d' := replay (roll (at_roll name d) now name f).2 d in
  (names d !! link = None \/ resolve d link <> None -> names d' !! link = Some (Link name)) /\
  (forall t, names d !! link = Some (Link t) -> names d !! t = None -> names d' !! link = Some (Link t)).
Proof.
  intros I Hf Hnow. destruct (roll_disk now name f d I Hf Hnow) as (_ & _ & _ & Hl). cbn zeta in *. rewrite Hl.
  unfold link_after, resolve. split.
  - intros Hd. destruct (names d !! link) as [[i|t]|] eqn:El; try done. destruct (names d !! t) as [[j|t']|]; try done;
      by destruct Hd as [?|Hd].
  - intros t -> Ht. by rewrite Ht.
Qed.

(** ** With the logger *)

(** What the writer gives its LogFile for an event. *)
Definition text_of (e : Logger.Logger.event) : bytes :=
  match e with Logger.Logger.Written b => b | Logger.Logger.Notice t => t | Logger.Logger.Dropped _ => [] end.

Definition overloaded (e : Logger.Logger.event) : bool :=
  match e with Logger.Logger.Written _ => false | _ => true end.

Lemma not_overloaded out : forallb (fun e => negb (overloaded e)) out = true ->
  concat (Logger.Logger.bytes_of <$> out) = concat (text_of <$> out).
Proof.
  induction out as [|e out IH]; [done|]. cbn [forallb]. intros [He Ho]%andb_true_iff. rewrite !fmap_cons. cbn [concat].
  rewrite IH by done. by destruct e.
Qed.

(** C33: From Append to the files. Whatever threads append, and however the writer is
    scheduled, as long as it was never overloaded: the bytes accepted by Append are,
    in order, those in the log's files, followed by those in the buffers that have
    not been written yet; and every file with text in it has a name. *)
Theorem messages_reach_files SIZE acts l now name ls d :
  Logger.Logger.run SIZE acts Logger.Logger.init = Some (Ok l) ->
  forallb (fun e => negb (overloaded e)) (Logger.Logger.output l) = true ->
  snd <$> ls = text_of <$> Logger.Logger.output l ->
  sound d -> 0 < now -> 47 ∉ base_name -> fresh_session now name ls d ->
  exists f' d', session now name ls d = Ok (f', d') /\
    Logger.Logger.appended l = text_since (length (inodes d)) d' ++
      concat (Logger.Logger.buffers_to_write l) ++ concat (Logger.Logger.buffers_ l) ++
      Logger.Logger.held (Logger.Logger.current_buffer_ l) /\
    forall i c, inodes d' !! i = Some c -> c <> [] -> exists n, names d' !! n = Some (Regular i).
Proof.
  intros Hr Ho Hls I Hnow Hb Hf. destruct (session_disk now name ls d I Hnow Hb Hf) as (f' & d' & Hs & I' & _ & Hx).
  exists f', d'. split; [done|]. split; [|apply (s_named _ I')]. rewrite Hx, Hls, <- (not_overloaded _ Ho).
  destruct (Logger.Logger.logger_run_inv SIZE acts Logger.Logger.init (Ok l) (Logger.Logger.logger_inv_init SIZE) Hr) as (l' & [= <-] & LI).
  apply (Logger.Logger.i_flow _ _ LI).
Qed.
End LogFiles.

(** ** Witnesses *)

(** An old log with two bytes and the link to it; the limit of zero megabytes rolls
    the file after each append. *)
Definition demo_disk : disk :=
  Disk [[1; 2]] (<[str "/log/app.log" := Link (str "/log/app.1.log")]> {[str "/log/app.1.log" := Regular 0%nat]}) None.

Definition demo_appends : list (Z * bytes * bytes) :=
  [(101, str "/log/app.101.log", [7]); (102, str "/log/app.102.log", [8; 9])].

Lemma demo_sound : sound (str "/log") (str "app") demo_disk.
Proof.
  split.
  - intros [|i] c Hc Hne; [|by destruct i]. exists (str "/log/app.1.log"). vm_compute. reflexivity.
  - intros n i Hn. cbn in Hn |- *.
    apply lookup_insert_Some in Hn as [[_ ?]|[_ [_ [= <-]]%lookup_singleton_Some]]; [done|lia].
  - intros i. vm_compute. discriminate.
Qed.

Lemma demo_fresh : fresh_session 0 30 (str "/log") (str "app") 100 (str "/log/app.100.log") demo_appends demo_disk.
Proof.
  split; [by apply (bool_decide_unpack _); vm_compute|].
  match goal with |- match ?x with _ => _ end => destruct x as [[f effs]|] eqn:E end; [|done].
  vm_compute in E. injection E as <- <-. cbn [fresh_names demo_appends].
  match goal with |- match ?x with _ => _ end => destruct x as [[f effs]|] eqn:E end; [|done].
  vm_compute in E. injection E as <- <-. split; [intros _; by apply (bool_decide_unpack _); vm_compute|].
  match goal with |- match ?x with _ => _ end => destruct x as [[f effs]|] eqn:E end; [|done].
  vm_compute in E. injection E as <- <-. split; [intros _; by apply (bool_decide_unpack _); vm_compute|done].
Qed.

Lemma demo_name : 47 ∉ str "app".
Proof. apply (bool_decide_unpack _). vm_compute. done. Qed.

Lemma log_text_in_files_witness :
  exists f' d', session 0 30 (str "/log") (str "app") 100 (str "/log/app.100.log") demo_appends demo_disk = Ok (f', d') /\
    take 1 (inodes d') = [[1; 2]] /\ text_since 1 d' = [7; 8; 9] /\
    forall i c, inodes d' !! i = Some c -> c <> [] -> exists n, names d' !! n = Some (Regular i).
Proof.
  apply (log_text_in_files 0 30 (str "/log") (str "app") 100 (str "/log/app.100.log") demo_appends demo_disk demo_sound);
    [lia|apply demo_name|apply demo_fresh].
Defined.

Lemma roll_links_witness :
  let d := Disk [] {[str "/log/app.log" := Link (str "/log/gone.log")]} None in
  let f := MkLogFile 0 (Some 0) 0 99 99 in
  names (replay (RollFile (str "/log") (str "app") (at_roll (str "/log/app.100.log") d) 100 (str "/log/app.100.log") f).2 d) !! str "/log/app.log"
    = Some (Link (str "/log/gone.log")).
Proof.
  intros d f. assert (I : sound (str "/log") (str "app") d).
  { split; [by intros [|i]| |by intros i; vm_compute]. intros n i Hn. cbn in Hn. by apply lookup_singleton_Some in Hn as [_ ?]. }
  assert (Hf : fresh (str "/log") (str "app") (str "/log/app.100.log") d) by (apply (bool_decide_unpack _); vm_compute; done).
  apply (roll_links (str "/log") (str "app") 100 (str "/log/app.100.log") f d I Hf ltac:(cbn; lia)); vm_compute; reflexivity.
Defined.

(** Two messages appended and written, a third appended after. *)
Definition demo_log_actions : list Logger.Logger.action :=
  [Logger.Logger.TestRunning; Logger.Logger.TakeLock; Logger.Logger.CallAppend [7]; Logger.Logger.CallAppend [8; 9];
   Logger.Logger.WakeUp; Logger.Logger.CallAppend [6]; Logger.Logger.Write (fun _ => [])].

Definition demo_written : list (Z * bytes * bytes) := [(101, str "/log/app.101.log", [7; 8; 9])].

Lemma demo_written_fresh : fresh_session 0 30 (str "/log") (str "app") 100 (str "/log/app.100.log") demo_written demo_disk.
Proof.
  split; [by apply (bool_decide_unpack _); vm_compute|].
  match goal with |- match ?x with _ => _ end => destruct x as [[f effs]|] eqn:E end; [|done].
  vm_compute in E. injection E as <- <-. cbn [fresh_names demo_written].
  match goal with |- match ?x with _ => _ end => destruct x as [[f effs]|] eqn:E end; [|done].
  vm_compute in E. injection E as <- <-. split; [intros _; by apply (bool_decide_unpack _); vm_compute|done].
Qed.

Lemma messages_reach_files_witness :
  exists l f' d', Logger.Logger.run 4 demo_log_actions Logger.Logger.init = Some (Ok l) /\
    session 0 30 (str "/log") (str "app") 100 (str "/log/app.100.log") demo_written demo_disk = Ok (f', d') /\
    Logger.Logger.appended l = text_since 1 d' ++
      concat (Logger.Logger.buffers_to_write l) ++ concat (Logger.Logger.buffers_ l) ++
      Logger.Logger.held (Logger.Logger.current_buffer_ l) /\
    forall i c, inodes d' !! i = Some c -> c <> [] -> exists n, names d' !! n = Some (Regular i).
Proof.
  destruct (Logger.Logger.run 4 demo_log_actions Logger.Logger.init) as [[l|e]|] eqn:E; [|vm_compute in E; discriminate E..].
  assert (E' := E). vm_compute in E'. injection E' as <-.
  destruct (messages_reach_files 0 30 (str "/log") (str "app") 4 demo_log_actions _ 100 (str "/log/app.100.log") demo_written demo_disk E
    eq_refl eq_refl demo_sound ltac:(lia) demo_name demo_written_fresh) as (f' & d' & Hs & Ha).
  eexists _, f', d'. split; [reflexivity|]. split; [exact Hs|exact Ha].
Defined.
